(** * OpenGL renderer core of the VLC video output: a shallow embedding

    The development follows two C translation units,
    [modules/video_output/opengl/fragment_shaders.c] (the YUV to RGB
    conversion matrix and the generator of fragment-shader text) and
    [modules/video_output/opengl/renderer.c] (transform matrices, meshes,
    viewpoint handling and the per-frame crop mapping).

    C [float] and [double] values are kept abstract behind the interface
    [CFloat]; it has an IEEE-754 instance (binary32 and binary64 from the
    Standard Library's [SpecFloat]) that evaluates, and an exact instance
    over the real numbers for what the shaders do with the matrices.  Where
    a statement about binary32 results needs a distance, the results are
    read as real numbers by [SF2R].  C arrays are lists updated by index;
    loops are folds over the range of their counter. *)

From Stdlib Require Import ZArith List String Ascii Bool Lia.
From Stdlib Require Import Floats.SpecFloat.
From Stdlib Require Import Reals Lra.
From Stdlib Require Import DecimalString.
From stdpp Require Import base list.

Import ListNotations.
Local Open Scope Z_scope.

(** ** Arithmetic of C's floating types *)

Class CFloat : Type := {
  float : Type;
  double : Type;
  (* conversions from integer types, and between the two floating types *)
  i2f : Z -> float;
  i2d : Z -> double;
  f2d : float -> double;
  d2f : double -> float;
  (* single precision *)
  addf : float -> float -> float;
  subf : float -> float -> float;
  mulf : float -> float -> float;
  divf : float -> float -> float;
  negf : float -> float;
  ltf : float -> float -> bool;
  lef : float -> float -> bool;
  (* double precision *)
  addd : double -> double -> double;
  subd : double -> double -> double;
  muld : double -> double -> double;
  divd : double -> double -> double;
  negd : double -> double;
  ltd : double -> double -> bool;
  led : double -> double -> bool;
  (* the libm constant M_PI (a double) *)
  M_PI : double;
}.

(** The libm functions the renderer calls. *)
Class LibM (C : CFloat) : Type := {
  tanf : float -> float;
  atanf : float -> float;
  sinf : float -> float;
  sqrtf : float -> float;
  fabsf : float -> float;
  sincosf : float -> float * float;   (* (sine, cosine) *)
}.

Declare Scope cfloat_scope.
Delimit Scope cfloat_scope with fl.
Infix "+." := addf (at level 50, left associativity) : cfloat_scope.
Infix "-." := subf (at level 50, left associativity) : cfloat_scope.
Infix "*." := mulf (at level 40, left associativity) : cfloat_scope.
Infix "/." := divf (at level 40, left associativity) : cfloat_scope.
Infix "+.." := addd (at level 50, left associativity) : cfloat_scope.
Infix "-.." := subd (at level 50, left associativity) : cfloat_scope.
Infix "*.." := muld (at level 40, left associativity) : cfloat_scope.
Infix "/.." := divd (at level 40, left associativity) : cfloat_scope.

(** *** The IEEE-754 instance *)

Module IEEE.

(** Conversion of an integer to the format [(prec, emax)], rounding to
    nearest even. *)
Definition of_Z (prec emax : Z) (z : Z) : spec_float :=
  binary_normalize prec emax z 0 false.

(** Conversion of a floating value to the format [(prec, emax)]. *)
Definition convert (prec emax : Z) (x : spec_float) : spec_float :=
  match x with
  | S754_finite s m e => binary_normalize prec emax (cond_Zopp s (Zpos m)) e s
  | _ => x
  end.

Definition binary32 : Type := spec_float.
Definition binary64 : Type := spec_float.

(** [M_PI] is 0x1.921fb54442d18p+1. *)
Definition M_PI_bits : spec_float :=
  S754_finite false 7074237752028440 (-51).

#[export] Instance ieee : CFloat := {|
  float := binary32;
  double := binary64;
  i2f := of_Z 24 128;
  i2d := of_Z 53 1024;
  f2d := convert 53 1024;
  d2f := convert 24 128;
  addf := SFadd 24 128;
  subf := SFsub 24 128;
  mulf := SFmul 24 128;
  divf := SFdiv 24 128;
  negf := SFopp;
  ltf := SFltb;
  lef := SFleb;
  addd := SFadd 53 1024;
  subd := SFsub 53 1024;
  muld := SFmul 53 1024;
  divd := SFdiv 53 1024;
  negd := SFopp;
  ltd := SFltb;
  led := SFleb;
  M_PI := M_PI_bits;
|}.

End IEEE.

(** *** The exact instance over the reals *)

Module Exact.

Definition Rltb (x y : R) : bool := if Rlt_dec x y then true else false.
Definition Rleb (x y : R) : bool := if Rle_dec x y then true else false.

#[export] Instance exact : CFloat := {|
  float := R;
  double := R;
  i2f := IZR;
  i2d := IZR;
  f2d := fun x => x;
  d2f := fun x => x;
  addf := Rplus;
  subf := Rminus;
  mulf := Rmult;
  divf := Rdiv;
  negf := Ropp;
  ltf := Rltb;
  lef := Rleb;
  addd := Rplus;
  subd := Rminus;
  muld := Rmult;
  divd := Rdiv;
  negd := Ropp;
  ltd := Rltb;
  led := Rleb;
  M_PI := PI;
|}.

End Exact.

(** ** C arrays and loops *)

(** [for (i = 0; i < n; ++i) body] over a state [St]. *)
Definition for_loop {St : Type} (n : nat) (body : nat -> St -> St) (s : St) : St :=
  fold_left (fun acc i => body i acc) (seq 0 n) s.

(** [a[i]] for an array of floats; reading out of range is undefined in C
    and yields the default here. *)
Definition aget {T : Type} (d : T) (a : list T) (i : nat) : T := nth i a d.

(** [memcpy(dst + off, src, n * sizeof *src)]. *)
Definition memcpy_at {T : Type} (dst : list T) (off : nat) (src : list T) (n : nat)
  : list T :=
  firstn off dst ++ firstn n src ++ skipn (off + n) dst.

(** ** fragment_shaders.c: the conversion matrix *)

Inductive video_color_space_t :=
  | COLOR_SPACE_UNDEF
  | COLOR_SPACE_BT601
  | COLOR_SPACE_BT709
  | COLOR_SPACE_BT2020.

Inductive video_color_range_t :=
  | COLOR_RANGE_UNDEF
  | COLOR_RANGE_FULL
  | COLOR_RANGE_LIMITED.

Definition color_range_eqb (a b : video_color_range_t) : bool :=
  match a, b with
  | COLOR_RANGE_UNDEF, COLOR_RANGE_UNDEF
  | COLOR_RANGE_FULL, COLOR_RANGE_FULL
  | COLOR_RANGE_LIMITED, COLOR_RANGE_LIMITED => true
  | _, _ => false
  end.

Section ConvMatrix.
Context {C : CFloat}.
Local Open Scope cfloat_scope.

(** A decimal literal [p/q] of type double, for instance [0.299] as
    [dlit 299 1000]: both integers are exact doubles, so the correctly
    rounded quotient is the double nearest to the literal. *)
Definition dlit (p q : Z) : double := i2d p /.. i2d q.

Definition MATRIX_COLOR_RANGE_LIMITED : list float :=
  [ d2f (i2d 255 /.. i2d 219); i2f 0; i2f 0;
      d2f (negd (i2d 255) /.. i2d 219 *.. i2d 16 /.. i2d 255);
    i2f 0; d2f (i2d 255 /.. i2d 224); i2f 0;
      d2f (negd (i2d 255) /.. i2d 224 *.. i2d 128 /.. i2d 255);
    i2f 0; i2f 0; d2f (i2d 255 /.. i2d 224);
      d2f (negd (i2d 255) /.. i2d 224 *.. i2d 128 /.. i2d 255) ].

Definition MATRIX_COLOR_RANGE_FULL : list float :=
  [ i2f 1; i2f 0; i2f 0; i2f 0;
    i2f 0; i2f 1; i2f 0; d2f (negd (i2d 128) /.. i2d 255);
    i2f 0; i2f 0; i2f 1; d2f (negd (i2d 128) /.. i2d 255) ].

(** [MATRIX_YUV_TO_RGB_(KR, KG, KB)]; every entry is a constant
    expression of type double (or int), converted to float by the
    initialiser. *)
Definition MATRIX_YUV_TO_RGB_ (KR KG KB : double) : list float :=
  [ i2f 1; i2f 0; d2f (i2d 2 *.. (i2d 1 -.. KR));
    i2f 1; d2f (i2d (-2) *.. (i2d 1 -.. KB) *.. (KB /.. KG));
           d2f (i2d (-2) *.. (i2d 1 -.. KR) *.. (KR /.. KG));
    i2f 1; d2f (i2d 2 *.. (i2d 1 -.. KB)); i2f 0 ].

(** [MATRIX_YUV_TO_RGB(KR, KB)]: the green weight is [1-(KR)-(KB)]. *)
Definition MATRIX_YUV_TO_RGB (KR KB : double) : list float :=
  MATRIX_YUV_TO_RGB_ KR (i2d 1 -.. KR -.. KB) KB.

Definition MATRIX_BT601 : list float :=
  MATRIX_YUV_TO_RGB (dlit 299 1000) (dlit 114 1000).
Definition MATRIX_BT709 : list float :=
  MATRIX_YUV_TO_RGB (dlit 2126 10000) (dlit 722 10000).
Definition MATRIX_BT2020 : list float :=
  MATRIX_YUV_TO_RGB (dlit 2627 10000) (dlit 593 10000).

(** The innermost loop of [init_conv_matrix]: the product of two floats
    is a float; it is widened and accumulated in the double [sum]. *)
Definition conv_entry (space_matrix range_matrix : list float) (x y : nat)
  : double :=
  for_loop 3
    (fun k sum =>
       sum +.. f2d (aget (i2f 0) space_matrix (y * 3 + k)
                   *. aget (i2f 0) range_matrix (k * 4 + x)))
    (i2d 0).

Definition init_conv_matrix (conv_matrix_out : list float)
    (color_space : video_color_space_t) (color_range : video_color_range_t)
  : list float :=
  let space_matrix :=
    match color_space with
    | COLOR_SPACE_BT601 => MATRIX_BT601
    | COLOR_SPACE_BT2020 => MATRIX_BT2020
    | _ => MATRIX_BT709
    end in
  let range_matrix :=
    if color_range_eqb color_range COLOR_RANGE_FULL
    then MATRIX_COLOR_RANGE_FULL
    else MATRIX_COLOR_RANGE_LIMITED in
  let m :=
    for_loop 4 (fun x m =>
      for_loop 3 (fun y m =>
        <[ (x * 4 + y)%nat := d2f (conv_entry space_matrix range_matrix x y) ]> m)
        m)
      conv_matrix_out in
  let m := <[ 3%nat := i2f 0 ]> m in
  let m := <[ 7%nat := i2f 0 ]> m in
  let m := <[ 11%nat := i2f 0 ]> m in
  <[ 15%nat := i2f 1 ]> m.

End ConvMatrix.

(** ** Types shared by the two translation units

    The headers that declare them ([vlc_fourcc.h], [vlc_es.h],
    [vlc_viewpoint.h], [interop.h], [renderer.h]) are not part of the
    sources under verification; each record lists the fields the code reads
    or writes, with the types the code uses them at. *)

Definition vlc_fourcc_t : Type := Z.

(** [VLC_FOURCC(a, b, c, d)]: four characters packed in a 32-bit code. *)
Definition VLC_FOURCC (a b c d : ascii) : vlc_fourcc_t :=
  Z.lor (Z.of_nat (nat_of_ascii a))
    (Z.lor (Z.shiftl (Z.of_nat (nat_of_ascii b)) 8)
       (Z.lor (Z.shiftl (Z.of_nat (nat_of_ascii c)) 16)
              (Z.shiftl (Z.of_nat (nat_of_ascii d)) 24))).

Definition VLC_CODEC_YV9   : vlc_fourcc_t := VLC_FOURCC "Y" "V" "U" "9".
Definition VLC_CODEC_YV12  : vlc_fourcc_t := VLC_FOURCC "Y" "V" "1" "2".
Definition VLC_CODEC_NV21  : vlc_fourcc_t := VLC_FOURCC "N" "V" "2" "1".
Definition VLC_CODEC_P010  : vlc_fourcc_t := VLC_FOURCC "P" "0" "1" "0".
Definition VLC_CODEC_P016  : vlc_fourcc_t := VLC_FOURCC "P" "0" "1" "6".
Definition VLC_CODEC_UYVY  : vlc_fourcc_t := VLC_FOURCC "U" "Y" "V" "Y".
Definition VLC_CODEC_VYUY  : vlc_fourcc_t := VLC_FOURCC "V" "Y" "U" "Y".
Definition VLC_CODEC_YUYV  : vlc_fourcc_t := VLC_FOURCC "Y" "U" "Y" "2".
Definition VLC_CODEC_YVYU  : vlc_fourcc_t := VLC_FOURCC "Y" "V" "Y" "U".
Definition VLC_CODEC_XYZ12 : vlc_fourcc_t := VLC_FOURCC "X" "Y" "1" "2".

Record vlc_chroma_description_t := {
  plane_count : nat;
  pixel_size : Z;
  pixel_bits : Z;
}.

Definition VLC_SUCCESS  : Z := 0.
Definition VLC_EGENERIC : Z := -1.
Definition VLC_ENOMEM   : Z := -2.
Definition VLC_EBADVAR  : Z := -7.

Definition PICTURE_PLANE_MAX : nat := 5.

Inductive GLenum :=
  | GL_TEXTURE_2D
  | GL_TEXTURE_RECTANGLE
  | GL_TEXTURE_EXTERNAL_OES
  | GL_OTHER (code : Z).

Inductive video_projection_mode_t :=
  | PROJECTION_MODE_RECTANGULAR
  | PROJECTION_MODE_EQUIRECTANGULAR
  | PROJECTION_MODE_CUBEMAP_LAYOUT_STANDARD
  | PROJECTION_MODE_OTHER (code : Z).

(** A rational scale factor of a texture plane ([vlc_rational_t]). *)
Record vlc_rational_t := { num : Z; den : Z }.

Record vlc_gl_tex_cfg := { tex_w : vlc_rational_t; tex_h : vlc_rational_t }.

(** The part of [video_format_t] the renderer looks at. *)
Record video_format_t := {
  i_chroma : vlc_fourcc_t;
  i_width : Z;
  i_height : Z;
  i_x_offset : Z;
  i_y_offset : Z;
  i_visible_width : Z;
  i_visible_height : Z;
  space : video_color_space_t;
  color_range : video_color_range_t;
  projection_mode : video_projection_mode_t;
  i_cubemap_padding : Z;
}.

Record picture_t := { format : video_format_t }.

Record vlc_gl_interop := {
  tex_count : nat;
  tex_target : GLenum;
  texs : list vlc_gl_tex_cfg;
  api_extensions : string;
  sw_fmt : video_format_t;
}.

(** The two families of per-shader callbacks ([pf_fetch_locations] and
    [pf_prepare_shader] are always installed together). *)
Inductive shader_callbacks := callbacks_base | callbacks_xyz12.

(** What a C function does when it is called: it returns, or the process
    is stopped by a failed [assert] or by [vlc_assert_unreachable]. *)
Inductive outcome (A : Type) :=
  | Returns (a : A)
  | Aborts.
Arguments Returns {A} a.
Arguments Aborts {A}.

Definition bind {A B : Type} (o : outcome A) (k : A -> outcome B) : outcome B :=
  match o with
  | Returns a => k a
  | Aborts => Aborts
  end.

Notation "'let*' x := o 'in' k" := (bind o (fun x => k))
  (at level 10, x pattern, o at level 100, k at level 200).

Section Renderer.
Context {C : CFloat}.
Local Open Scope cfloat_scope.

Record vlc_viewpoint_t := {
  yaw : float;
  pitch : float;
  roll : float;
  fov : float;
}.

(** [struct vlc_gl_renderer]. *)
Record vlc_gl_renderer := {
  interop : vlc_gl_interop;
  conv_matrix : list float;               (* float[16] *)
  yuv_color : bool;
  pf_callbacks : option shader_callbacks;
  fmt : video_format_t;
  last_source : video_format_t;
  tex_width : list Z;
  tex_height : list Z;
  textures : list Z;
  var_ProjectionMatrix : list float;      (* GLfloat[16] *)
  var_ZoomMatrix : list float;            (* GLfloat[16] *)
  var_ViewMatrix : list float;            (* GLfloat[16] *)
  var_TexCoordsMap : list (list float);   (* GLfloat[PICTURE_PLANE_MAX][3*3] *)
  vp : vlc_viewpoint_t;
  f_fovx : float;
  f_fovy : float;
  f_z : float;
  f_sar : float;
}.

Definition set_conv (r : vlc_gl_renderer) (m : list float) (yuv : bool) :=
  {| interop := interop r; conv_matrix := m; yuv_color := yuv;
     pf_callbacks := pf_callbacks r; fmt := fmt r;
     last_source := last_source r; tex_width := tex_width r;
     tex_height := tex_height r; textures := textures r;
     var_ProjectionMatrix := var_ProjectionMatrix r;
     var_ZoomMatrix := var_ZoomMatrix r; var_ViewMatrix := var_ViewMatrix r;
     var_TexCoordsMap := var_TexCoordsMap r; vp := vp r;
     f_fovx := f_fovx r; f_fovy := f_fovy r; f_z := f_z r; f_sar := f_sar r |}.

Definition set_callbacks (r : vlc_gl_renderer) (cb : shader_callbacks) :=
  {| interop := interop r; conv_matrix := conv_matrix r;
     yuv_color := yuv_color r;
     pf_callbacks := Some cb; fmt := fmt r;
     last_source := last_source r; tex_width := tex_width r;
     tex_height := tex_height r; textures := textures r;
     var_ProjectionMatrix := var_ProjectionMatrix r;
     var_ZoomMatrix := var_ZoomMatrix r; var_ViewMatrix := var_ViewMatrix r;
     var_TexCoordsMap := var_TexCoordsMap r; vp := vp r;
     f_fovx := f_fovx r; f_fovy := f_fovy r; f_z := f_z r; f_sar := f_sar r |}.

Definition set_view_matrices (r : vlc_gl_renderer) (p z v : list float) :=
  {| interop := interop r; conv_matrix := conv_matrix r;
     yuv_color := yuv_color r;
     pf_callbacks := pf_callbacks r; fmt := fmt r;
     last_source := last_source r; tex_width := tex_width r;
     tex_height := tex_height r; textures := textures r;
     var_ProjectionMatrix := p;
     var_ZoomMatrix := z; var_ViewMatrix := v;
     var_TexCoordsMap := var_TexCoordsMap r; vp := vp r;
     f_fovx := f_fovx r; f_fovy := f_fovy r; f_z := f_z r; f_sar := f_sar r |}.

Definition set_crop (r : vlc_gl_renderer) (maps : list (list float))
    (src : video_format_t) :=
  {| interop := interop r; conv_matrix := conv_matrix r;
     yuv_color := yuv_color r;
     pf_callbacks := pf_callbacks r; fmt := fmt r;
     last_source := src; tex_width := tex_width r;
     tex_height := tex_height r; textures := textures r;
     var_ProjectionMatrix := var_ProjectionMatrix r;
     var_ZoomMatrix := var_ZoomMatrix r; var_ViewMatrix := var_ViewMatrix r;
     var_TexCoordsMap := maps; vp := vp r;
     f_fovx := f_fovx r; f_fovy := f_fovy r; f_z := f_z r; f_sar := f_sar r |}.

Definition set_camera (r : vlc_gl_renderer) (v : vlc_viewpoint_t)
    (fovx fovy z sar : float) :=
  {| interop := interop r; conv_matrix := conv_matrix r;
     yuv_color := yuv_color r;
     pf_callbacks := pf_callbacks r; fmt := fmt r;
     last_source := last_source r; tex_width := tex_width r;
     tex_height := tex_height r; textures := textures r;
     var_ProjectionMatrix := var_ProjectionMatrix r;
     var_ZoomMatrix := var_ZoomMatrix r; var_ViewMatrix := var_ViewMatrix r;
     var_TexCoordsMap := var_TexCoordsMap r; vp := v;
     f_fovx := fovx; f_fovy := fovy; f_z := z; f_sar := sar |}.

End Renderer.

Arguments vlc_viewpoint_t C : clear implicits.
Arguments vlc_gl_renderer C : clear implicits.

(** Functions of the VLC core and of the platform that the two units call
    and that are defined elsewhere, and the constants of [vlc_viewpoint.h]. *)
Class VlcCore (C : CFloat) : Type := {
  vlc_fourcc_IsYUV : vlc_fourcc_t -> bool;
  vlc_fourcc_GetChromaDescription :
    vlc_fourcc_t -> option vlc_chroma_description_t;
  vlc_gl_StrHasToken : string -> string -> bool;
  vlc_viewpoint_reverse : vlc_viewpoint_t C -> vlc_viewpoint_t C;
  vlc_viewpoint_to_4x4 : vlc_viewpoint_t C -> list float;
  FIELD_OF_VIEW_DEGREES_MAX : float;
  FIELD_OF_VIEW_DEGREES_MIN : float;
  (* interop->ops->update_textures *)
  update_textures :
    vlc_gl_interop -> list Z -> list Z -> list Z -> picture_t -> Z;
  (* whether vlc_memstream_open and vlc_memstream_close report success *)
  memstream_open_ok : bool;
  memstream_close_ok : bool;
  (* whether vlc_alloc(count, size) returns a block, and what a fresh
     block holds before it is written *)
  vlc_alloc_ok : nat -> bool;
  heap_float : float;
  heap_ushort : Z;
  (* built with NDEBUG: assert() expands to nothing *)
  NDEBUG : bool;
  (* fixed by the build in vlc_gl_renderer_New: version 100 and a precision
     line for OpenGL ES 2, version 120 and no line otherwise *)
  glsl_version : nat;
  glsl_precision_header : string;
  (* whether asprintf could allocate its result *)
  asprintf_ok : bool;
  (* whether strdup could allocate its result *)
  strdup_ok : bool;
  (* whether the asprintf of BuildVertexShader could allocate its result *)
  vertex_asprintf_ok : bool;
}.

(** ** fragment_shaders.c: the per-format set-up and the shader text *)

Definition nl : string := String (ascii_of_nat 10) EmptyString.

(** [%u] of printf. *)
Definition fmt_u (n : nat) : string := NilEmpty.string_of_uint (Nat.to_uint n).

(** [%c] of printf. *)
Definition fmt_c (c : ascii) : string := String c EmptyString.

Definition chars (s : string) : list ascii := list_ascii_of_string s.

Section FragmentShaders.
Context {C : CFloat} {V : VlcCore C}.
Local Open Scope cfloat_scope.
Local Open Scope string_scope.

(** [assert(cond)]. *)
Definition assert (cond : bool) : outcome unit :=
  if NDEBUG || cond then Returns tt else Aborts.

(** [(float)((1 << 16) - 1) / ((1 << desc->pixel_bits) - 1)]; the shift
    is defined in C for [pixel_bits] up to 30. *)
Definition yuv_range_correction (bits : Z) : float :=
  i2f (Z.shiftl 1 16 - 1) /. i2f (Z.shiftl 1 bits - 1).

(** [for (int i = 0; i < 4*3; ++i) matrix[i] *= yuv_range_correction;] *)
Definition scale_yuv_range (matrix : list float) (correction : float)
  : list float :=
  for_loop (4 * 3)
    (fun i m => <[ i := aget (i2f 0) m i *. correction ]> m) matrix.

(** The three [memcpy] calls that exchange columns 1 and 2. *)
Definition swap_uv_columns (matrix : list float) : list float :=
  let tmp := firstn 4 (skipn 4 matrix) in
  let matrix := memcpy_at matrix 4 (skipn 8 matrix) 4 in
  memcpy_at matrix 8 tmp 4.

Definition swap_uv (chroma : vlc_fourcc_t) : bool :=
  (chroma =? VLC_CODEC_YV12)%Z || (chroma =? VLC_CODEC_YV9)%Z
  || (chroma =? VLC_CODEC_NV21)%Z.

Definition renderer_yuv_base_init (renderer : vlc_gl_renderer C)
    (chroma : vlc_fourcc_t) (desc : vlc_chroma_description_t)
    (yuv_space : video_color_space_t) : vlc_gl_renderer C * Z :=
  (* The current implementation always converts from limited to full range. *)
  let range := COLOR_RANGE_LIMITED in
  let matrix := init_conv_matrix (conv_matrix renderer) yuv_space range in
  let matrix :=
    if (pixel_size desc =? 2)%Z then
      if negb (chroma =? VLC_CODEC_P010)%Z && negb (chroma =? VLC_CODEC_P016)%Z
      then scale_yuv_range matrix (yuv_range_correction (pixel_bits desc))
      else matrix
    else matrix in
  let matrix := if swap_uv chroma then swap_uv_columns matrix else matrix in
  (set_conv renderer matrix true, VLC_SUCCESS).

Definition xyz12_template : string :=
  "uniform sampler2D Texture0;"
  ++ "uniform vec4 xyz_gamma = vec4(2.6);"
  ++ "uniform vec4 rgb_gamma = vec4(1.0/2.2);"
  ++ "uniform mat4 matrix_xyz_rgb = mat4("
  ++ "    3.240454 , -0.9692660, 0.0556434, 0.0,"
  ++ "   -1.5371385,  1.8760108, -0.2040259, 0.0,"
  ++ "    -0.4985314, 0.0415560, 1.0572252,  0.0,"
  ++ "    0.0,      0.0,         0.0,        1.0 "
  ++ " );"
  ++ "uniform mat4 TransformMatrix;" ++ nl
  ++ "uniform mat4 OrientationMatrix;" ++ nl
  ++ "uniform mat3 TexCoordsMap0;" ++ nl
  ++ "vec4 vlc_texture(vec2 pic_coords)" ++ nl
  ++ "{ "
  ++ " vec4 v_in, v_out;"
  ++ " vec3 pic_hcoords = vec3((TransformMatrix * OrientationMatrix * vec4(pic_coords, 0.0, 1.0)).st, 1.0);" ++ nl
  ++ " vec2 tex_coords = (TexCoordsMap0 * pic_hcoords).st;" ++ nl
  ++ " v_in  = texture2D(Texture0, tex_coords);" ++ nl
  ++ " v_in = pow(v_in, xyz_gamma);"
  ++ " v_out = matrix_xyz_rgb * v_in ;"
  ++ " v_out = pow(v_out, rgb_gamma) ;"
  ++ " v_out = clamp(v_out, 0.0, 1.0) ;"
  ++ " return v_out;"
  ++ "}" ++ nl.

(** The callbacks are installed before [strdup] is called, so they stay
    installed when it returns [NULL]. *)
Definition xyz12_shader_init (renderer : vlc_gl_renderer C)
  : vlc_gl_renderer C * option string :=
  let renderer := set_callbacks renderer callbacks_xyz12 in
  (renderer, if strdup_ok then Some xyz12_template else None).

Inductive oneplane_texfmt_t := GL_RED | GL_LUMINANCE.

(** [swizzle_per_tex] is an array of [PICTURE_PLANE_MAX] strings, [None]
    for [NULL]. *)
Definition opengl_init_swizzle (interop : vlc_gl_interop)
    (swizzle_per_tex : list (option string)) (chroma : vlc_fourcc_t)
    (desc : vlc_chroma_description_t)
  : outcome (list (option string) * Z) :=
  let oneplane_texfmt :=
    if vlc_gl_StrHasToken (api_extensions interop) "GL_ARB_texture_rg"
    then GL_RED else GL_LUMINANCE in
  if (plane_count desc =? 3)%nat then
    Returns (<[ 0%nat := Some "r" ]>
               (<[ 1%nat := Some "r" ]>
                  (<[ 2%nat := Some "r" ]> swizzle_per_tex)),
             VLC_SUCCESS)
  else if (plane_count desc =? 2)%nat then
    match oneplane_texfmt with
    | GL_RED =>
        Returns (<[ 1%nat := Some "rg" ]> (<[ 0%nat := Some "r" ]> swizzle_per_tex),
                 VLC_SUCCESS)
    | GL_LUMINANCE =>
        Returns (<[ 1%nat := Some "xa" ]> (<[ 0%nat := Some "x" ]> swizzle_per_tex),
                 VLC_SUCCESS)
    end
  else if (plane_count desc =? 1)%nat then
    if (chroma =? VLC_CODEC_UYVY)%Z then
      Returns (<[ 0%nat := Some "grb" ]> swizzle_per_tex, VLC_SUCCESS)
    else if (chroma =? VLC_CODEC_YUYV)%Z then
      Returns (<[ 0%nat := Some "rga" ]> swizzle_per_tex, VLC_SUCCESS)
    else if (chroma =? VLC_CODEC_VYUY)%Z then
      Returns (<[ 0%nat := Some "gbr" ]> swizzle_per_tex, VLC_SUCCESS)
    else if (chroma =? VLC_CODEC_YVYU)%Z then
      Returns (<[ 0%nat := Some "rag" ]> swizzle_per_tex, VLC_SUCCESS)
    else
      (* assert(!"missing chroma"); return VLC_EGENERIC; *)
      let* _ := assert false in
      Returns (swizzle_per_tex, VLC_EGENERIC)
  else Returns (swizzle_per_tex, VLC_SUCCESS).

(** The body of the loop over the characters of one swizzle string; the
    state is the stream and [color_idx]. *)
Definition add_swizzle (swizzle : list ascii) (st : string * nat)
  : outcome (string * nat) :=
  fold_left
    (fun acc c =>
       let* (ms, color_idx) := acc in
       let ms := ms ++ " pixel[" ++ fmt_u color_idx ++ "] = texel."
                    ++ fmt_c c ++ ";" ++ nl in
       let color_idx := S color_idx in
       let* _ := assert (color_idx <=? PICTURE_PLANE_MAX)%nat in
       Returns (ms, color_idx))
    swizzle (Returns st).

(** The loop over the texture units of a YUV format. *)
Definition add_yuv_fetches (tex_count : nat) (tex_target : GLenum)
    (lookup : string) (swizzle_per_tex : list (option string))
    (st : string * nat) : outcome (string * nat) :=
  for_loop tex_count
    (fun i acc =>
       let* (ms, color_idx) := acc in
       match aget None swizzle_per_tex i with
       | None => Aborts   (* assert(swizzle); strlen(NULL) without it *)
       | Some swizzle =>
           let ms := ms ++ " tex_coords = (TexCoordsMap" ++ fmt_u i
                        ++ " * pic_hcoords).st;" ++ nl in
           let ms :=
             match tex_target with
             | GL_TEXTURE_RECTANGLE =>
                 ms ++ " tex_coords = vec2(tex_coords.x * TexSize" ++ fmt_u i
                    ++ ".x," ++ nl
                    ++ "                   tex_coords.y * TexSize" ++ fmt_u i
                    ++ ".y);" ++ nl
             | _ => ms
             end in
           let ms := ms ++ " texel = " ++ lookup ++ "(Texture" ++ fmt_u i
                        ++ ", tex_coords);" ++ nl in
           add_swizzle (chars swizzle) (ms, color_idx)
       end)
    (Returns st).

Definition space_is_undef (s : video_color_space_t) : bool :=
  match s with COLOR_SPACE_UNDEF => true | _ => false end.

(** The text written to the memory stream once the set-up succeeded. *)
Definition shader_text (interop : vlc_gl_interop) (tex_target : GLenum)
    (sampler lookup : string) (is_yuv : bool)
    (swizzle_per_tex : list (option string))
    (yuv_space : video_color_space_t) : outcome string :=
  let ms := "uniform mat4 TransformMatrix;" ++ nl
            ++ "uniform mat4 OrientationMatrix;" ++ nl in
  let ms :=
    for_loop (tex_count interop)
      (fun i ms => ms ++ "uniform " ++ sampler ++ " Texture" ++ fmt_u i ++ ";" ++ nl
                      ++ "uniform mat3 TexCoordsMap" ++ fmt_u i ++ ";" ++ nl)
      ms in
  let ms :=
    match tex_target with
    | GL_TEXTURE_RECTANGLE =>
        for_loop (tex_count interop)
          (fun i ms => ms ++ "uniform vec2 TexSize" ++ fmt_u i ++ ";" ++ nl) ms
    | _ => ms
    end in
  let ms := if is_yuv then ms ++ "uniform mat4 ConvMatrix;" ++ nl else ms in
  let ms := ms ++ "uniform vec4 FillColor;" ++ nl
               ++ "vec4 vlc_texture(vec2 pic_coords) {" ++ nl
               ++ " vec3 pic_hcoords = vec3((TransformMatrix * OrientationMatrix * vec4(pic_coords, 0.0, 1.0)).st, 1.0);" ++ nl
               ++ " vec2 tex_coords;" ++ nl in
  let* (ms, color_count) :=
    if is_yuv then
      let ms := ms ++ " vec4 texel;" ++ nl
                   ++ " vec4 pixel = vec4(0.0, 0.0, 0.0, 1.0);" ++ nl in
      let* (ms, color_idx) :=
        add_yuv_fetches (tex_count interop) tex_target lookup
          swizzle_per_tex (ms, 0%nat) in
      Returns (ms ++ " vec4 result = ConvMatrix * pixel;" ++ nl, color_idx)
    else
      Returns (ms ++ " tex_coords = (TexCoordsMap0 * pic_hcoords).st;" ++ nl
                  ++ " vec4 result = " ++ lookup ++ "(Texture0, tex_coords);" ++ nl,
               1%nat) in
  let* _ := assert (space_is_undef yuv_space || (color_count =? 3)%nat) in
  Returns (ms ++ " return result * FillColor;" ++ nl ++ "}" ++ nl).

(** [opengl_fragment_shader_init], built without libplacebo.  The result
    is the renderer as the call leaves it and the returned string, [None]
    for [NULL]. *)
Definition opengl_fragment_shader_init (renderer : vlc_gl_renderer C)
    (tex_target : GLenum) (chroma : vlc_fourcc_t)
    (yuv_space : video_color_space_t)
  : outcome (vlc_gl_renderer C * option string) :=
  let swizzle_per_tex : list (option string) := repeat None PICTURE_PLANE_MAX in
  let is_yuv := vlc_fourcc_IsYUV chroma in
  match vlc_fourcc_GetChromaDescription chroma with
  | None => Returns (renderer, None)
  | Some desc =>
    if (chroma =? VLC_CODEC_XYZ12)%Z then Returns (xyz12_shader_init renderer)
    else
      let* (renderer, swizzle_per_tex, failed) :=
        if is_yuv then
          let '(renderer, ret) :=
            renderer_yuv_base_init renderer chroma desc yuv_space in
          if negb (ret =? VLC_SUCCESS)%Z then
            Returns (renderer, swizzle_per_tex, true)
          else
            let* (swizzle_per_tex, ret) :=
              opengl_init_swizzle (interop renderer) swizzle_per_tex
                chroma desc in
            Returns (renderer, swizzle_per_tex, negb (ret =? VLC_SUCCESS)%Z)
        else Returns (renderer, swizzle_per_tex, false) in
      if (failed : bool) then Returns (renderer, None)
      else
        let* (sampler, lookup) :=
          match tex_target with
          | GL_TEXTURE_EXTERNAL_OES => Returns ("samplerExternalOES", "texture2D")
          | GL_TEXTURE_2D => Returns ("sampler2D", "texture2D")
          | GL_TEXTURE_RECTANGLE => Returns ("sampler2DRect", "texture2DRect")
          | GL_OTHER _ => Aborts   (* vlc_assert_unreachable() *)
          end in
        if negb memstream_open_ok then Returns (renderer, None)
        else
          let* text :=
            shader_text (interop renderer) tex_target sampler lookup is_yuv
              swizzle_per_tex yuv_space in
          if negb memstream_close_ok then Returns (renderer, None)
          else Returns (set_callbacks renderer callbacks_base, Some text)
  end.

End FragmentShaders.

(** ** renderer.c: transform matrices and the viewpoint *)

Section Viewpoint.
Context {C : CFloat} {L : LibM C} {V : VlcCore C}.
Local Open Scope cfloat_scope.

(** A decimal literal with the [f] suffix, [0.001f] as [flit 1 1000]. *)
Definition flit (p q : Z) : float := i2f p /. i2f q.

Definition SPHERE_RADIUS : float := i2f 1.

Definition identity : list float :=
  [ i2f 1; i2f 0; i2f 0; i2f 0;
    i2f 0; i2f 1; i2f 0; i2f 0;
    i2f 0; i2f 0; i2f 1; i2f 0;
    i2f 0; i2f 0; i2f 0; i2f 1 ].

Definition getZoomMatrix (zoom : float) (matrix : list float) : list float :=
  let m := [ i2f 1; i2f 0; i2f 0; i2f 0;
             i2f 0; i2f 1; i2f 0; i2f 0;
             i2f 0; i2f 0; i2f 1; i2f 0;
             i2f 0; i2f 0; zoom;  i2f 1 ] in
  memcpy_at matrix 0 m 16.

Definition getProjectionMatrix (sar fovy : float) (matrix : list float)
  : list float :=
  let zFar := i2f 1000 in
  let zNear := d2f (dlit 1 100) in
  let f := i2f 1 /. tanf (fovy /. i2f 2) in
  let m := [ f /. sar; i2f 0; i2f 0; i2f 0;
             i2f 0; f; i2f 0; i2f 0;
             i2f 0; i2f 0; (zNear +. zFar) /. (zNear -. zFar); negf (i2f 1);
             i2f 0; i2f 0; (i2f 2 *. zNear *. zFar) /. (zNear -. zFar); i2f 0 ] in
  memcpy_at matrix 0 m 16.

Definition getViewpointMatrixes (renderer : vlc_gl_renderer C)
    (projection_mode : video_projection_mode_t) : vlc_gl_renderer C :=
  match projection_mode with
  | PROJECTION_MODE_EQUIRECTANGULAR
  | PROJECTION_MODE_CUBEMAP_LAYOUT_STANDARD =>
      set_view_matrices renderer
        (getProjectionMatrix (f_sar renderer) (f_fovy renderer)
           (var_ProjectionMatrix renderer))
        (getZoomMatrix (f_z renderer) (var_ZoomMatrix renderer))
        (* renderer->vp has been reversed and is a world transform *)
        (memcpy_at (var_ViewMatrix renderer) 0
           (vlc_viewpoint_to_4x4 (vp renderer)) 16)
  | _ =>
      set_view_matrices renderer
        (memcpy_at (var_ProjectionMatrix renderer) 0 identity 16)
        (memcpy_at (var_ZoomMatrix renderer) 0 identity 16)
        (memcpy_at (var_ViewMatrix renderer) 0 identity 16)
  end.

(** [UpdateZ]: the products with [M_PI] are computed in double. *)
Definition UpdateZ (renderer : vlc_gl_renderer C) : vlc_gl_renderer C :=
  let tan_fovx_2 := tanf (f_fovx renderer /. i2f 2) in
  let tan_fovy_2 := tanf (f_fovy renderer /. i2f 2) in
  let z_min :=
    negf SPHERE_RADIUS
    /. sinf (atanf (sqrtf (tan_fovx_2 *. tan_fovx_2
                           +. tan_fovy_2 *. tan_fovy_2))) in
  (* The FOV value above which z is dynamically calculated. *)
  let z_thresh := i2f 90 in
  let z :=
    if led (f2d (f_fovx renderer)) (f2d z_thresh *.. M_PI /.. i2d 180)
    then i2f 0
    else
      let f := d2f (f2d z_min
                    /.. (f2d (FIELD_OF_VIEW_DEGREES_MAX -. z_thresh)
                         *.. M_PI /.. i2d 180)) in
      let z := d2f (f2d (f *. f_fovx renderer)
                    -.. f2d (f *. z_thresh) *.. M_PI /.. i2d 180) in
      if ltf z z_min then z_min else z in
  set_camera renderer (vp renderer) (f_fovx renderer) (f_fovy renderer) z
    (f_sar renderer).

Definition UpdateFOVy (renderer : vlc_gl_renderer C) : vlc_gl_renderer C :=
  set_camera renderer (vp renderer) (f_fovx renderer)
    (i2f 2 *. atanf (tanf (f_fovx renderer /. i2f 2) /. f_sar renderer))
    (f_z renderer) (f_sar renderer).

Definition vlc_gl_renderer_SetViewpoint (renderer : vlc_gl_renderer C)
    (p_vp : vlc_viewpoint_t C) : vlc_gl_renderer C * Z :=
  if ltf FIELD_OF_VIEW_DEGREES_MAX (fov p_vp)
     || ltf (fov p_vp) FIELD_OF_VIEW_DEGREES_MIN
  then (renderer, VLC_EBADVAR)
  else
    (* Convert degree into radian *)
    let fovx := fov p_vp *. d2f M_PI /. i2f 180 in
    (* vgl->vp needs to be converted into world transform *)
    let renderer :=
      set_camera renderer (vlc_viewpoint_reverse p_vp) (f_fovx renderer)
        (f_fovy renderer) (f_z renderer) (f_sar renderer) in
    let renderer :=
      if lef (flit 1 1000) (fabsf (fovx -. f_fovx renderer)) then
        (* FOVx has changed. *)
        let renderer :=
          set_camera renderer (vp renderer) fovx (f_fovy renderer)
            (f_z renderer) (f_sar renderer) in
        UpdateZ (UpdateFOVy renderer)
      else renderer in
    (getViewpointMatrixes renderer (projection_mode (fmt renderer)),
     VLC_SUCCESS).

Definition vlc_gl_renderer_SetWindowAspectRatio
    (renderer : vlc_gl_renderer C) (sar : float) : vlc_gl_renderer C :=
  let renderer :=
    set_camera renderer (vp renderer) (f_fovx renderer) (f_fovy renderer)
      (f_z renderer) sar in
  let renderer := UpdateZ (UpdateFOVy renderer) in
  getViewpointMatrixes renderer (projection_mode (fmt renderer)).

(** [BuildFragmentShader]: the generator is called on the chroma and the
    colour space of the software format of the interop. *)
Definition BuildFragmentShader (renderer : vlc_gl_renderer C)
  : outcome (vlc_gl_renderer C * option string) :=
  let interop := interop renderer in
  let* (renderer, vlc_texture) :=
    opengl_fragment_shader_init renderer (tex_target interop)
      (i_chroma (sw_fmt interop)) (space (sw_fmt interop)) in
  match vlc_texture with
  | None => Returns (renderer, None)
  | Some vlc_texture =>
      let extensions :=
        match tex_target interop with
        | GL_TEXTURE_EXTERNAL_OES =>
            ("#extension GL_OES_EGL_image_external : require" ++ nl)%string
        | _ => EmptyString
        end in
      if negb asprintf_ok then Returns (renderer, None)
      else
        Returns (renderer,
                 Some ("#version " ++ fmt_u glsl_version ++ nl
                       ++ extensions
                       ++ glsl_precision_header
                       ++ vlc_texture
                       ++ "varying vec2 PicCoords;" ++ nl
                       ++ "void main() {" ++ nl
                       ++ " gl_FragColor = vlc_texture(PicCoords);" ++ nl
                       ++ "}" ++ nl)%string)
  end.

End Viewpoint.

(** ** renderer.c: meshes *)

Section Geometry.
Context {C : CFloat} {L : LibM C} {V : VlcCore C}.
Local Open Scope cfloat_scope.
Local Open Scope nat_scope.

(** What a mesh builder hands back through its pointer arguments.  An
    array that was not allocated, or was freed again, is empty. *)
Record mesh := {
  vertexCoord : list float;
  textureCoord : list float;
  nbVertices : nat;
  indices : list Z;        (* GLushort *)
  nbIndices : nat;
}.

(** Conversion of an [unsigned] to [GLushort]. *)
Definition to_ushort (n : nat) : Z := (Z.of_nat n mod 65536)%Z.

(** The three allocations that open every builder. *)
Definition alloc_mesh (nbVertices nbIndices : nat)
  : option (list float * list float * list Z) :=
  if negb (vlc_alloc_ok (nbVertices * 3)) then None
  else if negb (vlc_alloc_ok (nbVertices * 2)) then None
  else if negb (vlc_alloc_ok nbIndices) then None
  else Some (repeat heap_float (nbVertices * 3),
             repeat heap_float (nbVertices * 2),
             repeat heap_ushort nbIndices).

Definition failed_mesh (nbVertices nbIndices : nat) : mesh :=
  {| vertexCoord := []; textureCoord := [];
     nbVertices := nbVertices; indices := []; nbIndices := nbIndices |}.

(** The first pair of loops of [BuildSphere]: positions and texture
    coordinates. *)
Definition sphere_vertices (nbLatBands nbLonBands : nat)
    (arrays : list float * list float) : list float * list float :=
  for_loop (nbLatBands + 1)
    (fun lat arrays =>
       let theta := i2f (Z.of_nat lat) *. d2f M_PI /. i2f (Z.of_nat nbLatBands) in
       let '(sinTheta, cosTheta) := sincosf theta in
       for_loop (nbLonBands + 1)
         (fun lon '(vertexCoord, textureCoord) =>
            let phi := i2f (Z.of_nat (lon * 2)) *. d2f M_PI
                       /. i2f (Z.of_nat nbLonBands) in
            let '(sinPhi, cosPhi) := sincosf phi in
            let x := cosPhi *. sinTheta in
            let y := cosTheta in
            let z := sinPhi *. sinTheta in
            let off1 := (lat * (nbLonBands + 1) + lon) * 3 in
            let vertexCoord := <[ off1 := SPHERE_RADIUS *. x ]> vertexCoord in
            let vertexCoord := <[ off1 + 1 := SPHERE_RADIUS *. y ]> vertexCoord in
            let vertexCoord := <[ off1 + 2 := SPHERE_RADIUS *. z ]> vertexCoord in
            let off2 := (lat * (nbLonBands + 1) + lon) * 2 in
            let u := i2f (Z.of_nat lon) /. i2f (Z.of_nat nbLonBands) in
            let v := i2f (Z.of_nat lat) /. i2f (Z.of_nat nbLatBands) in
            let textureCoord := <[ off2 := u ]> textureCoord in
            let textureCoord := <[ off2 + 1 := v ]> textureCoord in
            (vertexCoord, textureCoord))
         arrays)
    arrays.

(** The second pair of loops: two triangles per band cell. *)
Definition sphere_indices (nbLatBands nbLonBands : nat) (indices : list Z)
  : list Z :=
  for_loop nbLatBands
    (fun lat indices =>
       for_loop nbLonBands
         (fun lon indices =>
            let first := lat * (nbLonBands + 1) + lon in
            let second := first + nbLonBands + 1 in
            let off := (lat * nbLatBands + lon) * 3 * 2 in
            let indices := <[ off := to_ushort first ]> indices in
            let indices := <[ off + 1 := to_ushort second ]> indices in
            let indices := <[ off + 2 := to_ushort (first + 1) ]> indices in
            let indices := <[ off + 3 := to_ushort second ]> indices in
            let indices := <[ off + 4 := to_ushort (second + 1) ]> indices in
            <[ off + 5 := to_ushort (first + 1) ]> indices)
         indices)
    indices.

(** [BuildSphere] for given numbers of bands. *)
Definition BuildSphere_bands (nbLatBands nbLonBands : nat) : Z * mesh :=
  let nbVertices := (nbLatBands + 1) * (nbLonBands + 1) in
  let nbIndices := nbLatBands * nbLonBands * 3 * 2 in
  match alloc_mesh nbVertices nbIndices with
  | None => (VLC_ENOMEM, failed_mesh nbVertices nbIndices)
  | Some (vertexCoord, textureCoord, indices) =>
      let '(vertexCoord, textureCoord) :=
        sphere_vertices nbLatBands nbLonBands (vertexCoord, textureCoord) in
      let indices := sphere_indices nbLatBands nbLonBands indices in
      (VLC_SUCCESS,
       {| vertexCoord := vertexCoord; textureCoord := textureCoord;
          nbVertices := nbVertices; indices := indices;
          nbIndices := nbIndices |})
  end.

Definition BuildSphere : Z * mesh := BuildSphere_bands 128 128.

Definition cube_coord : list float :=
  let m1 := d2f (negd (i2d 1)) in   (* -1.0 *)
  let p1 := d2f (i2d 1) in          (* 1.0 *)
  let m1f := negf (i2f 1) in        (* -1.0f *)
  let p1f := i2f 1 in               (* 1.0f *)
  [ m1; p1; m1f;   m1; m1; m1f;   p1; p1; m1f;   p1; m1; m1f;    (* front *)
    m1; p1; p1f;   m1; m1; p1f;   p1; p1; p1f;   p1; m1; p1f;    (* back *)
    m1; p1; m1f;   m1; m1; m1f;   m1; p1; p1f;   m1; m1; p1f;    (* left *)
    p1f; p1; m1f;  p1f; m1; m1f;  p1f; p1; p1f;  p1f; m1; p1f;   (* right *)
    m1; m1; p1f;   m1; m1; m1f;   p1; m1; p1f;   p1; m1; m1f;    (* bottom *)
    m1; p1; p1f;   m1; p1; m1f;   p1; p1; p1f;   p1; p1; m1f ].  (* top *)

Definition cube_col : list float :=
  [ i2f 0; i2f 1 /. i2f 3; i2f 2 /. i2f 3; i2f 1 ].
Definition cube_row : list float :=
  [ i2f 0; i2f 1 /. i2f 2; d2f (i2d 1) ].

(** The array [tex] of [BuildCube]. *)
Definition cube_tex (padW padH : float) : list float :=
  let col := aget (i2f 0) cube_col in
  let row := aget (i2f 0) cube_row in
  [ col 1 +. padW; row 1 +. padH;   (* front *)
    col 1 +. padW; row 2 -. padH;
    col 2 -. padW; row 1 +. padH;
    col 2 -. padW; row 2 -. padH;

    col 3 -. padW; row 1 +. padH;   (* back *)
    col 3 -. padW; row 2 -. padH;
    col 2 +. padW; row 1 +. padH;
    col 2 +. padW; row 2 -. padH;

    col 2 -. padW; row 0 +. padH;   (* left *)
    col 2 -. padW; row 1 -. padH;
    col 1 +. padW; row 0 +. padH;
    col 1 +. padW; row 1 -. padH;

    col 0 +. padW; row 0 +. padH;   (* right *)
    col 0 +. padW; row 1 -. padH;
    col 1 -. padW; row 0 +. padH;
    col 1 -. padW; row 1 -. padH;

    col 0 +. padW; row 2 -. padH;   (* bottom *)
    col 0 +. padW; row 1 +. padH;
    col 1 -. padW; row 2 -. padH;
    col 1 -. padW; row 1 +. padH;

    col 2 +. padW; row 0 +. padH;   (* top *)
    col 2 +. padW; row 1 -. padH;
    col 3 -. padW; row 0 +. padH;
    col 3 -. padW; row 1 -. padH ].

Definition cube_ind : list Z :=
  [ 0; 1; 2;     2; 1; 3;       (* front *)
    6; 7; 4;     4; 7; 5;       (* back *)
    10; 11; 8;   8; 11; 9;      (* left *)
    12; 13; 14;  14; 13; 15;    (* right *)
    18; 19; 16;  16; 19; 17;    (* bottom *)
    20; 21; 22;  22; 21; 23 ]%Z. (* top *)

Definition BuildCube (padW padH : float) : Z * mesh :=
  let nbVertices := 4 * 6 in
  let nbIndices := 6 * 6 in
  match alloc_mesh nbVertices nbIndices with
  | None => (VLC_ENOMEM, failed_mesh nbVertices nbIndices)
  | Some (vertexCoord, textureCoord, indices) =>
      let vertexCoord := memcpy_at vertexCoord 0 cube_coord (nbVertices * 3) in
      let textureCoord :=
        memcpy_at textureCoord 0 (cube_tex padW padH) (nbVertices * 2) in
      let indices := memcpy_at indices 0 cube_ind nbIndices in
      (VLC_SUCCESS,
       {| vertexCoord := vertexCoord; textureCoord := textureCoord;
          nbVertices := nbVertices; indices := indices;
          nbIndices := nbIndices |})
  end.

End Geometry.

(** ** renderer.c: the per-frame crop mapping *)

Section Prepare.
Context {C : CFloat} {V : VlcCore C}.
Local Open Scope cfloat_scope.

(** Addition of two [unsigned] values. *)
Definition uadd (a b : Z) : Z := (a + b) mod 2 ^ 32.

Definition same_visible_region (a b : video_format_t) : bool :=
  (i_x_offset a =? i_x_offset b) && (i_y_offset a =? i_y_offset b)
  && (i_visible_width a =? i_visible_width b)
  && (i_visible_height a =? i_visible_height b).

Definition no_tex_cfg : vlc_gl_tex_cfg :=
  {| tex_w := {| num := 0; den := 0 |}; tex_h := {| num := 0; den := 0 |} |}.

(** The matrix written for texture unit [j]. *)
Definition crop_matrix (renderer : vlc_gl_renderer C)
    (source : video_format_t) (j : nat) (matrix : list float) : list float :=
  let tex := nth j (texs (interop renderer)) no_tex_cfg in
  let scale_w := i2f (num (tex_w tex)) /. i2f (den (tex_w tex))
                 /. i2f (nth j (tex_width renderer) 0) in
  let scale_h := i2f (num (tex_h tex)) /. i2f (den (tex_h tex))
                 /. i2f (nth j (tex_height renderer) 0) in
  let left   := i2f (uadd (i_x_offset source) 0) *. scale_w in
  let top    := i2f (uadd (i_y_offset source) 0) *. scale_h in
  let right  := i2f (uadd (i_x_offset source) (i_visible_width source))
                *. scale_w in
  let bottom := i2f (uadd (i_y_offset source) (i_visible_height source))
                *. scale_h in
  let matrix := <[ (0 * 3 + 0)%nat := right -. left ]> matrix in
  let matrix := <[ (1 * 3 + 1)%nat := bottom -. top ]> matrix in
  let matrix := <[ (2 * 3 + 0)%nat := left ]> matrix in
  <[ (2 * 3 + 1)%nat := top ]> matrix.

(** The body of the [if] of [vlc_gl_renderer_Prepare]. *)
Definition update_crop (renderer : vlc_gl_renderer C)
    (source : video_format_t) : vlc_gl_renderer C :=
  (* memset(renderer->var.TexCoordsMap, 0, sizeof(...)) *)
  let maps := map (map (fun _ => i2f 0)) (var_TexCoordsMap renderer) in
  let maps :=
    for_loop (tex_count (interop renderer))
      (fun j maps => <[ j := crop_matrix renderer source j (nth j maps []) ]> maps)
      maps in
  let last := last_source renderer in
  set_crop renderer maps
    {| i_chroma := i_chroma last; i_width := i_width last;
       i_height := i_height last;
       i_x_offset := i_x_offset source;
       i_y_offset := i_y_offset source;
       i_visible_width := i_visible_width source;
       i_visible_height := i_visible_height source;
       space := space last; color_range := color_range last;
       projection_mode := projection_mode last;
       i_cubemap_padding := i_cubemap_padding last |}.

Definition vlc_gl_renderer_Prepare (renderer : vlc_gl_renderer C)
    (picture : picture_t) : vlc_gl_renderer C * Z :=
  let source := format picture in
  let renderer :=
    if negb (same_visible_region source (last_source renderer))
    then update_crop renderer source
    else renderer in
  (* Update the texture *)
  (renderer,
   update_textures (interop renderer) (textures renderer)
     (tex_width renderer) (tex_height renderer) picture).

End Prepare.

(** ** What a filled mesh array looks like *)

Section MeshShape.
Context {C : CFloat}.
Local Open Scope nat_scope.

(** The first [n] vertices of a position array have all been written with
    coordinates that satisfy [Q]. *)
Definition vertices_ok (Q : float -> float -> float -> Prop) (n : nat)
    (v : list float) : Prop :=
  forall k, k < n ->
    exists x y z, v !! (k * 3) = Some x /\ v !! (k * 3 + 1) = Some y
                  /\ v !! (k * 3 + 2) = Some z /\ Q x y z.

(** The first [n] cells of an index array have all been written with
    references to vertices below [bound]. *)
Definition indices_ok (bound n : nat) (ix : list Z) : Prop :=
  forall j, j < n * 6 ->
    exists i, ix !! j = Some i /\ (0 <= i < Z.of_nat bound)%Z.

End MeshShape.

(** ** Formats that differ in their colour range *)

Definition with_color_range (f : video_format_t) (range : video_color_range_t)
  : video_format_t :=
  {| i_chroma := i_chroma f; i_width := i_width f; i_height := i_height f;
     i_x_offset := i_x_offset f; i_y_offset := i_y_offset f;
     i_visible_width := i_visible_width f;
     i_visible_height := i_visible_height f;
     space := space f; color_range := range;
     projection_mode := projection_mode f;
     i_cubemap_padding := i_cubemap_padding f |}.

(** The renderer with the colour range of every format it carries (the
    software format of the interop, its own format) replaced. *)
Definition with_format_range {C : CFloat} (r : vlc_gl_renderer C)
    (range : video_color_range_t) : vlc_gl_renderer C :=
  {| interop :=
       {| tex_count := tex_count (interop r);
          tex_target := tex_target (interop r);
          texs := texs (interop r);
          api_extensions := api_extensions (interop r);
          sw_fmt := with_color_range (sw_fmt (interop r)) range |};
     conv_matrix := conv_matrix r; yuv_color := yuv_color r;
     pf_callbacks := pf_callbacks r;
     fmt := with_color_range (fmt r) range;
     last_source := last_source r; tex_width := tex_width r;
     tex_height := tex_height r; textures := textures r;
     var_ProjectionMatrix := var_ProjectionMatrix r;
     var_ZoomMatrix := var_ZoomMatrix r; var_ViewMatrix := var_ViewMatrix r;
     var_TexCoordsMap := var_TexCoordsMap r; vp := vp r;
     f_fovx := f_fovx r; f_fovy := f_fovy r; f_z := f_z r; f_sar := f_sar r |}.

(** The conversion matrix a call leaves in the renderer, and the shader it
    returns. *)
Definition installed_matrix {C : CFloat}
    (o : outcome (vlc_gl_renderer C * option string)) : option (list float) :=
  match o with
  | Returns (r, _) => Some (conv_matrix r)
  | Aborts => None
  end.

Definition returned_shader {C : CFloat}
    (o : outcome (vlc_gl_renderer C * option string)) : option string :=
  match o with
  | Returns (_, text) => text
  | Aborts => None
  end.

(** ** A concrete platform for evaluation

    The IEEE instance completed with an excerpt of the chroma table of the
    VLC core, the viewpoint bounds of [vlc_viewpoint.h] (20 and 150 degrees)
    and stand-ins for the functions whose code lies outside the renderer. *)

Module Sample.
Import IEEE.

Definition VLC_CODEC_I420     : vlc_fourcc_t := VLC_FOURCC "I" "4" "2" "0".
Definition VLC_CODEC_I420_10L : vlc_fourcc_t := VLC_FOURCC "I" "0" "A" "L".
Definition VLC_CODEC_NV12     : vlc_fourcc_t := VLC_FOURCC "N" "V" "1" "2".
Definition VLC_CODEC_Y211     : vlc_fourcc_t := VLC_FOURCC "Y" "2" "1" "1".
Definition VLC_CODEC_RGB32    : vlc_fourcc_t := VLC_FOURCC "R" "V" "3" "2".

Definition chroma_table : list (vlc_fourcc_t * (bool * vlc_chroma_description_t)) :=
  [ (VLC_CODEC_I420,     (true,  {| plane_count := 3; pixel_size := 1; pixel_bits := 8 |}));
    (VLC_CODEC_YV12,     (true,  {| plane_count := 3; pixel_size := 1; pixel_bits := 8 |}));
    (VLC_CODEC_I420_10L, (true,  {| plane_count := 3; pixel_size := 2; pixel_bits := 10 |}));
    (VLC_CODEC_NV12,     (true,  {| plane_count := 2; pixel_size := 1; pixel_bits := 8 |}));
    (VLC_CODEC_NV21,     (true,  {| plane_count := 2; pixel_size := 1; pixel_bits := 8 |}));
    (VLC_CODEC_P010,     (true,  {| plane_count := 2; pixel_size := 2; pixel_bits := 10 |}));
    (VLC_CODEC_UYVY,     (true,  {| plane_count := 1; pixel_size := 2; pixel_bits := 16 |}));
    (VLC_CODEC_YUYV,     (true,  {| plane_count := 1; pixel_size := 2; pixel_bits := 16 |}));
    (VLC_CODEC_Y211,     (true,  {| plane_count := 1; pixel_size := 4; pixel_bits := 32 |}));
    (VLC_CODEC_RGB32,    (false, {| plane_count := 1; pixel_size := 4; pixel_bits := 32 |}));
    (VLC_CODEC_XYZ12,    (false, {| plane_count := 1; pixel_size := 6; pixel_bits := 48 |})) ].

Fixpoint table_find (chroma : vlc_fourcc_t)
    (t : list (vlc_fourcc_t * (bool * vlc_chroma_description_t)))
  : option (bool * vlc_chroma_description_t) :=
  match t with
  | [] => None
  | (c, d) :: t => if chroma =? c then Some d else table_find chroma t
  end.

Definition reverse (v : vlc_viewpoint_t ieee) : vlc_viewpoint_t ieee :=
  {| yaw := SFopp (yaw v); pitch := SFopp (pitch v); roll := SFopp (roll v);
     fov := fov v |}.

#[export] Instance libm : LibM ieee := {|
  tanf := fun x => x;
  atanf := fun x => x;
  sinf := fun x => x;
  sqrtf := SFsqrt 24 128;
  fabsf := SFabs;
  sincosf := fun x => (x, of_Z 24 128 1);
|}.

#[export] Instance core : VlcCore ieee := {|
  vlc_fourcc_IsYUV := fun c =>
    match table_find c chroma_table with Some (b, _) => b | None => false end;
  vlc_fourcc_GetChromaDescription := fun c =>
    match table_find c chroma_table with Some (_, d) => Some d | None => None end;
  vlc_gl_StrHasToken := fun _ _ => true;
  vlc_viewpoint_reverse := reverse;
  vlc_viewpoint_to_4x4 := fun _ => identity;
  FIELD_OF_VIEW_DEGREES_MAX := of_Z 24 128 150;
  FIELD_OF_VIEW_DEGREES_MIN := of_Z 24 128 20;
  update_textures := fun _ _ _ _ _ => VLC_SUCCESS;
  memstream_open_ok := true;
  memstream_close_ok := true;
  vlc_alloc_ok := fun _ => true;
  heap_float := S754_nan;
  heap_ushort := 0;
  NDEBUG := false;
  glsl_version := 120;
  glsl_precision_header := EmptyString;
  asprintf_ok := true;
  strdup_ok := true;
  vertex_asprintf_ok := true;
|}.

Definition zero : binary32 := S754_zero false.

Definition format0 (chroma : vlc_fourcc_t) (bt : video_color_space_t)
    (mode : video_projection_mode_t) : video_format_t :=
  {| i_chroma := chroma; i_width := 1920; i_height := 1088;
     i_x_offset := 0; i_y_offset := 0;
     i_visible_width := 1920; i_visible_height := 1080;
     space := bt; color_range := COLOR_RANGE_FULL;
     projection_mode := mode; i_cubemap_padding := 0 |}.

Definition no_format : video_format_t :=
  {| i_chroma := 0; i_width := 0; i_height := 0;
     i_x_offset := 0; i_y_offset := 0;
     i_visible_width := 0; i_visible_height := 0;
     space := COLOR_SPACE_UNDEF; color_range := COLOR_RANGE_UNDEF;
     projection_mode := PROJECTION_MODE_RECTANGULAR;
     i_cubemap_padding := 0 |}.

Definition half_plane : vlc_gl_tex_cfg :=
  {| tex_w := {| num := 1; den := 2 |}; tex_h := {| num := 1; den := 2 |} |}.
Definition full_plane : vlc_gl_tex_cfg :=
  {| tex_w := {| num := 1; den := 1 |}; tex_h := {| num := 1; den := 1 |} |}.

Definition interop0 (chroma : vlc_fourcc_t) (planes : nat) : vlc_gl_interop :=
  {| tex_count := planes;
     tex_target := GL_TEXTURE_2D;
     texs := full_plane :: repeat half_plane (planes - 1);
     api_extensions := "GL_ARB_texture_rg";
     sw_fmt := format0 chroma COLOR_SPACE_BT709 PROJECTION_MODE_RECTANGULAR |}.

(** A renderer as [calloc] and the first lines of [vlc_gl_renderer_New]
    leave it, for a format of the given chroma and projection. *)
Definition renderer0 (chroma : vlc_fourcc_t) (planes : nat)
    (mode : video_projection_mode_t) : vlc_gl_renderer ieee :=
  {| interop := interop0 chroma planes;
     conv_matrix := repeat zero 16;
     yuv_color := false;
     pf_callbacks := None;
     fmt := format0 chroma COLOR_SPACE_BT709 mode;
     last_source := no_format;
     tex_width := [1920; 960; 960];
     tex_height := [1080; 540; 540];
     textures := [1; 2; 3];
     var_ProjectionMatrix := repeat zero 16;
     var_ZoomMatrix := repeat zero 16;
     var_ViewMatrix := repeat zero 16;
     var_TexCoordsMap := repeat (repeat zero 9) PICTURE_PLANE_MAX;
     vp := {| yaw := zero; pitch := zero; roll := zero; fov := zero |};
     f_fovx := zero; f_fovy := zero; f_z := zero; f_sar := zero |}.

Definition viewpoint_of_fov (degrees : Z) : vlc_viewpoint_t ieee :=
  {| yaw := zero; pitch := zero; roll := zero; fov := of_Z 24 128 degrees |}.

Definition picture0 (x y w h : Z) : picture_t :=
  {| format :=
       {| i_chroma := VLC_CODEC_I420; i_width := 1920; i_height := 1088;
          i_x_offset := x; i_y_offset := y;
          i_visible_width := w; i_visible_height := h;
          space := COLOR_SPACE_BT709; color_range := COLOR_RANGE_LIMITED;
          projection_mode := PROJECTION_MODE_RECTANGULAR;
          i_cubemap_padding := 0 |} |}.

End Sample.

(** A libm whose [sincosf] sums the Taylor series of the sine and the
    cosine in fixed point, with 64 fractional bits, and rounds the two
    sums to binary32; the other functions are the stand-ins of [Sample]. *)
Module SampleLibm.
Import IEEE.

(** [x * 2^64], rounded down. *)
Definition to_fixed (x : spec_float) : Z :=
  match x with
  | S754_finite s m e => cond_Zopp s (Z.shiftl (Zpos m) (e + 64))
  | _ => 0
  end.

Definition of_fixed (z : Z) : spec_float := binary_normalize 24 128 z (-64) false.

(** [n] terms of the alternating series that starts with [term], the
    term of degree [k]. *)
Fixpoint series (n : nat) (k : Z) (x2 term : Z) : Z :=
  match n with
  | O => 0
  | S n =>
      term + series n (k + 2) x2 (- (term * x2 / 2 ^ 64) / ((k + 1) * (k + 2)))
  end.

(** Twenty-four terms of each series: enough for arguments of a few
    radians.  An infinity or a NaN gives two NaNs. *)
Definition sincosf_series (x : spec_float) : spec_float * spec_float :=
  match x with
  | S754_zero _ | S754_finite _ _ _ =>
      let X := to_fixed x in
      let x2 := X * X / 2 ^ 64 in
      (of_fixed (series 24 1 x2 X), of_fixed (series 24 0 x2 (2 ^ 64)))
  | _ => (S754_nan, S754_nan)
  end.

#[export] Instance libm : LibM ieee := {|
  tanf := fun x => x;
  atanf := fun x => x;
  sinf := fun x => fst (sincosf_series x);
  sqrtf := SFsqrt 24 128;
  fabsf := SFabs;
  sincosf := sincosf_series;
|}.

End SampleLibm.


(** ** Order and values of binary32 numbers *)

(** The finite positive float [m * 2^e], canonical, is at most 1: its
    exponent is below the one of 1.0, or equal with a mantissa that is not
    larger. *)
Definition at_most_one (m : positive) (e : Z) : Prop :=
  e < -23 \/ (e = -23 /\ Zpos m <= 2 ^ 23).

(** The float [1.0f]. *)
Definition one32 : spec_float := S754_finite false 8388608 (-23).

(** The float lies between 0 and 1, in the order of the comparison
    operators. *)
Definition in_unit (t : spec_float) : Prop :=
  SFleb (S754_zero false) t = true /\ SFleb t one32 = true.

(** The scaled value of a finite binary32 number: [m * 2^e] counted in
    units of [2^-149]. *)
Definition ival (m : positive) (e : Z) : Z := Zpos m * 2 ^ (e + 149).

(** A padding fraction: a binary32 number between 0 and [bound]. *)
Definition pad_ok (bound p : spec_float) : Prop :=
  valid_binary 24 128 p = true
  /\ SFleb (S754_zero false) p = true
  /\ SFleb p bound = true.

(** The floats [1.f/3], [2.f/3] and [1.f/2]. *)
Definition third32 : spec_float := S754_finite false 11184811 (-25).

Definition two_thirds32 : spec_float := S754_finite false 11184811 (-24).

Definition half32 : spec_float := S754_finite false 8388608 (-24).

(** ** renderer.c: the orientation and stereo matrices *)

(** The orientations [getOrientationTransformMatrix] tells apart; every
    other value of the enumeration takes the [default] branch. *)
Inductive video_orientation_t :=
  | ORIENT_NORMAL
  | ORIENT_ROTATED_90
  | ORIENT_ROTATED_180
  | ORIENT_ROTATED_270
  | ORIENT_HFLIPPED
  | ORIENT_VFLIPPED
  | ORIENT_TRANSPOSED
  | ORIENT_ANTI_TRANSPOSED
  | ORIENT_OTHER (code : Z).

Inductive video_multiview_mode_t :=
  | MULTIVIEW_2D
  | MULTIVIEW_STEREO_SBS
  | MULTIVIEW_STEREO_TB
  | MULTIVIEW_OTHER (code : Z).

Section Orientation.
Context {C : CFloat}.
Local Open Scope cfloat_scope.

Definition getOrientationTransformMatrix (orientation : video_orientation_t)
    (matrix : list float) : list float :=
  let matrix := memcpy_at matrix 0 identity 16 in
  let k_cos_pi := -1 in
  let k_cos_pi_2 := 0 in
  let k_cos_n_pi_2 := 0 in
  let k_sin_pi := 0 in
  let k_sin_pi_2 := 1 in
  let k_sin_n_pi_2 := -1 in
  match orientation with
  | ORIENT_ROTATED_90 =>
      let matrix := <[ (0 * 4 + 0)%nat := i2f k_cos_pi_2 ]> matrix in
      let matrix := <[ (0 * 4 + 1)%nat := i2f (- k_sin_pi_2) ]> matrix in
      let matrix := <[ (1 * 4 + 0)%nat := i2f k_sin_pi_2 ]> matrix in
      let matrix := <[ (1 * 4 + 1)%nat := i2f k_cos_pi_2 ]> matrix in
      <[ (3 * 4 + 1)%nat := i2f 1 ]> matrix
  | ORIENT_ROTATED_180 =>
      let matrix := <[ (0 * 4 + 0)%nat := i2f k_cos_pi ]> matrix in
      let matrix := <[ (0 * 4 + 1)%nat := i2f (- k_sin_pi) ]> matrix in
      let matrix := <[ (1 * 4 + 0)%nat := i2f k_sin_pi ]> matrix in
      let matrix := <[ (1 * 4 + 1)%nat := i2f k_cos_pi ]> matrix in
      let matrix := <[ (3 * 4 + 0)%nat := i2f 1 ]> matrix in
      <[ (3 * 4 + 1)%nat := i2f 1 ]> matrix
  | ORIENT_ROTATED_270 =>
      let matrix := <[ (0 * 4 + 0)%nat := i2f k_cos_n_pi_2 ]> matrix in
      let matrix := <[ (0 * 4 + 1)%nat := i2f (- k_sin_n_pi_2) ]> matrix in
      let matrix := <[ (1 * 4 + 0)%nat := i2f k_sin_n_pi_2 ]> matrix in
      let matrix := <[ (1 * 4 + 1)%nat := i2f k_cos_n_pi_2 ]> matrix in
      <[ (3 * 4 + 0)%nat := i2f 1 ]> matrix
  | ORIENT_HFLIPPED =>
      let matrix := <[ (0 * 4 + 0)%nat := i2f (-1) ]> matrix in
      <[ (3 * 4 + 0)%nat := i2f 1 ]> matrix
  | ORIENT_VFLIPPED =>
      let matrix := <[ (1 * 4 + 1)%nat := i2f (-1) ]> matrix in
      <[ (3 * 4 + 1)%nat := i2f 1 ]> matrix
  | ORIENT_TRANSPOSED =>
      let matrix := <[ (0 * 4 + 0)%nat := i2f 0 ]> matrix in
      let matrix := <[ (1 * 4 + 1)%nat := i2f 0 ]> matrix in
      let matrix := <[ (2 * 4 + 2)%nat := i2f (-1) ]> matrix in
      let matrix := <[ (0 * 4 + 1)%nat := i2f 1 ]> matrix in
      <[ (1 * 4 + 0)%nat := i2f 1 ]> matrix
  | ORIENT_ANTI_TRANSPOSED =>
      let matrix := <[ (0 * 4 + 0)%nat := i2f 0 ]> matrix in
      let matrix := <[ (1 * 4 + 1)%nat := i2f 0 ]> matrix in
      let matrix := <[ (2 * 4 + 2)%nat := i2f (-1) ]> matrix in
      let matrix := <[ (0 * 4 + 1)%nat := i2f (-1) ]> matrix in
      let matrix := <[ (1 * 4 + 0)%nat := i2f (-1) ]> matrix in
      let matrix := <[ (3 * 4 + 0)%nat := i2f 1 ]> matrix in
      <[ (3 * 4 + 1)%nat := i2f 1 ]> matrix
  | _ => matrix
  end.

(** [InitStereoMatrix]: [COL(x)] is [x*3] and [ROW(x)] is [x]. *)
Definition InitStereoMatrix (matrix_out : list float)
    (multiview_mode : video_multiview_mode_t) : list float :=
  (* Initialize to identity 3x3 *)
  let matrix_out := memcpy_at matrix_out 0 (repeat (i2f 0) (3 * 3)) (3 * 3) in
  let matrix_out := <[ (0 * 3 + 0)%nat := i2f 1 ]> matrix_out in
  let matrix_out := <[ (1 * 3 + 1)%nat := i2f 1 ]> matrix_out in
  let matrix_out := <[ (2 * 3 + 2)%nat := i2f 1 ]> matrix_out in
  match multiview_mode with
  | MULTIVIEW_STEREO_SBS => <[ (0 * 3 + 0)%nat := d2f (dlit 5 10) ]> matrix_out
  | MULTIVIEW_STEREO_TB => <[ (1 * 3 + 1)%nat := d2f (dlit 5 10) ]> matrix_out
  | _ => matrix_out
  end.

(** *** What the shaders do with the matrices

    The vertex shader computes [StereoMatrix * vec3(PicCoordsIn, 1.0)] and
    the fragment shader [TransformMatrix * OrientationMatrix *
    vec4(pic_coords, 0.0, 1.0)], [TexCoordsMap0 * pic_hcoords] and
    [ConvMatrix * pixel].  In GLSL a matrix is stored column by column and
    [m * v] is the usual product: component [row] of the result is the sum
    over [col] of [m[col][row] * v[col]]. *)
Definition glsl_mat_vec (n : nat) (m v : list float) : list float :=
  map (fun row =>
         for_loop n
           (fun col acc =>
              acc +. aget (i2f 0) m (col * n + row) *. aget (i2f 0) v col)
           (i2f 0))
      (seq 0 n).

(** [a * b] for two matrices: column [col] of the product is [a] times
    column [col] of [b]. *)
Definition glsl_mat_mat (n : nat) (a b : list float) : list float :=
  flat_map (fun col => glsl_mat_vec n a (firstn n (skipn (col * n) b)))
           (seq 0 n).

End Orientation.

(** ** renderer.c: the rectangle *)

Section Rectangle.
Context {C : CFloat} {V : VlcCore C}.
Local Open Scope cfloat_scope.
Local Open Scope nat_scope.

Definition rectangle_coord : list float :=
  let m1 := d2f (negd (i2d 1)) in   (* -1.0 *)
  let p1 := d2f (i2d 1) in          (* 1.0 *)
  let m1f := negf (i2f 1) in        (* -1.0f *)
  [ m1; p1; m1f;
    m1; m1; m1f;
    p1; p1; m1f;
    p1; m1; m1f ].

Definition rectangle_tex : list float :=
  let z := d2f (i2d 0) in           (* 0.0 *)
  let o := d2f (i2d 1) in           (* 1.0 *)
  [ z; z;
    z; o;
    o; z;
    o; o ].

Definition rectangle_ind : list Z :=
  [ 0; 1; 2;
    2; 1; 3 ]%Z.

Definition BuildRectangle : Z * mesh :=
  let nbVertices := 4 in
  let nbIndices := 6 in
  match alloc_mesh nbVertices nbIndices with
  | None => (VLC_ENOMEM, failed_mesh nbVertices nbIndices)
  | Some (vertexCoord, textureCoord, indices) =>
      let vertexCoord := memcpy_at vertexCoord 0 rectangle_coord (nbVertices * 3) in
      let textureCoord := memcpy_at textureCoord 0 rectangle_tex (nbVertices * 2) in
      let indices := memcpy_at indices 0 rectangle_ind nbIndices in
      (VLC_SUCCESS,
       {| vertexCoord := vertexCoord; textureCoord := textureCoord;
          nbVertices := nbVertices; indices := indices;
          nbIndices := nbIndices |})
  end.

End Rectangle.

(** ** The OpenGL side of the renderer

    The renderer talks to OpenGL through the table [vt] of function
    pointers.  A call that only commands the driver is recorded, in order,
    in a list of [gl_call]s, and so is the call of the helper
    [vlc_gl_BuildProgram], which sends commands of its own; what the driver
    and the helper answer ([GetUniformLocation], [GetAttribLocation], the
    name of the linked program) is given by the platform [GlDriver]. *)

(** The symbolic constants the calls below are given. *)
Inductive GLconst :=
  | GL_ARRAY_BUFFER
  | GL_ELEMENT_ARRAY_BUFFER
  | GL_STATIC_DRAW
  | GL_COLOR_BUFFER_BIT
  | GL_TRIANGLES
  | GL_UNSIGNED_SHORT
  | GL_FLOAT.

Definition GL_TEXTURE0 : Z := 33984.   (* 0x84C0 *)

Definition sizeof_GLfloat : Z := 4.
Definition sizeof_GLushort : Z := 2.

Section GlCalls.
Context {C : CFloat}.

(** The array a pointer argument points to. *)
Inductive gl_array :=
  | gl_floats (a : list float)
  | gl_ushorts (a : list Z).

Inductive gl_call :=
  (* the commands that vlc_gl_BuildProgram of gl_util.h, which is handed
     vt, sends to compile and link the two shaders; its code lies outside
     the renderer *)
  | BuildProgram (vertex_shader fragment_shader : string)
  | BindBuffer (target : GLconst) (buffer : Z)
  | BufferData (target : GLconst) (size : Z) (data : gl_array) (usage : GLconst)
  | DeleteProgram (program : Z)
  | Clear (mask : GLconst)
  | UseProgram (program : Z)
  | ActiveTexture (texture : Z)
  | BindTexture (target : GLenum) (texture : Z)
  | UniformMatrix3fv (location count : Z) (transpose : bool) (value : list float)
  | UniformMatrix4fv (location count : Z) (transpose : bool) (value : list float)
  | Uniform1i (location v0 : Z)
  | Uniform2f (location : Z) (v0 v1 : float)
  | Uniform4f (location : Z) (v0 v1 v2 v3 : float)
  | EnableVertexAttribArray (index : Z)
  | VertexAttribPointer (index size : Z) (type : GLconst) (normalized : bool)
      (stride pointer : Z)
  | DrawElements (mode : GLconst) (count : Z) (type : GLconst) (indices : Z).

(** [renderer->uloc]: uniform locations. *)
Record uloc_t := {
  uloc_Texture : list Z;            (* GLint[PICTURE_PLANE_MAX] *)
  uloc_TexSize : list Z;            (* GLint[PICTURE_PLANE_MAX] *)
  uloc_ConvMatrix : Z;
  uloc_FillColor : Z;
  uloc_TransformMatrix : Z;
  uloc_OrientationMatrix : Z;
  uloc_StereoMatrix : Z;
  uloc_ProjectionMatrix : Z;
  uloc_ViewMatrix : Z;
  uloc_ZoomMatrix : Z;
  uloc_TexCoordsMap : list Z;       (* GLint[PICTURE_PLANE_MAX] *)
}.

(** [renderer->aloc]: attribute locations. *)
Record aloc_t := {
  aloc_PicCoordsIn : Z;
  aloc_VertexPosition : Z;
}.

(** The fields of [struct vlc_gl_renderer] that hold OpenGL names, the
    number of indices to draw, and the two matrices that
    [vlc_gl_renderer_New] sets once; [vlc_gl_renderer] holds the others. *)
Record vlc_gl_renderer_gl := {
  program_id : Z;
  uloc : uloc_t;
  aloc : aloc_t;
  vertex_buffer_object : Z;
  index_buffer_object : Z;
  texture_buffer_object : Z;
  nb_indices : nat;
  var_OrientationMatrix : list float;   (* GLfloat[16] *)
  var_StereoMatrix : list float;        (* GLfloat[3*3] *)
}.

Definition set_uloc_Texture (u : uloc_t) (i : nat) (x : Z) : uloc_t :=
  {| uloc_Texture := <[ i := x ]> (uloc_Texture u);
     uloc_TexSize := uloc_TexSize u; uloc_ConvMatrix := uloc_ConvMatrix u;
     uloc_FillColor := uloc_FillColor u;
     uloc_TransformMatrix := uloc_TransformMatrix u;
     uloc_OrientationMatrix := uloc_OrientationMatrix u;
     uloc_StereoMatrix := uloc_StereoMatrix u;
     uloc_ProjectionMatrix := uloc_ProjectionMatrix u;
     uloc_ViewMatrix := uloc_ViewMatrix u; uloc_ZoomMatrix := uloc_ZoomMatrix u;
     uloc_TexCoordsMap := uloc_TexCoordsMap u |}.

Definition set_uloc_TexSize (u : uloc_t) (i : nat) (x : Z) : uloc_t :=
  {| uloc_Texture := uloc_Texture u;
     uloc_TexSize := <[ i := x ]> (uloc_TexSize u);
     uloc_ConvMatrix := uloc_ConvMatrix u;
     uloc_FillColor := uloc_FillColor u;
     uloc_TransformMatrix := uloc_TransformMatrix u;
     uloc_OrientationMatrix := uloc_OrientationMatrix u;
     uloc_StereoMatrix := uloc_StereoMatrix u;
     uloc_ProjectionMatrix := uloc_ProjectionMatrix u;
     uloc_ViewMatrix := uloc_ViewMatrix u; uloc_ZoomMatrix := uloc_ZoomMatrix u;
     uloc_TexCoordsMap := uloc_TexCoordsMap u |}.

Definition set_uloc_ConvMatrix (u : uloc_t) (x : Z) : uloc_t :=
  {| uloc_Texture := uloc_Texture u; uloc_TexSize := uloc_TexSize u;
     uloc_ConvMatrix := x;
     uloc_FillColor := uloc_FillColor u;
     uloc_TransformMatrix := uloc_TransformMatrix u;
     uloc_OrientationMatrix := uloc_OrientationMatrix u;
     uloc_StereoMatrix := uloc_StereoMatrix u;
     uloc_ProjectionMatrix := uloc_ProjectionMatrix u;
     uloc_ViewMatrix := uloc_ViewMatrix u; uloc_ZoomMatrix := uloc_ZoomMatrix u;
     uloc_TexCoordsMap := uloc_TexCoordsMap u |}.

Definition set_uloc_FillColor (u : uloc_t) (x : Z) : uloc_t :=
  {| uloc_Texture := uloc_Texture u; uloc_TexSize := uloc_TexSize u;
     uloc_ConvMatrix := uloc_ConvMatrix u;
     uloc_FillColor := x;
     uloc_TransformMatrix := uloc_TransformMatrix u;
     uloc_OrientationMatrix := uloc_OrientationMatrix u;
     uloc_StereoMatrix := uloc_StereoMatrix u;
     uloc_ProjectionMatrix := uloc_ProjectionMatrix u;
     uloc_ViewMatrix := uloc_ViewMatrix u; uloc_ZoomMatrix := uloc_ZoomMatrix u;
     uloc_TexCoordsMap := uloc_TexCoordsMap u |}.

Definition set_uloc_TransformMatrix (u : uloc_t) (x : Z) : uloc_t :=
  {| uloc_Texture := uloc_Texture u; uloc_TexSize := uloc_TexSize u;
     uloc_ConvMatrix := uloc_ConvMatrix u;
     uloc_FillColor := uloc_FillColor u; uloc_TransformMatrix := x;
     uloc_OrientationMatrix := uloc_OrientationMatrix u;
     uloc_StereoMatrix := uloc_StereoMatrix u;
     uloc_ProjectionMatrix := uloc_ProjectionMatrix u;
     uloc_ViewMatrix := uloc_ViewMatrix u;
     uloc_ZoomMatrix := uloc_ZoomMatrix u;
     uloc_TexCoordsMap := uloc_TexCoordsMap u |}.

Definition set_uloc_OrientationMatrix (u : uloc_t) (x : Z) : uloc_t :=
  {| uloc_Texture := uloc_Texture u; uloc_TexSize := uloc_TexSize u;
     uloc_ConvMatrix := uloc_ConvMatrix u;
     uloc_FillColor := uloc_FillColor u;
     uloc_TransformMatrix := uloc_TransformMatrix u;
     uloc_OrientationMatrix := x;
     uloc_StereoMatrix := uloc_StereoMatrix u;
     uloc_ProjectionMatrix := uloc_ProjectionMatrix u;
     uloc_ViewMatrix := uloc_ViewMatrix u;
     uloc_ZoomMatrix := uloc_ZoomMatrix u;
     uloc_TexCoordsMap := uloc_TexCoordsMap u |}.

Definition set_uloc_StereoMatrix (u : uloc_t) (x : Z) : uloc_t :=
  {| uloc_Texture := uloc_Texture u; uloc_TexSize := uloc_TexSize u;
     uloc_ConvMatrix := uloc_ConvMatrix u;
     uloc_FillColor := uloc_FillColor u;
     uloc_TransformMatrix := uloc_TransformMatrix u;
     uloc_OrientationMatrix := uloc_OrientationMatrix u;
     uloc_StereoMatrix := x;
     uloc_ProjectionMatrix := uloc_ProjectionMatrix u;
     uloc_ViewMatrix := uloc_ViewMatrix u;
     uloc_ZoomMatrix := uloc_ZoomMatrix u;
     uloc_TexCoordsMap := uloc_TexCoordsMap u |}.

Definition set_uloc_ProjectionMatrix (u : uloc_t) (x : Z) : uloc_t :=
  {| uloc_Texture := uloc_Texture u; uloc_TexSize := uloc_TexSize u;
     uloc_ConvMatrix := uloc_ConvMatrix u;
     uloc_FillColor := uloc_FillColor u;
     uloc_TransformMatrix := uloc_TransformMatrix u;
     uloc_OrientationMatrix := uloc_OrientationMatrix u;
     uloc_StereoMatrix := uloc_StereoMatrix u; uloc_ProjectionMatrix := x;
     uloc_ViewMatrix := uloc_ViewMatrix u;
     uloc_ZoomMatrix := uloc_ZoomMatrix u;
     uloc_TexCoordsMap := uloc_TexCoordsMap u |}.

Definition set_uloc_ViewMatrix (u : uloc_t) (x : Z) : uloc_t :=
  {| uloc_Texture := uloc_Texture u; uloc_TexSize := uloc_TexSize u;
     uloc_ConvMatrix := uloc_ConvMatrix u;
     uloc_FillColor := uloc_FillColor u;
     uloc_TransformMatrix := uloc_TransformMatrix u;
     uloc_OrientationMatrix := uloc_OrientationMatrix u;
     uloc_StereoMatrix := uloc_StereoMatrix u;
     uloc_ProjectionMatrix := uloc_ProjectionMatrix u;
     uloc_ViewMatrix := x; uloc_ZoomMatrix := uloc_ZoomMatrix u;
     uloc_TexCoordsMap := uloc_TexCoordsMap u |}.

Definition set_uloc_ZoomMatrix (u : uloc_t) (x : Z) : uloc_t :=
  {| uloc_Texture := uloc_Texture u; uloc_TexSize := uloc_TexSize u;
     uloc_ConvMatrix := uloc_ConvMatrix u;
     uloc_FillColor := uloc_FillColor u;
     uloc_TransformMatrix := uloc_TransformMatrix u;
     uloc_OrientationMatrix := uloc_OrientationMatrix u;
     uloc_StereoMatrix := uloc_StereoMatrix u;
     uloc_ProjectionMatrix := uloc_ProjectionMatrix u;
     uloc_ViewMatrix := uloc_ViewMatrix u; uloc_ZoomMatrix := x;
     uloc_TexCoordsMap := uloc_TexCoordsMap u |}.

Definition set_uloc_TexCoordsMap (u : uloc_t) (i : nat) (x : Z) : uloc_t :=
  {| uloc_Texture := uloc_Texture u; uloc_TexSize := uloc_TexSize u;
     uloc_ConvMatrix := uloc_ConvMatrix u;
     uloc_FillColor := uloc_FillColor u;
     uloc_TransformMatrix := uloc_TransformMatrix u;
     uloc_OrientationMatrix := uloc_OrientationMatrix u;
     uloc_StereoMatrix := uloc_StereoMatrix u;
     uloc_ProjectionMatrix := uloc_ProjectionMatrix u;
     uloc_ViewMatrix := uloc_ViewMatrix u; uloc_ZoomMatrix := uloc_ZoomMatrix u;
     uloc_TexCoordsMap := <[ i := x ]> (uloc_TexCoordsMap u) |}.

Definition set_locations (g : vlc_gl_renderer_gl) (u : uloc_t) (a : aloc_t)
    (program : Z) : vlc_gl_renderer_gl :=
  {| program_id := program; uloc := u; aloc := a;
     vertex_buffer_object := vertex_buffer_object g;
     index_buffer_object := index_buffer_object g;
     texture_buffer_object := texture_buffer_object g;
     nb_indices := nb_indices g;
     var_OrientationMatrix := var_OrientationMatrix g;
     var_StereoMatrix := var_StereoMatrix g |}.

Definition set_nb_indices (g : vlc_gl_renderer_gl) (n : nat)
  : vlc_gl_renderer_gl :=
  {| program_id := program_id g; uloc := uloc g; aloc := aloc g;
     vertex_buffer_object := vertex_buffer_object g;
     index_buffer_object := index_buffer_object g;
     texture_buffer_object := texture_buffer_object g;
     nb_indices := n;
     var_OrientationMatrix := var_OrientationMatrix g;
     var_StereoMatrix := var_StereoMatrix g |}.

End GlCalls.

Arguments gl_array C : clear implicits.
Arguments gl_call C : clear implicits.
Arguments vlc_gl_renderer_gl C : clear implicits.

(** What the driver and the helpers of [gl_util.h] answer. *)
Class GlDriver (C : CFloat) : Type := {
  GetUniformLocation : Z -> string -> Z;
  GetAttribLocation : Z -> string -> Z;
  (* vlc_gl_BuildProgram on one vertex and one fragment shader: the name of
     the linked program, 0 when compiling or linking failed *)
  vlc_gl_BuildProgram : string -> string -> Z;
  (* interop->ops->get_transform_matrix: absent, or a function that may
     answer NULL *)
  get_transform_matrix : option (vlc_gl_interop -> option (list float));
}.

(** ** fragment_shaders.c: uniform locations and per-draw uniforms *)

(** A function body that can [return] early: the state reached, and the
    value returned if a [return] statement was executed. *)
Definition unless_returned {St R : Type} (st : St * option R)
    (rest : St -> St * option R) : St * option R :=
  match st with
  | (s, None) => rest s
  | (s, Some r) => (s, Some r)
  end.

Section Locations.
Context {C : CFloat} {V : VlcCore C} {G : GlDriver C}.
Local Open Scope string_scope.

(** [snprintf(name, sizeof(name), "...%1u", i)] into
    [char name[sizeof("TextureX")]]: nine bytes, so at most eight
    characters are kept. *)
Definition snprintf_name (prefix : string) (i : nat) : string :=
  substring 0 8 (prefix ++ fmt_u i).

Definition renderer_base_fetch_locations (renderer : vlc_gl_renderer C)
    (uloc : uloc_t) (program : Z) : uloc_t * Z :=
  let interop := interop renderer in
  let st : uloc_t * option Z :=
    if yuv_color renderer then
      let uloc :=
        set_uloc_ConvMatrix uloc (GetUniformLocation program "ConvMatrix") in
      if (uloc_ConvMatrix uloc =? -1)%Z then (uloc, Some VLC_EGENERIC)
      else (uloc, None)
    else (uloc, None) in
  let st :=
    for_loop (tex_count interop)
      (fun i st =>
         unless_returned st (fun uloc =>
           let name := snprintf_name "Texture" i in
           let uloc :=
             set_uloc_Texture uloc i (GetUniformLocation program name) in
           if (aget 0%Z (uloc_Texture uloc) i =? -1)%Z
           then (uloc, Some VLC_EGENERIC)
           else
             match tex_target interop with
             | GL_TEXTURE_RECTANGLE =>
                 let name := snprintf_name "TexSize" i in
                 let uloc :=
                   set_uloc_TexSize uloc i (GetUniformLocation program name) in
                 if (aget 0%Z (uloc_TexSize uloc) i =? -1)%Z
                 then (uloc, Some VLC_EGENERIC)
                 else (uloc, None)
             | _ => (uloc, None)
             end))
      st in
  let st :=
    unless_returned st (fun uloc =>
      let uloc :=
        set_uloc_FillColor uloc (GetUniformLocation program "FillColor") in
      if (uloc_FillColor uloc =? -1)%Z then (uloc, Some VLC_EGENERIC)
      else (uloc, None)) in
  match st with
  | (uloc, Some ret) => (uloc, ret)
  | (uloc, None) => (uloc, VLC_SUCCESS)
  end.

Definition renderer_xyz12_fetch_locations (renderer : vlc_gl_renderer C)
    (uloc : uloc_t) (program : Z) : uloc_t * Z :=
  let uloc := set_uloc_Texture uloc 0 (GetUniformLocation program "Texture0") in
  (uloc,
   if negb (aget 0%Z (uloc_Texture uloc) 0 =? -1)%Z
   then VLC_SUCCESS else VLC_EGENERIC).

(** [renderer->pf_fetch_locations(renderer, program)]; the pointer is
    NULL until a shader generator installed the callbacks. *)
Definition pf_fetch_locations (renderer : vlc_gl_renderer C)
    (uloc : uloc_t) (program : Z) : outcome (uloc_t * Z) :=
  match pf_callbacks renderer with
  | Some callbacks_base =>
      Returns (renderer_base_fetch_locations renderer uloc program)
  | Some callbacks_xyz12 =>
      Returns (renderer_xyz12_fetch_locations renderer uloc program)
  | None => Aborts
  end.

Definition renderer_base_prepare_shader (renderer : vlc_gl_renderer C)
    (g : vlc_gl_renderer_gl C) (tex_width tex_height : list Z) (alpha : float)
    (log : list (gl_call C)) : list (gl_call C) :=
  let interop := interop renderer in
  let log :=
    if yuv_color renderer then
      (log ++ [UniformMatrix4fv (uloc_ConvMatrix (uloc g)) 1 false
                (conv_matrix renderer)])%list
    else log in
  let log :=
    for_loop (tex_count interop)
      (fun i log =>
         (log ++ [Uniform1i (aget 0%Z (uloc_Texture (uloc g)) i) (Z.of_nat i)])%list)
      log in
  let log :=
    (log ++ [Uniform4f (uloc_FillColor (uloc g)) (i2f 1) (i2f 1) (i2f 1) alpha])%list in
  match tex_target interop with
  | GL_TEXTURE_RECTANGLE =>
      for_loop (tex_count interop)
        (fun i log =>
           (log ++ [Uniform2f (aget 0%Z (uloc_TexSize (uloc g)) i)
                     (i2f (aget 0%Z tex_width i))
                     (i2f (aget 0%Z tex_height i))])%list)
        log
  | _ => log
  end.

Definition renderer_xyz12_prepare_shader (renderer : vlc_gl_renderer C)
    (g : vlc_gl_renderer_gl C) (tex_width tex_height : list Z) (alpha : float)
    (log : list (gl_call C)) : list (gl_call C) :=
  (log ++ [Uniform1i (aget 0%Z (uloc_Texture (uloc g)) 0) 0])%list.

(** [renderer->pf_prepare_shader(renderer, tex_width, tex_height, alpha)]. *)
Definition pf_prepare_shader (renderer : vlc_gl_renderer C)
    (g : vlc_gl_renderer_gl C) (tex_width tex_height : list Z) (alpha : float)
    (log : list (gl_call C)) : outcome (list (gl_call C)) :=
  match pf_callbacks renderer with
  | Some callbacks_base =>
      Returns (renderer_base_prepare_shader renderer g tex_width tex_height
                 alpha log)
  | Some callbacks_xyz12 =>
      Returns (renderer_xyz12_prepare_shader renderer g tex_width tex_height
                 alpha log)
  | None => Aborts
  end.

End Locations.

(** ** renderer.c: shaders, program, coordinates and drawing *)

Section Program.
Context {C : CFloat} {L : LibM C} {V : VlcCore C} {G : GlDriver C}.
Local Open Scope string_scope.

Definition BuildVertexShader : option string :=
  if negb vertex_asprintf_ok then None
  else
    Some ("#version " ++ fmt_u glsl_version ++ nl
          ++ "attribute vec2 PicCoordsIn;" ++ nl
          ++ "varying vec2 PicCoords;" ++ nl
          ++ "attribute vec3 VertexPosition;" ++ nl
          ++ "uniform mat3 StereoMatrix;" ++ nl
          ++ "uniform mat4 ProjectionMatrix;" ++ nl
          ++ "uniform mat4 ZoomMatrix;" ++ nl
          ++ "uniform mat4 ViewMatrix;" ++ nl
          ++ "void main() {" ++ nl
          ++ " PicCoords = (StereoMatrix * vec3(PicCoordsIn, 1.0)).st;" ++ nl
          ++ " gl_Position = ProjectionMatrix * ZoomMatrix * ViewMatrix" ++ nl
          ++ "               * vec4(VertexPosition, 1.0);" ++ nl
          ++ "}").

(** [GET_LOC(type, x, str)]: the location is stored, the assertion
    checked, and a missing location sends control to the label [error];
    the flag of the state says whether that jump was taken. *)
Definition GET_LOC (get : Z -> string -> Z) (program_id : Z) (str : string)
    (store : uloc_t * aloc_t -> Z -> uloc_t * aloc_t)
    (acc : outcome (uloc_t * aloc_t * bool)) : outcome (uloc_t * aloc_t * bool) :=
  let* (locs, error) := acc in
  if (error : bool) then Returns (locs, true)
  else
    let x := get program_id str in
    let locs := store locs x in
    let* _ := assert (negb (x =? -1)%Z) in
    Returns (locs, (x =? -1)%Z).

Definition GET_ULOC (program_id : Z) (set : uloc_t -> Z -> uloc_t)
    (str : string) :=
  GET_LOC GetUniformLocation program_id str
    (fun '(u, a) x => (set u x, a)).

Definition set_aloc_PicCoordsIn (a : aloc_t) (x : Z) : aloc_t :=
  {| aloc_PicCoordsIn := x; aloc_VertexPosition := aloc_VertexPosition a |}.

Definition set_aloc_VertexPosition (a : aloc_t) (x : Z) : aloc_t :=
  {| aloc_PicCoordsIn := aloc_PicCoordsIn a; aloc_VertexPosition := x |}.

Definition GET_ALOC (program_id : Z) (set : aloc_t -> Z -> aloc_t)
    (str : string) :=
  GET_LOC GetAttribLocation program_id str
    (fun '(u, a) x => (u, set a x)).

(** Whether a texture target is the integer 0. *)
Definition tex_target_is_zero (t : GLenum) : bool :=
  match t with
  | GL_OTHER code => (code =? 0)%Z
  | _ => false
  end.

(** The result is the two halves of the renderer as the call leaves them,
    the value returned, and the commands sent to OpenGL. *)
Definition opengl_link_program (renderer : vlc_gl_renderer C)
    (g : vlc_gl_renderer_gl C)
  : outcome (vlc_gl_renderer C * vlc_gl_renderer_gl C * Z * list (gl_call C)) :=
  match BuildVertexShader with
  | None => Returns (renderer, g, VLC_EGENERIC, [])
  | Some vertex_shader =>
    let* (renderer, fragment_shader) := BuildFragmentShader renderer in
    match fragment_shader with
    | None => Returns (renderer, g, VLC_EGENERIC, [])
    | Some fragment_shader =>
      let interop := interop renderer in
      (* interop->ops->update_textures is a function of the platform here,
         never NULL; the two callbacks are installed together *)
      let* _ :=
        assert (negb (tex_target_is_zero (tex_target interop))
                && (0 <? tex_count interop)%nat
                && match pf_callbacks renderer with
                   | Some _ => true
                   | None => false
                   end) in
      let program_id := vlc_gl_BuildProgram vertex_shader fragment_shader in
      let log := [BuildProgram vertex_shader fragment_shader] in
      if (program_id =? 0)%Z then Returns (renderer, g, VLC_EGENERIC, log)
      else
        (* Fetch UniformLocations and AttribLocations *)
        let acc := Returns (uloc g, aloc g, false) in
        let acc :=
          GET_ULOC program_id set_uloc_TransformMatrix "TransformMatrix" acc in
        let acc :=
          GET_ULOC program_id set_uloc_OrientationMatrix "OrientationMatrix"
            acc in
        let acc :=
          GET_ULOC program_id set_uloc_StereoMatrix "StereoMatrix" acc in
        let acc :=
          GET_ULOC program_id set_uloc_ProjectionMatrix "ProjectionMatrix"
            acc in
        let acc := GET_ULOC program_id set_uloc_ViewMatrix "ViewMatrix" acc in
        let acc := GET_ULOC program_id set_uloc_ZoomMatrix "ZoomMatrix" acc in
        let acc :=
          GET_ALOC program_id set_aloc_PicCoordsIn "PicCoordsIn" acc in
        let acc :=
          GET_ALOC program_id set_aloc_VertexPosition "VertexPosition" acc in
        let acc :=
          GET_ULOC program_id (fun u => set_uloc_TexCoordsMap u 0)
            "TexCoordsMap0" acc in
        (* MultiTexCoord 1 and 2 can be optimized out if not used *)
        let acc :=
          if (1 <? tex_count interop)%nat then
            GET_ULOC program_id (fun u => set_uloc_TexCoordsMap u 1)
              "TexCoordsMap1" acc
          else
            let* (locs, error) := acc in
            if (error : bool) then Returns (locs, true)
            else Returns (set_uloc_TexCoordsMap (fst locs) 1 (-1), snd locs,
                          false) in
        let acc :=
          if (2 <? tex_count interop)%nat then
            GET_ULOC program_id (fun u => set_uloc_TexCoordsMap u 2)
              "TexCoordsMap2" acc
          else
            let* (locs, error) := acc in
            if (error : bool) then Returns (locs, true)
            else Returns (set_uloc_TexCoordsMap (fst locs) 2 (-1), snd locs,
                          false) in
        let* (locs, error) := acc in
        let* (locs, error) :=
          if (error : bool) then Returns (locs, true)
          else
            let* (u, ret) := pf_fetch_locations renderer (fst locs) program_id in
            let* _ := assert (ret =? VLC_SUCCESS)%Z in
            Returns (u, snd locs, negb (ret =? VLC_SUCCESS)%Z) in
        if (error : bool) then
          (* error: *)
          Returns (renderer, set_locations g (fst locs) (snd locs) 0,
                   VLC_EGENERIC, (log ++ [DeleteProgram program_id])%list)
        else
          Returns (renderer, set_locations g (fst locs) (snd locs) program_id,
                   VLC_SUCCESS, log)
    end
  end.

(** [SetupCoords]: the mesh of the projection is built and sent to the
    three buffer objects. *)
Definition SetupCoords (renderer : vlc_gl_renderer C)
    (g : vlc_gl_renderer_gl C)
  : vlc_gl_renderer_gl C * Z * list (gl_call C) :=
  let '(i_ret, m) :=
    match projection_mode (fmt renderer) with
    | PROJECTION_MODE_RECTANGULAR => BuildRectangle
    | PROJECTION_MODE_EQUIRECTANGULAR => BuildSphere
    | PROJECTION_MODE_CUBEMAP_LAYOUT_STANDARD =>
        BuildCube
          (divf (i2f (i_cubemap_padding (fmt renderer)))
                (i2f (i_width (fmt renderer))))
          (divf (i2f (i_cubemap_padding (fmt renderer)))
                (i2f (i_height (fmt renderer))))
    | PROJECTION_MODE_OTHER _ => (VLC_EGENERIC, failed_mesh 0 0)
    end in
  if negb (i_ret =? VLC_SUCCESS)%Z then (g, i_ret, [])
  else
    (set_nb_indices g (nbIndices m), VLC_SUCCESS,
     [ BindBuffer GL_ARRAY_BUFFER (texture_buffer_object g);
       BufferData GL_ARRAY_BUFFER
         (Z.of_nat (nbVertices m) * 2 * sizeof_GLfloat)
         (gl_floats (textureCoord m)) GL_STATIC_DRAW;
       BindBuffer GL_ARRAY_BUFFER (vertex_buffer_object g);
       BufferData GL_ARRAY_BUFFER
         (Z.of_nat (nbVertices m) * 3 * sizeof_GLfloat)
         (gl_floats (vertexCoord m)) GL_STATIC_DRAW;
       BindBuffer GL_ELEMENT_ARRAY_BUFFER (index_buffer_object g);
       BufferData GL_ELEMENT_ARRAY_BUFFER
         (Z.of_nat (nbIndices m) * sizeof_GLushort)
         (gl_ushorts (indices m)) GL_STATIC_DRAW ]).

(** A [GLint] passed where a [GLuint] is expected. *)
Definition to_GLuint (x : Z) : Z := x mod 2 ^ 32.

Definition DrawWithShaders (renderer : vlc_gl_renderer C)
    (g : vlc_gl_renderer_gl C) (log : list (gl_call C))
  : outcome (list (gl_call C)) :=
  let interop := interop renderer in
  let* log :=
    pf_prepare_shader renderer g (tex_width renderer) (tex_height renderer)
      (i2f 1) log in
  let* log :=
    for_loop (tex_count interop)
      (fun j acc =>
         let* log := acc in
         let* _ := assert (negb (aget 0%Z (textures renderer) j =? 0)%Z) in
         Returns
           ((log ++
            [ ActiveTexture (GL_TEXTURE0 + Z.of_nat j);
              BindTexture (tex_target interop) (aget 0%Z (textures renderer) j);
              UniformMatrix3fv (aget 0%Z (uloc_TexCoordsMap (uloc g)) j) 1 false
                (aget [] (var_TexCoordsMap renderer) j) ])%list))
      (Returns log) in
  let log := (log ++ [BindBuffer GL_ARRAY_BUFFER (texture_buffer_object g)])%list in
  let* _ := assert (negb (aloc_PicCoordsIn (aloc g) =? -1)%Z) in
  let log :=
    (log ++
    [ EnableVertexAttribArray (to_GLuint (aloc_PicCoordsIn (aloc g)));
      VertexAttribPointer (to_GLuint (aloc_PicCoordsIn (aloc g))) 2 GL_FLOAT
        false 0 0;
      BindBuffer GL_ARRAY_BUFFER (vertex_buffer_object g);
      BindBuffer GL_ELEMENT_ARRAY_BUFFER (index_buffer_object g);
      EnableVertexAttribArray (to_GLuint (aloc_VertexPosition (aloc g)));
      VertexAttribPointer (to_GLuint (aloc_VertexPosition (aloc g))) 3 GL_FLOAT
        false 0 0 ])%list in
  let tm :=
    match get_transform_matrix with
    | Some f =>
        match f interop with
        | Some tm => tm
        | None => identity
        end
    | None => identity
    end in
  Returns
    ((log ++
     [ UniformMatrix4fv (uloc_TransformMatrix (uloc g)) 1 false tm;
       UniformMatrix4fv (uloc_OrientationMatrix (uloc g)) 1 false
         (var_OrientationMatrix g);
       UniformMatrix3fv (uloc_StereoMatrix (uloc g)) 1 false
         (var_StereoMatrix g);
       UniformMatrix4fv (uloc_ProjectionMatrix (uloc g)) 1 false
         (var_ProjectionMatrix renderer);
       UniformMatrix4fv (uloc_ViewMatrix (uloc g)) 1 false
         (var_ViewMatrix renderer);
       UniformMatrix4fv (uloc_ZoomMatrix (uloc g)) 1 false
         (var_ZoomMatrix renderer);
       DrawElements GL_TRIANGLES (Z.of_nat (nb_indices g)) GL_UNSIGNED_SHORT 0 ])%list).

Definition vlc_gl_renderer_Draw (renderer : vlc_gl_renderer C)
    (g : vlc_gl_renderer_gl C) : outcome (Z * list (gl_call C)) :=
  let log := [Clear GL_COLOR_BUFFER_BIT; UseProgram (program_id g)] in
  let* log := DrawWithShaders renderer g log in
  Returns (VLC_SUCCESS, log).

End Program.

(** ** Predicates for the statements below *)

Section MeshWf.
Context {C : CFloat}.

(** The arrays of a mesh have the sizes its counts announce, and every
    index names one of its vertices. *)
Definition mesh_wf (m : mesh) : Prop :=
  length (vertexCoord m) = (3 * nbVertices m)%nat
  /\ length (textureCoord m) = (2 * nbVertices m)%nat
  /\ length (indices m) = nbIndices m
  /\ Forall (fun i => 0 <= i < Z.of_nat (nbVertices m)) (indices m).

End MeshWf.

(** *** Declarations in a shader text

    A declaration is the keyword of a storage class ([uniform],
    [attribute]) at the start of a token, a type, a name and a semicolon,
    the type and the name being identifiers. *)

(** A letter, a digit or the underscore. *)
Definition ident_char (c : ascii) : bool :=
  let n := N_of_ascii c in
  ((48 <=? n) && (n <=? 57) || (65 <=? n) && (n <=? 90)
   || (97 <=? n) && (n <=? 122) || (n =? 95))%N.

Definition is_identifier (s : string) : bool :=
  match s with
  | EmptyString => false
  | String _ _ => forallb ident_char (list_ascii_of_string s)
  end.

(** The last character of [s], or [d] when [s] is empty. *)
Fixpoint last_char (s : string) (d : ascii) : ascii :=
  match s with
  | EmptyString => d
  | String c s => last_char s c
  end.

(** A token can start after [pre]: at the start of the text or after a
    character that cannot be part of an identifier. *)
Definition token_start (pre : string) : bool :=
  negb (ident_char (last_char pre " ")).

(** The longest identifier at the head of [s], and what follows it. *)
Fixpoint take_ident (s : string) : string * string :=
  match s with
  | EmptyString => (EmptyString, EmptyString)
  | String c r =>
      if ident_char c then
        let '(a, b) := take_ident r in (String c a, b)
      else (EmptyString, s)
  end.

Fixpoint strip_prefix (p s : string) : option string :=
  match p with
  | EmptyString => Some s
  | String a p =>
      match s with
      | String b s => if Ascii.eqb a b then strip_prefix p s else None
      | EmptyString => None
      end
  end.

(** The name declared by a declaration of class [kind] at the head of
    [text]. *)
Definition parse_declaration (kind text : string) : option string :=
  match strip_prefix (kind ++ " ") text with
  | None => None
  | Some r1 =>
      let '(ty, r2) := take_ident r1 in
      match ty, r2 with
      | String _ _, String sp r3 =>
          if Ascii.eqb sp " " then
            let '(name, r4) := take_ident r3 in
            match name, r4 with
            | String _ _, String sc _ =>
                if Ascii.eqb sc ";" then Some name else None
            | _, _ => None
            end
          else None
      | _, _ => None
      end
  end.

(** The names declared with the class [kind] in [text], in order; [prev]
    is the character before the text. *)
Fixpoint declared_names (kind : string) (prev : ascii) (text : string)
  : list string :=
  match text with
  | EmptyString => []
  | String c rest =>
      (if ident_char prev then []
       else match parse_declaration kind text with
            | Some name => [name]
            | None => []
            end)
      ++ declared_names kind c rest
  end.

(** The text declares a variable [name] of the storage class [kind]. *)
Definition declares (kind text name : string) : Prop :=
  In name (declared_names kind " " text).

(** The same as a decomposition of the text, for proofs about texts that
    are not known in full. *)
Definition declaration_in (kind text name : string) : Prop :=
  exists pre ty post : string,
    text = (pre ++ kind ++ " " ++ ty ++ " " ++ name ++ ";" ++ post)%string
    /\ token_start pre = true
    /\ is_identifier ty = true /\ is_identifier name = true.

(** The text [b] is [a] with more text after it. *)
Definition extends (a b : string) : Prop :=
  exists post : string, b = (a ++ post)%string.

Section DrawnCalls.
Context {C : CFloat} {G : GlDriver C}.
Local Open Scope string_scope.

(** What one pass of the loop of [renderer_base_fetch_locations] needs
    from the driver for texture unit [i]. *)
Definition unit_located (renderer : vlc_gl_renderer C) (program : Z)
    (i : nat) : Prop :=
  GetUniformLocation program (snprintf_name "Texture" i) <> -1
  /\ (tex_target (interop renderer) = GL_TEXTURE_RECTANGLE ->
      GetUniformLocation program (snprintf_name "TexSize" i) <> -1).

Definition is_draw_call (c : gl_call C) : bool :=
  match c with
  | DrawElements _ _ _ _ => true
  | _ => false
  end.

Definition is_texture_bind (c : gl_call C) : bool :=
  match c with
  | BindTexture _ _ => true
  | _ => false
  end.

(** A command that sets a uniform variable. *)
Definition is_uniform_call (c : gl_call C) : bool :=
  match c with
  | UniformMatrix3fv _ _ _ _ | UniformMatrix4fv _ _ _ _
  | Uniform1i _ _ | Uniform2f _ _ _ | Uniform4f _ _ _ _ _ => true
  | _ => false
  end.

(** A command that chooses what a sampler reads: the texture unit of a
    sampler uniform, the active unit, the texture bound to it. *)
Definition is_sampler_call (c : gl_call C) : bool :=
  match c with
  | Uniform1i _ _ | ActiveTexture _ | BindTexture _ _ => true
  | _ => false
  end.

(** The commands of one pass of the loop of [DrawWithShaders], for
    texture unit [j]. *)
Definition texture_calls (renderer : vlc_gl_renderer C)
    (g : vlc_gl_renderer_gl C) (j : nat) : list (gl_call C) :=
  [ ActiveTexture (GL_TEXTURE0 + Z.of_nat j);
    BindTexture (tex_target (interop renderer))
      (aget 0%Z (textures renderer) j);
    UniformMatrix3fv (aget 0%Z (uloc_TexCoordsMap (uloc g)) j) 1 false
      (aget [] (var_TexCoordsMap renderer) j) ].

End DrawnCalls.

Section CropEdges.
Context {C : CFloat} {V : VlcCore C}.
Local Open Scope cfloat_scope.

(** The four numbers [left], [top], [right], [bottom] of texture unit
    [j], as [vlc_gl_renderer_Prepare] computes them. *)
Definition crop_edges (renderer : vlc_gl_renderer C) (source : video_format_t)
    (j : nat) : float * float * float * float :=
  let tex := nth j (texs (interop renderer)) no_tex_cfg in
  let scale_w := i2f (num (tex_w tex)) /. i2f (den (tex_w tex))
                 /. i2f (nth j (tex_width renderer) 0) in
  let scale_h := i2f (num (tex_h tex)) /. i2f (den (tex_h tex))
                 /. i2f (nth j (tex_height renderer) 0) in
  (i2f (uadd (i_x_offset source) 0) *. scale_w,
   i2f (uadd (i_y_offset source) 0) *. scale_h,
   i2f (uadd (i_x_offset source) (i_visible_width source)) *. scale_w,
   i2f (uadd (i_y_offset source) (i_visible_height source)) *. scale_h).

End CropEdges.

Section CameraAfter.
Context {C : CFloat} {L : LibM C} {V : VlcCore C}.

(** The camera that [vlc_gl_renderer_SetViewpoint] leaves for an accepted
    viewpoint, before the matrices are recomputed. *)
Definition camera_after (r : vlc_gl_renderer C) (p_vp : vlc_viewpoint_t C)
  : vlc_gl_renderer C :=
  let fovx := divf (mulf (fov p_vp) (d2f M_PI)) (i2f 180) in
  if lef (flit 1 1000) (fabsf (subf fovx (f_fovx r))) then
    UpdateZ (UpdateFOVy (set_camera r (vlc_viewpoint_reverse p_vp) fovx
                           (f_fovy r) (f_z r) (f_sar r)))
  else set_camera r (vlc_viewpoint_reverse p_vp) (f_fovx r) (f_fovy r)
         (f_z r) (f_sar r).

End CameraAfter.

(** *** Binary32 numbers as real numbers *)

(** The real number that a binary32 value stands for; 0 for the values
    that are not finite. *)
Definition SF2R (x : spec_float) : R :=
  match x with
  | S754_finite s m e => (IZR (cond_Zopp s (Zpos m)) * powerRZ 2 e)%R
  | _ => 0%R
  end.

(** A zero or a finite number: neither an infinity nor a NaN. *)
Definition is_finite (x : spec_float) : bool :=
  match x with
  | S754_zero _ | S754_finite _ _ _ => true
  | _ => false
  end.

(** [r] is the float of sign [s], mantissa [mr] and exponent [er]. *)
Definition float_is (r : spec_float) (s : bool) (mr er : Z) : Prop :=
  match mr with
  | Z0 => r = S754_zero s
  | Zpos p => r = S754_finite s p er
  | Zneg _ => False
  end.

(** What the renderer needs of [sincosf] at one angle: two finite
    numbers of absolute value at most 1 whose squares add up to 1 within
    [delta]. *)
Definition sincos_accurate (delta : R) (sc : spec_float * spec_float) : Prop :=
  is_finite (fst sc) = true /\ is_finite (snd sc) = true
  /\ (Rabs (SF2R (fst sc)) <= 1)%R /\ (Rabs (SF2R (snd sc)) <= 1)%R
  /\ (Rabs (SF2R (fst sc) * SF2R (fst sc) + SF2R (snd sc) * SF2R (snd sc)
             - 1)
      <= delta)%R.

(** The value of a finite binary32 number in units of [2^-149]. *)
Definition scaled (x : spec_float) : option Z :=
  match x with
  | S754_zero _ => Some 0
  | S754_finite s m e =>
      if -149 <=? e then Some (cond_Zopp s (Zpos m * 2 ^ (e + 149))) else None
  | _ => None
  end.

(** [sincos_accurate] for [delta = 2^-k], decided on the scaled values. *)
Definition sincos_accurate_b (k : Z) (sc : spec_float * spec_float) : bool :=
  match scaled (fst sc), scaled (snd sc) with
  | Some s, Some c =>
      (Z.abs s <=? 2 ^ 149) && (Z.abs c <=? 2 ^ 149)
      && (Z.abs (s * s + c * c - 2 ^ 298) <=? 2 ^ (298 - k))
  | _, _ => false
  end.

(** Componentwise distance of two vectors of real numbers. *)
Definition within (tol : R) (u v : list R) : Prop :=
  Forall2 (fun a b => (Rabs (a - b) <= tol)%R) u v.

(** The product of a matrix of binary32 entries and a vector of real
    numbers, computed without rounding. *)
Definition real_mat_vec (n : nat) (m : list spec_float) (v : list R) : list R :=
  glsl_mat_vec (C := Exact.exact) n (map SF2R m) v.

Section SphereAngles.
Context {C : CFloat}.
Local Open Scope cfloat_scope.

(** The angles that the two loops of [BuildSphere] hand to [sincosf]. *)
Definition sphere_theta (nbLatBands lat : nat) : float :=
  i2f (Z.of_nat lat) *. d2f M_PI /. i2f (Z.of_nat nbLatBands).

Definition sphere_phi (nbLonBands lon : nat) : float :=
  i2f (Z.of_nat (lon * 2)) *. d2f M_PI /. i2f (Z.of_nat nbLonBands).

End SphereAngles.

(** ** Concrete platforms for the OpenGL side *)

(** The platform of [Sample] with a driver that links the program of the
    renderer [renderer1] and knows the variables that its two shaders
    declare, and no other. *)
Module SampleGl.
Import IEEE.

Definition uloc0 : uloc_t :=
  {| uloc_Texture := repeat 0 PICTURE_PLANE_MAX;
     uloc_TexSize := repeat 0 PICTURE_PLANE_MAX;
     uloc_ConvMatrix := 0; uloc_FillColor := 0;
     uloc_TransformMatrix := 0; uloc_OrientationMatrix := 0;
     uloc_StereoMatrix := 0; uloc_ProjectionMatrix := 0;
     uloc_ViewMatrix := 0; uloc_ZoomMatrix := 0;
     uloc_TexCoordsMap := repeat 0 PICTURE_PLANE_MAX |}.

(** The OpenGL fields as [calloc] leaves them, with the three buffer
    names of [GenBuffers]. *)
Definition g0 : vlc_gl_renderer_gl ieee :=
  {| program_id := 0; uloc := uloc0;
     aloc := {| aloc_PicCoordsIn := 0; aloc_VertexPosition := 0 |};
     vertex_buffer_object := 1; index_buffer_object := 2;
     texture_buffer_object := 3; nb_indices := 0;
     var_OrientationMatrix := repeat Sample.zero 16;
     var_StereoMatrix := repeat Sample.zero 9 |}.

Definition renderer1 : vlc_gl_renderer ieee :=
  Sample.renderer0 Sample.VLC_CODEC_I420 3 PROJECTION_MODE_RECTANGULAR.

(** What the shader generator and [BuildFragmentShader] make of
    [renderer1]. *)
Definition generated : vlc_gl_renderer ieee :=
  match opengl_fragment_shader_init (V := Sample.core) renderer1
          GL_TEXTURE_2D Sample.VLC_CODEC_I420 COLOR_SPACE_BT709 with
  | Returns (r, _) => r
  | Aborts => renderer1
  end.

Definition generated_text : string :=
  match returned_shader
          (opengl_fragment_shader_init (V := Sample.core) renderer1
             GL_TEXTURE_2D Sample.VLC_CODEC_I420 COLOR_SPACE_BT709) with
  | Some s => s
  | None => EmptyString
  end.

Definition shaded : vlc_gl_renderer ieee :=
  match BuildFragmentShader (V := Sample.core) renderer1 with
  | Returns (r, _) => r
  | Aborts => renderer1
  end.

Definition fragment_text : string :=
  match returned_shader (BuildFragmentShader (V := Sample.core) renderer1) with
  | Some s => s
  | None => EmptyString
  end.

Definition vertex_text : string :=
  match BuildVertexShader (V := Sample.core) with
  | Some s => s
  | None => EmptyString
  end.

(** The position of [name] in [names] counted from [i], -1 when it is
    not there. *)
Fixpoint location_of (name : string) (names : list string) (i : Z) : Z :=
  match names with
  | [] => -1
  | n :: names =>
      if String.eqb name n then i else location_of name names (i + 1)
  end.

Definition known_uniforms : list string :=
  (declared_names "uniform" " " vertex_text
   ++ declared_names "uniform" " " fragment_text)%list.

Definition known_attributes : list string :=
  declared_names "attribute" " " vertex_text.

#[export] Instance driver : GlDriver ieee := {|
  GetUniformLocation := fun _ name => location_of name known_uniforms 0;
  GetAttribLocation := fun _ name => location_of name known_attributes 0;
  vlc_gl_BuildProgram := fun _ _ => 1;
  get_transform_matrix := None;
|}.

End SampleGl.

(** The platform of [Sample] with a chroma of four planes in its table. *)
Module SampleAlpha.
Import IEEE.

Definition VLC_CODEC_YUVA : vlc_fourcc_t := VLC_FOURCC "Y" "U" "V" "A".

Definition chroma_table
  : list (vlc_fourcc_t * (bool * vlc_chroma_description_t)) :=
  (VLC_CODEC_YUVA,
   (true, {| plane_count := 4; pixel_size := 1; pixel_bits := 8 |}))
  :: Sample.chroma_table.

#[export] Instance core : VlcCore ieee := {|
  vlc_fourcc_IsYUV := fun c =>
    match Sample.table_find c chroma_table with
    | Some (b, _) => b
    | None => false
    end;
  vlc_fourcc_GetChromaDescription := fun c =>
    match Sample.table_find c chroma_table with
    | Some (_, d) => Some d
    | None => None
    end;
  vlc_gl_StrHasToken := fun _ _ => true;
  vlc_viewpoint_reverse := Sample.reverse;
  vlc_viewpoint_to_4x4 := fun _ => identity;
  FIELD_OF_VIEW_DEGREES_MAX := of_Z 24 128 150;
  FIELD_OF_VIEW_DEGREES_MIN := of_Z 24 128 20;
  update_textures := fun _ _ _ _ _ => VLC_SUCCESS;
  memstream_open_ok := true;
  memstream_close_ok := true;
  vlc_alloc_ok := fun _ => true;
  heap_float := S754_nan;
  heap_ushort := 0;
  NDEBUG := false;
  glsl_version := 120;
  glsl_precision_header := EmptyString;
  asprintf_ok := true;
  strdup_ok := true;
  vertex_asprintf_ok := true;
|}.

End SampleAlpha.

(** Real numbers as values of the exact arithmetic. *)
Module ExactScene.

Definition real (x : R) : float (CFloat := Exact.exact) := x.

End ExactScene.

(** * Properties *)

(** ** Loops and arrays *)

Lemma for_loop_S {St : Type} (n : nat) (body : nat -> St -> St) (s : St) :
  for_loop (S n) body s = body n (for_loop n body s).
Proof. unfold for_loop. rewrite seq_S, fold_left_app. reflexivity. Qed.

(** An invariant that holds before the loop and is kept by every
    iteration holds after it. *)
Lemma for_loop_inv {St : Type} (P : nat -> St -> Prop) (n : nat)
    (body : nat -> St -> St) (s : St) :
  P 0%nat s ->
  (forall i st, (i < n)%nat -> P i st -> P (S i) (body i st)) ->
  P n (for_loop n body s).
Proof.
  intros H0 Hstep. induction n as [|n IH].
  - exact H0.
  - rewrite for_loop_S. apply Hstep; [lia|]. apply IH.
    intros i st Hi. apply Hstep. lia.
Qed.

Lemma memcpy_at_whole {T : Type} (dst src : list T) (n : nat) :
  length dst = n -> length src = n -> memcpy_at dst 0 src n = src.
Proof.
  intros Hd Hs. unfold memcpy_at. simpl.
  rewrite firstn_all2 by lia. rewrite skipn_all2 by lia. apply app_nil_r.
Qed.

Lemma length16_inv {T : Type} (m : list T) :
  length m = 16%nat ->
  exists a0 a1 a2 a3 a4 a5 a6 a7 a8 a9 a10 a11 a12 a13 a14 a15,
    m = [a0; a1; a2; a3; a4; a5; a6; a7; a8; a9; a10; a11; a12; a13; a14; a15].
Proof.
  intros H.
  do 16 (destruct m as [|? m]; [discriminate H|]).
  destruct m; [|discriminate H].
  repeat eexists.
Qed.

(** ** The conversion matrix *)

Section ConvMatrixFacts.
Context {C : CFloat}.

Lemma init_conv_matrix_length (m : list float) space range :
  length (init_conv_matrix m space range) = length m.
Proof.
  unfold init_conv_matrix. rewrite !length_insert.
  apply (for_loop_inv (fun _ st => length st = length m)); [reflexivity|].
  intros x st _ Hst.
  apply (for_loop_inv (fun _ st => length st = length m)); [exact Hst|].
  intros y st' _ Hst'. rewrite length_insert. exact Hst'.
Qed.

End ConvMatrixFacts.

(** C5. For every colour space and colour range, the matrix that
    [init_conv_matrix] leaves in a 16-entry array is a full 4x4 matrix whose
    bottom row (entries 3, 7, 11 and 15 of the column-major array) is
    exactly 0, 0, 0, 1. *)
Theorem init_conv_matrix_bottom_row {C : CFloat} (m : list float)
    (space : video_color_space_t) (range : video_color_range_t) :
  length m = 16%nat ->
  let M := init_conv_matrix m space range in
  length M = 16%nat
  /\ M !! 3%nat = Some (i2f 0) /\ M !! 7%nat = Some (i2f 0)
  /\ M !! 11%nat = Some (i2f 0) /\ M !! 15%nat = Some (i2f 1).
Proof.
  intros H M. split.
  - unfold M. rewrite init_conv_matrix_length. exact H.
  - destruct (length16_inv m H) as (?&?&?&?&?&?&?&?&?&?&?&?&?&?&?&?&->).
    repeat split; reflexivity.
Qed.

Lemma init_conv_matrix_bottom_row_witness :
  length (repeat Sample.zero 16) = 16%nat
  /\ let M := init_conv_matrix (C := IEEE.ieee) (repeat Sample.zero 16)
                COLOR_SPACE_BT601 COLOR_RANGE_FULL in
     length M = 16%nat
     /\ M !! 3%nat = Some (i2f 0) /\ M !! 7%nat = Some (i2f 0)
     /\ M !! 11%nat = Some (i2f 0) /\ M !! 15%nat = Some (i2f 1).
Proof.
  split; [reflexivity|].
  apply (init_conv_matrix_bottom_row (C := IEEE.ieee)). reflexivity.
Defined.

(** C7. Exchanging columns 1 and 2 of a 4x4 matrix twice gives the matrix
    back: the plane swap is an involution. *)
Theorem swap_uv_columns_involutive {C : CFloat} (m : list float) :
  length m = 16%nat -> swap_uv_columns (swap_uv_columns m) = m.
Proof.
  intros H.
  destruct (length16_inv m H) as (?&?&?&?&?&?&?&?&?&?&?&?&?&?&?&?&->).
  reflexivity.
Qed.

Lemma swap_uv_columns_involutive_witness :
  let m := init_conv_matrix (C := IEEE.ieee) (repeat Sample.zero 16)
             COLOR_SPACE_BT709 COLOR_RANGE_LIMITED in
  length m = 16%nat /\ swap_uv_columns (swap_uv_columns m) = m.
Proof.
  split; [reflexivity|].
  apply (swap_uv_columns_involutive (C := IEEE.ieee)). reflexivity.
Defined.

(** What the swap does: column 1 (entries 4..7) and column 2 (entries
    8..11) change places, columns 0 and 3 stay. *)
Lemma swap_uv_columns_spec {C : CFloat}
    (a0 a1 a2 a3 a4 a5 a6 a7 a8 a9 a10 a11 a12 a13 a14 a15 : float) :
  swap_uv_columns
    [a0; a1; a2; a3; a4; a5; a6; a7; a8; a9; a10; a11; a12; a13; a14; a15]
  = [a0; a1; a2; a3; a8; a9; a10; a11; a4; a5; a6; a7; a12; a13; a14; a15].
Proof. reflexivity. Qed.

(** ** Flat projections *)

(** C8. For every projection mode other than equirectangular and standard
    cubemap, [getViewpointMatrixes] leaves the projection, zoom and view
    matrices each equal to the 4x4 identity. *)
Theorem flat_projection_identity {C : CFloat} {L : LibM C} {V : VlcCore C}
    (renderer : vlc_gl_renderer C) (mode : video_projection_mode_t) :
  mode <> PROJECTION_MODE_EQUIRECTANGULAR ->
  mode <> PROJECTION_MODE_CUBEMAP_LAYOUT_STANDARD ->
  length (var_ProjectionMatrix renderer) = 16%nat ->
  length (var_ZoomMatrix renderer) = 16%nat ->
  length (var_ViewMatrix renderer) = 16%nat ->
  let r := getViewpointMatrixes renderer mode in
  var_ProjectionMatrix r = identity
  /\ var_ZoomMatrix r = identity
  /\ var_ViewMatrix r = identity.
Proof.
  intros He Hc Hp Hz Hv r.
  assert (Hr : r = set_view_matrices renderer
                 (memcpy_at (var_ProjectionMatrix renderer) 0 identity 16)
                 (memcpy_at (var_ZoomMatrix renderer) 0 identity 16)
                 (memcpy_at (var_ViewMatrix renderer) 0 identity 16)).
  { unfold r, getViewpointMatrixes. destruct mode; congruence. }
  rewrite Hr. simpl.
  repeat split; apply memcpy_at_whole; auto.
Qed.

Lemma flat_projection_identity_witness :
  let renderer :=
    Sample.renderer0 Sample.VLC_CODEC_I420 3 PROJECTION_MODE_RECTANGULAR in
  let r := getViewpointMatrixes (L := Sample.libm) (V := Sample.core)
             renderer (PROJECTION_MODE_OTHER 2) in
  var_ProjectionMatrix r = identity
  /\ var_ZoomMatrix r = identity
  /\ var_ViewMatrix r = identity.
Proof.
  apply (flat_projection_identity (L := Sample.libm) (V := Sample.core));
    solve [discriminate | reflexivity].
Defined.

(** ** The crop mapping *)

Section PrepareFacts.
Context {C : CFloat} {V : VlcCore C}.

Lemma same_visible_region_iff (a b : video_format_t) :
  same_visible_region a b = true <->
  i_x_offset a = i_x_offset b /\ i_y_offset a = i_y_offset b
  /\ i_visible_width a = i_visible_width b
  /\ i_visible_height a = i_visible_height b.
Proof.
  unfold same_visible_region.
  rewrite !andb_true_iff, !Z.eqb_eq. tauto.
Qed.

(** The frame has the region the cache holds: nothing is recomputed. *)
Lemma Prepare_cache_hit (renderer : vlc_gl_renderer C) (picture : picture_t) :
  same_visible_region (format picture) (last_source renderer) = true ->
  fst (vlc_gl_renderer_Prepare renderer picture) = renderer.
Proof.
  intros H. unfold vlc_gl_renderer_Prepare. rewrite H. reflexivity.
Qed.

(** The region differs: the maps are recomputed and the cache follows. *)
Lemma Prepare_cache_miss (renderer : vlc_gl_renderer C) (picture : picture_t) :
  same_visible_region (format picture) (last_source renderer) = false ->
  fst (vlc_gl_renderer_Prepare renderer picture)
  = update_crop renderer (format picture).
Proof.
  intros H. unfold vlc_gl_renderer_Prepare. rewrite H. reflexivity.
Qed.

(** After a call the cache holds the region of the frame just prepared. *)
Lemma Prepare_caches_region (renderer : vlc_gl_renderer C) (picture : picture_t) :
  same_visible_region (format picture)
    (last_source (fst (vlc_gl_renderer_Prepare renderer picture))) = true.
Proof.
  destruct (same_visible_region (format picture) (last_source renderer)) eqn:H.
  - rewrite Prepare_cache_hit by exact H. exact H.
  - rewrite Prepare_cache_miss by exact H.
    apply same_visible_region_iff. simpl. auto.
Qed.

(** The maps change only when the region of the frame is not the cached
    one. *)
Lemma Prepare_recomputes_only_on_change (renderer : vlc_gl_renderer C)
    (picture : picture_t) :
  var_TexCoordsMap (fst (vlc_gl_renderer_Prepare renderer picture))
    <> var_TexCoordsMap renderer ->
  same_visible_region (format picture) (last_source renderer) = false.
Proof.
  intros H.
  destruct (same_visible_region (format picture) (last_source renderer)) eqn:E;
    [|reflexivity].
  rewrite Prepare_cache_hit in H by exact E. congruence.
Qed.

End PrepareFacts.

(** C10. When a frame has the same visible region (x offset, y offset,
    visible width, visible height) as the frame prepared just before it,
    [vlc_gl_renderer_Prepare] leaves the cached crop-to-texture matrices
    [TexCoordsMap] and the cached region as they were. *)
Theorem Prepare_reuses_crop {C : CFloat} {V : VlcCore C}
    (renderer : vlc_gl_renderer C) (previous picture : picture_t) :
  i_x_offset (format picture) = i_x_offset (format previous) ->
  i_y_offset (format picture) = i_y_offset (format previous) ->
  i_visible_width (format picture) = i_visible_width (format previous) ->
  i_visible_height (format picture) = i_visible_height (format previous) ->
  let r1 := fst (vlc_gl_renderer_Prepare renderer previous) in
  let r2 := fst (vlc_gl_renderer_Prepare r1 picture) in
  var_TexCoordsMap r2 = var_TexCoordsMap r1
  /\ last_source r2 = last_source r1.
Proof.
  intros Hx Hy Hw Hh r1 r2.
  assert (Hhit : same_visible_region (format picture) (last_source r1) = true).
  { pose proof (Prepare_caches_region renderer previous) as Hp.
    apply same_visible_region_iff in Hp. apply same_visible_region_iff.
    fold r1 in Hp. intuition congruence. }
  unfold r2. rewrite Prepare_cache_hit by exact Hhit. auto.
Qed.

Lemma Prepare_reuses_crop_witness :
  let renderer :=
    Sample.renderer0 Sample.VLC_CODEC_I420 3 PROJECTION_MODE_RECTANGULAR in
  let previous := Sample.picture0 0 4 1920 1080 in
  let picture := Sample.picture0 0 4 1920 1080 in
  let r1 := fst (vlc_gl_renderer_Prepare (V := Sample.core) renderer previous) in
  let r2 := fst (vlc_gl_renderer_Prepare (V := Sample.core) r1 picture) in
  var_TexCoordsMap r1 <> var_TexCoordsMap renderer
  /\ var_TexCoordsMap r2 = var_TexCoordsMap r1
  /\ last_source r2 = last_source r1.
Proof.
  split; [vm_compute; discriminate|].
  apply (Prepare_reuses_crop (V := Sample.core)); reflexivity.
Defined.


(** ** The fragment-shader generator *)

Ltac codec_neq := let H := fresh in intro H; vm_compute in H; discriminate H.

Section ShaderFacts.
Context {C : CFloat} {V : VlcCore C}.

Lemma shader_text_interop (i1 i2 : vlc_gl_interop) target sampler lookup
    is_yuv swizzle yuv_space :
  tex_count i1 = tex_count i2 ->
  shader_text i1 target sampler lookup is_yuv swizzle yuv_space
  = shader_text i2 target sampler lookup is_yuv swizzle yuv_space.
Proof. intros H. unfold shader_text. rewrite H. reflexivity. Qed.

Lemma init_swizzle_interop (i1 i2 : vlc_gl_interop) swizzle chroma desc :
  api_extensions i1 = api_extensions i2 ->
  opengl_init_swizzle i1 swizzle chroma desc
  = opengl_init_swizzle i2 swizzle chroma desc.
Proof. intros H. unfold opengl_init_swizzle. rewrite H. reflexivity. Qed.

(** The generator reads the renderer only through its conversion matrix
    and through the texture count and extension string of its interop. *)
Lemma shader_init_reads (r1 r2 : vlc_gl_renderer C) target chroma yuv_space :
  conv_matrix r1 = conv_matrix r2 ->
  tex_count (interop r1) = tex_count (interop r2) ->
  api_extensions (interop r1) = api_extensions (interop r2) ->
  installed_matrix (opengl_fragment_shader_init r1 target chroma yuv_space)
  = installed_matrix (opengl_fragment_shader_init r2 target chroma yuv_space)
  /\ returned_shader (opengl_fragment_shader_init r1 target chroma yuv_space)
     = returned_shader (opengl_fragment_shader_init r2 target chroma yuv_space).
Proof.
  intros Hm Ht He. unfold opengl_fragment_shader_init.
  destruct (vlc_fourcc_GetChromaDescription chroma) as [desc|];
    [|simpl; rewrite Hm; split; reflexivity].
  destruct (chroma =? VLC_CODEC_XYZ12)%Z; [simpl; rewrite Hm; split; reflexivity|].
  destruct (vlc_fourcc_IsYUV chroma).
  - unfold renderer_yuv_base_init.
    cbn [negb Z.eqb VLC_SUCCESS interop set_conv].
    rewrite (init_swizzle_interop (interop r1) (interop r2)) by exact He.
    rewrite Hm.
    destruct (opengl_init_swizzle (interop r2) (repeat None PICTURE_PLANE_MAX)
                chroma desc) as [[sw ret]|]; [|split; reflexivity].
    cbn [bind].
    destruct (negb (ret =? VLC_SUCCESS)%Z); [split; reflexivity|].
    destruct target; cbn [bind]; try (split; reflexivity);
      (destruct memstream_open_ok; cbn [negb]; [|split; reflexivity]);
      cbn [interop set_conv];
      rewrite (shader_text_interop (interop r1) (interop r2)) by exact Ht;
      match goal with
      | |- context [shader_text ?i ?t ?s ?l ?y ?w ?sp] =>
          destruct (shader_text i t s l y w sp)
      end; cbn [bind]; try (split; reflexivity);
      destruct memstream_close_ok; split; reflexivity.
  - cbn [bind].
    destruct target; cbn [bind]; try (split; simpl; congruence);
      (destruct memstream_open_ok; cbn [negb]; [|split; simpl; congruence]);
      rewrite (shader_text_interop (interop r1) (interop r2)) by exact Ht;
      match goal with
      | |- context [shader_text ?i ?t ?s ?l ?y ?w ?sp] =>
          destruct (shader_text i t s l y w sp)
      end; cbn [bind]; try (split; reflexivity);
      destruct memstream_close_ok; split; simpl; congruence.
Qed.

Lemma BuildFragmentShader_matrix (r : vlc_gl_renderer C) :
  installed_matrix (BuildFragmentShader r)
  = installed_matrix
      (opengl_fragment_shader_init r (tex_target (interop r))
         (i_chroma (sw_fmt (interop r))) (space (sw_fmt (interop r)))).
Proof.
  unfold BuildFragmentShader.
  destruct (opengl_fragment_shader_init r (tex_target (interop r))
              (i_chroma (sw_fmt (interop r))) (space (sw_fmt (interop r))))
    as [[r' [text|]]|]; cbn [bind]; try reflexivity.
  destruct asprintf_ok; reflexivity.
Qed.

Lemma BuildFragmentShader_aborts (r : vlc_gl_renderer C) :
  opengl_fragment_shader_init r (tex_target (interop r))
    (i_chroma (sw_fmt (interop r))) (space (sw_fmt (interop r))) = Aborts ->
  BuildFragmentShader r = Aborts.
Proof. intros H. unfold BuildFragmentShader. rewrite H. reflexivity. Qed.

(** For a YUV format the generator either stops the process or leaves
    the matrix of [renderer_yuv_base_init] in the renderer. *)
Lemma shader_init_yuv_matrix (r : vlc_gl_renderer C) target chroma yuv_space desc :
  vlc_fourcc_IsYUV chroma = true ->
  vlc_fourcc_GetChromaDescription chroma = Some desc ->
  chroma <> VLC_CODEC_XYZ12 ->
  let o := opengl_fragment_shader_init r target chroma yuv_space in
  installed_matrix o
  = Some (conv_matrix (fst (renderer_yuv_base_init r chroma desc yuv_space)))
  \/ o = Aborts.
Proof.
  intros Hy Hd Hx o. unfold o, opengl_fragment_shader_init.
  rewrite Hd, Hy. apply Z.eqb_neq in Hx. rewrite Hx.
  unfold renderer_yuv_base_init.
  cbn [negb Z.eqb VLC_SUCCESS interop set_conv fst].
  destruct (opengl_init_swizzle (interop r) (repeat None PICTURE_PLANE_MAX)
              chroma desc) as [[sw ret]|]; [|right; reflexivity].
  cbn [bind].
  destruct (negb (ret =? VLC_SUCCESS)%Z); [left; reflexivity|].
  destruct target; cbn [bind]; try (right; reflexivity);
    (destruct memstream_open_ok; cbn [negb]; [|left; reflexivity]);
    match goal with
    | |- context [shader_text ?i ?t ?s ?l ?y ?w ?sp] =>
        destruct (shader_text i t s l y w sp)
    end; cbn [bind]; try (right; reflexivity);
    destruct memstream_close_ok; left; reflexivity.
Qed.

(** The matrix of [renderer_yuv_base_init] written out. *)
Lemma yuv_base_init_matrix (r : vlc_gl_renderer C) chroma desc yuv_space :
  conv_matrix (fst (renderer_yuv_base_init r chroma desc yuv_space))
  = let m0 := init_conv_matrix (conv_matrix r) yuv_space COLOR_RANGE_LIMITED in
    let m1 :=
      if (pixel_size desc =? 2)%Z && negb (chroma =? VLC_CODEC_P010)%Z
         && negb (chroma =? VLC_CODEC_P016)%Z
      then scale_yuv_range m0 (yuv_range_correction (pixel_bits desc))
      else m0 in
    if swap_uv chroma then swap_uv_columns m1 else m1.
Proof.
  unfold renderer_yuv_base_init. cbn [fst conv_matrix set_conv].
  destruct (pixel_size desc =? 2)%Z, (chroma =? VLC_CODEC_P010)%Z,
    (chroma =? VLC_CODEC_P016)%Z; reflexivity.
Qed.

End ShaderFacts.

(** C3. For a YUV format, the conversion matrix that building the fragment
    shader leaves in the renderer is derived from the matrix computed for
    the limited colour range, whatever the colour range of the format; two
    renderers that differ only in the colour range of their formats end up
    with the same matrix. *)
Theorem conv_matrix_ignores_color_range {C : CFloat} {V : VlcCore C}
    (r : vlc_gl_renderer C) (range : video_color_range_t)
    (desc : vlc_chroma_description_t) :
  let chroma := i_chroma (sw_fmt (interop r)) in
  let yuv_space := space (sw_fmt (interop r)) in
  vlc_fourcc_IsYUV chroma = true ->
  vlc_fourcc_GetChromaDescription chroma = Some desc ->
  chroma <> VLC_CODEC_XYZ12 ->
  (let m0 := init_conv_matrix (conv_matrix r) yuv_space COLOR_RANGE_LIMITED in
   let m1 :=
     if (pixel_size desc =? 2)%Z && negb (chroma =? VLC_CODEC_P010)%Z
        && negb (chroma =? VLC_CODEC_P016)%Z
     then scale_yuv_range m0 (yuv_range_correction (pixel_bits desc))
     else m0 in
   installed_matrix (BuildFragmentShader r)
   = Some (if swap_uv chroma then swap_uv_columns m1 else m1)
   \/ BuildFragmentShader r = Aborts)
  /\ installed_matrix (BuildFragmentShader (with_format_range r range))
     = installed_matrix (BuildFragmentShader r).
Proof.
  intros chroma yuv_space Hy Hd Hx. split.
  - destruct (shader_init_yuv_matrix r (tex_target (interop r)) chroma
                yuv_space desc Hy Hd Hx) as [H|H].
    + left. rewrite BuildFragmentShader_matrix. fold chroma yuv_space.
      rewrite H, yuv_base_init_matrix. reflexivity.
    + right. apply BuildFragmentShader_aborts. exact H.
  - rewrite !BuildFragmentShader_matrix.
    apply (shader_init_reads (with_format_range r range) r); reflexivity.
Qed.

Lemma conv_matrix_ignores_color_range_witness :
  let r := Sample.renderer0 Sample.VLC_CODEC_I420_10L 3
             PROJECTION_MODE_RECTANGULAR in
  let m0 := init_conv_matrix (conv_matrix r) COLOR_SPACE_BT709
              COLOR_RANGE_LIMITED in
  installed_matrix (BuildFragmentShader (V := Sample.core) r)
  = Some (scale_yuv_range m0 (yuv_range_correction 10))
  /\ installed_matrix
       (BuildFragmentShader (V := Sample.core)
          (with_format_range r COLOR_RANGE_LIMITED))
     = installed_matrix (BuildFragmentShader (V := Sample.core) r).
Proof.
  intros r m0.
  destruct (conv_matrix_ignores_color_range (V := Sample.core) r
              COLOR_RANGE_LIMITED
              {| plane_count := 3; pixel_size := 2; pixel_bits := 10 |})
    as [H1 H2]; [reflexivity | reflexivity | codec_neq |].
  split; [|exact H2].
  destruct H1 as [H1|H1].
  - rewrite H1. vm_compute. reflexivity.
  - apply (f_equal installed_matrix) in H1. vm_compute in H1. discriminate H1.
Defined.

(** C9. For a YUV chroma stored in one plane that is none of UYVY, YUYV,
    VYUY and YVYU, the generator fails and hands back no shader text: it
    stops at the assertion, or returns NULL when assertions are compiled
    out. *)
Theorem unknown_packed_yuv_fails {C : CFloat} {V : VlcCore C}
    (r : vlc_gl_renderer C) (target : GLenum) (chroma : vlc_fourcc_t)
    (yuv_space : video_color_space_t) (desc : vlc_chroma_description_t) :
  vlc_fourcc_IsYUV chroma = true ->
  vlc_fourcc_GetChromaDescription chroma = Some desc ->
  chroma <> VLC_CODEC_XYZ12 ->
  plane_count desc = 1%nat ->
  chroma <> VLC_CODEC_UYVY -> chroma <> VLC_CODEC_YUYV ->
  chroma <> VLC_CODEC_VYUY -> chroma <> VLC_CODEC_YVYU ->
  let o := opengl_fragment_shader_init r target chroma yuv_space in
  o = (if NDEBUG
       then Returns (fst (renderer_yuv_base_init r chroma desc yuv_space), None)
       else Aborts)
  /\ returned_shader o = None.
Proof.
  intros Hy Hd Hx Hp H1 H2 H3 H4 o.
  assert (Ho : o = if NDEBUG
                   then Returns (fst (renderer_yuv_base_init r chroma desc
                                        yuv_space), None)
                   else Aborts).
  { unfold o, opengl_fragment_shader_init.
    rewrite Hd, Hy. apply Z.eqb_neq in Hx. rewrite Hx.
    unfold renderer_yuv_base_init.
    cbn [negb Z.eqb VLC_SUCCESS interop set_conv fst].
    unfold opengl_init_swizzle. rewrite Hp.
    apply Z.eqb_neq in H1, H2, H3, H4. rewrite H1, H2, H3, H4.
    cbn [Nat.eqb]. unfold assert. rewrite orb_false_r.
    destruct NDEBUG; reflexivity. }
  split; [exact Ho|]. rewrite Ho. destruct NDEBUG; reflexivity.
Qed.

Lemma unknown_packed_yuv_fails_witness :
  let r := Sample.renderer0 Sample.VLC_CODEC_Y211 1
             PROJECTION_MODE_RECTANGULAR in
  let o := opengl_fragment_shader_init (V := Sample.core) r GL_TEXTURE_2D
             Sample.VLC_CODEC_Y211 COLOR_SPACE_BT601 in
  o = Aborts /\ returned_shader o = None.
Proof.
  apply (unknown_packed_yuv_fails (V := Sample.core)
           (Sample.renderer0 Sample.VLC_CODEC_Y211 1 PROJECTION_MODE_RECTANGULAR)
           GL_TEXTURE_2D Sample.VLC_CODEC_Y211 COLOR_SPACE_BT601
           {| plane_count := 1; pixel_size := 4; pixel_bits := 32 |});
    solve [reflexivity | codec_neq].
Defined.

(** ** The range correction of 16-bit storage *)

Section ScalingFacts.
Context {C : CFloat}.
Local Open Scope cfloat_scope.

(** The shape of the matrix of [init_conv_matrix]: twelve computed
    entries and the constant bottom row. *)
Lemma init_conv_matrix_entries (m : list float) space range :
  length m = 16%nat ->
  exists e0 e1 e2 e4 e5 e6 e8 e9 e10 e12 e13 e14,
    init_conv_matrix m space range
    = [e0; e1; e2; i2f 0; e4; e5; e6; i2f 0;
       e8; e9; e10; i2f 0; e12; e13; e14; i2f 1].
Proof.
  intros H.
  destruct (length16_inv m H) as (?&?&?&?&?&?&?&?&?&?&?&?&?&?&?&?&->).
  repeat eexists.
Qed.

(** The loop multiplies the twelve leading entries, which are the first
    three columns, and stops before the fourth column. *)
Lemma scale_yuv_range_entries
    (a0 a1 a2 a3 a4 a5 a6 a7 a8 a9 a10 a11 a12 a13 a14 a15 c : float) :
  scale_yuv_range
    [a0; a1; a2; a3; a4; a5; a6; a7; a8; a9; a10; a11; a12; a13; a14; a15] c
  = [a0 *. c; a1 *. c; a2 *. c; a3 *. c;
     a4 *. c; a5 *. c; a6 *. c; a7 *. c;
     a8 *. c; a9 *. c; a10 *. c; a11 *. c;
     a12; a13; a14; a15].
Proof. reflexivity. Qed.

Lemma scale_yuv_range_lookup (m : list float) (c : float) (i : nat) :
  length m = 16%nat ->
  scale_yuv_range m c !! i
  = if (i <? 12)%nat then (fun x => x *. c) <$> (m !! i) else m !! i.
Proof.
  intros H.
  destruct (length16_inv m H) as (?&?&?&?&?&?&?&?&?&?&?&?&?&?&?&?&->).
  rewrite scale_yuv_range_entries.
  do 16 (destruct i as [|i]; [reflexivity|]). reflexivity.
Qed.

End ScalingFacts.

(** In binary32 the correction is a positive finite number for every bit
    depth a 16-bit sample can have. *)
Lemma yuv_range_correction_finite (bits : Z) :
  1 <= bits <= 16 ->
  exists m e, yuv_range_correction (C := IEEE.ieee) bits = S754_finite false m e.
Proof.
  intros H.
  assert (Hb : bits = 1 \/ bits = 2 \/ bits = 3 \/ bits = 4 \/ bits = 5
               \/ bits = 6 \/ bits = 7 \/ bits = 8 \/ bits = 9 \/ bits = 10
               \/ bits = 11 \/ bits = 12 \/ bits = 13 \/ bits = 14
               \/ bits = 15 \/ bits = 16) by lia.
  repeat (destruct Hb as [->|Hb]; [vm_compute; eauto|]).
  subst bits. vm_compute. eauto.
Qed.

(** C2, as the code has it.  For a YUV format with two bytes per sample
    on the low bits (not P010 or P016) and a bit depth from 1 to 16, the
    matrix left in the renderer is the limited-range matrix with its first
    three columns (the twelve leading entries of the column-major array)
    multiplied by (2^16-1)/(2^bits-1), its fourth column untouched, the
    chroma columns exchanged for the swapped formats, and its bottom row
    still 0, 0, 0, 1. *)
Theorem yuv_range_scaling
    (r : vlc_gl_renderer IEEE.ieee) (chroma : vlc_fourcc_t)
    (desc : vlc_chroma_description_t) (yuv_space : video_color_space_t) :
  length (conv_matrix r) = 16%nat ->
  pixel_size desc = 2 ->
  chroma <> VLC_CODEC_P010 -> chroma <> VLC_CODEC_P016 ->
  1 <= pixel_bits desc <= 16 ->
  let c := yuv_range_correction (pixel_bits desc) in
  let M0 := init_conv_matrix (conv_matrix r) yuv_space COLOR_RANGE_LIMITED in
  let M1 := scale_yuv_range M0 c in
  let M := conv_matrix (fst (renderer_yuv_base_init r chroma desc yuv_space)) in
  M = (if swap_uv chroma then swap_uv_columns M1 else M1)
  /\ (forall col row : nat, (col < 3)%nat -> (row < 4)%nat ->
        M1 !! (col * 4 + row)%nat
        = (fun x => mulf x c) <$> (M0 !! (col * 4 + row)%nat))
  /\ (forall row : nat, (row < 4)%nat ->
        M1 !! (3 * 4 + row)%nat = M0 !! (3 * 4 + row)%nat)
  /\ M !! 3%nat = Some (i2f 0) /\ M !! 7%nat = Some (i2f 0)
  /\ M !! 11%nat = Some (i2f 0) /\ M !! 15%nat = Some (i2f 1).
Proof.
  intros Hlen Hsize Hp10 Hp16 Hbits c M0 M1 M.
  assert (HM : M = if swap_uv chroma then swap_uv_columns M1 else M1).
  { unfold M. rewrite yuv_base_init_matrix.
    apply Z.eqb_neq in Hp10, Hp16. rewrite Hsize, Hp10, Hp16. reflexivity. }
  assert (HM0 : length M0 = 16%nat).
  { unfold M0. rewrite init_conv_matrix_length. exact Hlen. }
  split; [exact HM|]. split; [|split].
  - intros col row Hc Hr. unfold M1.
    rewrite scale_yuv_range_lookup by exact HM0.
    replace (col * 4 + row <? 12)%nat with true; [reflexivity|].
    symmetry. apply Nat.ltb_lt. lia.
  - intros row Hr. unfold M1.
    rewrite scale_yuv_range_lookup by exact HM0.
    replace (3 * 4 + row <? 12)%nat with false; [reflexivity|].
    symmetry. apply Nat.ltb_ge. lia.
  - rewrite HM. unfold M1, M0.
    destruct (init_conv_matrix_entries (conv_matrix r) yuv_space
                COLOR_RANGE_LIMITED Hlen)
      as (e0&e1&e2&e4&e5&e6&e8&e9&e10&e12&e13&e14&->).
    rewrite scale_yuv_range_entries.
    destruct (yuv_range_correction_finite (pixel_bits desc) Hbits)
      as (mc & ec & Hc).
    unfold c. rewrite Hc.
    destruct (swap_uv chroma); repeat split; reflexivity.
Qed.

Lemma yuv_range_scaling_witness :
  let r := Sample.renderer0 Sample.VLC_CODEC_I420_10L 3
             PROJECTION_MODE_RECTANGULAR in
  let desc := {| plane_count := 3; pixel_size := 2; pixel_bits := 10 |} in
  let c := yuv_range_correction (C := IEEE.ieee) 10 in
  let M0 := init_conv_matrix (conv_matrix r) COLOR_SPACE_BT2020
              COLOR_RANGE_LIMITED in
  let M1 := scale_yuv_range M0 c in
  let M := conv_matrix
             (fst (renderer_yuv_base_init r
                     Sample.VLC_CODEC_I420_10L desc COLOR_SPACE_BT2020)) in
  M = M1
  /\ (forall col row : nat, (col < 3)%nat -> (row < 4)%nat ->
        M1 !! (col * 4 + row)%nat
        = (fun x => mulf x c) <$> (M0 !! (col * 4 + row)%nat))
  /\ (forall row : nat, (row < 4)%nat ->
        M1 !! (3 * 4 + row)%nat = M0 !! (3 * 4 + row)%nat)
  /\ M !! 3%nat = Some (i2f 0) /\ M !! 7%nat = Some (i2f 0)
  /\ M !! 11%nat = Some (i2f 0) /\ M !! 15%nat = Some (i2f 1).
Proof.
  apply (yuv_range_scaling
           (Sample.renderer0 Sample.VLC_CODEC_I420_10L 3
              PROJECTION_MODE_RECTANGULAR)
           Sample.VLC_CODEC_I420_10L
           {| plane_count := 3; pixel_size := 2; pixel_bits := 10 |}
           COLOR_SPACE_BT2020);
    solve [reflexivity | codec_neq | simpl; lia].
Defined.

(** C2, as the specification words it, fails on the fourth column: for 10-bit 4:2:0
    in BT.709 the entry in row 0 of column 3 is the one of the unscaled
    matrix, and scaling it would change it. *)
Lemma yuv_range_scaling_skips_offsets :
  let r := Sample.renderer0 Sample.VLC_CODEC_I420_10L 3
             PROJECTION_MODE_RECTANGULAR in
  let desc := {| plane_count := 3; pixel_size := 2; pixel_bits := 10 |} in
  let c := yuv_range_correction (C := IEEE.ieee) 10 in
  let M0 := init_conv_matrix (conv_matrix r) COLOR_SPACE_BT709
              COLOR_RANGE_LIMITED in
  let M := conv_matrix
             (fst (renderer_yuv_base_init r
                     Sample.VLC_CODEC_I420_10L desc COLOR_SPACE_BT709)) in
  M !! (3 * 4 + 0)%nat = M0 !! (3 * 4 + 0)%nat
  /\ M !! (3 * 4 + 0)%nat <> (fun x => mulf x c) <$> (M0 !! (3 * 4 + 0)%nat).
Proof.
  vm_compute. split; [reflexivity | discriminate].
Qed.

(** ** The viewpoint *)

(** C1, as the code has it.  [vlc_gl_renderer_SetViewpoint] answers
    VLC_EBADVAR, and leaves the renderer alone, exactly when the field of
    view is greater than the maximum or less than the minimum.  Every other
    value, the two bounds included, is accepted: the call answers
    VLC_SUCCESS, stores the reversed viewpoint and recomputes the
    projection, zoom and view matrices for the new camera. *)
Theorem SetViewpoint_fov_range {C : CFloat} {L : LibM C} {V : VlcCore C}
    (r : vlc_gl_renderer C) (p_vp : vlc_viewpoint_t C) :
  let out := vlc_gl_renderer_SetViewpoint r p_vp in
  if ltf FIELD_OF_VIEW_DEGREES_MAX (fov p_vp)
     || ltf (fov p_vp) FIELD_OF_VIEW_DEGREES_MIN
  then out = (r, VLC_EBADVAR)
  else snd out = VLC_SUCCESS
       /\ vp (fst out) = vlc_viewpoint_reverse p_vp
       /\ exists fovx fovy z,
            fst out
            = getViewpointMatrixes
                (set_camera r (vlc_viewpoint_reverse p_vp) fovx fovy z (f_sar r))
                (projection_mode (fmt r)).
Proof.
  intros out. unfold out, vlc_gl_renderer_SetViewpoint.
  destruct (ltf FIELD_OF_VIEW_DEGREES_MAX (fov p_vp)
            || ltf (fov p_vp) FIELD_OF_VIEW_DEGREES_MIN); [reflexivity|].
  cbn [fst snd].
  match goal with
  | |- context [if ?b then _ else _] => destruct b
  end.
  - split; [reflexivity|]. split.
    + unfold getViewpointMatrixes.
      destruct (projection_mode _); reflexivity.
    + eexists _, _, _. reflexivity.
  - split; [reflexivity|]. split.
    + unfold getViewpointMatrixes.
      destruct (projection_mode _); reflexivity.
    + eexists _, _, _. reflexivity.
Qed.

(** C1, as the specification words it, fails at the bounds: with the bounds of
    [vlc_viewpoint.h], a field of view of exactly 150 degrees (the
    maximum) and one of exactly 20 degrees (the minimum) are accepted. *)
Lemma SetViewpoint_accepts_bounds :
  let r := Sample.renderer0 Sample.VLC_CODEC_I420 3
             PROJECTION_MODE_EQUIRECTANGULAR in
  fov (Sample.viewpoint_of_fov 150)
    = FIELD_OF_VIEW_DEGREES_MAX (VlcCore := Sample.core)
  /\ fov (Sample.viewpoint_of_fov 20)
     = FIELD_OF_VIEW_DEGREES_MIN (VlcCore := Sample.core)
  /\ snd (vlc_gl_renderer_SetViewpoint (L := Sample.libm) (V := Sample.core)
            r (Sample.viewpoint_of_fov 150)) = VLC_SUCCESS
  /\ snd (vlc_gl_renderer_SetViewpoint (L := Sample.libm) (V := Sample.core)
            r (Sample.viewpoint_of_fov 20)) = VLC_SUCCESS
  /\ VLC_SUCCESS <> VLC_EBADVAR.
Proof.
  repeat split; try reflexivity. discriminate.
Qed.

(** ** The sphere *)

Section SphereFacts.
Context {C : CFloat} {L : LibM C} {V : VlcCore C}.
Local Open Scope nat_scope.

Lemma vertices_ok_write Q (k : nat) (v : list float) (x y z : float) :
  vertices_ok Q k v -> (k + 1) * 3 <= length v -> Q x y z ->
  vertices_ok Q (S k)
    (<[ k * 3 + 2 := z ]> (<[ k * 3 + 1 := y ]> (<[ k * 3 := x ]> v))).
Proof.
  intros Hok Hlen HQ j Hj.
  destruct (Nat.eq_dec j k) as [->|Hne].
  - exists x, y, z. repeat split; [| | |exact HQ].
    + rewrite !list_lookup_insert_ne by lia.
      apply list_lookup_insert_eq. lia.
    + rewrite list_lookup_insert_ne by lia.
      apply list_lookup_insert_eq. rewrite length_insert. lia.
    + apply list_lookup_insert_eq. rewrite !length_insert. lia.
  - destruct (Hok j) as (x' & y' & z' & Hx & Hy & Hz & HQ'); [lia|].
    exists x', y', z'.
    rewrite !list_lookup_insert_ne by lia. auto.
Qed.

Lemma sphere_vertices_ok Q (nbLatBands nbLonBands : nat) (v t : list float) :
  (forall theta phi,
     Q (mulf SPHERE_RADIUS (mulf (snd (sincosf phi)) (fst (sincosf theta))))
       (mulf SPHERE_RADIUS (snd (sincosf theta)))
       (mulf SPHERE_RADIUS (mulf (fst (sincosf phi)) (fst (sincosf theta))))) ->
  length v = (nbLatBands + 1) * (nbLonBands + 1) * 3 ->
  let out := sphere_vertices nbLatBands nbLonBands (v, t) in
  length (fst out) = length v /\ length (snd out) = length t
  /\ vertices_ok Q ((nbLatBands + 1) * (nbLonBands + 1)) (fst out).
Proof.
  intros HQ Hlen out. unfold out, sphere_vertices.
  apply (for_loop_inv
           (fun lat (st : list float * list float) =>
              length (fst st) = length v /\ length (snd st) = length t
              /\ vertices_ok Q (lat * (nbLonBands + 1)) (fst st))).
  - simpl. repeat split; auto. intros k Hk. lia.
  - intros lat st Hlat (Hv & Ht & Hok).
    cbv beta zeta.
    match goal with
    | |- context [sincosf ?a] =>
        destruct (sincosf a) as [sinTheta cosTheta] eqn:Etheta
    end.
    replace (S lat * (nbLonBands + 1)) with (lat * (nbLonBands + 1) + (nbLonBands + 1)) by lia.
    apply (for_loop_inv
             (fun lon (st : list float * list float) =>
                length (fst st) = length v /\ length (snd st) = length t
                /\ vertices_ok Q (lat * (nbLonBands + 1) + lon) (fst st))).
    + rewrite Nat.add_0_r. auto.
    + intros lon [vc tc] Hlon (Hv' & Ht' & Hok'). cbn [fst snd] in Hv', Ht', Hok' |- * .
      cbv beta iota zeta.
      match goal with
      | |- context [sincosf ?a] =>
          destruct (sincosf a) as [sinPhi cosPhi] eqn:Ephi
      end.
      cbn [fst snd]. rewrite !length_insert. repeat split; auto.
      replace (lat * (nbLonBands + 1) + S lon)
        with (S (lat * (nbLonBands + 1) + lon)) by lia.
      replace ((lat * (nbLonBands + 1) + lon) * 3 + 1 + 1)
        with ((lat * (nbLonBands + 1) + lon) * 3 + 2) by lia.
      apply vertices_ok_write; [exact Hok'| rewrite Hv', Hlen; nia |].
      match type of Etheta with
      | sincosf ?th = _ =>
          match type of Ephi with
          | sincosf ?ph = _ =>
              pose proof (HQ th ph) as H; rewrite Etheta, Ephi in H; exact H
          end
      end.
Qed.


Lemma to_ushort_bound (bound n : nat) :
  n < bound -> (0 <= to_ushort n < Z.of_nat bound)%Z.
Proof.
  intros H. unfold to_ushort.
  pose proof (Z.mod_pos_bound (Z.of_nat n) 65536 ltac:(lia)).
  pose proof (Z.mod_le (Z.of_nat n) 65536 ltac:(lia) ltac:(lia)).
  lia.
Qed.

Lemma indices_ok_write (bound c : nat) (ix : list Z) (a b d e f g : Z) :
  indices_ok bound c ix -> (c + 1) * 6 <= length ix ->
  (0 <= a < Z.of_nat bound)%Z -> (0 <= b < Z.of_nat bound)%Z ->
  (0 <= d < Z.of_nat bound)%Z -> (0 <= e < Z.of_nat bound)%Z ->
  (0 <= f < Z.of_nat bound)%Z -> (0 <= g < Z.of_nat bound)%Z ->
  indices_ok bound (S c)
    (<[ c * 3 * 2 + 5 := g ]> (<[ c * 3 * 2 + 4 := f ]>
       (<[ c * 3 * 2 + 3 := e ]> (<[ c * 3 * 2 + 2 := d ]>
          (<[ c * 3 * 2 + 1 := b ]> (<[ c * 3 * 2 := a ]> ix)))))).
Proof.
  intros Hok Hlen Ha Hb Hd He Hf Hg j Hj.
  destruct (lt_dec j (c * 6)) as [Hold|Hnew].
  - destruct (Hok j Hold) as (i & Hi & Hb').
    exists i. rewrite !list_lookup_insert_ne by lia. auto.
  - assert (Hcase : j = c * 3 * 2 \/ j = c * 3 * 2 + 1 \/ j = c * 3 * 2 + 2
                    \/ j = c * 3 * 2 + 3 \/ j = c * 3 * 2 + 4
                    \/ j = c * 3 * 2 + 5) by lia.
    destruct Hcase as [->|[->|[->|[->|[->| ->]]]]]; eexists;
      (split;
       [ rewrite ?list_lookup_insert_ne by lia;
         apply list_lookup_insert_eq; rewrite ?length_insert; lia
       | assumption ]).
Qed.

Lemma sphere_indices_ok (B : nat) (ix : list Z) :
  length ix = B * B * 3 * 2 ->
  let out := sphere_indices B B ix in
  length out = length ix /\ indices_ok ((B + 1) * (B + 1)) (B * B) out.
Proof.
  intros Hlen out. unfold out, sphere_indices.
  apply (for_loop_inv
           (fun lat (st : list Z) =>
              length st = length ix
              /\ indices_ok ((B + 1) * (B + 1)) (lat * B) st)).
  - split; [reflexivity|]. intros j Hj. lia.
  - intros lat st Hlat (Hl & Hok).
    replace (S lat * B) with (lat * B + B) by lia.
    apply (for_loop_inv
             (fun lon (st : list Z) =>
                length st = length ix
                /\ indices_ok ((B + 1) * (B + 1)) (lat * B + lon) st)).
    + rewrite Nat.add_0_r. auto.
    + intros lon st' Hlon (Hl' & Hok').
      cbv beta zeta. rewrite !length_insert. split; [exact Hl'|].
      replace (lat * B + S lon) with (S (lat * B + lon)) by lia.
      apply indices_ok_write; try exact Hok'; try (apply to_ushort_bound; nia).
      rewrite Hl', Hlen. nia.
Qed.

(** With memory available the builder succeeds, announces
    [(nbLat+1)*(nbLon+1)] vertices and [6*nbLat*nbLon] indices, and hands
    back arrays of the matching sizes. *)
Lemma BuildSphere_bands_counts (nbLatBands nbLonBands : nat) :
  (forall n, vlc_alloc_ok n = true) ->
  let out := BuildSphere_bands nbLatBands nbLonBands in
  fst out = VLC_SUCCESS
  /\ nbVertices (snd out) = (nbLatBands + 1) * (nbLonBands + 1)
  /\ nbIndices (snd out) = 6 * (nbLatBands * nbLonBands)
  /\ length (vertexCoord (snd out)) = 3 * nbVertices (snd out)
  /\ length (textureCoord (snd out)) = 2 * nbVertices (snd out)
  /\ length (indices (snd out)) = nbIndices (snd out).
Proof.
  intros Hmem out. unfold out, BuildSphere_bands, alloc_mesh.
  rewrite !Hmem. cbn [negb].
  destruct (sphere_vertices _ _ _) as [vc tc] eqn:Ev.
  cbn [fst snd nbVertices nbIndices vertexCoord textureCoord indices].
  assert (Hv : length vc = (nbLatBands + 1) * (nbLonBands + 1) * 3
               /\ length tc = (nbLatBands + 1) * (nbLonBands + 1) * 2).
  { pose proof (sphere_vertices_ok (fun _ _ _ => True) nbLatBands nbLonBands
                  (repeat heap_float ((nbLatBands + 1) * (nbLonBands + 1) * 3))
                  (repeat heap_float ((nbLatBands + 1) * (nbLonBands + 1) * 2))
                  ltac:(intros; exact I) ltac:(apply repeat_length)) as H.
    cbv zeta in H. rewrite Ev in H. cbn [fst snd] in H.
    rewrite !repeat_length in H. tauto. }
  destruct Hv as [Hv Ht]. rewrite Hv, Ht.
  assert (Hi : length (sphere_indices nbLatBands nbLonBands
                         (repeat heap_ushort (nbLatBands * nbLonBands * 3 * 2)))
               = nbLatBands * nbLonBands * 3 * 2).
  { unfold sphere_indices.
    apply (for_loop_inv (fun _ (st : list Z) =>
                           length st = nbLatBands * nbLonBands * 3 * 2)).
    - apply repeat_length.
    - intros lat st _ Hst.
      apply (for_loop_inv (fun _ (st : list Z) =>
                             length st = nbLatBands * nbLonBands * 3 * 2));
        [exact Hst|].
      intros lon st' _ Hst'. cbv beta zeta. rewrite !length_insert. exact Hst'. }
  rewrite Hi. repeat split; lia.
Qed.

End SphereFacts.


(** ** Rounding in binary32 *)

Lemma iter_pos_nat {A : Type} (f : A -> A) (p : positive) (x : A) :
  SpecFloat.iter_pos f p x = Nat.iter (Pos.to_nat p) f x.
Proof.
  revert x. induction p as [p IH|p IH|]; intros x; cbn [SpecFloat.iter_pos].
  - rewrite !IH. rewrite Pos2Nat.inj_xI.
    replace (S (2 * Pos.to_nat p)) with (Pos.to_nat p + (Pos.to_nat p + 1))%nat by lia.
    rewrite !Nat.iter_add. reflexivity.
  - rewrite !IH. rewrite Pos2Nat.inj_xO.
    replace (2 * Pos.to_nat p)%nat with (Pos.to_nat p + Pos.to_nat p)%nat by lia.
    rewrite Nat.iter_add. reflexivity.
  - reflexivity.
Qed.

Lemma shr_1_spec (r : shr_record) :
  0 <= shr_m r ->
  shr_m (shr_1 r) = shr_m r / 2 /\ shr_r (shr_1 r) = Z.odd (shr_m r).
Proof.
  destruct r as [m rb sb]. simpl. intros Hm.
  destruct m as [|[p|p|]|p]; simpl; try lia; split; try reflexivity.
  - rewrite (Pos2Z.inj_xI p). apply Z.div_unique with (r := 1); lia.
  - rewrite (Pos2Z.inj_xO p). apply Z.div_unique with (r := 0); lia.
Qed.

(** After [n] one-bit shifts the mantissa is the quotient by [2^n], and the
    round bit is set only if something was shifted out. *)
Lemma shr_iter_spec (m : Z) (n : nat) :
  0 <= m ->
  let r := Nat.iter n shr_1 {| shr_m := m; shr_r := false; shr_s := false |} in
  shr_m r = m / 2 ^ Z.of_nat n
  /\ (shr_r r = true -> m mod 2 ^ Z.of_nat n <> 0).
Proof.
  intros Hm. induction n as [|n IH].
  - simpl. split; [rewrite Z.div_1_r; reflexivity | discriminate].
  - cbv zeta in IH |- * . destruct IH as [IHm IHr].
    rewrite Nat.iter_succ.
    set (r := Nat.iter n shr_1 _) in * .
    assert (Hr0 : 0 <= shr_m r) by (rewrite IHm; apply Z.div_pos; lia).
    destruct (shr_1_spec r Hr0) as [H1 H2].
    rewrite H1, H2, IHm. rewrite Nat2Z.inj_succ, Z.pow_succ_r by lia.
    split.
    + rewrite Z.div_div by lia. f_equal. lia.
    + intros Hodd Hmod.
      apply Z.mod_divide in Hmod; [|lia]. destruct Hmod as [q Hq].
      rewrite Hq in Hodd.
      replace (q * (2 * 2 ^ Z.of_nat n)) with ((2 * q) * 2 ^ Z.of_nat n) in Hodd by lia.
      rewrite Z.div_mul in Hodd by lia.
      rewrite Z.odd_mul in Hodd. discriminate.
Qed.

Lemma round_nearest_even_spec (r : shr_record) :
  let m := round_nearest_even (shr_m r) (loc_of_shr_record r) in
  shr_m r <= m <= shr_m r + 1 /\ (m = shr_m r + 1 -> shr_r r = true).
Proof.
  destruct r as [m [|] [|]]; simpl; try (split; [lia|]; try reflexivity; lia).
  destruct (Z.even m); split; try lia; reflexivity.
Qed.

Lemma digits2_pos_bounds (p : positive) :
  2 ^ (Zpos (digits2_pos p) - 1) <= Zpos p < 2 ^ Zpos (digits2_pos p).
Proof.
  induction p as [p IH|p IH|]; cbn [digits2_pos].
  - rewrite Pos2Z.inj_succ, (Pos2Z.inj_xI p).
    replace (Z.succ (Zpos (digits2_pos p)) - 1) with (Zpos (digits2_pos p)) by lia.
    rewrite Z.pow_succ_r by lia.
    replace (2 ^ Zpos (digits2_pos p)) with (2 * 2 ^ (Zpos (digits2_pos p) - 1)) in *
      by (rewrite <- Z.pow_succ_r by lia; f_equal; lia).
    revert IH. generalize (2 ^ (Zpos (digits2_pos p) - 1)). lia.
  - rewrite Pos2Z.inj_succ, (Pos2Z.inj_xO p).
    replace (Z.succ (Zpos (digits2_pos p)) - 1) with (Zpos (digits2_pos p)) by lia.
    rewrite Z.pow_succ_r by lia.
    replace (2 ^ Zpos (digits2_pos p)) with (2 * 2 ^ (Zpos (digits2_pos p) - 1)) in *
      by (rewrite <- Z.pow_succ_r by lia; f_equal; lia).
    revert IH. generalize (2 ^ (Zpos (digits2_pos p) - 1)). lia.
  - simpl. lia.
Qed.

Lemma digits2_pos_unique (p : positive) (n : Z) :
  2 ^ (n - 1) <= Zpos p < 2 ^ n -> Zpos (digits2_pos p) = n.
Proof.
  intros [Hlo Hhi]. pose proof (digits2_pos_bounds p) as [Hlo' Hhi'].
  assert (0 < n).
  { destruct (Z_lt_le_dec 0 n); [assumption|].
    assert (2 ^ n <= 2 ^ 0) by (destruct (Z.eq_dec n 0) as [->|]; [lia|rewrite Z.pow_neg_r by lia; simpl; lia]).
    simpl in *; lia. }
  destruct (Z_lt_le_dec (Zpos (digits2_pos p)) n) as [Hlt|Hge].
  - assert (2 ^ Zpos (digits2_pos p) <= 2 ^ (n - 1)) by (apply Z.pow_le_mono_r; lia).
    lia.
  - destruct (Z_lt_le_dec n (Zpos (digits2_pos p))) as [Hlt|Hge']; [|lia].
    assert (2 ^ n <= 2 ^ (Zpos (digits2_pos p) - 1)) by (apply Z.pow_le_mono_r; lia).
    lia.
Qed.

Lemma iter_xO_spec (m d : positive) :
  Zpos (Pos.iter xO m d) = Zpos m * 2 ^ Zpos d.
Proof.
  rewrite <- Z.shiftl_mul_pow2 by lia. simpl.
  apply (Pos.iter_swap_gen _ _ Zpos xO (Z.mul 2)). reflexivity.
Qed.

Lemma fexp32 (e : Z) : fexp 24 128 e = Z.max (e - 24) (-149).
Proof. reflexivity. Qed.

Lemma pow2_pos (a : Z) : 0 <= a -> 0 < 2 ^ a.
Proof. intros H. apply Z.pow_pos_nonneg; lia. Qed.

Lemma pow2_le (a b : Z) : 0 <= a -> 2 ^ a <= 2 ^ b -> a <= b.
Proof.
  intros Ha H. destruct (Z_lt_le_dec b a) as [Hlt|]; [|assumption].
  destruct (Z_lt_le_dec b 0) as [Hneg|Hnn].
  - rewrite (Z.pow_neg_r 2 b) in H by lia. pose proof (pow2_pos a Ha). lia.
  - assert (2 ^ b < 2 ^ a) by (apply Z.pow_lt_mono_r; lia). lia.
Qed.

(** A positive number [m * 2^e] that is at most 1, with [e] at least the
    smallest exponent, has [m <= 2^(-e)]. *)
Lemma le_one_mantissa (m : positive) (e : Z) :
  -149 <= e -> Zpos m * 2 ^ (e + 149) <= 2 ^ 149 ->
  e <= 0 /\ Zpos m <= 2 ^ (- e) /\ Zpos (digits2_pos m) + e <= 1.
Proof.
  intros He Hv.
  pose proof (digits2_pos_bounds m) as [Hlo _].
  pose proof (pow2_pos (e + 149) ltac:(lia)) as HX.
  assert (Hd : Zpos (digits2_pos m) + e <= 1).
  { assert (H : 2 ^ (Zpos (digits2_pos m) - 1 + (e + 149)) <= 2 ^ 149).
    { rewrite Z.pow_add_r by lia.
      apply Z.le_trans with (Zpos m * 2 ^ (e + 149)); [|exact Hv].
      apply Z.mul_le_mono_nonneg_r; lia. }
    apply pow2_le in H; lia. }
  assert (He0 : e <= 0) by lia.
  repeat split; try assumption.
  replace (2 ^ 149) with (2 ^ (- e) * 2 ^ (e + 149)) in Hv
    by (rewrite <- Z.pow_add_r by lia; f_equal; lia).
  apply Z.mul_le_mono_pos_r in Hv; assumption.
Qed.

Lemma shr_fexp_exact (mz ez : Z) :
  fexp 24 128 (Zdigits2 mz + ez) = ez ->
  shr_fexp 24 128 mz ez loc_Exact
  = ({| shr_m := mz; shr_r := false; shr_s := false |}, ez).
Proof.
  intros H. unfold shr_fexp. rewrite H, Z.sub_diag. reflexivity.
Qed.

(** A canonical mantissa goes through [binary_round_aux] unchanged. *)
Lemma round_aux_exact (mz : positive) (ez : Z) :
  fexp 24 128 (Zpos (digits2_pos mz) + ez) = ez -> ez <= 104 ->
  binary_round_aux 24 128 false (Zpos mz) ez loc_Exact
  = S754_finite false mz ez.
Proof.
  intros H Hle. unfold binary_round_aux.
  rewrite shr_fexp_exact by exact H.
  cbn [shr_m loc_of_shr_record round_nearest_even].
  rewrite shr_fexp_exact by exact H.
  cbn [shr_m].
  replace (ez <=? 128 - 24) with true; [reflexivity|].
  symmetry. apply Z.leb_le. lia.
Qed.

(** A mantissa of more than 24 bits is shifted right and rounded; a value
    that was at most 1 stays at most 1. *)
Lemma round_aux_shift (m : positive) (e : Z) :
  24 < Zpos (digits2_pos m) -> -149 <= e -> e <= 0 ->
  Zpos m <= 2 ^ (- e) ->
  exists m' e',
    binary_round_aux 24 128 false (Zpos m) e loc_Exact = S754_finite false m' e'
    /\ at_most_one m' e'.
Proof.
  intros Hd He He0 Hm.
  pose proof (digits2_pos_bounds m) as [Hlo Hhi].
  set (d := Zpos (digits2_pos m)) in * .
  set (k := d - 24).
  assert (Hk : 0 < k) by (unfold k; lia).
  destruct k as [|p|p] eqn:Ek; try lia.
  assert (Hde : d - 1 <= - e).
  { apply pow2_le; [lia|]. lia. }
  (* the first shift *)
  assert (E1 : shr_fexp 24 128 (Zpos m) e loc_Exact
               = (Nat.iter (Pos.to_nat p) shr_1
                    {| shr_m := Zpos m; shr_r := false; shr_s := false |},
                  e + Zpos p)).
  { unfold shr_fexp. cbn [Zdigits2]. fold d. rewrite fexp32.
    replace (Z.max (d + e - 24) (-149) - e) with (Zpos p) by lia.
    unfold shr. rewrite iter_pos_nat. reflexivity. }
  unfold binary_round_aux. rewrite E1. clear E1.
  destruct (shr_iter_spec (Zpos m) (Pos.to_nat p) ltac:(lia)) as [Hm1 Hr1].
  rewrite positive_nat_Z in Hm1, Hr1.
  set (r1 := Nat.iter (Pos.to_nat p) shr_1 _) in * .
  destruct (round_nearest_even_spec r1) as [Hm2 Hup].
  set (m2 := round_nearest_even (shr_m r1) (loc_of_shr_record r1)) in * .
  pose proof (pow2_pos (Zpos p) ltac:(lia)) as HK.
  assert (Hd24 : 2 ^ d = 2 ^ 24 * 2 ^ Zpos p)
    by (rewrite <- Z.pow_add_r by lia; f_equal; lia).
  assert (Hd23 : 2 ^ (d - 1) = 2 ^ 23 * 2 ^ Zpos p)
    by (rewrite <- Z.pow_add_r by lia; f_equal; lia).
  assert (HT : 2 ^ (- e) = 2 ^ (- (e + Zpos p)) * 2 ^ Zpos p)
    by (rewrite <- Z.pow_add_r by lia; f_equal; lia).
  assert (Hm1lo : 2 ^ 23 <= shr_m r1).
  { rewrite Hm1. apply Z.div_le_lower_bound; lia. }
  assert (Hm1hi : shr_m r1 < 2 ^ 24).
  { rewrite Hm1. apply Z.div_lt_upper_bound; lia. }
  assert (Hm2T : m2 <= 2 ^ (- (e + Zpos p))).
  { assert (Hq : shr_m r1 <= 2 ^ (- (e + Zpos p))).
    { rewrite Hm1. apply Z.div_le_upper_bound; lia. }
    destruct (Z.eq_dec m2 (shr_m r1 + 1)) as [Hplus|]; [|lia].
    destruct (Z.eq_dec (shr_m r1) (2 ^ (- (e + Zpos p)))) as [Heq|]; [|lia].
    exfalso. apply (Hr1 (Hup Hplus)).
    pose proof (Z.mul_div_le (Zpos m) (2 ^ Zpos p) HK) as Hle.
    rewrite <- Hm1, Heq in Hle.
    assert (Hmeq : Zpos m = 2 ^ (- (e + Zpos p)) * 2 ^ Zpos p) by lia.
    rewrite Hmeq. apply Z.mod_mul. lia. }
  destruct m2 as [|q2|q2] eqn:Em2; try lia.
  cbv beta iota.
  destruct (Z.eq_dec (Zpos q2) (2 ^ 24)) as [Htop|Hntop].
  - (* the rounding carried into a 25th bit *)
    assert (q2 = 16777216%positive) by (apply Pos2Z.inj; exact Htop). subst q2.
    assert (E2 : shr_fexp 24 128 16777216 (e + Zpos p) loc_Exact
                 = ({| shr_m := 8388608; shr_r := false; shr_s := false |},
                    e + Zpos p + 1)).
    { unfold shr_fexp. change (Zdigits2 16777216) with 25. rewrite fexp32.
      replace (Z.max (25 + (e + Zpos p) - 24) (-149) - (e + Zpos p)) with 1 by lia.
      reflexivity. }
    rewrite E2. cbn [shr_m].
    assert (He1 : e + Zpos p <= -24).
    { assert (24 <= - (e + Zpos p)); [|lia].
      apply pow2_le; [lia|]. rewrite <- Htop. exact Hm2T. }
    replace (e + Zpos p + 1 <=? 128 - 24) with true
      by (symmetry; apply Z.leb_le; lia).
    eexists _, _. split; [reflexivity|].
    unfold at_most_one. simpl. lia.
  - assert (Hdq : Zpos (digits2_pos q2) = 24)
      by (apply digits2_pos_unique; simpl; lia).
    assert (E2 : shr_fexp 24 128 (Zpos q2) (e + Zpos p) loc_Exact
                 = ({| shr_m := Zpos q2; shr_r := false; shr_s := false |},
                    e + Zpos p)).
    { apply shr_fexp_exact. cbn [Zdigits2]. rewrite Hdq, fexp32. lia. }
    rewrite E2. cbn [shr_m].
    assert (He1 : e + Zpos p <= -23).
    { assert (23 <= - (e + Zpos p)); [|lia].
      apply pow2_le; [lia|]. lia. }
    replace (e + Zpos p <=? 128 - 24) with true
      by (symmetry; apply Z.leb_le; lia).
    eexists _, _. split; [reflexivity|].
    unfold at_most_one.
    destruct (Z.eq_dec (e + Zpos p) (-23)) as [Heq|]; [|lia].
    right. split; [exact Heq|]. rewrite Heq in Hm2T. simpl in Hm2T. simpl. lia.
Qed.

(** Rounding to binary32 a positive number that is at most 1 gives a
    finite positive float that is at most 1. *)
Lemma binary_round_unit (m : positive) (e : Z) :
  -149 <= e -> Zpos m * 2 ^ (e + 149) <= 2 ^ 149 ->
  exists m' e',
    binary_round 24 128 false m e = S754_finite false m' e'
    /\ at_most_one m' e'.
Proof.
  intros He Hv.
  destruct (le_one_mantissa m e He Hv) as (He0 & Hm & Hd).
  pose proof (digits2_pos_bounds m) as [Hlo Hhi].
  unfold binary_round. rewrite fexp32.
  set (d := Zpos (digits2_pos m)) in * .
  set (fe := Z.max (d + e - 24) (-149)).
  assert (Hfe : fe <= -23) by (unfold fe; lia).
  unfold shl_align.
  destruct (fe - e) as [|q|q] eqn:Eq.
  - (* already canonical *)
    assert (e = fe) by lia.
    exists m, e. split.
    + apply round_aux_exact; [|lia]. fold d. rewrite fexp32. fold fe. lia.
    + unfold at_most_one.
      destruct (Z.eq_dec e (-23)) as [Heq|]; [|lia].
      right. split; [exact Heq|]. rewrite Heq in Hm. exact Hm.
  - (* too many bits *)
    apply round_aux_shift; try assumption. fold d. unfold fe in Eq. lia.
  - (* fewer bits than the format has: the mantissa is shifted left *)
    assert (Hq : Zpos q = e - fe) by lia.
    pose proof (iter_xO_spec m q) as Hmz.
    pose proof (pow2_pos (Zpos q) ltac:(lia)) as HQ.
    assert (Hdz : Zpos (digits2_pos (Pos.iter xO m q)) = d + Zpos q).
    { apply digits2_pos_unique. rewrite Hmz.
      replace (d + Zpos q - 1) with ((d - 1) + Zpos q) by lia.
      rewrite !Z.pow_add_r by lia. split.
      - apply Z.mul_le_mono_nonneg_r; lia.
      - apply Z.mul_lt_mono_pos_r; lia. }
    exists (Pos.iter xO m q), fe. split.
    + apply round_aux_exact; [|lia]. rewrite Hdz, fexp32.
      replace (d + Zpos q + fe) with (d + e) by lia. reflexivity.
    + unfold at_most_one.
      destruct (Z.eq_dec fe (-23)) as [Heq|]; [|lia].
      right. split; [exact Heq|]. rewrite Hmz.
      assert (Hq' : Zpos q = e + 23) by lia. rewrite Hq'.
      apply Z.le_trans with (2 ^ (- e) * 2 ^ (e + 23)).
      * apply Z.mul_le_mono_nonneg_r; [|exact Hm].
        apply Z.pow_nonneg. lia.
      * rewrite <- Z.pow_add_r by lia.
        replace (- e + (e + 23)) with 23 by lia. lia.
Qed.

Lemma at_most_one_in_unit (m : positive) (e : Z) :
  at_most_one m e -> in_unit (S754_finite false m e).
Proof.
  intros H. split; [reflexivity|].
  unfold SFleb, SFcompare, one32.
  destruct H as [H|[-> H]].
  - apply Z.compare_lt_iff in H. rewrite H. reflexivity.
  - rewrite Z.compare_refl.
    change (2 ^ 23) with (Zpos 8388608) in H.
    rewrite Pos.compare_cont_spec. unfold Pos.switch_Eq.
    destruct (Pos.compare m 8388608) eqn:E; try reflexivity.
    apply Pos.compare_gt_iff in E. lia.
Qed.

Lemma zero_in_unit (s : bool) : in_unit (S754_zero s).
Proof. split; reflexivity. Qed.

Lemma shl_align_fst (mx : positive) (ex ez : Z) :
  ez <= ex -> Zpos (fst (shl_align mx ex ez)) = Zpos mx * 2 ^ (ex - ez).
Proof.
  intros H. unfold shl_align.
  destruct (ez - ex) as [|d|d] eqn:E; try lia; cbn [fst].
  - replace (ex - ez) with 0 by lia. lia.
  - rewrite iter_xO_spec. f_equal. f_equal. lia.
Qed.

Lemma aligned_ival (mx : positive) (ex ez : Z) :
  -149 <= ez -> ez <= ex ->
  Zpos (fst (shl_align mx ex ez)) * 2 ^ (ez + 149) = ival mx ex.
Proof.
  intros Hz H. rewrite shl_align_fst by exact H. unfold ival.
  rewrite <- Z.mul_assoc, <- Z.pow_add_r by lia. do 2 f_equal. lia.
Qed.

Lemma SFadd_unit (mc : positive) (ec : Z) (mp : positive) (ep : Z) :
  -149 <= ec -> -149 <= ep ->
  ival mc ec + ival mp ep <= 2 ^ 149 ->
  in_unit (SFadd 24 128 (S754_finite false mc ec) (S754_finite false mp ep)).
Proof.
  intros Hc Hp Hv. unfold SFadd. cbn [cond_Zopp].
  set (ez := Z.min ec ep).
  pose proof (aligned_ival mc ec ez ltac:(unfold ez; lia) ltac:(unfold ez; lia)) as Ac.
  pose proof (aligned_ival mp ep ez ltac:(unfold ez; lia) ltac:(unfold ez; lia)) as Ap.
  destruct (Zpos (fst (shl_align mc ec ez)) + Zpos (fst (shl_align mp ep ez)))
    as [|n|n] eqn:En; try lia.
  cbn [binary_normalize].
  destruct (binary_round_unit n ez) as (m' & e' & Hr & Hle).
  - unfold ez; lia.
  - rewrite <- En, Z.mul_add_distr_r, Ac, Ap. exact Hv.
  - rewrite Hr. apply at_most_one_in_unit. exact Hle.
Qed.

Lemma ival_pos (m : positive) (e : Z) : -149 <= e -> 0 < ival m e.
Proof.
  intros H. unfold ival. apply Z.mul_pos_pos; [lia|]. apply pow2_pos. lia.
Qed.

Lemma SFsub_unit (mc : positive) (ec : Z) (mp : positive) (ep : Z) :
  -149 <= ec -> -149 <= ep ->
  ival mp ep <= ival mc ec -> ival mc ec <= 2 ^ 149 ->
  in_unit (SFsub 24 128 (S754_finite false mc ec) (S754_finite false mp ep)).
Proof.
  intros Hc Hp Hle Hv. unfold SFsub. cbn [cond_Zopp].
  set (ez := Z.min ec ep).
  pose proof (aligned_ival mc ec ez ltac:(unfold ez; lia) ltac:(unfold ez; lia)) as Ac.
  pose proof (aligned_ival mp ep ez ltac:(unfold ez; lia) ltac:(unfold ez; lia)) as Ap.
  pose proof (pow2_pos (ez + 149) ltac:(unfold ez; lia)) as HX.
  pose proof (ival_pos mp ep Hp) as Hpp.
  assert (Hd : (Zpos (fst (shl_align mc ec ez)) - Zpos (fst (shl_align mp ep ez)))
               * 2 ^ (ez + 149) = ival mc ec - ival mp ep)
    by (rewrite Z.mul_sub_distr_r, Ac, Ap; reflexivity).
  destruct (Zpos (fst (shl_align mc ec ez)) - Zpos (fst (shl_align mp ep ez)))
    as [|n|n] eqn:En.
  - apply zero_in_unit.
  - cbn [binary_normalize].
    destruct (binary_round_unit n ez) as (m' & e' & Hr & Hle').
    + unfold ez; lia.
    + rewrite Hd. revert Hv Hpp. generalize (ival mc ec), (ival mp ep), (2 ^ 149).
      intros; lia.
    + rewrite Hr. apply at_most_one_in_unit. exact Hle'.
  - exfalso.
    assert (Hneg : Zneg n * 2 ^ (ez + 149) < 0)
      by (apply Z.mul_neg_pos; [reflexivity | exact HX]).
    rewrite Hd in Hneg. lia.
Qed.

Lemma canonical_bounds (m : positive) (e : Z) :
  canonical_mantissa 24 128 m e = true -> -149 <= e /\ Zpos m < 2 ^ 24.
Proof.
  unfold canonical_mantissa. rewrite fexp32. intros H.
  apply Z.eqb_eq in H.
  pose proof (digits2_pos_bounds m) as [_ Hhi].
  split; [lia|].
  apply Z.lt_le_trans with (2 ^ Zpos (digits2_pos m)); [exact Hhi|].
  apply Z.pow_le_mono_r; lia.
Qed.

(** On canonical floats the comparison agrees with the order of the
    values. *)
Lemma SFleb_ival (mp : positive) (ep : Z) (mb : positive) (eb : Z) :
  canonical_mantissa 24 128 mp ep = true ->
  2 ^ 23 <= Zpos mb ->
  SFleb (S754_finite false mp ep) (S754_finite false mb eb) = true ->
  ival mp ep <= ival mb eb.
Proof.
  intros Hcan Hmb Hle.
  destruct (canonical_bounds mp ep Hcan) as [Hep Hmp].
  unfold SFleb, SFcompare in Hle. unfold ival.
  destruct (Z.compare ep eb) eqn:E.
  - apply Z.compare_eq in E. subst eb.
    rewrite Pos.compare_cont_spec in Hle. unfold Pos.switch_Eq in Hle.
    apply Z.mul_le_mono_nonneg_r; [apply Z.pow_nonneg; lia|].
    destruct (Pos.compare mp mb) eqn:Ec; try discriminate.
    + apply Pos.compare_eq in Ec. subst. lia.
    + rewrite Pos.compare_lt_iff in Ec. lia.
  - rewrite Z.compare_lt_iff in E.
    pose proof (pow2_pos (ep + 149) ltac:(lia)) as HP.
    apply Z.le_trans with (2 ^ 24 * 2 ^ (ep + 149)).
    + apply Z.mul_le_mono_nonneg_r; lia.
    + apply Z.le_trans with (2 ^ 23 * 2 ^ (eb + 149)).
      * rewrite <- !Z.pow_add_r by lia. apply Z.pow_le_mono_r; lia.
      * apply Z.mul_le_mono_nonneg_r; [apply Z.pow_nonneg; lia | exact Hmb].
  - discriminate.
Qed.

(** A canonical float whose value is at most 1 compares below 1. *)
Lemma ival_at_most_one (m : positive) (e : Z) :
  canonical_mantissa 24 128 m e = true -> ival m e <= 2 ^ 149 ->
  at_most_one m e.
Proof.
  intros Hcan Hv.
  destruct (canonical_bounds m e Hcan) as [He _].
  destruct (le_one_mantissa m e He Hv) as (He0 & Hm & Hd).
  unfold canonical_mantissa in Hcan. rewrite fexp32 in Hcan.
  apply Z.eqb_eq in Hcan. unfold at_most_one.
  destruct (Z.eq_dec e (-23)) as [Heq|]; [|lia].
  right. split; [exact Heq|]. rewrite Heq in Hm. exact Hm.
Qed.

(** A canonical float below a normal float [b] is [b] itself or lies at
    least one unit in the last place of [b] under it. *)
Lemma SFleb_below (mp : positive) (ep : Z) (mb : positive) (eb : Z) :
  canonical_mantissa 24 128 mp ep = true ->
  2 ^ 23 < Zpos mb ->
  SFleb (S754_finite false mp ep) (S754_finite false mb eb) = true ->
  (mp = mb /\ ep = eb) \/ ival mp ep <= (Zpos mb - 1) * 2 ^ (eb + 149).
Proof.
  intros Hcan Hmb Hle.
  destruct (canonical_bounds mp ep Hcan) as [Hep Hmp].
  unfold SFleb, SFcompare in Hle. unfold ival.
  destruct (Z.compare ep eb) eqn:E.
  - apply Z.compare_eq in E. subst eb.
    rewrite Pos.compare_cont_spec in Hle. unfold Pos.switch_Eq in Hle.
    destruct (Pos.compare mp mb) eqn:Ec; try discriminate.
    + apply Pos.compare_eq in Ec. left. auto.
    + rewrite Pos.compare_lt_iff in Ec. right.
      apply Z.mul_le_mono_nonneg_r; [apply Z.pow_nonneg; lia | lia].
  - rewrite Z.compare_lt_iff in E. right.
    apply Z.le_trans with (2 ^ 24 * 2 ^ (ep + 149)).
    + apply Z.mul_le_mono_nonneg_r; [apply Z.pow_nonneg; lia | lia].
    + apply Z.le_trans with (2 ^ 23 * 2 ^ (eb + 149)).
      * rewrite <- !Z.pow_add_r by lia. apply Z.pow_le_mono_r; lia.
      * apply Z.mul_le_mono_nonneg_r; [apply Z.pow_nonneg; lia | lia].
  - discriminate.
Qed.

Lemma pad_ok_cases (mb : positive) (eb : Z) (p : spec_float) :
  pad_ok (S754_finite false mb eb) p ->
  (exists s, p = S754_zero s)
  \/ (exists mp ep, p = S754_finite false mp ep
                    /\ canonical_mantissa 24 128 mp ep = true
                    /\ SFleb p (S754_finite false mb eb) = true).
Proof.
  intros (Hv & H0 & Hb). destruct p as [s|[|]| |[|] mp ep]; try discriminate.
  - left. eauto.
  - right. exists mp, ep. repeat split; auto.
    simpl in Hv. unfold bounded in Hv. apply andb_true_iff in Hv. tauto.
Qed.

Lemma add_pad_unit (mc : positive) (ec : Z) (mb : positive) (eb : Z)
    (p : spec_float) :
  in_unit (S754_finite false mc ec) -> -149 <= ec ->
  2 ^ 23 <= Zpos mb -> ival mc ec + ival mb eb <= 2 ^ 149 ->
  pad_ok (S754_finite false mb eb) p ->
  in_unit (SFadd 24 128 (S754_finite false mc ec) p).
Proof.
  intros Hc Hec Hmb Hsum Hp.
  destruct (pad_ok_cases mb eb p Hp) as [[s ->]|(mp & ep & -> & Hcan & Hle)].
  - exact Hc.
  - destruct (canonical_bounds mp ep Hcan) as [Hep _].
    pose proof (SFleb_ival mp ep mb eb Hcan Hmb Hle).
    apply SFadd_unit; lia.
Qed.

Lemma add_pad_unit_tie (mc : positive) (ec : Z) (mb : positive) (eb : Z)
    (p : spec_float) :
  in_unit (S754_finite false mc ec) -> -149 <= ec ->
  2 ^ 23 < Zpos mb ->
  ival mc ec + (Zpos mb - 1) * 2 ^ (eb + 149) <= 2 ^ 149 ->
  in_unit (SFadd 24 128 (S754_finite false mc ec) (S754_finite false mb eb)) ->
  pad_ok (S754_finite false mb eb) p ->
  in_unit (SFadd 24 128 (S754_finite false mc ec) p).
Proof.
  intros Hc Hec Hmb Hsum Htie Hp.
  destruct (pad_ok_cases mb eb p Hp) as [[s ->]|(mp & ep & -> & Hcan & Hle)].
  - exact Hc.
  - destruct (canonical_bounds mp ep Hcan) as [Hep _].
    destruct (SFleb_below mp ep mb eb Hcan Hmb Hle) as [[-> ->]|Hlt].
    + exact Htie.
    + apply SFadd_unit; lia.
Qed.

Lemma sub_pad_unit (mc : positive) (ec : Z) (mb : positive) (eb : Z)
    (p : spec_float) :
  in_unit (S754_finite false mc ec) -> -149 <= ec ->
  2 ^ 23 <= Zpos mb -> ival mb eb <= ival mc ec -> ival mc ec <= 2 ^ 149 ->
  pad_ok (S754_finite false mb eb) p ->
  in_unit (SFsub 24 128 (S754_finite false mc ec) p).
Proof.
  intros Hc Hec Hmb Hbc Hone Hp.
  destruct (pad_ok_cases mb eb p Hp) as [[s ->]|(mp & ep & -> & Hcan & Hle)].
  - exact Hc.
  - destruct (canonical_bounds mp ep Hcan) as [Hep _].
    pose proof (SFleb_ival mp ep mb eb Hcan Hmb Hle).
    apply SFsub_unit; lia.
Qed.

Lemma zero_add_pad_unit (mb : positive) (eb : Z) (p : spec_float) :
  2 ^ 23 <= Zpos mb -> ival mb eb <= 2 ^ 149 ->
  pad_ok (S754_finite false mb eb) p ->
  in_unit (SFadd 24 128 (S754_zero false) p).
Proof.
  intros Hmb Hone Hp.
  destruct (pad_ok_cases mb eb p Hp) as [[s ->]|(mp & ep & -> & Hcan & Hle)].
  - destruct s; apply zero_in_unit.
  - pose proof (SFleb_ival mp ep mb eb Hcan Hmb Hle).
    apply at_most_one_in_unit, ival_at_most_one; [exact Hcan | lia].
Qed.

(** ** Rounding of products in binary32 *)

(** [binary_round_aux] rounds [m * 2^e], a number that is at most 1, to a
    neighbour on the grid of spacing [2^er], where [er] is [e] itself
    (nothing is lost) or at most -23. *)
Lemma round_aux_faithful (s : bool) (m : positive) (e : Z) :
  e <= 0 -> Zpos m <= 2 ^ (- e) ->
  exists mr er,
    float_is (binary_round_aux 24 128 s (Zpos m) e loc_Exact) s mr er
    /\ 0 <= mr /\ e <= er <= 0 /\ (er = e \/ er <= -23)
    /\ Z.abs (mr * 2 ^ (er - e) - Zpos m) < 2 ^ (er - e)
    /\ mr <= 2 ^ (- er).
Proof.
  intros He Hm.
  pose proof (digits2_pos_bounds m) as [Hlo Hhi].
  set (d := Zpos (digits2_pos m)) in * .
  assert (Hd0 : 0 < d) by (unfold d; lia).
  assert (Hde : d - 1 <= - e) by (apply pow2_le; lia).
  unfold binary_round_aux.
  unfold shr_fexp at 1. cbn [Zdigits2 shr_record_of_loc]. fold d.
  rewrite fexp32.
  destruct (Z.max (d + e - 24) (-149) - e) as [|p|p] eqn:En.
  - (* nothing to shift *)
    cbn [shr shr_m loc_of_shr_record round_nearest_even].
    unfold shr_fexp. cbn [Zdigits2 shr_record_of_loc]. fold d.
    rewrite fexp32, En. cbn [shr shr_m].
    replace (e <=? 128 - 24) with true by (symmetry; apply Z.leb_le; lia).
    exists (Zpos m), e. cbn [float_is].
    rewrite Z.sub_diag, Z.mul_1_r, Z.sub_diag. cbn.
    repeat split; lia.
  - (* a right shift by p *)
    cbn [shr]. rewrite iter_pos_nat.
    destruct (shr_iter_spec (Zpos m) (Pos.to_nat p) ltac:(lia)) as [Hm1 Hr1].
    rewrite positive_nat_Z in Hm1, Hr1.
    set (r1 := Nat.iter (Pos.to_nat p) shr_1 _) in * .
    destruct (round_nearest_even_spec r1) as [Hm2 Hup].
    set (m2 := round_nearest_even (shr_m r1) (loc_of_shr_record r1)) in * .
    set (e1 := e + Zpos p).
    assert (He1 : e1 = Z.max (d + e - 24) (-149)) by (unfold e1; lia).
    assert (He1' : -149 <= e1 <= -23) by lia.
    pose proof (pow2_pos (Zpos p) ltac:(lia)) as HK.
    assert (HT : 2 ^ (- e) = 2 ^ (- e1) * 2 ^ Zpos p)
      by (rewrite <- Z.pow_add_r by lia; f_equal; unfold e1; lia).
    assert (Hq0 : 0 <= shr_m r1) by (rewrite Hm1; apply Z.div_pos; lia).
    assert (Hqlo : shr_m r1 * 2 ^ Zpos p <= Zpos m).
    { rewrite Hm1. rewrite Z.mul_comm. apply Z.mul_div_le. lia. }
    assert (Hqhi : Zpos m < (shr_m r1 + 1) * 2 ^ Zpos p).
    { rewrite Hm1.
      pose proof (Z.mod_pos_bound (Zpos m) (2 ^ Zpos p) HK).
      pose proof (Z.div_mod (Zpos m) (2 ^ Zpos p) ltac:(lia)). lia. }
    assert (H24 : shr_m r1 < 2 ^ 24).
    { rewrite Hm1. apply Z.div_lt_upper_bound; [lia|].
      apply Z.lt_le_trans with (2 ^ d); [exact Hhi|].
      rewrite <- Z.pow_add_r by lia. apply Z.pow_le_mono_r; lia. }
    assert (Hm2T : m2 <= 2 ^ (- e1)).
    { assert (Hq : shr_m r1 <= 2 ^ (- e1)).
      { rewrite Hm1. apply Z.div_le_upper_bound; lia. }
      destruct (Z.eq_dec m2 (shr_m r1 + 1)) as [Hplus|]; [|lia].
      destruct (Z.eq_dec (shr_m r1) (2 ^ (- e1))) as [Heq|]; [|lia].
      exfalso. apply (Hr1 (Hup Hplus)).
      assert (Hmeq : Zpos m = 2 ^ (- e1) * 2 ^ Zpos p) by lia.
      rewrite Hmeq. apply Z.mod_mul. lia. }
    assert (Herr : Z.abs (m2 * 2 ^ Zpos p - Zpos m) < 2 ^ Zpos p).
    { destruct (Z.eq_dec m2 (shr_m r1 + 1)) as [Hplus|Hsame].
      - rewrite Hplus.
        assert (Zpos m <> shr_m r1 * 2 ^ Zpos p).
        { intros Hx. apply (Hr1 (Hup Hplus)). rewrite Hx.
          apply Z.mod_mul. lia. }
        lia.
      - assert (m2 = shr_m r1) by lia. lia. }
    destruct m2 as [|q2|q2] eqn:Em2; try lia.
    + (* rounded to zero *)
      unfold shr_fexp. cbn [Zdigits2 shr_record_of_loc]. rewrite fexp32.
      destruct (Z.max (0 + e1 - 24) (-149) - e1) eqn:E0; try lia;
        cbn [shr shr_m]; exists 0, e1; cbn [float_is];
        replace (e1 - e) with (Zpos p) by (unfold e1; lia);
        (repeat split; try lia; try reflexivity).
    + destruct (Z.eq_dec (Zpos q2) (2 ^ 24)) as [Htop|Hntop].
      * (* the rounding carried into a 25th bit *)
        assert (q2 = 16777216%positive) by (apply Pos2Z.inj; exact Htop).
        subst q2.
        assert (E2 : shr_fexp 24 128 16777216 e1 loc_Exact
                     = ({| shr_m := 8388608; shr_r := false; shr_s := false |},
                        e1 + 1)).
        { unfold shr_fexp. change (Zdigits2 16777216) with 25. rewrite fexp32.
          replace (Z.max (25 + e1 - 24) (-149) - e1) with 1 by lia.
          reflexivity. }
        rewrite E2. cbn [shr_m].
        assert (He24 : e1 <= -24).
        { assert (24 <= - e1); [|lia].
          apply pow2_le; [lia|]. rewrite <- Htop. exact Hm2T. }
        replace (e1 + 1 <=? 128 - 24) with true
          by (symmetry; apply Z.leb_le; lia).
        exists 8388608, (e1 + 1). cbn [float_is].
        split; [reflexivity|].
        replace (e1 + 1 - e) with (Zpos p + 1) by (unfold e1; lia).
        rewrite Z.pow_add_r by lia.
        change (2 ^ 1) with 2.
        change (2 ^ 24) with 16777216 in Htop.
        split; [lia|]. split; [lia|]. split; [right; lia|].
        split.
        -- lia.
        -- replace (- (e1 + 1)) with (- e1 - 1) by lia.
           apply Z.le_trans with (2 ^ 23); [simpl; lia|].
           apply Z.pow_le_mono_r; lia.
      * assert (Hq24 : Zpos q2 < 2 ^ 24) by lia.
        pose proof (digits2_pos_bounds q2) as [Hlo2 Hhi2].
        assert (Hd2 : Zpos (digits2_pos q2) <= 24).
        { assert (Zpos (digits2_pos q2) - 1 < 24); [|lia].
          destruct (Z_lt_le_dec (Zpos (digits2_pos q2) - 1) 24); [assumption|].
          assert (2 ^ 24 <= 2 ^ (Zpos (digits2_pos q2) - 1))
            by (apply Z.pow_le_mono_r; lia).
          lia. }
        unfold shr_fexp. cbn [Zdigits2 shr_record_of_loc]. rewrite fexp32.
        fold e1.
        destruct (Z.max (Zpos (digits2_pos q2) + e1 - 24) (-149) - e1)
          eqn:E0; try lia;
          cbn [shr shr_m];
          (replace (e1 <=? 128 - 24) with true
             by (symmetry; apply Z.leb_le; lia));
          exists (Zpos q2), e1; cbn [float_is];
          replace (e1 - e) with (Zpos p) by (unfold e1; lia);
          (repeat split; try lia; try reflexivity).
  - (* no shift to the left *)
    cbn [shr shr_m loc_of_shr_record round_nearest_even].
    unfold shr_fexp. cbn [Zdigits2 shr_record_of_loc]. fold d.
    rewrite fexp32, En. cbn [shr shr_m].
    replace (e <=? 128 - 24) with true by (symmetry; apply Z.leb_le; lia).
    exists (Zpos m), e. cbn [float_is].
    rewrite Z.sub_diag, Z.mul_1_r, Z.sub_diag. cbn.
    repeat split; lia.
Qed.

Section ProductRounding.
Local Open Scope R_scope.

Lemma powerRZ_2_pos (e : Z) : 0 < powerRZ 2 e.
Proof. apply powerRZ_lt. lra. Qed.

Lemma powerRZ_2_IZR (k : Z) : (0 <= k)%Z -> powerRZ 2 k = IZR (2 ^ k).
Proof.
  intros Hk. rewrite <- (Z2Nat.id k Hk) at 1.
  rewrite <- pow_powerRZ. rewrite pow_IZR. rewrite Z2Nat.id by exact Hk.
  reflexivity.
Qed.

Lemma powerRZ_2_add (a b : Z) : powerRZ 2 (a + b) = powerRZ 2 a * powerRZ 2 b.
Proof. apply powerRZ_add. lra. Qed.

Lemma powerRZ_2_le (a b : Z) : (a <= b)%Z -> powerRZ 2 a <= powerRZ 2 b.
Proof.
  intros H. replace b with (a + (b - a))%Z by lia.
  rewrite powerRZ_2_add. rewrite (powerRZ_2_IZR (b - a)) by lia.
  pose proof (powerRZ_2_pos a).
  assert (1 <= IZR (2 ^ (b - a))).
  { apply IZR_le. pose proof (pow2_pos (b - a) ltac:(lia)). lia. }
  rewrite <- (Rmult_1_r (powerRZ 2 a)) at 1.
  apply Rmult_le_compat_l; lra.
Qed.

Lemma powerRZ_2_cancel (e : Z) : powerRZ 2 (- e) * powerRZ 2 e = 1.
Proof.
  rewrite <- powerRZ_2_add. replace (- e + e)%Z with 0%Z by lia. reflexivity.
Qed.

Lemma Rabs_cond_Zopp (s : bool) (z : Z) : Rabs (IZR (cond_Zopp s z)) = Rabs (IZR z).
Proof.
  destruct s; cbn [cond_Zopp]; [|reflexivity].
  rewrite opp_IZR. apply Rabs_Ropp.
Qed.

Lemma cond_Zopp_sub (s : bool) (a b : Z) :
  (cond_Zopp s a - cond_Zopp s b = cond_Zopp s (a - b))%Z.
Proof. destruct s; cbn [cond_Zopp]; lia. Qed.

Lemma float_is_value (r : spec_float) (s : bool) (mr er : Z) :
  float_is r s mr er -> (0 <= mr)%Z ->
  is_finite r = true /\ SF2R r = IZR (cond_Zopp s mr) * powerRZ 2 er.
Proof.
  unfold float_is. destruct mr as [|p|p]; intros H Hm; try lia; subst r.
  - split; [reflexivity|]. cbn [SF2R].
    destruct s; cbn [cond_Zopp]; change (- 0)%Z with 0%Z; lra.
  - split; reflexivity.
Qed.

(** A value [m * 2^e] that is at most 1 is rounded by [binary_round_aux]
    to a finite float that is at most 1 and differs from it by at most
    [2^-23]. *)
Lemma round_aux_real (s : bool) (m : positive) (e : Z) :
  IZR (Zpos m) * powerRZ 2 e <= 1 ->
  let r := binary_round_aux 24 128 s (Zpos m) e loc_Exact in
  is_finite r = true
  /\ Rabs (SF2R r - IZR (cond_Zopp s (Zpos m)) * powerRZ 2 e)
     <= powerRZ 2 (-23)
  /\ Rabs (SF2R r) <= 1.
Proof.
  intros Hv r.
  pose proof (powerRZ_2_pos e) as He0.
  assert (He : (e <= 0)%Z).
  { destruct (Z_lt_le_dec 0 e) as [Hpos|]; [|assumption]. exfalso.
    assert (H2 : powerRZ 2 1 <= powerRZ 2 e) by (apply powerRZ_2_le; lia).
    change (powerRZ 2 1) with (2 * 1) in H2.
    assert (H1 : 1 <= IZR (Zpos m)) by (apply IZR_le; lia).
    assert (2 <= IZR (Zpos m) * powerRZ 2 e); [|lra].
    apply Rle_trans with (1 * powerRZ 2 e); [lra|].
    apply Rmult_le_compat_r; lra. }
  assert (Hm : (Zpos m <= 2 ^ (- e))%Z).
  { apply le_IZR. rewrite <- powerRZ_2_IZR by lia.
    apply Rmult_le_reg_r with (powerRZ 2 e); [exact He0|].
    rewrite powerRZ_2_cancel. exact Hv. }
  destruct (round_aux_faithful s m e He Hm)
    as (mr & er & Hr & Hmr & Her & Hcase & Herr & Hone).
  fold r in Hr.
  destruct (float_is_value r s mr er Hr Hmr) as [Hfin Hval].
  split; [exact Hfin|]. rewrite Hval.
  pose proof (powerRZ_2_pos er) as Her0.
  split.
  - replace (powerRZ 2 er) with (powerRZ 2 (er - e) * powerRZ 2 e)
      by (rewrite <- powerRZ_2_add; f_equal; lia).
    rewrite powerRZ_2_IZR by lia.
    replace (IZR (cond_Zopp s mr) * (IZR (2 ^ (er - e)) * powerRZ 2 e)
             - IZR (cond_Zopp s (Zpos m)) * powerRZ 2 e)
      with (IZR (cond_Zopp s (mr * 2 ^ (er - e) - Zpos m)) * powerRZ 2 e).
    2:{ rewrite <- cond_Zopp_sub. rewrite minus_IZR.
        replace (cond_Zopp s (mr * 2 ^ (er - e)))
          with (cond_Zopp s mr * 2 ^ (er - e))%Z
          by (destruct s; cbn [cond_Zopp]; lia).
        rewrite mult_IZR. ring. }
    rewrite Rabs_mult, Rabs_cond_Zopp, <- abs_IZR.
    rewrite (Rabs_pos_eq (powerRZ 2 e)) by lra.
    destruct Hcase as [->|Hlow].
    + rewrite Z.sub_diag in Herr. change (2 ^ 0)%Z with 1%Z in Herr.
      replace (Z.abs (mr * 2 ^ (e - e) - Zpos m)) with 0%Z
        by (rewrite Z.sub_diag; change (2 ^ 0)%Z with 1%Z; lia).
      rewrite Rmult_0_l. pose proof (powerRZ_2_pos (-23)). lra.
    + apply Rle_trans with (powerRZ 2 er); [|apply powerRZ_2_le; exact Hlow].
      replace (powerRZ 2 er) with (IZR (2 ^ (er - e)) * powerRZ 2 e)
        by (rewrite <- powerRZ_2_IZR by lia; rewrite <- powerRZ_2_add;
            f_equal; lia).
      apply Rmult_le_compat_r; [lra|]. apply IZR_le. lia.
  - rewrite Rabs_mult, Rabs_cond_Zopp.
    rewrite (Rabs_pos_eq (powerRZ 2 er)) by lra.
    rewrite Rabs_pos_eq by (apply IZR_le; exact Hmr).
    apply Rle_trans with (IZR (2 ^ (- er)) * powerRZ 2 er).
    + apply Rmult_le_compat_r; [lra|]. apply IZR_le. exact Hone.
    + rewrite <- powerRZ_2_IZR by lia. rewrite powerRZ_2_cancel. lra.
Qed.

(** The product of two finite floats of absolute value at most 1 is a
    finite float of absolute value at most 1, within [2^-23] of the
    product of the two numbers. *)
Lemma SFmul_faithful (x y : spec_float) :
  is_finite x = true -> is_finite y = true ->
  Rabs (SF2R x) <= 1 -> Rabs (SF2R y) <= 1 ->
  is_finite (SFmul 24 128 x y) = true
  /\ Rabs (SF2R (SFmul 24 128 x y) - SF2R x * SF2R y) <= powerRZ 2 (-23)
  /\ Rabs (SF2R (SFmul 24 128 x y)) <= 1.
Proof.
  intros Hx Hy Hx1 Hy1.
  pose proof (powerRZ_2_pos (-23)) as Hu.
  destruct x as [sx|sx| |sx mx ex]; try discriminate Hx;
    destruct y as [sy|sy| |sy my ey]; try discriminate Hy;
    cbn [SFmul];
    try (cbn [SF2R is_finite]; rewrite ?Rmult_0_l, ?Rmult_0_r, Rminus_0_r,
           Rabs_R0; repeat split; lra).
  cbn [SF2R] in Hx1, Hy1 |- * .
  rewrite Rabs_mult, Rabs_cond_Zopp in Hx1, Hy1.
  rewrite (Rabs_pos_eq (powerRZ 2 ex)) in Hx1 by (pose proof (powerRZ_2_pos ex); lra).
  rewrite (Rabs_pos_eq (powerRZ 2 ey)) in Hy1 by (pose proof (powerRZ_2_pos ey); lra).
  rewrite Rabs_pos_eq in Hx1 by (apply IZR_le; lia).
  rewrite Rabs_pos_eq in Hy1 by (apply IZR_le; lia).
  assert (Hv : IZR (Zpos (mx * my)) * powerRZ 2 (ex + ey) <= 1).
  { rewrite Pos2Z.inj_mul, mult_IZR, powerRZ_2_add.
    replace (IZR (Zpos mx) * IZR (Zpos my) * (powerRZ 2 ex * powerRZ 2 ey))
      with ((IZR (Zpos mx) * powerRZ 2 ex) * (IZR (Zpos my) * powerRZ 2 ey))
      by ring.
    replace 1 with (1 * 1) by lra.
    assert (0 <= IZR (Zpos mx) * powerRZ 2 ex).
    { apply Rmult_le_pos; [apply IZR_le; lia|].
      pose proof (powerRZ_2_pos ex); lra. }
    assert (0 <= IZR (Zpos my) * powerRZ 2 ey).
    { apply Rmult_le_pos; [apply IZR_le; lia|].
      pose proof (powerRZ_2_pos ey); lra. }
    apply Rmult_le_compat; lra. }
  destruct (round_aux_real (xorb sx sy) (mx * my) (ex + ey) Hv)
    as (Hfin & Herr & Hone).
  split; [exact Hfin|]. split; [|exact Hone].
  replace (IZR (cond_Zopp sx (Zpos mx)) * powerRZ 2 ex
           * (IZR (cond_Zopp sy (Zpos my)) * powerRZ 2 ey))
    with (IZR (cond_Zopp (xorb sx sy) (Zpos (mx * my))) * powerRZ 2 (ex + ey));
    [exact Herr|].
  rewrite powerRZ_2_add, Pos2Z.inj_mul.
  destruct sx, sy; cbn [xorb cond_Zopp];
    rewrite ?opp_IZR, ?mult_IZR; ring.
Qed.

Lemma sq_diff_bound (a b e : R) :
  Rabs a <= 1 -> Rabs b <= 1 -> Rabs (a - b) <= e ->
  Rabs (a * a - b * b) <= 2 * e.
Proof.
  intros Ha Hb He.
  replace (a * a - b * b) with ((a - b) * (a + b)) by ring.
  rewrite Rabs_mult.
  assert (H2 : Rabs (a + b) <= 2).
  { eapply Rle_trans; [apply Rabs_triang|]. lra. }
  pose proof (Rabs_pos (a - b)). pose proof (Rabs_pos (a + b)).
  replace (2 * e) with (e * 2) by ring.
  apply Rmult_le_compat; lra.
Qed.

Lemma sqrt_near_one (n : R) : 0 <= n -> Rabs (sqrt n - 1) <= Rabs (n - 1).
Proof.
  intros Hn. pose proof (sqrt_pos n) as Ht.
  rewrite <- (sqrt_sqrt n Hn) at 2.
  set (t := sqrt n) in * .
  replace (t * t - 1) with ((t - 1) * (t + 1)) by ring.
  rewrite Rabs_mult, (Rabs_pos_eq (t + 1)) by lra.
  pose proof (Rabs_pos (t - 1)).
  rewrite <- (Rmult_1_r (Rabs (t - 1))) at 1.
  apply Rmult_le_compat_l; lra.
Qed.

Lemma one32_value :
  is_finite (IEEE.of_Z 24 128 1) = true /\ SF2R (IEEE.of_Z 24 128 1) = 1.
Proof.
  split; [reflexivity|].
  change (IEEE.of_Z 24 128 1) with (S754_finite false 8388608 (-23)).
  cbn [SF2R cond_Zopp]. rewrite <- (powerRZ_2_cancel (-23)).
  change (- -23)%Z with 23%Z. rewrite (powerRZ_2_IZR 23) by lia.
  reflexivity.
Qed.

(** Scaling by [SPHERE_RADIUS] rounds once more. *)
Lemma radius_mul (x : spec_float) :
  is_finite x = true -> Rabs (SF2R x) <= 1 ->
  is_finite (SFmul 24 128 (IEEE.of_Z 24 128 1) x) = true
  /\ Rabs (SF2R (SFmul 24 128 (IEEE.of_Z 24 128 1) x) - SF2R x)
     <= powerRZ 2 (-23)
  /\ Rabs (SF2R (SFmul 24 128 (IEEE.of_Z 24 128 1) x)) <= 1.
Proof.
  intros Hx Hx1. destruct one32_value as [Hf Hv].
  destruct (SFmul_faithful (IEEE.of_Z 24 128 1) x Hf Hx) as (H1 & H2 & H3);
    [rewrite Hv, Rabs_R1; lra | exact Hx1 |].
  rewrite Hv, Rmult_1_l in H2. auto.
Qed.

(** A vertex of the sphere, as binary32 computes it from the sines and
    cosines of its two angles. *)
Lemma sphere_point_near_unit (delta : R) (sT cT sP cP : spec_float) :
  sincos_accurate delta (sT, cT) -> sincos_accurate delta (sP, cP) ->
  let one := IEEE.of_Z 24 128 1 in
  let x := SFmul 24 128 one (SFmul 24 128 cP sT) in
  let y := SFmul 24 128 one cT in
  let z := SFmul 24 128 one (SFmul 24 128 sP sT) in
  is_finite x = true /\ is_finite y = true /\ is_finite z = true
  /\ Rabs (sqrt (SF2R x * SF2R x + SF2R y * SF2R y + SF2R z * SF2R z) - 1)
     <= 2 * delta + powerRZ 2 (-19).
Proof.
  intros (HfsT & HfcT & HsT & HcT & HT) (HfsP & HfcP & HsP & HcP & HP).
  intros one x y z.
  cbn [fst snd] in HfsT, HfcT, HsT, HcT, HT, HfsP, HfcP, HsP, HcP, HP.
  destruct (SFmul_faithful cP sT HfcP HfsT HcP HsT) as (Hfx0 & Hex0 & Hx0).
  destruct (SFmul_faithful sP sT HfsP HfsT HsP HsT) as (Hfz0 & Hez0 & Hz0).
  destruct (radius_mul _ Hfx0 Hx0) as (Hfx & Hex & Hx).
  destruct (radius_mul _ HfcT HcT) as (Hfy & Hey & Hy).
  destruct (radius_mul _ Hfz0 Hz0) as (Hfz & Hez & Hz).
  fold one in Hfx, Hex, Hx, Hfy, Hey, Hy, Hfz, Hez, Hz.
  fold x in Hfx, Hex, Hx. fold y in Hfy, Hey, Hy. fold z in Hfz, Hez, Hz.
  repeat (split; [assumption|]).
  set (u := powerRZ 2 (-23)) in * .
  assert (Hu : powerRZ 2 (-19) = 16 * u).
  { unfold u. replace (-19)%Z with (4 + -23)%Z by lia.
    rewrite powerRZ_2_add. rewrite (powerRZ_2_IZR 4) by lia.
    change (2 ^ 4)%Z with 16%Z. reflexivity. }
  assert (Hu0 : 0 < u) by apply powerRZ_2_pos.
  set (s := SF2R sT) in * . set (c := SF2R cT) in * .
  set (s' := SF2R sP) in * . set (c' := SF2R cP) in * .
  set (X := SF2R x) in * . set (Y := SF2R y) in * . set (Z := SF2R z) in * .
  set (x0 := SF2R (SFmul 24 128 cP sT)) in * .
  set (z0 := SF2R (SFmul 24 128 sP sT)) in * .
  assert (HX : Rabs (X - c' * s) <= 2 * u).
  { replace (X - c' * s) with ((X - x0) + (x0 - c' * s)) by ring.
    eapply Rle_trans; [apply Rabs_triang|]. lra. }
  assert (HZ : Rabs (Z - s' * s) <= 2 * u).
  { replace (Z - s' * s) with ((Z - z0) + (z0 - s' * s)) by ring.
    eapply Rle_trans; [apply Rabs_triang|]. lra. }
  assert (Hcs : Rabs (c' * s) <= 1).
  { rewrite Rabs_mult. pose proof (Rabs_pos c'). pose proof (Rabs_pos s).
    replace 1 with (1 * 1) by lra. apply Rmult_le_compat; lra. }
  assert (Hss : Rabs (s' * s) <= 1).
  { rewrite Rabs_mult. pose proof (Rabs_pos s'). pose proof (Rabs_pos s).
    replace 1 with (1 * 1) by lra. apply Rmult_le_compat; lra. }
  pose proof (sq_diff_bound X (c' * s) (2 * u) Hx Hcs HX) as HX2.
  pose proof (sq_diff_bound Y c u Hy HcT Hey) as HY2.
  pose proof (sq_diff_bound Z (s' * s) (2 * u) Hz Hss HZ) as HZ2.
  assert (Hideal : Rabs (c' * s * (c' * s) + c * c + s' * s * (s' * s) - 1)
                   <= 2 * delta).
  { replace (c' * s * (c' * s) + c * c + s' * s * (s' * s) - 1)
      with (s * s * (s' * s' + c' * c' - 1) + (s * s + c * c - 1)) by ring.
    eapply Rle_trans; [apply Rabs_triang|].
    rewrite Rabs_mult.
    assert (Hs2 : Rabs (s * s) <= 1).
    { rewrite Rabs_mult. pose proof (Rabs_pos s).
      replace 1 with (1 * 1) by lra. apply Rmult_le_compat; lra. }
    pose proof (Rabs_pos (s * s)).
    pose proof (Rabs_pos (s' * s' + c' * c' - 1)).
    assert (Rabs (s * s) * Rabs (s' * s' + c' * c' - 1) <= 1 * delta)
      by (apply Rmult_le_compat; lra).
    lra. }
  eapply Rle_trans.
  { apply sqrt_near_one.
    pose proof (Rle_0_sqr X). pose proof (Rle_0_sqr Y). pose proof (Rle_0_sqr Z).
    unfold Rsqr in * . lra. }
  replace (X * X + Y * Y + Z * Z - 1)
    with ((X * X - c' * s * (c' * s)) + (Y * Y - c * c)
          + (Z * Z - s' * s * (s' * s))
          + (c' * s * (c' * s) + c * c + s' * s * (s' * s) - 1)) by ring.
  eapply Rle_trans; [apply Rabs_triang|].
  eapply Rle_trans; [apply Rplus_le_compat_r; apply Rabs_triang|].
  eapply Rle_trans;
    [apply Rplus_le_compat_r; apply Rplus_le_compat_r; apply Rabs_triang|].
  rewrite Hu. lra.
Qed.

End ProductRounding.

(** ** The sphere in binary32 *)

Section SphereGrid.
Context {C : CFloat} {L : LibM C} {V : VlcCore C}.
Local Open Scope nat_scope.

(** What holds of the point of every pair of angles of the grid holds of
    every vertex that the first pair of loops writes. *)
Lemma sphere_vertices_grid Q (nbLatBands nbLonBands : nat) (v t : list float) :
  (forall lat lon, lat <= nbLatBands -> lon <= nbLonBands ->
     let sc_theta := sincosf (sphere_theta nbLatBands lat) in
     let sc_phi := sincosf (sphere_phi nbLonBands lon) in
     Q (mulf SPHERE_RADIUS (mulf (snd sc_phi) (fst sc_theta)))
       (mulf SPHERE_RADIUS (snd sc_theta))
       (mulf SPHERE_RADIUS (mulf (fst sc_phi) (fst sc_theta)))) ->
  length v = (nbLatBands + 1) * (nbLonBands + 1) * 3 ->
  vertices_ok Q ((nbLatBands + 1) * (nbLonBands + 1))
    (fst (sphere_vertices nbLatBands nbLonBands (v, t))).
Proof.
  intros HQ Hlen. unfold sphere_vertices.
  apply (for_loop_inv
           (fun lat (st : list float * list float) =>
              length (fst st) = length v
              /\ vertices_ok Q (lat * (nbLonBands + 1)) (fst st))).
  - simpl. split; auto. intros k Hk. lia.
  - intros lat st Hlat (Hv & Hok).
    cbv beta zeta.
    pose proof (fun lon Hlon => HQ lat lon ltac:(lia) Hlon) as HQl.
    cbv zeta in HQl. unfold sphere_theta in HQl.
    match goal with
    | |- context [sincosf ?a] =>
        destruct (sincosf a) as [sinTheta cosTheta] eqn:Etheta
    end.
    cbn [fst snd] in HQl.
    replace (S lat * (nbLonBands + 1))
      with (lat * (nbLonBands + 1) + (nbLonBands + 1)) by lia.
    apply (for_loop_inv
             (fun lon (st : list float * list float) =>
                length (fst st) = length v
                /\ vertices_ok Q (lat * (nbLonBands + 1) + lon) (fst st))).
    + rewrite Nat.add_0_r. auto.
    + intros lon [vc tc] Hlon (Hv' & Hok').
      cbn [fst snd] in Hv', Hok' |- * .
      cbv beta iota zeta.
      pose proof (HQl lon ltac:(lia)) as H. unfold sphere_phi in H.
      match goal with
      | |- context [sincosf ?a] =>
          destruct (sincosf a) as [sinPhi cosPhi] eqn:Ephi
      end.
      cbn [fst snd] in H |- * . rewrite !length_insert. split; auto.
      replace (lat * (nbLonBands + 1) + S lon)
        with (S (lat * (nbLonBands + 1) + lon)) by lia.
      replace ((lat * (nbLonBands + 1) + lon) * 3 + 1 + 1)
        with ((lat * (nbLonBands + 1) + lon) * 3 + 2) by lia.
      apply vertices_ok_write; [exact Hok'| rewrite Hv', Hlen; nia | exact H].
Qed.

End SphereGrid.

Section SphereBinary32.
Local Existing Instance IEEE.ieee.
Context {L : LibM IEEE.ieee} {V : VlcCore IEEE.ieee}.

(** C6.  In binary32, with B latitude and B longitude bands (128 in
    [BuildSphere]) and memory available, the builder succeeds with exactly
    (B+1)^2 vertices and 6*B^2 indices, its arrays have the matching sizes
    and every index refers to one of the vertices.  If moreover [sincosf]
    of the platform, at each of the angles of the grid, returns two finite
    numbers of absolute value at most 1 whose squares add up to 1 within
    delta, then the three coordinates of every vertex are finite and the
    distance of the vertex from the origin differs from 1 by at most
    2*delta + 2^-19: the error of [sincosf] and of the roundings of the
    products. *)
Theorem BuildSphere_mesh (B k : nat) (delta : R) :
  (forall n, vlc_alloc_ok n = true) ->
  (forall lat, (lat <= B)%nat ->
     sincos_accurate delta (sincosf (sphere_theta B lat))) ->
  (forall lon, (lon <= B)%nat ->
     sincos_accurate delta (sincosf (sphere_phi B lon))) ->
  (k < (B + 1) * (B + 1))%nat ->
  let out := BuildSphere_bands B B in
  fst out = VLC_SUCCESS
  /\ nbVertices (snd out) = ((B + 1) * (B + 1))%nat
  /\ nbIndices (snd out) = (6 * (B * B))%nat
  /\ length (vertexCoord (snd out)) = (3 * nbVertices (snd out))%nat
  /\ length (textureCoord (snd out)) = (2 * nbVertices (snd out))%nat
  /\ length (indices (snd out)) = nbIndices (snd out)
  /\ (forall j, (j < nbIndices (snd out))%nat ->
        exists i, indices (snd out) !! j = Some i
                  /\ 0 <= i < Z.of_nat (nbVertices (snd out)))
  /\ exists x y z : float,
       vertexCoord (snd out) !! (k * 3)%nat = Some x
       /\ vertexCoord (snd out) !! (k * 3 + 1)%nat = Some y
       /\ vertexCoord (snd out) !! (k * 3 + 2)%nat = Some z
       /\ is_finite x = true /\ is_finite y = true /\ is_finite z = true
       /\ (Rabs (sqrt (SF2R x * SF2R x + SF2R y * SF2R y + SF2R z * SF2R z)
                 - 1)
           <= 2 * delta + powerRZ 2 (-19))%R.
Proof.
  intros Hmem Htheta Hphi Hk out.
  destruct (BuildSphere_bands_counts B B Hmem)
    as (Hst & Hnv & Hni & Hlv & Hlt & Hli).
  fold out in Hst, Hnv, Hni, Hlv, Hlt, Hli.
  repeat (split; [assumption|]).
  assert (Hout : snd out
    = let '(vc, tc) :=
        sphere_vertices B B
          (repeat heap_float ((B + 1) * (B + 1) * 3)%nat,
           repeat heap_float ((B + 1) * (B + 1) * 2)%nat) in
      {| vertexCoord := vc; textureCoord := tc;
         nbVertices := ((B + 1) * (B + 1))%nat;
         indices := sphere_indices B B (repeat heap_ushort (B * B * 3 * 2)%nat);
         nbIndices := (B * B * 3 * 2)%nat |}).
  { unfold out, BuildSphere_bands, alloc_mesh. rewrite !Hmem. cbn [negb].
    destruct (sphere_vertices _ _ _). reflexivity. }
  split.
  - intros j Hj.
    pose proof (sphere_indices_ok B (repeat heap_ushort (B * B * 3 * 2)%nat)
                  ltac:(apply repeat_length)) as [_ Hok].
    rewrite Hnv. rewrite Hout.
    destruct (sphere_vertices _ _ _). cbn [indices].
    apply Hok. rewrite Hni in Hj. lia.
  - pose proof (sphere_vertices_grid
                  (fun x y z : float =>
                     is_finite x = true /\ is_finite y = true
                     /\ is_finite z = true
                     /\ (Rabs (sqrt (SF2R x * SF2R x + SF2R y * SF2R y
                                     + SF2R z * SF2R z) - 1)
                         <= 2 * delta + powerRZ 2 (-19))%R) B B
                  (repeat heap_float ((B + 1) * (B + 1) * 3)%nat)
                  (repeat heap_float ((B + 1) * (B + 1) * 2)%nat)) as Hok.
    rewrite Hout. destruct (sphere_vertices _ _ _) as [vc tc].
    cbn [vertexCoord fst] in Hok |- * .
    assert (Hgrid : vertices_ok
                      (fun x y z : float =>
                         is_finite x = true /\ is_finite y = true
                         /\ is_finite z = true
                         /\ (Rabs (sqrt (SF2R x * SF2R x + SF2R y * SF2R y
                                         + SF2R z * SF2R z) - 1)
                             <= 2 * delta + powerRZ 2 (-19))%R)
                      ((B + 1) * (B + 1)) vc).
    { apply Hok; [|apply repeat_length].
      intros lat lon Hlat Hlon.
      pose proof (Htheta lat Hlat) as Ht. pose proof (Hphi lon Hlon) as Hp.
      destruct (sincosf (sphere_theta B lat)) as [sT cT].
      destruct (sincosf (sphere_phi B lon)) as [sP cP].
      exact (sphere_point_near_unit delta sT cT sP cP Ht Hp). }
    destruct (Hgrid k Hk) as (x & y & z & Hx & Hy & Hz & HQ).
    exists x, y, z. auto.
Qed.

End SphereBinary32.

Lemma scaled_value (x : spec_float) (z : Z) :
  scaled x = Some z ->
  is_finite x = true /\ SF2R x = (IZR z * powerRZ 2 (-149))%R.
Proof.
  destruct x as [sx|sx| |sx m e]; cbn [scaled]; try discriminate.
  - intros H. injection H as <-. split; [reflexivity|]. cbn [SF2R]. lra.
  - destruct (Z.leb_spec (-149) e) as [He|]; [|discriminate].
    intros H. injection H as <-. split; [reflexivity|]. cbn [SF2R].
    replace (cond_Zopp sx (Zpos m * 2 ^ (e + 149)))
      with (cond_Zopp sx (Zpos m) * 2 ^ (e + 149))
      by (destruct sx; cbn [cond_Zopp]; lia).
    rewrite mult_IZR, <- powerRZ_2_IZR by lia.
    rewrite Rmult_assoc, <- powerRZ_2_add. do 2 f_equal. lia.
Qed.

Lemma sincos_accurate_b_sound (k : Z) (sc : spec_float * spec_float) :
  0 <= k <= 298 ->
  sincos_accurate_b k sc = true -> sincos_accurate (powerRZ 2 (- k)) sc.
Proof.
  intros Hk. unfold sincos_accurate_b, sincos_accurate.
  destruct (scaled (fst sc)) as [s|] eqn:Es; [|discriminate].
  destruct (scaled (snd sc)) as [c|] eqn:Ec; [|discriminate].
  destruct (scaled_value _ _ Es) as [Hfs Hs].
  destruct (scaled_value _ _ Ec) as [Hfc Hc].
  intros H. apply andb_prop in H. destruct H as [H H3].
  apply andb_prop in H. destruct H as [H1 H2].
  apply Z.leb_le in H1, H2, H3.
  rewrite Hs, Hc.
  pose proof (powerRZ_2_pos (-149)) as Hu.
  assert (Hone : (IZR (2 ^ 149) * powerRZ 2 (-149) = 1)%R).
  { rewrite <- powerRZ_2_IZR by lia. apply (powerRZ_2_cancel (-149)). }
  assert (Hunit : forall z, Z.abs z <= 2 ^ 149 ->
                    (Rabs (IZR z * powerRZ 2 (-149)) <= 1)%R).
  { intros z Hz. rewrite Rabs_mult, <- abs_IZR.
    rewrite (Rabs_pos_eq (powerRZ 2 (-149))) by lra.
    rewrite <- Hone. apply Rmult_le_compat_r; [lra|]. apply IZR_le. exact Hz. }
  repeat split; auto.
  replace (IZR s * powerRZ 2 (-149) * (IZR s * powerRZ 2 (-149))
           + IZR c * powerRZ 2 (-149) * (IZR c * powerRZ 2 (-149)) - 1)%R
    with (IZR (s * s + c * c - 2 ^ 298) * powerRZ 2 (-298))%R.
  2:{ rewrite minus_IZR, plus_IZR, !mult_IZR.
      replace (-298) with (-149 + -149) by lia. rewrite powerRZ_2_add.
      replace (2 ^ 298) with (2 ^ 149 * 2 ^ 149)
        by (rewrite <- Z.pow_add_r by lia; reflexivity).
      rewrite mult_IZR.
      replace (IZR (2 ^ 149) * IZR (2 ^ 149))%R
        with ((IZR (2 ^ 149) * powerRZ 2 (-149))
              * (IZR (2 ^ 149) * powerRZ 2 (-149))
              * (IZR (2 ^ 149) * IZR (2 ^ 149)))%R
        by (rewrite Hone; ring).
      rewrite Hone at 1 2. 
      assert (Hc2 : (powerRZ 2 (-149) * IZR (2 ^ 149) = 1)%R)
        by (rewrite Rmult_comm; exact Hone).
      set (P := IZR (2 ^ 149)) in * . set (u := powerRZ 2 (-149)) in * .
      replace ((IZR s * IZR s + IZR c * IZR c - 1 * 1 * (P * P)) * (u * u))%R
        with (IZR s * u * (IZR s * u) + IZR c * u * (IZR c * u)
              - (u * P) * (u * P))%R by ring.
      rewrite Hc2. ring. }
  rewrite Rabs_mult, <- abs_IZR.
  pose proof (powerRZ_2_pos (-298)) as Hu2.
  rewrite (Rabs_pos_eq (powerRZ 2 (-298))) by lra.
  replace (powerRZ 2 (- k)) with (IZR (2 ^ (298 - k)) * powerRZ 2 (-298))%R
    by (rewrite <- powerRZ_2_IZR by lia; rewrite <- powerRZ_2_add;
        f_equal; lia).
  apply Rmult_le_compat_r; [lra|]. apply IZR_le. exact H3.
Qed.

(** At the angles of the sphere of 128 bands the series is accurate
    to [2^-22]. *)
Lemma series_accurate_theta (lat : nat) :
  (lat <= 128)%nat ->
  sincos_accurate (powerRZ 2 (-22))
    (sincosf (LibM := SampleLibm.libm) (sphere_theta (C := IEEE.ieee) 128 lat)).
Proof.
  intros H. apply (sincos_accurate_b_sound 22); [lia|].
  assert (Hall : forallb (fun lat =>
                   sincos_accurate_b 22
                     (SampleLibm.sincosf_series
                        (sphere_theta (C := IEEE.ieee) 128 lat)))
                   (seq 0 129) = true) by (vm_compute; reflexivity).
  rewrite forallb_forall in Hall. apply Hall. apply in_seq. lia.
Qed.

Lemma series_accurate_phi (lon : nat) :
  (lon <= 128)%nat ->
  sincos_accurate (powerRZ 2 (-22))
    (sincosf (LibM := SampleLibm.libm) (sphere_phi (C := IEEE.ieee) 128 lon)).
Proof.
  intros H. apply (sincos_accurate_b_sound 22); [lia|].
  assert (Hall : forallb (fun lon =>
                   sincos_accurate_b 22
                     (SampleLibm.sincosf_series
                        (sphere_phi (C := IEEE.ieee) 128 lon)))
                   (seq 0 129) = true) by (vm_compute; reflexivity).
  rewrite forallb_forall in Hall. apply Hall. apply in_seq. lia.
Qed.

Lemma BuildSphere_mesh_witness :
  let out := BuildSphere (C := IEEE.ieee) (L := SampleLibm.libm)
               (V := Sample.core) in
  fst out = VLC_SUCCESS
  /\ nbVertices (snd out) = ((128 + 1) * (128 + 1))%nat
  /\ nbIndices (snd out) = (6 * (128 * 128))%nat
  /\ length (vertexCoord (snd out)) = (3 * nbVertices (snd out))%nat
  /\ length (textureCoord (snd out)) = (2 * nbVertices (snd out))%nat
  /\ length (indices (snd out)) = nbIndices (snd out)
  /\ (forall j, (j < nbIndices (snd out))%nat ->
        exists i, indices (snd out) !! j = Some i
                  /\ 0 <= i < Z.of_nat (nbVertices (snd out)))
  /\ exists x y z : float (CFloat := IEEE.ieee),
       vertexCoord (snd out) !! (130 * 3)%nat = Some x
       /\ vertexCoord (snd out) !! (130 * 3 + 1)%nat = Some y
       /\ vertexCoord (snd out) !! (130 * 3 + 2)%nat = Some z
       /\ is_finite x = true /\ is_finite y = true /\ is_finite z = true
       /\ (Rabs (sqrt (SF2R x * SF2R x + SF2R y * SF2R y + SF2R z * SF2R z)
                 - 1)
           <= 2 * powerRZ 2 (-22) + powerRZ 2 (-19))%R.
Proof.
  apply (BuildSphere_mesh (L := SampleLibm.libm) (V := Sample.core) 128 130
           (powerRZ 2 (-22))).
  - intros n. reflexivity.
  - exact series_accurate_theta.
  - exact series_accurate_phi.
  - lia.
Defined.

(** ** The cube *)

Section CubeFacts.
Context {V : VlcCore IEEE.ieee}.
Local Existing Instance IEEE.ieee.

Lemma cube_tex_ieee (padW padH : spec_float) :
  cube_tex (C := IEEE.ieee) padW padH
  = [ SFadd 24 128 third32 padW; SFadd 24 128 half32 padH;
      SFadd 24 128 third32 padW; SFsub 24 128 one32 padH;
      SFsub 24 128 two_thirds32 padW; SFadd 24 128 half32 padH;
      SFsub 24 128 two_thirds32 padW; SFsub 24 128 one32 padH;

      SFsub 24 128 one32 padW; SFadd 24 128 half32 padH;
      SFsub 24 128 one32 padW; SFsub 24 128 one32 padH;
      SFadd 24 128 two_thirds32 padW; SFadd 24 128 half32 padH;
      SFadd 24 128 two_thirds32 padW; SFsub 24 128 one32 padH;

      SFsub 24 128 two_thirds32 padW; SFadd 24 128 (S754_zero false) padH;
      SFsub 24 128 two_thirds32 padW; SFsub 24 128 half32 padH;
      SFadd 24 128 third32 padW; SFadd 24 128 (S754_zero false) padH;
      SFadd 24 128 third32 padW; SFsub 24 128 half32 padH;

      SFadd 24 128 (S754_zero false) padW; SFadd 24 128 (S754_zero false) padH;
      SFadd 24 128 (S754_zero false) padW; SFsub 24 128 half32 padH;
      SFsub 24 128 third32 padW; SFadd 24 128 (S754_zero false) padH;
      SFsub 24 128 third32 padW; SFsub 24 128 half32 padH;

      SFadd 24 128 (S754_zero false) padW; SFsub 24 128 one32 padH;
      SFadd 24 128 (S754_zero false) padW; SFadd 24 128 half32 padH;
      SFsub 24 128 third32 padW; SFsub 24 128 one32 padH;
      SFsub 24 128 third32 padW; SFadd 24 128 half32 padH;

      SFadd 24 128 two_thirds32 padW; SFadd 24 128 (S754_zero false) padH;
      SFadd 24 128 two_thirds32 padW; SFsub 24 128 half32 padH;
      SFsub 24 128 one32 padW; SFadd 24 128 (S754_zero false) padH;
      SFsub 24 128 one32 padW; SFsub 24 128 half32 padH ].
Proof. reflexivity. Qed.

Ltac numeric := solve [ lia | vm_compute; intro; discriminate
                      | split; vm_compute; reflexivity ].

Lemma pad_width_entries (padW : spec_float) :
  pad_ok third32 padW ->
  in_unit (SFadd 24 128 third32 padW)
  /\ in_unit (SFadd 24 128 two_thirds32 padW)
  /\ in_unit (SFadd 24 128 (S754_zero false) padW)
  /\ in_unit (SFsub 24 128 third32 padW)
  /\ in_unit (SFsub 24 128 two_thirds32 padW)
  /\ in_unit (SFsub 24 128 one32 padW).
Proof.
  intros H.
  repeat match goal with |- in_unit _ /\ _ => split end.
  - apply (add_pad_unit 11184811 (-25) 11184811 (-25)); first [exact H | numeric].
  - apply (add_pad_unit_tie 11184811 (-24) 11184811 (-25)); first [exact H | numeric].
  - apply (zero_add_pad_unit 11184811 (-25)); first [exact H | numeric].
  - apply (sub_pad_unit 11184811 (-25) 11184811 (-25)); first [exact H | numeric].
  - apply (sub_pad_unit 11184811 (-24) 11184811 (-25)); first [exact H | numeric].
  - apply (sub_pad_unit 8388608 (-23) 11184811 (-25)); first [exact H | numeric].
Qed.

Lemma pad_height_entries (padH : spec_float) :
  pad_ok half32 padH ->
  in_unit (SFadd 24 128 half32 padH)
  /\ in_unit (SFadd 24 128 (S754_zero false) padH)
  /\ in_unit (SFsub 24 128 half32 padH)
  /\ in_unit (SFsub 24 128 one32 padH).
Proof.
  intros H.
  repeat match goal with |- in_unit _ /\ _ => split end.
  - apply (add_pad_unit 8388608 (-24) 8388608 (-24)); first [exact H | numeric].
  - apply (zero_add_pad_unit 8388608 (-24)); first [exact H | numeric].
  - apply (sub_pad_unit 8388608 (-24) 8388608 (-24)); first [exact H | numeric].
  - apply (sub_pad_unit 8388608 (-23) 8388608 (-24)); first [exact H | numeric].
Qed.

(** C4, as the code has it.  For binary32 padding fractions with padW
    between 0 and one third (the float [1.f/3]) and padH between 0 and one
    half, every UV coordinate that [BuildCube] emits lies in the square
    [0,1] x [0,1]. *)
Theorem BuildCube_uv_in_unit_square (padW padH : IEEE.binary32) :
  (forall n, vlc_alloc_ok n = true) ->
  valid_binary 24 128 padW = true -> valid_binary 24 128 padH = true ->
  lef (i2f 0) padW = true -> lef padW (divf (i2f 1) (i2f 3)) = true ->
  lef (i2f 0) padH = true -> lef padH (divf (i2f 1) (i2f 2)) = true ->
  let out := BuildCube padW padH in
  fst out = VLC_SUCCESS
  /\ length (textureCoord (snd out)) = 48%nat
  /\ Forall (fun t => lef (i2f 0) t = true /\ lef t (i2f 1) = true)
       (textureCoord (snd out)).
Proof.
  intros Hmem HvW HvH HW0 HW1 HH0 HH1 out.
  assert (HpW : pad_ok third32 padW) by (repeat split; assumption).
  assert (HpH : pad_ok half32 padH) by (repeat split; assumption).
  destruct (pad_width_entries padW HpW) as (W1 & W2 & W3 & W4 & W5 & W6).
  destruct (pad_height_entries padH HpH) as (H1 & H2 & H3 & H4).
  assert (Hout : out = (VLC_SUCCESS,
                        {| vertexCoord := cube_coord;
                           textureCoord := cube_tex padW padH;
                           nbVertices := 24; indices := cube_ind;
                           nbIndices := 36 |})).
  { unfold out, BuildCube, alloc_mesh. rewrite !Hmem. cbn [negb].
    rewrite !memcpy_at_whole by reflexivity. reflexivity. }
  rewrite Hout. cbn [fst snd textureCoord].
  split; [reflexivity|]. split; [reflexivity|].
  rewrite cube_tex_ieee.
  change (Forall in_unit
    [ SFadd 24 128 third32 padW; SFadd 24 128 half32 padH;
      SFadd 24 128 third32 padW; SFsub 24 128 one32 padH;
      SFsub 24 128 two_thirds32 padW; SFadd 24 128 half32 padH;
      SFsub 24 128 two_thirds32 padW; SFsub 24 128 one32 padH;
      SFsub 24 128 one32 padW; SFadd 24 128 half32 padH;
      SFsub 24 128 one32 padW; SFsub 24 128 one32 padH;
      SFadd 24 128 two_thirds32 padW; SFadd 24 128 half32 padH;
      SFadd 24 128 two_thirds32 padW; SFsub 24 128 one32 padH;
      SFsub 24 128 two_thirds32 padW; SFadd 24 128 (S754_zero false) padH;
      SFsub 24 128 two_thirds32 padW; SFsub 24 128 half32 padH;
      SFadd 24 128 third32 padW; SFadd 24 128 (S754_zero false) padH;
      SFadd 24 128 third32 padW; SFsub 24 128 half32 padH;
      SFadd 24 128 (S754_zero false) padW; SFadd 24 128 (S754_zero false) padH;
      SFadd 24 128 (S754_zero false) padW; SFsub 24 128 half32 padH;
      SFsub 24 128 third32 padW; SFadd 24 128 (S754_zero false) padH;
      SFsub 24 128 third32 padW; SFsub 24 128 half32 padH;
      SFadd 24 128 (S754_zero false) padW; SFsub 24 128 one32 padH;
      SFadd 24 128 (S754_zero false) padW; SFadd 24 128 half32 padH;
      SFsub 24 128 third32 padW; SFsub 24 128 one32 padH;
      SFsub 24 128 third32 padW; SFadd 24 128 half32 padH;
      SFadd 24 128 two_thirds32 padW; SFadd 24 128 (S754_zero false) padH;
      SFadd 24 128 two_thirds32 padW; SFsub 24 128 half32 padH;
      SFsub 24 128 one32 padW; SFadd 24 128 (S754_zero false) padH;
      SFsub 24 128 one32 padW; SFsub 24 128 half32 padH ]).
  repeat (constructor; [assumption|]). constructor.
Qed.

End CubeFacts.

Lemma BuildCube_uv_in_unit_square_witness :
  let padW : spec_float := S754_finite false 8388608 (-25) in
  let padH : spec_float := S754_finite false 8388608 (-26) in
  let out := BuildCube (V := Sample.core) padW padH in
  fst out = VLC_SUCCESS
  /\ length (textureCoord (snd out)) = 48%nat
  /\ Forall (fun t => lef (CFloat := IEEE.ieee) (i2f 0) t = true
                      /\ lef t (i2f 1) = true)
       (textureCoord (snd out)).
Proof.
  apply (BuildCube_uv_in_unit_square (V := Sample.core)); reflexivity.
Defined.

(** C4, as the specification words it, fails above one third: with padW = 0.375 and
    padH = 0, both in [0, 0.5), the right face gets the negative
    coordinate [col[1] - padW] (entry 28) and the back face the coordinate
    [col[2] + padW] above 1 (entry 12). *)
Lemma BuildCube_uv_outside_unit_square :
  let padW : spec_float := S754_finite false 12582912 (-25) in
  let padH : spec_float := S754_zero false in
  let out := BuildCube (V := Sample.core) padW padH in
  valid_binary 24 128 padW = true /\ valid_binary 24 128 padH = true
  /\ lef (CFloat := IEEE.ieee) (i2f 0) padW = true
  /\ ltf (CFloat := IEEE.ieee) padW (divf (i2f 1) (i2f 2)) = true
  /\ lef (CFloat := IEEE.ieee) (i2f 0) padH = true
  /\ ltf (CFloat := IEEE.ieee) padH (divf (i2f 1) (i2f 2)) = true
  /\ fst out = VLC_SUCCESS
  /\ (exists t, textureCoord (snd out) !! 28%nat = Some t
                /\ ltf (CFloat := IEEE.ieee) t (i2f 0) = true)
  /\ (exists t, textureCoord (snd out) !! 12%nat = Some t
                /\ ltf (CFloat := IEEE.ieee) (i2f 1) t = true).
Proof.
  repeat split; try reflexivity; eexists; split; reflexivity.
Qed.

(** * Further properties *)

(** ** Orientation and stereo matrices *)

Lemma length9_inv {T : Type} (m : list T) :
  length m = 9%nat ->
  exists a0 a1 a2 a3 a4 a5 a6 a7 a8, m = [a0; a1; a2; a3; a4; a5; a6; a7; a8].
Proof.
  intros H.
  do 9 (destruct m as [|? m]; [discriminate H|]).
  destruct m; [|discriminate H].
  repeat eexists.
Qed.

Ltac real_entries :=
  repeat match goal with
         | |- _ :: _ = _ :: _ => apply (f_equal2 cons); [field|]
         end; try reflexivity.

Section OrientationExact.
Local Existing Instance Exact.exact.
Local Open Scope R_scope.

(** X1. In exact arithmetic, the matrix that
    [getOrientationTransformMatrix] writes for any orientation sends a
    picture coordinate [(x, y, 0, 1)] of the unit square to a point of the
    unit square again, with third component 0 and fourth component 1: the
    rotations and flips come with the translation that keeps the picture
    in place. *)
Theorem orientation_keeps_unit_square (o : video_orientation_t)
    (matrix : list R) (x y : R) :
  length matrix = 16%nat ->
  0 <= x <= 1 -> 0 <= y <= 1 ->
  exists x' y' z' w',
    glsl_mat_vec 4 (getOrientationTransformMatrix o matrix) [x; y; 0; 1]
    = [x'; y'; z'; w']
    /\ 0 <= x' <= 1 /\ 0 <= y' <= 1 /\ z' = 0 /\ w' = 1.
Proof.
  intros H Hx Hy.
  destruct (length16_inv matrix H) as (?&?&?&?&?&?&?&?&?&?&?&?&?&?&?&?&->).
  destruct o; eexists _, _, _, _; (split; [cbn; reflexivity|]);
    cbn; cbv [Z.opp]; repeat split; lra.
Qed.

(** X2. In exact arithmetic every orientation matrix has an orientation
    matrix as its inverse: the rotations by 90 and 270 degrees undo each
    other, and each other orientation (the unknown ones, which give the
    identity, included) undoes itself. *)
Theorem orientation_invertible (o : video_orientation_t) (m1 m2 : list R) :
  length m1 = 16%nat -> length m2 = 16%nat ->
  let inverse :=
    match o with
    | ORIENT_ROTATED_90 => ORIENT_ROTATED_270
    | ORIENT_ROTATED_270 => ORIENT_ROTATED_90
    | o => o
    end in
  glsl_mat_mat 4 (getOrientationTransformMatrix o m1)
    (getOrientationTransformMatrix inverse m2)
  = identity.
Proof.
  intros H1 H2 inverse. unfold inverse.
  destruct (length16_inv m1 H1) as (?&?&?&?&?&?&?&?&?&?&?&?&?&?&?&?&->).
  destruct (length16_inv m2 H2) as (?&?&?&?&?&?&?&?&?&?&?&?&?&?&?&?&->).
  destruct o; cbn; cbv [Z.opp]; unfold identity; cbn;
    repeat match goal with
           | |- _ :: _ = _ :: _ => apply (f_equal2 cons); [ring|]
           end; reflexivity.
Qed.

(** X3. In exact arithmetic the matrix of [InitStereoMatrix] keeps the
    left eye: it halves the x coordinate of a picture point for a
    side-by-side layout, the y coordinate for a top-bottom layout, and
    changes nothing for any other layout. *)
Theorem stereo_keeps_left_eye (matrix : list R)
    (mode : video_multiview_mode_t) (x y : R) :
  length matrix = 9%nat ->
  exists u v w,
    glsl_mat_vec 3 (InitStereoMatrix matrix mode) [x; y; 1] = [u; v; w]
    /\ u = match mode with MULTIVIEW_STEREO_SBS => x / 2 | _ => x end
    /\ v = match mode with MULTIVIEW_STEREO_TB => y / 2 | _ => y end
    /\ w = 1.
Proof.
  intros H.
  destruct (length9_inv matrix H) as (?&?&?&?&?&?&?&?&?&->).
  destruct mode; eexists _, _, _; (split; [cbn; reflexivity|]);
    unfold dlit; cbn; repeat split; field.
Qed.

End OrientationExact.

Lemma orientation_keeps_unit_square_witness :
  exists x' y' z' w' : R,
    glsl_mat_vec (C := Exact.exact) 4
      (getOrientationTransformMatrix ORIENT_ROTATED_90
         (repeat (ExactScene.real 0) 16))
      [ExactScene.real (1 / 4); ExactScene.real (3 / 4);
       ExactScene.real 0; ExactScene.real 1]
    = [x'; y'; z'; w']
    /\ (0 <= x' <= 1 /\ 0 <= y' <= 1 /\ z' = 0 /\ w' = 1)%R.
Proof.
  apply (orientation_keeps_unit_square ORIENT_ROTATED_90
           (repeat (ExactScene.real 0) 16) (1 / 4) (3 / 4));
    [reflexivity | lra | lra].
Defined.

Lemma orientation_invertible_witness :
  glsl_mat_mat (C := Exact.exact) 4
    (getOrientationTransformMatrix ORIENT_ROTATED_90
       (repeat (ExactScene.real 0) 16))
    (getOrientationTransformMatrix ORIENT_ROTATED_270
       (repeat (ExactScene.real 1) 16))
  = identity.
Proof.
  apply (orientation_invertible ORIENT_ROTATED_90
           (repeat (ExactScene.real 0) 16) (repeat (ExactScene.real 1) 16));
    reflexivity.
Defined.

Lemma stereo_keeps_left_eye_witness :
  exists u v w : R,
    glsl_mat_vec (C := Exact.exact) 3
      (InitStereoMatrix (repeat (ExactScene.real 7) 9) MULTIVIEW_STEREO_SBS)
      [ExactScene.real 1; ExactScene.real 1; ExactScene.real 1] = [u; v; w]
    /\ u = (1 / 2)%R /\ v = 1%R /\ w = 1%R.
Proof.
  apply (stereo_keeps_left_eye (repeat (ExactScene.real 7) 9)
           MULTIVIEW_STEREO_SBS 1 1).
  reflexivity.
Defined.

(** ** More on the conversion matrix *)

Lemma init_conv_matrix_any_buffer {C : CFloat} (m1 m2 : list float)
    (space : video_color_space_t) (range : video_color_range_t) :
  length m1 = 16%nat -> length m2 = 16%nat ->
  init_conv_matrix m1 space range = init_conv_matrix m2 space range.
Proof.
  intros H1 H2.
  destruct (length16_inv m1 H1) as (?&?&?&?&?&?&?&?&?&?&?&?&?&?&?&?&->).
  destruct (length16_inv m2 H2) as (?&?&?&?&?&?&?&?&?&?&?&?&?&?&?&?&->).
  reflexivity.
Qed.

(** X4. [init_conv_matrix] writes all sixteen entries: the matrix it
    leaves depends on the colour space and range only, never on what the
    array held before the call. *)
Theorem init_conv_matrix_overwrites {C : CFloat} (m1 m2 : list float)
    (space : video_color_space_t) (range : video_color_range_t) :
  length m1 = 16%nat -> length m2 = 16%nat ->
  init_conv_matrix m1 space range = init_conv_matrix m2 space range.
Proof.
  intros H1 H2.
  destruct (length16_inv m1 H1) as (?&?&?&?&?&?&?&?&?&?&?&?&?&?&?&?&->).
  destruct (length16_inv m2 H2) as (?&?&?&?&?&?&?&?&?&?&?&?&?&?&?&?&->).
  unfold init_conv_matrix. cbn [length].
  reflexivity.
Qed.

Lemma init_conv_matrix_overwrites_witness :
  init_conv_matrix (C := IEEE.ieee) (repeat Sample.zero 16)
    COLOR_SPACE_BT601 COLOR_RANGE_LIMITED
  = init_conv_matrix (C := IEEE.ieee) (repeat (S754_infinity true) 16)
      COLOR_SPACE_BT601 COLOR_RANGE_LIMITED.
Proof.
  apply (init_conv_matrix_overwrites (C := IEEE.ieee)); reflexivity.
Defined.

Lemma SF2R_literal (s : bool) (m : positive) (e : Z) :
  e <= 0 ->
  SF2R (S754_finite s m e) = (IZR (cond_Zopp s (Zpos m)) / IZR (2 ^ (- e)))%R.
Proof.
  intros He. cbn [SF2R]. unfold Rdiv. f_equal.
  rewrite <- powerRZ_2_IZR by lia.
  pose proof (powerRZ_2_cancel e) as H. pose proof (powerRZ_2_pos (- e)).
  apply Rmult_eq_reg_l with (powerRZ 2 (- e)); [|lra].
  rewrite H. field. lra.
Qed.

Lemma powerRZ_2_neg (k : Z) : 0 <= k -> powerRZ 2 (- k) = (/ IZR (2 ^ k))%R.
Proof.
  intros Hk. pose proof (powerRZ_2_cancel k) as H.
  pose proof (powerRZ_2_pos k) as Hp.
  rewrite <- powerRZ_2_IZR by exact Hk.
  apply Rmult_eq_reg_r with (powerRZ 2 k); [|lra].
  rewrite H. field. lra.
Qed.

(** Evaluates the matrix, turns its entries into quotients of integers
    and leaves the comparison of each component to linear arithmetic. *)
Ltac conv_matrix_row_bounds :=
  match goal with
  | |- context [init_conv_matrix ?a ?b ?c] =>
      let M := eval vm_compute in (init_conv_matrix (C := IEEE.ieee) a b c) in
      change (init_conv_matrix a b c) with M
  end;
  unfold real_mat_vec; cbn [map];
  rewrite !SF2R_literal by lia;
  unfold glsl_mat_vec, for_loop, aget;
  cbn [map seq fold_left nth Nat.mul Nat.add];
  cbn [SF2R cond_Zopp Z.opp];
  repeat match goal with
         | |- context [(2 ^ ?k)%Z] =>
             let z := eval vm_compute in (2 ^ k)%Z in
             change (2 ^ k)%Z with z
         end;
  repeat match goal with
         | |- context [IZR (Z.opp ?k)] =>
             let z := eval vm_compute in (Z.opp k) in
             change (Z.opp k) with z
         end;
  cbn [addf mulf i2f Exact.exact];
  change (powerRZ 2 (-22)) with (powerRZ 2 (- (22)));
  rewrite (powerRZ_2_neg 22) by lia; change (2 ^ 22)%Z with 4194304%Z;
  unfold within;
  do 4 (refine (List.Forall2_cons _ _ _ _); [apply Rabs_le; split; lra|]);
  apply List.Forall2_nil.

Section ConvBinary32.
Local Existing Instance IEEE.ieee.
Local Open Scope R_scope.

(** X5. In binary32 the conversion matrix of every colour space, read
    as a matrix of real numbers and applied without further rounding,
    sends the black and the white of its range, with neutral chroma
    128/255, to RGB black (0, 0, 0) and RGB white (1, 1, 1) within
    [2^-22] in every component: luma 0 and 1 for the full range, 16/255
    and 235/255 for any other range. *)
Theorem conv_matrix_black_and_white (m : list float)
    (space : video_color_space_t) (range : video_color_range_t) :
  length m = 16%nat ->
  let M := init_conv_matrix m space range in
  let black := match range with COLOR_RANGE_FULL => 0 | _ => 16 / 255 end in
  let white := match range with COLOR_RANGE_FULL => 1 | _ => 235 / 255 end in
  within (powerRZ 2 (-22))
    (real_mat_vec 4 M [black; 128 / 255; 128 / 255; 1]) [0; 0; 0; 1]
  /\ within (powerRZ 2 (-22))
       (real_mat_vec 4 M [white; 128 / 255; 128 / 255; 1]) [1; 1; 1; 1].
Proof.
  intros H M black white. unfold M, black, white.
  rewrite (init_conv_matrix_any_buffer m (repeat (i2f 0) 16) _ _ H eq_refl).
  destruct range; destruct space; split; conv_matrix_row_bounds.
Qed.

End ConvBinary32.

Lemma conv_matrix_black_and_white_witness :
  let M := init_conv_matrix (C := IEEE.ieee) (repeat Sample.zero 16)
             COLOR_SPACE_BT709 COLOR_RANGE_LIMITED in
  within (powerRZ 2 (-22))
    (real_mat_vec 4 M [16 / 255; 128 / 255; 128 / 255; 1]%R) [0; 0; 0; 1]%R
  /\ within (powerRZ 2 (-22))
       (real_mat_vec 4 M [235 / 255; 128 / 255; 128 / 255; 1]%R)
       [1; 1; 1; 1]%R.
Proof.
  apply (conv_matrix_black_and_white (repeat Sample.zero 16)
           COLOR_SPACE_BT709 COLOR_RANGE_LIMITED).
  reflexivity.
Defined.

Section SixteenBits.
Local Existing Instance IEEE.ieee.

Lemma sixteen_bit_correction_neutral (m : list IEEE.binary32)
    (space : video_color_space_t) :
  length m = 16%nat ->
  scale_yuv_range (C := IEEE.ieee)
    (init_conv_matrix m space COLOR_RANGE_LIMITED) (yuv_range_correction 16)
  = init_conv_matrix m space COLOR_RANGE_LIMITED.
Proof.
  intros H.
  rewrite (init_conv_matrix_any_buffer (C := IEEE.ieee) m
             (repeat (S754_zero false) 16) space COLOR_RANGE_LIMITED H eq_refl).
  destruct space; vm_compute; reflexivity.
Qed.

(** X6. On binary32, a YUV format whose samples fill their 16 bits gets
    the conversion matrix of a format that is not stored on two bytes: the
    range correction [(2^16-1)/(2^16-1)] is exactly 1 and multiplying by it
    changes no entry, for every colour space and with or without the swap
    of U and V. *)
Theorem sixteen_bit_storage_unscaled
    (r : vlc_gl_renderer IEEE.ieee) (chroma : vlc_fourcc_t)
    (desc desc8 : vlc_chroma_description_t) (yuv_space : video_color_space_t) :
  length (conv_matrix r) = 16%nat ->
  pixel_bits desc = 16 ->
  pixel_size desc8 <> 2 ->
  conv_matrix (fst (renderer_yuv_base_init r chroma desc yuv_space))
  = conv_matrix (fst (renderer_yuv_base_init r chroma desc8 yuv_space)).
Proof.
  intros Hlen Hbits Hsize.
  rewrite !yuv_base_init_matrix. cbv zeta.
  apply Z.eqb_neq in Hsize. rewrite Hsize. cbn [andb].
  rewrite Hbits.
  destruct ((pixel_size desc =? 2) && negb (chroma =? VLC_CODEC_P010)
            && negb (chroma =? VLC_CODEC_P016)); [|reflexivity].
  rewrite sixteen_bit_correction_neutral by exact Hlen. reflexivity.
Qed.

End SixteenBits.

Lemma sixteen_bit_storage_unscaled_witness :
  let r := Sample.renderer0 VLC_CODEC_UYVY 1 PROJECTION_MODE_RECTANGULAR in
  conv_matrix (fst (renderer_yuv_base_init r VLC_CODEC_UYVY
                      {| plane_count := 1; pixel_size := 2; pixel_bits := 16 |}
                      COLOR_SPACE_BT601))
  = conv_matrix (fst (renderer_yuv_base_init r VLC_CODEC_UYVY
                      {| plane_count := 3; pixel_size := 1; pixel_bits := 8 |}
                      COLOR_SPACE_BT601)).
Proof.
  apply sixteen_bit_storage_unscaled;
    solve [reflexivity | intro H; discriminate H].
Defined.

(** ** More on the fragment-shader generator *)

Section GeneratorFacts.
Context {C : CFloat} {V : VlcCore C}.

Lemma assert_true (b : bool) : b = true -> assert b = Returns tt.
Proof. intros ->. unfold assert. rewrite orb_true_r. reflexivity. Qed.

Lemma assert_false (b : bool) :
  b = false -> assert b = if NDEBUG then Returns tt else Aborts.
Proof. intros ->. unfold assert. rewrite orb_false_r. reflexivity. Qed.

(** A swizzle that fits in the pixel is written out in full. *)
Lemma add_swizzle_returns (swizzle : list ascii) (ms : string) (idx : nat) :
  (idx + length swizzle <= PICTURE_PLANE_MAX)%nat ->
  exists ms', add_swizzle swizzle (ms, idx)
              = Returns (ms', (idx + length swizzle)%nat).
Proof.
  revert ms idx. unfold add_swizzle.
  induction swizzle as [|c sw IH]; intros ms idx H.
  - exists ms. simpl. rewrite Nat.add_0_r. reflexivity.
  - cbn [fold_left bind]. cbn [length] in H.
    rewrite (assert_true (S idx <=? PICTURE_PLANE_MAX)%nat)
      by (apply Nat.leb_le; lia).
    cbn [bind].
    destruct (IH (ms ++ " pixel[" ++ fmt_u idx ++ "] = texel."
                     ++ fmt_c c ++ ";" ++ nl)%string (S idx)) as (ms' & Hms');
      [lia|].
    exists ms'. rewrite Hms'. f_equal. f_equal. cbn [length]. lia.
Qed.

(** Once a step of a loop has stopped the process, the loop has. *)
Lemma for_loop_aborts {A : Type} (n : nat)
    (body : nat -> outcome A -> outcome A) :
  (forall i, body i Aborts = Aborts) ->
  for_loop n body Aborts = Aborts.
Proof.
  intros H. induction n as [|n IH]; [reflexivity|].
  rewrite for_loop_S, IH. apply H.
Qed.

(** The loop over the texture units returns when every unit has a
    swizzle and the components fit; [g k] counts the components written by
    the first [k] units. *)
Lemma add_yuv_fetches_counts (n : nat) target lookup
    (swizzle_per_tex : list (option string)) (st : string * nat)
    (g : nat -> nat) :
  snd st = g 0%nat ->
  (forall i, (i < n)%nat ->
     exists s, aget None swizzle_per_tex i = Some s
               /\ g (S i) = (g i + length (chars s))%nat
               /\ (g (S i) <= PICTURE_PLANE_MAX)%nat) ->
  exists ms', add_yuv_fetches n target lookup swizzle_per_tex st
              = Returns (ms', g n).
Proof.
  intros H0 Hstep. unfold add_yuv_fetches.
  apply (for_loop_inv
           (fun k (acc : outcome (string * nat)) =>
              exists ms', acc = Returns (ms', g k))).
  - exists (fst st). rewrite <- H0. destruct st; reflexivity.
  - intros i acc Hi (ms & ->). cbn [bind].
    destruct (Hstep i Hi) as (s & -> & Hg & Hle).
    rewrite Hg. apply add_swizzle_returns. lia.
Qed.

(** When the first unit has no swizzle the loop stops the process. *)
Lemma add_yuv_fetches_null (n : nat) target lookup
    (swizzle_per_tex : list (option string)) (st : string * nat) :
  (0 < n)%nat -> aget None swizzle_per_tex 0 = None ->
  add_yuv_fetches n target lookup swizzle_per_tex st = Aborts.
Proof.
  intros Hn H0. unfold add_yuv_fetches.
  destruct n as [|n]; [lia|].
  assert (H1 : forall k, for_loop (S k)
     (fun (i : nat) (acc : outcome (string * nat)) =>
        let* (ms, color_idx) := acc in
        match aget None swizzle_per_tex i with
        | None => Aborts
        | Some swizzle =>
            add_swizzle (chars swizzle)
              (match target with
               | GL_TEXTURE_RECTANGLE =>
                   ((ms ++ " tex_coords = (TexCoordsMap" ++ fmt_u i
                        ++ " * pic_hcoords).st;" ++ nl)
                    ++ " tex_coords = vec2(tex_coords.x * TexSize" ++ fmt_u i
                    ++ ".x," ++ nl
                    ++ "                   tex_coords.y * TexSize" ++ fmt_u i
                    ++ ".y);" ++ nl)
               | _ => (ms ++ " tex_coords = (TexCoordsMap" ++ fmt_u i
                        ++ " * pic_hcoords).st;" ++ nl)
               end ++ " texel = " ++ lookup ++ "(Texture" ++ fmt_u i
                 ++ ", tex_coords);" ++ nl, color_idx)%string
        end) (Returns st) = Aborts).
  { induction k as [|k IH].
    - unfold for_loop. cbn [seq fold_left bind]. destruct st. rewrite H0.
      reflexivity.
    - rewrite for_loop_S, IH. reflexivity. }
  apply H1.
Qed.

Lemma init_swizzle_three (it : vlc_gl_interop) chroma desc :
  plane_count desc = 3%nat ->
  opengl_init_swizzle it (repeat None PICTURE_PLANE_MAX) chroma desc
  = Returns ([Some "r"; Some "r"; Some "r"; None; None]%string, VLC_SUCCESS).
Proof. intros H. unfold opengl_init_swizzle. rewrite H. reflexivity. Qed.

Lemma init_swizzle_two (it : vlc_gl_interop) chroma desc :
  plane_count desc = 2%nat ->
  exists s0 s1,
    opengl_init_swizzle it (repeat None PICTURE_PLANE_MAX) chroma desc
    = Returns ([Some s0; Some s1; None; None; None], VLC_SUCCESS)
    /\ length (chars s0) = 1%nat /\ length (chars s1) = 2%nat.
Proof.
  intros H. unfold opengl_init_swizzle. rewrite H. cbn [Nat.eqb].
  destruct (vlc_gl_StrHasToken _ _); eexists _, _; (split; [reflexivity|]);
    split; reflexivity.
Qed.

Lemma init_swizzle_one (it : vlc_gl_interop) chroma desc :
  plane_count desc = 1%nat ->
  chroma = VLC_CODEC_UYVY \/ chroma = VLC_CODEC_YUYV
  \/ chroma = VLC_CODEC_VYUY \/ chroma = VLC_CODEC_YVYU ->
  exists s0,
    opengl_init_swizzle it (repeat None PICTURE_PLANE_MAX) chroma desc
    = Returns ([Some s0; None; None; None; None], VLC_SUCCESS)
    /\ length (chars s0) = 3%nat.
Proof.
  intros H Hc. unfold opengl_init_swizzle. rewrite H. cbn [Nat.eqb].
  destruct Hc as [-> | [-> | [-> | ->]]]; eexists; (split; [reflexivity|]);
    reflexivity.
Qed.

(** With every plane count other than 1, 2 and 3 the table of swizzles is
    handed back as it was. *)
Lemma init_swizzle_other (it : vlc_gl_interop) chroma desc :
  plane_count desc <> 1%nat -> plane_count desc <> 2%nat ->
  plane_count desc <> 3%nat ->
  opengl_init_swizzle it (repeat None PICTURE_PLANE_MAX) chroma desc
  = Returns (repeat None PICTURE_PLANE_MAX, VLC_SUCCESS).
Proof.
  intros H1 H2 H3. unfold opengl_init_swizzle.
  apply Nat.eqb_neq in H1, H2, H3. rewrite H1, H2, H3. reflexivity.
Qed.

End GeneratorFacts.

Section GeneratorFacts2.
Context {C : CFloat} {V : VlcCore C}.

(** The text of a YUV shader is produced when the texture units carry
    three components in all. *)
Lemma shader_text_yuv_returns (it : vlc_gl_interop) target sampler lookup
    (swizzle_per_tex : list (option string)) yuv_space (g : nat -> nat) :
  g 0%nat = 0%nat -> g (tex_count it) = 3%nat ->
  (forall i, (i < tex_count it)%nat ->
     exists s, aget None swizzle_per_tex i = Some s
               /\ g (S i) = (g i + length (chars s))%nat
               /\ (g (S i) <= PICTURE_PLANE_MAX)%nat) ->
  exists text,
    shader_text it target sampler lookup true swizzle_per_tex yuv_space
    = Returns text.
Proof.
  intros H0 Hn Hstep. unfold shader_text. cbv zeta.
  match goal with
  | |- context [add_yuv_fetches ?n ?t ?l ?s ?st] =>
      destruct (add_yuv_fetches_counts n t l s st g) as (ms' & ->);
        [symmetry; exact H0 | exact Hstep |]
  end.
  cbn [bind]. rewrite Hn.
  rewrite assert_true by (rewrite orb_true_r; reflexivity).
  cbn [bind]. eexists. reflexivity.
Qed.

(** X7. A YUV chroma other than XYZ12 with three planes, with two
    planes, or with one plane in one of the four packed orders UYVY, YUYV,
    VYUY, YVYU, on an interop with as many texture units as planes and one
    of the three known texture targets: when the memory stream opens and
    closes, [opengl_fragment_shader_init] returns a shader text, installs
    the base callbacks and leaves the renderer of [renderer_yuv_base_init].
    No assertion stops it: the swizzles carry three components in all. *)
Theorem yuv_shader_generated (r : vlc_gl_renderer C) (target : GLenum)
    (chroma : vlc_fourcc_t) (yuv_space : video_color_space_t)
    (desc : vlc_chroma_description_t) :
  vlc_fourcc_IsYUV chroma = true ->
  vlc_fourcc_GetChromaDescription chroma = Some desc ->
  chroma <> VLC_CODEC_XYZ12 ->
  plane_count desc = 3%nat \/ plane_count desc = 2%nat
  \/ (plane_count desc = 1%nat
      /\ (chroma = VLC_CODEC_UYVY \/ chroma = VLC_CODEC_YUYV
          \/ chroma = VLC_CODEC_VYUY \/ chroma = VLC_CODEC_YVYU)) ->
  tex_count (interop r) = plane_count desc ->
  (forall code, target <> GL_OTHER code) ->
  memstream_open_ok = true -> memstream_close_ok = true ->
  exists text,
    opengl_fragment_shader_init r target chroma yuv_space
    = Returns (set_callbacks
                 (fst (renderer_yuv_base_init r chroma desc yuv_space))
                 callbacks_base,
               Some text).
Proof.
  intros Hy Hd Hx Hplanes Htc Htarget Hopen Hclose.
  unfold opengl_fragment_shader_init.
  rewrite Hd, Hy. apply Z.eqb_neq in Hx. rewrite Hx.
  unfold renderer_yuv_base_init.
  cbn [negb Z.eqb VLC_SUCCESS interop set_conv fst].
  assert (Hsw : exists sw (g : nat -> nat),
    opengl_init_swizzle (interop r) (repeat None PICTURE_PLANE_MAX) chroma desc
    = Returns (sw, VLC_SUCCESS)
    /\ g 0%nat = 0%nat /\ g (tex_count (interop r)) = 3%nat
    /\ (forall i, (i < tex_count (interop r))%nat ->
          exists s, aget None sw i = Some s
                    /\ g (S i) = (g i + length (chars s))%nat
                    /\ (g (S i) <= PICTURE_PLANE_MAX)%nat)).
  { rewrite Htc.
    destruct Hplanes as [H3 | [H2 | [H1 Hc]]].
    - rewrite init_swizzle_three by exact H3. rewrite H3.
      exists [Some "r"; Some "r"; Some "r"; None; None]%string, (fun k => k).
      repeat split.
      intros i Hi.
      assert (Hi' : i = 0%nat \/ i = 1%nat \/ i = 2%nat) by lia.
      destruct Hi' as [-> | [-> | ->]]; eexists; repeat split;
        unfold PICTURE_PLANE_MAX; lia.
    - destruct (init_swizzle_two (interop r) chroma desc H2)
        as (s0 & s1 & -> & Hs0 & Hs1).
      rewrite H2.
      exists [Some s0; Some s1; None; None; None],
             (fun k => match k with 0 => 0 | 1 => 1 | _ => 3 end)%nat.
      repeat split.
      intros i Hi.
      assert (Hi' : i = 0%nat \/ i = 1%nat) by lia.
      destruct Hi' as [-> | ->]; eexists;
        (split; [reflexivity|]); rewrite ?Hs0, ?Hs1;
        unfold PICTURE_PLANE_MAX; lia.
    - destruct (init_swizzle_one (interop r) chroma desc H1 Hc)
        as (s0 & -> & Hs0).
      rewrite H1.
      exists [Some s0; None; None; None; None],
             (fun k => match k with 0 => 0 | _ => 3 end)%nat.
      repeat split.
      intros i Hi.
      assert (Hi' : i = 0%nat) by lia. subst i.
      eexists; (split; [reflexivity|]); rewrite Hs0;
        unfold PICTURE_PLANE_MAX; lia. }
  destruct Hsw as (sw & g & -> & Hg0 & Hgn & Hstep).
  cbn [bind negb Z.eqb VLC_SUCCESS].
  destruct target as [| | |code]; [| | |destruct (Htarget code eq_refl)];
    cbn [bind]; rewrite Hopen; cbn [negb interop set_conv];
    match goal with
    | |- context [shader_text ?i ?t ?s ?l true ?w ?sp] =>
        destruct (shader_text_yuv_returns i t s l w sp g Hg0 Hgn Hstep)
          as (text & ->)
    end; cbn [bind]; rewrite Hclose; cbn [negb]; exists text; reflexivity.
Qed.

(** X9. A YUV chroma other than XYZ12 whose description has a number of
    planes other than 1, 2 and 3: [opengl_init_swizzle] reports
    [VLC_SUCCESS] and leaves every swizzle NULL.  In a build with
    assertions, with at least one texture unit, one of the three known
    texture targets and a memory stream that opens, the generator then
    stops the process at [assert(swizzle)] for unit 0. *)
Theorem yuv_plane_count_unsupported (r : vlc_gl_renderer C) (target : GLenum)
    (chroma : vlc_fourcc_t) (yuv_space : video_color_space_t)
    (desc : vlc_chroma_description_t) :
  vlc_fourcc_IsYUV chroma = true ->
  vlc_fourcc_GetChromaDescription chroma = Some desc ->
  chroma <> VLC_CODEC_XYZ12 ->
  plane_count desc <> 1%nat -> plane_count desc <> 2%nat ->
  plane_count desc <> 3%nat ->
  (0 < tex_count (interop r))%nat ->
  (forall code, target <> GL_OTHER code) ->
  memstream_open_ok = true ->
  NDEBUG = false ->
  opengl_init_swizzle (interop r) (repeat None PICTURE_PLANE_MAX) chroma desc
  = Returns (repeat None PICTURE_PLANE_MAX, VLC_SUCCESS)
  /\ opengl_fragment_shader_init r target chroma yuv_space = Aborts.
Proof.
  intros Hy Hd Hx H1 H2 H3 Htc Htarget Hopen _.
  split; [apply init_swizzle_other; assumption|].
  unfold opengl_fragment_shader_init.
  rewrite Hd, Hy. apply Z.eqb_neq in Hx. rewrite Hx.
  unfold renderer_yuv_base_init.
  cbn [negb Z.eqb VLC_SUCCESS interop set_conv fst].
  rewrite init_swizzle_other by assumption.
  cbn [bind negb Z.eqb VLC_SUCCESS].
  destruct target; cbn [bind]; try reflexivity;
    rewrite Hopen; cbn [negb interop set_conv];
    unfold shader_text; cbv zeta;
    rewrite add_yuv_fetches_null by (exact Htc || reflexivity);
    reflexivity.
Qed.

(** X8. A chroma that is neither YUV nor XYZ12, in a build with
    assertions, a known texture target and a working memory stream: the
    generator returns a text and installs the base callbacks, leaving the
    rest of the renderer alone, exactly when the colour space passed is
    [COLOR_SPACE_UNDEF]; with any defined colour space
    [assert(yuv_space == COLOR_SPACE_UNDEF || color_count == 3)] stops the
    process, since one colour is counted. *)
Theorem rgb_shader_wants_undefined_space (r : vlc_gl_renderer C)
    (target : GLenum) (chroma : vlc_fourcc_t)
    (yuv_space : video_color_space_t) (desc : vlc_chroma_description_t) :
  vlc_fourcc_IsYUV chroma = false ->
  vlc_fourcc_GetChromaDescription chroma = Some desc ->
  chroma <> VLC_CODEC_XYZ12 ->
  (forall code, target <> GL_OTHER code) ->
  memstream_open_ok = true -> memstream_close_ok = true ->
  NDEBUG = false ->
  exists text,
    opengl_fragment_shader_init r target chroma yuv_space
    = if space_is_undef yuv_space
      then Returns (set_callbacks r callbacks_base, Some text)
      else Aborts.
Proof.
  intros Hy Hd Hx Htarget Hopen Hclose Hdebug.
  unfold opengl_fragment_shader_init.
  rewrite Hd, Hy. apply Z.eqb_neq in Hx. rewrite Hx.
  cbn [bind].
  destruct target as [| | |code]; [| | |destruct (Htarget code eq_refl)];
    cbn [bind]; rewrite Hopen; cbn [negb];
    unfold shader_text; cbv zeta; cbn [bind];
    unfold assert; rewrite Hdebug; cbn [orb Nat.eqb];
    rewrite orb_false_r;
    (destruct (space_is_undef yuv_space); cbn [bind];
     [ rewrite Hclose; cbn [negb]; eexists; reflexivity
     | exists EmptyString; reflexivity ]).
Qed.

Ltac yuv_side :=
  cbn [pf_callbacks interop set_callbacks set_conv negb];
  repeat split;
  try match goal with
      | H : _ \/ _ |- _ => destruct H; congruence
      end.

(** X10. What a call of [opengl_fragment_shader_init] that returns
    leaves in the renderer.  With a text: the callbacks of XYZ12 for the
    chroma XYZ12 and the base callbacks for every other chroma.  With NULL:
    the callbacks it found, except for the chroma XYZ12 with a known
    description, where the callbacks of XYZ12 were installed before
    [strdup] failed.  The interop is never changed, and the conversion
    matrix and the YUV flag are changed for no chroma that is not YUV, nor
    for XYZ12. *)
Theorem callbacks_follow_shader (r : vlc_gl_renderer C) (target : GLenum)
    (chroma : vlc_fourcc_t) (yuv_space : video_color_space_t) :
  match opengl_fragment_shader_init r target chroma yuv_space with
  | Returns (r', Some _) =>
      pf_callbacks r'
      = Some (if (chroma =? VLC_CODEC_XYZ12)%Z then callbacks_xyz12
              else callbacks_base)
      /\ interop r' = interop r
      /\ (vlc_fourcc_IsYUV chroma = false \/ chroma = VLC_CODEC_XYZ12 ->
          conv_matrix r' = conv_matrix r /\ yuv_color r' = yuv_color r)
  | Returns (r', None) =>
      pf_callbacks r'
      = match vlc_fourcc_GetChromaDescription chroma with
        | Some _ =>
            if (chroma =? VLC_CODEC_XYZ12)%Z then Some callbacks_xyz12
            else pf_callbacks r
        | None => pf_callbacks r
        end
      /\ interop r' = interop r
      /\ (vlc_fourcc_IsYUV chroma = false \/ chroma = VLC_CODEC_XYZ12 ->
          conv_matrix r' = conv_matrix r /\ yuv_color r' = yuv_color r)
  | Aborts => True
  end.
Proof.
  unfold opengl_fragment_shader_init.
  destruct (vlc_fourcc_GetChromaDescription chroma) as [desc|];
    [|repeat split; reflexivity].
  destruct (chroma =? VLC_CODEC_XYZ12)%Z eqn:Hx.
  { unfold xyz12_shader_init. cbv zeta.
    destruct strdup_ok; cbn; repeat split; reflexivity. }
  apply Z.eqb_neq in Hx.
  destruct (vlc_fourcc_IsYUV chroma) eqn:Hy.
  - unfold renderer_yuv_base_init.
    cbn [negb Z.eqb VLC_SUCCESS interop set_conv fst].
    destruct (opengl_init_swizzle (interop r) (repeat None PICTURE_PLANE_MAX)
                chroma desc) as [[sw ret]|]; [|exact I].
    cbn [bind].
    destruct (negb (ret =? VLC_SUCCESS)%Z); [yuv_side|].
    destruct target; cbn [bind]; try exact I;
      (destruct memstream_open_ok; cbn [negb]; [|yuv_side]);
      match goal with
      | |- context [shader_text ?i ?t ?s ?l ?y ?w ?sp] =>
          destruct (shader_text i t s l y w sp)
      end; cbn [bind]; try exact I;
      destruct memstream_close_ok; yuv_side.
  - cbn [bind].
    destruct target; cbn [bind]; try exact I;
      (destruct memstream_open_ok; cbn [negb];
       [|cbn; repeat split; reflexivity]);
      match goal with
      | |- context [shader_text ?i ?t ?s ?l ?y ?w ?sp] =>
          destruct (shader_text i t s l y w sp)
      end; cbn [bind]; try exact I;
      destruct memstream_close_ok; cbn; repeat split; reflexivity.
Qed.

End GeneratorFacts2.

Lemma yuv_shader_generated_witness :
  exists text,
    opengl_fragment_shader_init (V := Sample.core) SampleGl.renderer1
      GL_TEXTURE_2D Sample.VLC_CODEC_I420 COLOR_SPACE_BT709
    = Returns (set_callbacks
                 (fst (renderer_yuv_base_init SampleGl.renderer1
                         Sample.VLC_CODEC_I420
                         {| plane_count := 3; pixel_size := 1;
                            pixel_bits := 8 |}
                         COLOR_SPACE_BT709))
                 callbacks_base,
               Some text).
Proof.
  apply (yuv_shader_generated (V := Sample.core));
    try reflexivity.
  - codec_neq.
  - left. reflexivity.
  - intros code H. discriminate H.
Defined.

Lemma yuv_plane_count_unsupported_witness :
  opengl_init_swizzle (V := SampleAlpha.core)
    (interop (Sample.renderer0 SampleAlpha.VLC_CODEC_YUVA 4
                PROJECTION_MODE_RECTANGULAR))
    (repeat None PICTURE_PLANE_MAX) SampleAlpha.VLC_CODEC_YUVA
    {| plane_count := 4; pixel_size := 1; pixel_bits := 8 |}
  = Returns (repeat None PICTURE_PLANE_MAX, VLC_SUCCESS)
  /\ opengl_fragment_shader_init (V := SampleAlpha.core)
       (Sample.renderer0 SampleAlpha.VLC_CODEC_YUVA 4
          PROJECTION_MODE_RECTANGULAR)
       GL_TEXTURE_2D SampleAlpha.VLC_CODEC_YUVA COLOR_SPACE_BT709
     = Aborts.
Proof.
  apply (yuv_plane_count_unsupported (V := SampleAlpha.core)
           (Sample.renderer0 SampleAlpha.VLC_CODEC_YUVA 4
              PROJECTION_MODE_RECTANGULAR)
           GL_TEXTURE_2D SampleAlpha.VLC_CODEC_YUVA COLOR_SPACE_BT709
           {| plane_count := 4; pixel_size := 1; pixel_bits := 8 |});
    try reflexivity; try (cbn; lia).
  - codec_neq.
  - intros code H. discriminate H.
Defined.

Lemma rgb_shader_wants_undefined_space_witness :
  exists text,
    opengl_fragment_shader_init (V := Sample.core)
      (Sample.renderer0 Sample.VLC_CODEC_RGB32 1 PROJECTION_MODE_RECTANGULAR)
      GL_TEXTURE_2D Sample.VLC_CODEC_RGB32 COLOR_SPACE_UNDEF
    = if space_is_undef COLOR_SPACE_UNDEF
      then Returns
             (set_callbacks
                (Sample.renderer0 Sample.VLC_CODEC_RGB32 1
                   PROJECTION_MODE_RECTANGULAR) callbacks_base,
              Some text)
      else Aborts.
Proof.
  apply (rgb_shader_wants_undefined_space (V := Sample.core) _ _ _ _
           {| plane_count := 1; pixel_size := 4; pixel_bits := 32 |});
    try reflexivity.
  - codec_neq.
  - intros code H. discriminate H.
Defined.

(** ** The camera *)

(** Copying sixteen entries twice is copying them once. *)
Lemma memcpy_at_twice {T : Type} (dst src : list T) :
  length src = 16%nat ->
  memcpy_at (memcpy_at dst 0 src 16) 0 src 16 = memcpy_at dst 0 src 16.
Proof.
  intros H.
  destruct (length16_inv src H) as (?&?&?&?&?&?&?&?&?&?&?&?&?&?&?&?&->).
  reflexivity.
Qed.

Section ViewpointGeneric.
Context {C : CFloat} {L : LibM C} {V : VlcCore C}.

Lemma getViewpointMatrixes_twice (r : vlc_gl_renderer C)
    (mode : video_projection_mode_t) :
  length (vlc_viewpoint_to_4x4 (vp r)) = 16%nat ->
  getViewpointMatrixes (getViewpointMatrixes r mode) mode
  = getViewpointMatrixes r mode.
Proof.
  intros Hv. unfold getViewpointMatrixes, getProjectionMatrix, getZoomMatrix.
  destruct mode; cbn [set_view_matrices f_sar f_fovy f_z vp var_ProjectionMatrix
                      var_ZoomMatrix var_ViewMatrix interop conv_matrix
                      yuv_color pf_callbacks fmt last_source tex_width
                      tex_height textures var_TexCoordsMap f_fovx];
    rewrite !memcpy_at_twice by (exact Hv || reflexivity); reflexivity.
Qed.

(** X17. For a flat projection (any mode other than equirectangular
    and standard cubemap) the two entry points that recompute the camera
    leave the identity in the projection, zoom and view matrices:
    [vlc_gl_renderer_SetViewpoint] whenever it accepts the viewpoint, and
    [vlc_gl_renderer_SetWindowAspectRatio] always. *)
Theorem flat_projection_stays_identity (r : vlc_gl_renderer C)
    (p_vp : vlc_viewpoint_t C) (sar : float) :
  projection_mode (fmt r) <> PROJECTION_MODE_EQUIRECTANGULAR ->
  projection_mode (fmt r) <> PROJECTION_MODE_CUBEMAP_LAYOUT_STANDARD ->
  length (var_ProjectionMatrix r) = 16%nat ->
  length (var_ZoomMatrix r) = 16%nat ->
  length (var_ViewMatrix r) = 16%nat ->
  let r1 := fst (vlc_gl_renderer_SetViewpoint r p_vp) in
  let r2 := vlc_gl_renderer_SetWindowAspectRatio r sar in
  (snd (vlc_gl_renderer_SetViewpoint r p_vp) = VLC_SUCCESS ->
   var_ProjectionMatrix r1 = identity /\ var_ZoomMatrix r1 = identity
   /\ var_ViewMatrix r1 = identity)
  /\ var_ProjectionMatrix r2 = identity /\ var_ZoomMatrix r2 = identity
  /\ var_ViewMatrix r2 = identity.
Proof.
  intros He Hc Hp Hz Hv r1 r2.
  assert (Hflat : forall r0 : vlc_gl_renderer C,
            var_ProjectionMatrix r0 = var_ProjectionMatrix r ->
            var_ZoomMatrix r0 = var_ZoomMatrix r ->
            var_ViewMatrix r0 = var_ViewMatrix r ->
            let r' := getViewpointMatrixes r0 (projection_mode (fmt r)) in
            var_ProjectionMatrix r' = identity /\ var_ZoomMatrix r' = identity
            /\ var_ViewMatrix r' = identity).
  { intros r0 H1 H2 H3 r'. unfold r', getViewpointMatrixes.
    destruct (projection_mode (fmt r)); try congruence;
      cbn [set_view_matrices var_ProjectionMatrix var_ZoomMatrix
           var_ViewMatrix];
      rewrite H1, H2, H3; repeat split; apply memcpy_at_whole; auto. }
  split.
  - intros Hok. unfold r1. revert Hok.
    unfold vlc_gl_renderer_SetViewpoint.
    destruct (ltf FIELD_OF_VIEW_DEGREES_MAX (fov p_vp)
              || ltf (fov p_vp) FIELD_OF_VIEW_DEGREES_MIN);
      [cbn [snd]; discriminate|].
    intros _. cbn [fst].
    match goal with
    | |- context [if ?b then _ else _] => destruct b
    end; apply Hflat; reflexivity.
  - unfold r2, vlc_gl_renderer_SetWindowAspectRatio. apply Hflat; reflexivity.
Qed.

Lemma SetViewpoint_accepted (r : vlc_gl_renderer C) (p_vp : vlc_viewpoint_t C) :
  ltf FIELD_OF_VIEW_DEGREES_MAX (fov p_vp)
  || ltf (fov p_vp) FIELD_OF_VIEW_DEGREES_MIN = false ->
  vlc_gl_renderer_SetViewpoint r p_vp
  = (getViewpointMatrixes (camera_after r p_vp) (projection_mode (fmt r)),
     VLC_SUCCESS).
Proof.
  intros H. unfold vlc_gl_renderer_SetViewpoint, camera_after. rewrite H.
  cbn [f_fovx set_camera].
  match goal with
  | |- context [if ?b then _ else _] => destruct b
  end; reflexivity.
Qed.

Lemma camera_after_fields (r : vlc_gl_renderer C) (p_vp : vlc_viewpoint_t C) :
  vp (camera_after r p_vp) = vlc_viewpoint_reverse p_vp
  /\ fmt (camera_after r p_vp) = fmt r.
Proof.
  unfold camera_after.
  match goal with
  | |- context [if ?b then _ else _] => destruct b
  end; split; reflexivity.
Qed.

End ViewpointGeneric.

Section CameraBinary32.
Local Existing Instance IEEE.ieee.
Context {L : LibM IEEE.ieee} {V : VlcCore IEEE.ieee}.

(** A binary32 number differs from itself by less than 0.001: the
    difference is zero, or not a number when the number is not finite. *)
Lemma unchanged_fov (x : spec_float) :
  SFleb (flit 1 1000) (SFabs (SFsub 24 128 x x)) = false.
Proof.
  destruct x as [[|]|[|]| |s m e]; try reflexivity.
  unfold SFsub. cbn [cond_Zopp].
  rewrite Z.min_id.
  assert (Hs : shl_align m e e = (m, e)).
  { unfold shl_align. rewrite Z.sub_diag. reflexivity. }
  rewrite Hs. cbn [fst]. rewrite Z.sub_diag. reflexivity.
Qed.

(** X16. In binary32, on a platform whose [fabsf] clears the sign bit,
    setting the same viewpoint a second time changes nothing: the second
    call of [vlc_gl_renderer_SetViewpoint] returns the same code and leaves
    the renderer of the first call, be the viewpoint accepted or refused.
    The field of view in radians, whatever it is, differs from the stored
    one by less than 0.001 in the comparison of the code (by zero, or by
    something that is not a number), so the camera is not recomputed, and
    the matrices are rewritten with the same values. *)
Theorem SetViewpoint_idempotent (r : vlc_gl_renderer IEEE.ieee)
    (p_vp : vlc_viewpoint_t IEEE.ieee) :
  (forall x, fabsf x = SFabs x) ->
  length (vlc_viewpoint_to_4x4 (vlc_viewpoint_reverse p_vp)) = 16%nat ->
  let out := vlc_gl_renderer_SetViewpoint r p_vp in
  vlc_gl_renderer_SetViewpoint (fst out) p_vp = out.
Proof.
  intros Hfabs Hv out. unfold out.
  destruct (ltf FIELD_OF_VIEW_DEGREES_MAX (fov p_vp)
            || ltf (fov p_vp) FIELD_OF_VIEW_DEGREES_MIN) eqn:Hr.
  - unfold vlc_gl_renderer_SetViewpoint. rewrite Hr. reflexivity.
  - rewrite (SetViewpoint_accepted r p_vp Hr). cbn [fst].
    destruct (camera_after_fields r p_vp) as [Hvp Hfmt].
    set (r0 := camera_after r p_vp) in * .
    set (r1 := getViewpointMatrixes r0 (projection_mode (fmt r))).
    rewrite (SetViewpoint_accepted r1 p_vp Hr).
    assert (Hfmt1 : fmt r1 = fmt r).
    { unfold r1, getViewpointMatrixes.
      destruct (projection_mode (fmt r)); exact Hfmt. }
    assert (Hcam : camera_after r1 p_vp = r1).
    { assert (Hx : f_fovx r1 = f_fovx r0).
      { unfold r1, getViewpointMatrixes.
        destruct (projection_mode (fmt r)); reflexivity. }
      assert (Hvp1 : vp r1 = vlc_viewpoint_reverse p_vp).
      { unfold r1, getViewpointMatrixes.
        destruct (projection_mode (fmt r)); exact Hvp. }
      assert (Hstill : lef (flit 1 1000)
                (fabsf (subf (divf (mulf (fov p_vp) (d2f M_PI)) (i2f 180))
                          (f_fovx r0))) = false).
      { unfold r0, camera_after.
        destruct (lef (flit 1 1000)
                    (fabsf (subf (divf (mulf (fov p_vp) (d2f M_PI)) (i2f 180))
                              (f_fovx r)))) eqn:Hch.
        - cbn [UpdateZ UpdateFOVy set_camera f_fovx].
          rewrite Hfabs. apply unchanged_fov.
        - cbn [set_camera f_fovx]. exact Hch. }
      unfold camera_after. rewrite Hx, Hstill. rewrite <- Hvp1.
      unfold r1, getViewpointMatrixes.
      destruct (projection_mode (fmt r)); reflexivity. }
    rewrite Hcam, Hfmt1. unfold r1.
    rewrite getViewpointMatrixes_twice by (rewrite Hvp; exact Hv).
    reflexivity.
Qed.

End CameraBinary32.

Section ProjectionBinary32.
Local Existing Instance IEEE.ieee.
Context {L : LibM IEEE.ieee}.
Local Open Scope R_scope.

(** X18. In binary32 the matrix of [getProjectionMatrix], read as a
    matrix of real numbers and applied without further rounding, is a
    perspective projection with the near plane at 0.01 and the far plane at
    1000, whatever the aspect ratio and the field of view: a point at depth
    0.01 in front of the camera gets the clip coordinate [w = 0.01] and a
    clip depth within [2^-22] of [-w]; a point at depth 1000 gets
    [w = 1000] and a clip depth within [2^-10] of [w]. *)
Theorem projection_depth_range (sar fovy : float) (x y : R)
    (matrix : list float) :
  length matrix = 16%nat ->
  let P := getProjectionMatrix sar fovy matrix in
  (exists cx cy cz cw,
     real_mat_vec 4 P [x; y; - (1 / 100); 1] = [cx; cy; cz; cw]
     /\ cw = 1 / 100 /\ Rabs (cz - - cw) <= powerRZ 2 (-22))
  /\ (exists cx cy cz cw,
        real_mat_vec 4 P [x; y; - 1000; 1] = [cx; cy; cz; cw]
        /\ cw = 1000 /\ Rabs (cz - cw) <= powerRZ 2 (-10)).
Proof.
  intros H P. unfold P.
  destruct (length16_inv matrix H) as (?&?&?&?&?&?&?&?&?&?&?&?&?&?&?&?&->).
  unfold getProjectionMatrix, memcpy_at. cbv zeta.
  cbn [firstn skipn app Nat.add].
  set (zNear := d2f (dlit 1 100)). set (zFar := i2f 1000).
  assert (HA : divf (addf zNear zFar) (subf zNear zFar)
               = S754_finite true 8388776 (-23)) by (vm_compute; reflexivity).
  assert (HB : divf (mulf (mulf (i2f 2) zNear) zFar) (subf zNear zFar)
               = S754_finite true 10737526 (-29)) by (vm_compute; reflexivity).
  rewrite HA, HB.
  change (negf (i2f 1)) with (S754_finite true 8388608 (-23)).
  change (i2f 0) with (S754_zero false).
  unfold real_mat_vec. cbn [map].
  rewrite !(SF2R_literal true) by lia.
  change (SF2R (S754_zero false)) with 0.
  unfold glsl_mat_vec, for_loop, aget.
  cbn [map seq fold_left nth Nat.mul Nat.add].
  cbn [cond_Zopp Z.opp].
  repeat match goal with
         | |- context [(2 ^ ?k)%Z] =>
             let z := eval vm_compute in (2 ^ k)%Z in
             change (2 ^ k)%Z with z
         end.
  repeat match goal with
         | |- context [IZR (Z.opp ?k)] =>
             let z := eval vm_compute in (Z.opp k) in
             change (Z.opp k) with z
         end.
  cbn [addf mulf i2f Exact.exact].
  change (powerRZ 2 (-22)) with (powerRZ 2 (- (22))).
  change (powerRZ 2 (-10)) with (powerRZ 2 (- (10))).
  rewrite (powerRZ_2_neg 22), (powerRZ_2_neg 10) by lia.
  change (2 ^ 22)%Z with 4194304%Z. change (2 ^ 10)%Z with 1024%Z.
  split; eexists _, _, _, _; (split; [reflexivity|]);
    (split; [lra | apply Rabs_le; split; lra]).
Qed.

End ProjectionBinary32.

Lemma flat_projection_stays_identity_witness :
  let r :=
    Sample.renderer0 Sample.VLC_CODEC_I420 3 PROJECTION_MODE_RECTANGULAR in
  let p_vp := Sample.viewpoint_of_fov 90 in
  let r1 := fst (vlc_gl_renderer_SetViewpoint (L := Sample.libm)
                   (V := Sample.core) r p_vp) in
  let r2 := vlc_gl_renderer_SetWindowAspectRatio (L := Sample.libm)
              (V := Sample.core) r Sample.zero in
  (snd (vlc_gl_renderer_SetViewpoint (L := Sample.libm) (V := Sample.core)
          r p_vp) = VLC_SUCCESS ->
   var_ProjectionMatrix r1 = identity /\ var_ZoomMatrix r1 = identity
   /\ var_ViewMatrix r1 = identity)
  /\ var_ProjectionMatrix r2 = identity /\ var_ZoomMatrix r2 = identity
  /\ var_ViewMatrix r2 = identity.
Proof.
  apply (flat_projection_stays_identity (L := Sample.libm) (V := Sample.core)
           (Sample.renderer0 Sample.VLC_CODEC_I420 3
              PROJECTION_MODE_RECTANGULAR)
           (Sample.viewpoint_of_fov 90) Sample.zero);
    solve [discriminate | reflexivity].
Defined.

Lemma SetViewpoint_idempotent_witness :
  let r := Sample.renderer0 Sample.VLC_CODEC_I420 3
             PROJECTION_MODE_EQUIRECTANGULAR in
  let out := vlc_gl_renderer_SetViewpoint (L := Sample.libm)
               (V := Sample.core) r (Sample.viewpoint_of_fov 90) in
  vlc_gl_renderer_SetViewpoint (L := Sample.libm) (V := Sample.core)
    (fst out) (Sample.viewpoint_of_fov 90) = out.
Proof.
  apply (SetViewpoint_idempotent (L := Sample.libm) (V := Sample.core)
           (Sample.renderer0 Sample.VLC_CODEC_I420 3
              PROJECTION_MODE_EQUIRECTANGULAR)
           (Sample.viewpoint_of_fov 90)).
  - intros x. reflexivity.
  - reflexivity.
Defined.

Lemma projection_depth_range_witness :
  let P := getProjectionMatrix (C := IEEE.ieee) (L := Sample.libm)
             (IEEE.of_Z 24 128 1) (IEEE.of_Z 24 128 1)
             (repeat Sample.zero 16) in
  ((exists cx cy cz cw : R,
      real_mat_vec 4 P [0; 0; - (1 / 100); 1] = [cx; cy; cz; cw]
      /\ cw = 1 / 100 /\ Rabs (cz - - cw) <= powerRZ 2 (-22))
   /\ (exists cx cy cz cw : R,
         real_mat_vec 4 P [0; 0; - 1000; 1] = [cx; cy; cz; cw]
         /\ cw = 1000 /\ Rabs (cz - cw) <= powerRZ 2 (-10)))%R.
Proof.
  apply (projection_depth_range (L := Sample.libm) (IEEE.of_Z 24 128 1)
           (IEEE.of_Z 24 128 1) 0%R 0%R (repeat Sample.zero 16)).
  reflexivity.
Defined.

(** ** The crop matrices written by a frame *)

Section CropFacts.
Context {C : CFloat} {V : VlcCore C}.
Local Open Scope cfloat_scope.

Lemma crop_matrix_zeroed (renderer : vlc_gl_renderer C)
    (source : video_format_t) (j : nat) (matrix : list float) :
  length matrix = 9%nat ->
  let '(lft, top, rgt, bot) := crop_edges renderer source j in
  crop_matrix renderer source j (map (fun _ => i2f 0) matrix)
  = [ rgt -. lft; i2f 0; i2f 0;
      i2f 0; bot -. top; i2f 0;
      lft; top; i2f 0 ].
Proof.
  intros H.
  destruct (length9_inv matrix H) as (?&?&?&?&?&?&?&?&?&->).
  reflexivity.
Qed.

(** The crop matrices that the body of the [if] leaves. *)
Lemma update_crop_lookup (renderer : vlc_gl_renderer C)
    (source : video_format_t) (j : nat) :
  Forall (fun m => length m = 9%nat) (var_TexCoordsMap renderer) ->
  (j < length (var_TexCoordsMap renderer))%nat ->
  let r' := update_crop renderer source in
  let '(lft, top, rgt, bot) :=
    crop_edges renderer source j in
  length (var_TexCoordsMap r') = length (var_TexCoordsMap renderer)
  /\ var_TexCoordsMap r' !! j
     = Some (if (j <? tex_count (interop renderer))%nat
             then [ rgt -. lft; i2f 0; i2f 0;
                    i2f 0; bot -. top; i2f 0;
                    lft; top; i2f 0 ]
             else repeat (i2f 0) 9).
Proof.
  intros Hlen Hj r'.
  pose proof (crop_matrix_zeroed renderer source) as Hcrop.
  destruct (crop_edges renderer source j)
    as [[[lft top] rgt] bot] eqn:Hedges.
  unfold r', update_crop. cbn [var_TexCoordsMap set_crop].
  set (maps0 := map (map (fun _ : float => i2f 0)) (var_TexCoordsMap renderer)).
  assert (Hz : forall k, (k < length (var_TexCoordsMap renderer))%nat ->
                 exists m, var_TexCoordsMap renderer !! k = Some m
                           /\ length m = 9%nat
                           /\ maps0 !! k = Some (map (fun _ => i2f 0) m)).
  { intros k Hk.
    destruct (lookup_lt_is_Some_2 (var_TexCoordsMap renderer) k Hk) as [m Hm].
    exists m. split; [exact Hm|]. split.
    - exact (Forall_lookup_1 _ _ _ _ Hlen Hm).
    - unfold maps0. apply (list_lookup_fmap_Some_2 _ _ _ _ Hm). }
  set (P := fun (n : nat) (maps : list (list float)) =>
              length maps = length (var_TexCoordsMap renderer)
              /\ forall k, (k < length (var_TexCoordsMap renderer))%nat ->
                   maps !! k
                   = if (k <? n)%nat
                     then Some (crop_matrix renderer source k
                                  (nth k maps0 []))
                     else maps0 !! k).
  assert (HP : P (tex_count (interop renderer))
                 (for_loop (tex_count (interop renderer))
                    (fun j maps =>
                       <[ j := crop_matrix renderer source j
                                 (nth j maps []) ]> maps) maps0)).
  { apply (for_loop_inv P).
    - split; [unfold maps0; apply length_map|].
      intros k Hk. reflexivity.
    - intros i st Hi [Hl Hst]. split; [rewrite length_insert; exact Hl|].
      intros k Hk.
      destruct (Nat.eq_dec k i) as [->|Hne].
      + rewrite list_lookup_insert_eq by lia.
        replace (i <? S i)%nat with true by (symmetry; apply Nat.ltb_lt; lia).
        f_equal. f_equal.
        pose proof (Hst i Hk) as Hsti.
        replace (i <? i)%nat with false in Hsti
          by (symmetry; apply Nat.ltb_ge; lia).
        destruct (Hz i Hk) as (m & _ & _ & Hm0).
        rewrite Hm0 in Hsti.
        rewrite (nth_lookup_Some _ _ _ _ Hsti), (nth_lookup_Some _ _ _ _ Hm0).
        reflexivity.
      + rewrite list_lookup_insert_ne by lia.
        rewrite (Hst k Hk).
        destruct (Nat.ltb_spec k i), (Nat.ltb_spec k (S i)); try lia;
          reflexivity. }
  destruct HP as [HPl HPk]. split; [exact HPl|].
  rewrite (HPk j Hj).
  destruct (Hz j Hj) as (m & Hm & Hm9 & Hm0).
  destruct (j <? tex_count (interop renderer))%nat.
  - rewrite (nth_lookup_Some _ _ _ _ Hm0).
    specialize (Hcrop j m Hm9). rewrite Hedges in Hcrop. rewrite Hcrop.
    reflexivity.
  - rewrite Hm0. f_equal.
    destruct (length9_inv m Hm9) as (?&?&?&?&?&?&?&?&?&->). reflexivity.
Qed.

(** X19. When the visible region of the picture differs from the cached
    one, [vlc_gl_renderer_Prepare] rewrites every crop matrix and keeps
    their number.  For a texture unit below [tex_count] the nine entries
    are, column by column, [right - left, 0, 0], [0, bottom - top, 0] and
    [left, top, 0]: the entry of the third row and third column is the 0
    of the [memset], not the 1 of the matrix drawn in the comment.  For
    every further unit the nine entries are 0. *)
Theorem Prepare_writes_crop (renderer : vlc_gl_renderer C)
    (picture : picture_t) (j : nat) :
  same_visible_region (format picture) (last_source renderer) = false ->
  Forall (fun m => length m = 9%nat) (var_TexCoordsMap renderer) ->
  (j < length (var_TexCoordsMap renderer))%nat ->
  let r' := fst (vlc_gl_renderer_Prepare renderer picture) in
  let '(lft, top, rgt, bot) :=
    crop_edges renderer (format picture) j in
  length (var_TexCoordsMap r') = length (var_TexCoordsMap renderer)
  /\ var_TexCoordsMap r' !! j
     = Some (if (j <? tex_count (interop renderer))%nat
             then [ rgt -. lft; i2f 0; i2f 0;
                    i2f 0; bot -. top; i2f 0;
                    lft; top; i2f 0 ]
             else repeat (i2f 0) 9).
Proof.
  intros Hmiss Hlen Hj r'. unfold r'.
  rewrite Prepare_cache_miss by exact Hmiss.
  exact (update_crop_lookup renderer (format picture) j Hlen Hj).
Qed.

End CropFacts.

Section CropBinary32.
Local Existing Instance IEEE.ieee.
Context {V : VlcCore IEEE.ieee}.
Local Open Scope R_scope.

(** X20. In binary32 the crop matrix that [vlc_gl_renderer_Prepare]
    writes for a texture unit, read as a matrix of real numbers and applied
    without further rounding, sends the picture point [(x, y, 1)] to the
    texture point [(left + x * w, top + y * h)], where [w] is the float
    [right - left] and [h] the float [bottom - top] as the code computes
    them: the corner (0, 0) goes to (left, top), and the corner (1, 1) to
    (right, bottom) up to the rounding of the two differences. *)
Theorem crop_maps_picture_to_region (renderer : vlc_gl_renderer IEEE.ieee)
    (picture : picture_t) (j : nat) (x y : R) :
  same_visible_region (format picture) (last_source renderer) = false ->
  Forall (fun m => length m = 9%nat) (var_TexCoordsMap renderer) ->
  (j < length (var_TexCoordsMap renderer))%nat ->
  (j < tex_count (interop renderer))%nat ->
  let r' := fst (vlc_gl_renderer_Prepare renderer picture) in
  let '(lft, top, rgt, bot) :=
    crop_edges renderer (format picture) j in
  exists u v w,
    real_mat_vec 3 (aget [] (var_TexCoordsMap r') j) [x; y; 1] = [u; v; w]
    /\ u = SF2R lft + x * SF2R (subf rgt lft)
    /\ v = SF2R top + y * SF2R (subf bot top).
Proof.
  intros Hmiss Hlen Hj Hjt r'.
  pose proof (update_crop_lookup renderer (format picture) j Hlen Hj) as H.
  cbv zeta in H. rewrite <- Prepare_cache_miss in H by exact Hmiss.
  fold r' in H.
  destruct (crop_edges renderer (format picture) j)
    as [[[lft top] rgt] bot].
  destruct H as [_ H].
  replace (j <? tex_count (interop renderer))%nat with true in H
    by (symmetry; apply Nat.ltb_lt; exact Hjt).
  unfold aget. rewrite (nth_lookup_Some _ _ _ _ H).
  unfold real_mat_vec, glsl_mat_vec, for_loop, aget.
  cbn [map seq fold_left nth Nat.mul Nat.add].
  eexists _, _, _. split; [reflexivity|].
  change (SF2R (i2f (CFloat := IEEE.ieee) 0)) with 0.
  cbn [addf mulf i2f Exact.exact]. split; ring.
Qed.

End CropBinary32.

Lemma Prepare_writes_crop_witness :
  let renderer :=
    Sample.renderer0 Sample.VLC_CODEC_I420 3 PROJECTION_MODE_RECTANGULAR in
  let picture := Sample.picture0 0 0 1920 1080 in
  let r' := fst (vlc_gl_renderer_Prepare (V := Sample.core) renderer
                   picture) in
  let '(lft, top, rgt, bot) :=
    crop_edges renderer (format picture) 1 in
  length (var_TexCoordsMap r') = length (var_TexCoordsMap renderer)
  /\ var_TexCoordsMap r' !! 1%nat
     = Some (if (1 <? tex_count (interop renderer))%nat
             then [ subf rgt lft; i2f 0; i2f 0;
                    i2f 0; subf bot top; i2f 0;
                    lft; top; i2f 0 ]
             else repeat (i2f 0) 9).
Proof.
  apply (Prepare_writes_crop (V := Sample.core)
           (Sample.renderer0 Sample.VLC_CODEC_I420 3
              PROJECTION_MODE_RECTANGULAR)
           (Sample.picture0 0 0 1920 1080) 1).
  - reflexivity.
  - repeat constructor.
  - cbn. lia.
Defined.

Lemma crop_maps_picture_to_region_witness :
  let renderer :=
    Sample.renderer0 Sample.VLC_CODEC_I420 3 PROJECTION_MODE_RECTANGULAR in
  let picture := Sample.picture0 0 0 1920 1080 in
  let r' := fst (vlc_gl_renderer_Prepare (V := Sample.core) renderer
                   picture) in
  let '(lft, top, rgt, bot) :=
    crop_edges renderer (format picture) 0 in
  exists u v w : R,
    real_mat_vec 3 (aget [] (var_TexCoordsMap r') 0)
      [(1 / 2)%R; (1 / 2)%R; 1%R] = [u; v; w]
    /\ (u = SF2R lft + 1 / 2 * SF2R (subf (CFloat := IEEE.ieee) rgt lft)
        /\ v = SF2R top + 1 / 2 * SF2R (subf (CFloat := IEEE.ieee) bot top))%R.
Proof.
  apply (crop_maps_picture_to_region (V := Sample.core)
           (Sample.renderer0 Sample.VLC_CODEC_I420 3
              PROJECTION_MODE_RECTANGULAR)
           (Sample.picture0 0 0 1920 1080) 0 (1 / 2) (1 / 2)).
  - reflexivity.
  - repeat constructor.
  - cbn. lia.
  - cbn. lia.
Defined.

(** ** Meshes sent to OpenGL *)

Section MeshFacts.
Context {C : CFloat} {L : LibM C} {V : VlcCore C}.

Lemma alloc_mesh_cases (nv ni : nat) :
  alloc_mesh nv ni = None
  \/ alloc_mesh nv ni
     = Some (repeat heap_float (nv * 3), repeat heap_float (nv * 2),
             repeat heap_ushort ni).
Proof.
  unfold alloc_mesh.
  destruct (vlc_alloc_ok (nv * 3)); [|left; reflexivity].
  destruct (vlc_alloc_ok (nv * 2)); [|left; reflexivity].
  destruct (vlc_alloc_ok ni); [right|left]; reflexivity.
Qed.

Lemma BuildRectangle_wf :
  (fst BuildRectangle = VLC_SUCCESS /\ mesh_wf (snd BuildRectangle))
  \/ fst BuildRectangle = VLC_ENOMEM.
Proof.
  unfold BuildRectangle.
  destruct (alloc_mesh_cases 4 6) as [-> | ->]; [right; reflexivity|].
  left. split; [reflexivity|].
  unfold mesh_wf. cbn [snd vertexCoord textureCoord indices nbVertices nbIndices].
  repeat split.
  cbn. repeat constructor; lia.
Qed.

Lemma BuildCube_wf (padW padH : float) :
  (fst (BuildCube padW padH) = VLC_SUCCESS /\ mesh_wf (snd (BuildCube padW padH)))
  \/ fst (BuildCube padW padH) = VLC_ENOMEM.
Proof.
  unfold BuildCube.
  destruct (alloc_mesh_cases (4 * 6) (6 * 6)) as [-> | ->]; [right; reflexivity|].
  left. split; [reflexivity|].
  unfold mesh_wf. cbn [snd vertexCoord textureCoord indices nbVertices nbIndices].
  repeat split.
  cbn. repeat constructor; lia.
Qed.

Lemma BuildSphere_bands_wf (B : nat) :
  (fst (BuildSphere_bands B B) = VLC_SUCCESS
   /\ mesh_wf (snd (BuildSphere_bands B B)))
  \/ fst (BuildSphere_bands B B) = VLC_ENOMEM.
Proof.
  unfold BuildSphere_bands.
  destruct (alloc_mesh_cases ((B + 1) * (B + 1)) (B * B * 3 * 2)) as [-> | ->];
    [right; reflexivity|].
  left.
  pose proof (sphere_vertices_ok (fun _ _ _ => True) B B
                (repeat heap_float ((B + 1) * (B + 1) * 3))
                (repeat heap_float ((B + 1) * (B + 1) * 2))
                ltac:(intros; exact I) ltac:(apply repeat_length)) as Hv.
  cbv zeta in Hv.
  destruct (sphere_vertices B B _) as [vc tc].
  cbn [fst snd] in Hv. destruct Hv as (Hvc & Htc & _).
  rewrite repeat_length in Hvc, Htc.
  destruct (sphere_indices_ok B (repeat heap_ushort (B * B * 3 * 2))
              ltac:(apply repeat_length)) as [Hli Hok].
  rewrite repeat_length in Hli.
  split; [reflexivity|].
  unfold mesh_wf. cbn [snd vertexCoord textureCoord indices nbVertices nbIndices].
  repeat split; try lia.
  apply Forall_lookup_2. intros j x Hx.
  destruct (Hok j) as (i & Hi & Hb).
  - apply lookup_lt_Some in Hx. lia.
  - congruence.
Qed.

End MeshFacts.

Section SetupCoordsFacts.
Context {C : CFloat} {L : LibM C} {V : VlcCore C} {G : GlDriver C}.

(** The mesh that [SetupCoords] builds and what it does with it. *)
Lemma SetupCoords_mesh (renderer : vlc_gl_renderer C)
    (g : vlc_gl_renderer_gl C) :
  exists (i_ret : Z) (m : mesh),
    SetupCoords renderer g
    = (if negb (i_ret =? VLC_SUCCESS)%Z then (g, i_ret, [])
       else
         (set_nb_indices g (nbIndices m), VLC_SUCCESS,
          [ BindBuffer GL_ARRAY_BUFFER (texture_buffer_object g);
            BufferData GL_ARRAY_BUFFER
              (Z.of_nat (nbVertices m) * 2 * sizeof_GLfloat)
              (gl_floats (textureCoord m)) GL_STATIC_DRAW;
            BindBuffer GL_ARRAY_BUFFER (vertex_buffer_object g);
            BufferData GL_ARRAY_BUFFER
              (Z.of_nat (nbVertices m) * 3 * sizeof_GLfloat)
              (gl_floats (vertexCoord m)) GL_STATIC_DRAW;
            BindBuffer GL_ELEMENT_ARRAY_BUFFER (index_buffer_object g);
            BufferData GL_ELEMENT_ARRAY_BUFFER
              (Z.of_nat (nbIndices m) * sizeof_GLushort)
              (gl_ushorts (indices m)) GL_STATIC_DRAW ]))
    /\ ((i_ret = VLC_SUCCESS /\ mesh_wf m)
        \/ (i_ret = VLC_ENOMEM
            /\ forall code,
                 projection_mode (fmt renderer) <> PROJECTION_MODE_OTHER code)
        \/ (i_ret = VLC_EGENERIC
            /\ exists code,
                 projection_mode (fmt renderer) = PROJECTION_MODE_OTHER code)).
Proof.
  unfold SetupCoords.
  assert (Hb : forall b : Z * mesh,
    (fst b = VLC_SUCCESS /\ mesh_wf (snd b)) \/ fst b = VLC_ENOMEM ->
    (forall code,
       projection_mode (fmt renderer) <> PROJECTION_MODE_OTHER code) ->
    exists (i_ret : Z) (m : mesh),
      (let '(i_ret, m) := b in
       if negb (i_ret =? VLC_SUCCESS)%Z then (g, i_ret, [])
       else
         (set_nb_indices g (nbIndices m), VLC_SUCCESS,
          [ BindBuffer GL_ARRAY_BUFFER (texture_buffer_object g);
            BufferData GL_ARRAY_BUFFER
              (Z.of_nat (nbVertices m) * 2 * sizeof_GLfloat)
              (gl_floats (textureCoord m)) GL_STATIC_DRAW;
            BindBuffer GL_ARRAY_BUFFER (vertex_buffer_object g);
            BufferData GL_ARRAY_BUFFER
              (Z.of_nat (nbVertices m) * 3 * sizeof_GLfloat)
              (gl_floats (vertexCoord m)) GL_STATIC_DRAW;
            BindBuffer GL_ELEMENT_ARRAY_BUFFER (index_buffer_object g);
            BufferData GL_ELEMENT_ARRAY_BUFFER
              (Z.of_nat (nbIndices m) * sizeof_GLushort)
              (gl_ushorts (indices m)) GL_STATIC_DRAW ]))
      = (if negb (i_ret =? VLC_SUCCESS)%Z then (g, i_ret, [])
         else
           (set_nb_indices g (nbIndices m), VLC_SUCCESS,
            [ BindBuffer GL_ARRAY_BUFFER (texture_buffer_object g);
              BufferData GL_ARRAY_BUFFER
                (Z.of_nat (nbVertices m) * 2 * sizeof_GLfloat)
                (gl_floats (textureCoord m)) GL_STATIC_DRAW;
              BindBuffer GL_ARRAY_BUFFER (vertex_buffer_object g);
              BufferData GL_ARRAY_BUFFER
                (Z.of_nat (nbVertices m) * 3 * sizeof_GLfloat)
                (gl_floats (vertexCoord m)) GL_STATIC_DRAW;
              BindBuffer GL_ELEMENT_ARRAY_BUFFER (index_buffer_object g);
              BufferData GL_ELEMENT_ARRAY_BUFFER
                (Z.of_nat (nbIndices m) * sizeof_GLushort)
                (gl_ushorts (indices m)) GL_STATIC_DRAW ]))
      /\ ((i_ret = VLC_SUCCESS /\ mesh_wf m)
          \/ (i_ret = VLC_ENOMEM
              /\ forall code,
                   projection_mode (fmt renderer)
                   <> PROJECTION_MODE_OTHER code)
          \/ (i_ret = VLC_EGENERIC
              /\ exists code,
                   projection_mode (fmt renderer)
                   = PROJECTION_MODE_OTHER code))).
  { intros [i_ret m] H Hmode. cbn [fst snd] in H.
    exists i_ret, m. split; [reflexivity|].
    destruct H as [H | H]; [left; exact H | right; left; split; assumption]. }
  destruct (projection_mode (fmt renderer)) eqn:Hmode.
  - apply (Hb BuildRectangle); [apply BuildRectangle_wf | discriminate].
  - apply (Hb BuildSphere); [apply BuildSphere_bands_wf | discriminate].
  - apply Hb; [apply BuildCube_wf | discriminate].
  - exists VLC_EGENERIC, (failed_mesh 0 0). split; [reflexivity|].
    right; right. split; [reflexivity|]. eexists. reflexivity.
Qed.

(** X11. [SetupCoords] either fails without a command to OpenGL and
    without a change to the renderer, with [VLC_EGENERIC] for an unknown
    projection mode and [VLC_ENOMEM] when the mesh could not be
    allocated, or it sends exactly six commands: the texture coordinates,
    the vertex positions and the indices are each uploaded to their own
    buffer object, with a size in bytes that is the length of the array
    times the size of its elements.  The arrays then hold two and three
    floats for each of [n] vertices, every index is below [n], and
    [nb_indices] is the number of indices uploaded. *)
Theorem SetupCoords_uploads (renderer : vlc_gl_renderer C)
    (g : vlc_gl_renderer_gl C) :
  let '(g', ret, calls) := SetupCoords renderer g in
  if (ret =? VLC_SUCCESS)%Z then
    exists (tc vc : list float) (ix : list Z) (n : nat),
      calls
      = [ BindBuffer GL_ARRAY_BUFFER (texture_buffer_object g);
          BufferData GL_ARRAY_BUFFER (Z.of_nat (length tc) * sizeof_GLfloat)
            (gl_floats tc) GL_STATIC_DRAW;
          BindBuffer GL_ARRAY_BUFFER (vertex_buffer_object g);
          BufferData GL_ARRAY_BUFFER (Z.of_nat (length vc) * sizeof_GLfloat)
            (gl_floats vc) GL_STATIC_DRAW;
          BindBuffer GL_ELEMENT_ARRAY_BUFFER (index_buffer_object g);
          BufferData GL_ELEMENT_ARRAY_BUFFER
            (Z.of_nat (length ix) * sizeof_GLushort)
            (gl_ushorts ix) GL_STATIC_DRAW ]
      /\ length tc = (2 * n)%nat /\ length vc = (3 * n)%nat
      /\ Forall (fun i => 0 <= i < Z.of_nat n) ix
      /\ g' = set_nb_indices g (length ix)
  else
    g' = g /\ calls = []
    /\ ret = match projection_mode (fmt renderer) with
             | PROJECTION_MODE_OTHER _ => VLC_EGENERIC
             | _ => VLC_ENOMEM
             end.
Proof.
  destruct (SetupCoords_mesh renderer g) as (i_ret & m & -> & H).
  destruct H as [[-> (Hv & Ht & Hi & Hf)] | [[-> Hm] | [-> [code Hm]]]].
  - cbn [negb Z.eqb VLC_SUCCESS].
    exists (textureCoord m), (vertexCoord m), (indices m), (nbVertices m).
    rewrite Hv, Ht, Hi. repeat split; try assumption.
    repeat f_equal; lia.
  - cbn. repeat split.
    destruct (projection_mode (fmt renderer)) as [| | |code];
      try reflexivity.
    destruct (Hm code eq_refl).
  - rewrite Hm. cbn. repeat split.
Qed.

End SetupCoordsFacts.

(** ** Names declared by the shaders *)

Section Strings.
Local Open Scope string_scope.

Lemma append_assoc (a b c : string) : (a ++ b) ++ c = a ++ b ++ c.
Proof.
  induction a as [|x a IH]; [reflexivity|]. cbn [append]. rewrite IH.
  reflexivity.
Qed.

Lemma append_nil_r (a : string) : a ++ EmptyString = a.
Proof.
  induction a as [|x a IH]; [reflexivity|]. cbn [append]. rewrite IH.
  reflexivity.
Qed.

Lemma extends_refl (a : string) : extends a a.
Proof. exists EmptyString. symmetry. apply append_nil_r. Qed.

Lemma extends_app (a b : string) : extends a (a ++ b).
Proof. exists b. reflexivity. Qed.

Lemma extends_trans (a b c : string) :
  extends a b -> extends b c -> extends a c.
Proof.
  intros [p ->] [q ->]. exists (p ++ q). apply append_assoc.
Qed.

Lemma last_char_app (a b : string) (d : ascii) :
  last_char (a ++ b) d = last_char b (last_char a d).
Proof.
  revert d. induction a as [|x a IH]; intros d; [reflexivity|].
  cbn [append last_char]. apply IH.
Qed.

Lemma token_start_app (a b : string) :
  token_start a = true -> token_start b = true -> token_start (a ++ b) = true.
Proof.
  unfold token_start. rewrite last_char_app.
  destruct b as [|c b]; intros Ha Hb; [exact Ha | exact Hb].
Qed.

Lemma token_start_nl (a : string) : token_start (a ++ nl) = true.
Proof. unfold token_start. rewrite last_char_app. reflexivity. Qed.

Lemma is_identifier_chars (s : string) :
  is_identifier s = true ->
  s <> EmptyString /\ forallb ident_char (list_ascii_of_string s) = true.
Proof.
  destruct s as [|c s]; [discriminate|]. intros H. split; [discriminate|].
  exact H.
Qed.

Lemma is_identifier_app (a b : string) :
  is_identifier a = true ->
  forallb ident_char (list_ascii_of_string b) = true ->
  is_identifier (a ++ b) = true.
Proof.
  destruct a as [|c a]; [discriminate|].
  cbn [is_identifier append list_ascii_of_string forallb].
  intros Ha Hb. apply andb_prop in Ha. destruct Ha as [Hc Ha].
  rewrite Hc. cbn [andb].
  clear Hc. induction a as [|x a IH]; [exact Hb|].
  cbn [append list_ascii_of_string forallb] in Ha |- * .
  apply andb_prop in Ha. destruct Ha as [Hx Ha]. rewrite Hx. cbn [andb].
  apply IH. exact Ha.
Qed.

(** What [%u] prints is made of digits. *)
Lemma fmt_u_digits (n : nat) :
  forallb ident_char (list_ascii_of_string (fmt_u n)) = true.
Proof.
  unfold fmt_u. generalize (Nat.to_uint n). intros d.
  induction d as [|d IH|d IH|d IH|d IH|d IH|d IH|d IH|d IH|d IH|d IH];
    [reflexivity|..];
    cbn [NilEmpty.string_of_uint list_ascii_of_string forallb];
    rewrite IH; reflexivity.
Qed.

Lemma strip_prefix_app (p s : string) : strip_prefix p (p ++ s) = Some s.
Proof.
  induction p as [|c p IH]; [reflexivity|].
  cbn [append strip_prefix]. rewrite Ascii.eqb_refl. exact IH.
Qed.

Lemma take_ident_app (a : string) (c : ascii) (r : string) :
  forallb ident_char (list_ascii_of_string a) = true ->
  ident_char c = false ->
  take_ident (a ++ String c r) = (a, String c r).
Proof.
  intros Ha Hc. induction a as [|x a IH].
  - cbn [append take_ident]. rewrite Hc. reflexivity.
  - cbn [list_ascii_of_string forallb] in Ha. apply andb_prop in Ha.
    destruct Ha as [Hx Ha].
    cbn [append take_ident]. rewrite Hx, (IH Ha). reflexivity.
Qed.

(** A declaration at the head of a text is read back. *)
Lemma parse_declaration_here (kind ty name post : string) :
  is_identifier ty = true -> is_identifier name = true ->
  parse_declaration kind (kind ++ " " ++ ty ++ " " ++ name ++ ";" ++ post)
  = Some name.
Proof.
  intros Hty Hname.
  apply is_identifier_chars in Hty. destruct Hty as [Hty0 Hty].
  apply is_identifier_chars in Hname. destruct Hname as [Hname0 Hname].
  unfold parse_declaration.
  rewrite <- (append_assoc kind " "), strip_prefix_app.
  change (" " ++ name ++ ";" ++ post)
    with (String " " (name ++ String ";" post)).
  rewrite (take_ident_app ty " " _ Hty eq_refl).
  destruct ty as [|t ty]; [contradiction Hty0; reflexivity|].
  cbn [Ascii.eqb Bool.eqb]. cbv iota.
  rewrite (take_ident_app name ";" _ Hname eq_refl).
  destruct name as [|x name]; [contradiction Hname0; reflexivity|].
  reflexivity.
Qed.

Lemma declared_names_after (kind pre rest name : string) (prev : ascii) :
  In name (declared_names kind (last_char pre prev) rest) ->
  In name (declared_names kind prev (pre ++ rest)).
Proof.
  revert prev. induction pre as [|c pre IH]; intros prev H; [exact H|].
  cbn [append declared_names]. apply in_or_app. right. apply IH. exact H.
Qed.

(** The scan of a text finds every declaration in it. *)
Lemma declares_complete (kind text name : string) :
  declaration_in kind text name -> declares kind text name.
Proof.
  intros (pre & ty & post & -> & Hpre & Hty & Hname).
  unfold declares. apply declared_names_after.
  pose proof (parse_declaration_here kind ty name post Hty Hname) as Hp.
  unfold token_start in Hpre. apply negb_true_iff in Hpre.
  destruct (kind ++ " " ++ ty ++ " " ++ name ++ ";" ++ post) as [|c rest] eqn:E.
  - destruct kind; discriminate E.
  - cbn [declared_names]. rewrite Hpre, Hp. left. reflexivity.
Qed.

Lemma declaration_extends (kind a b name : string) :
  declaration_in kind a name -> extends a b -> declaration_in kind b name.
Proof.
  intros (pre & ty & post & -> & Hpre & Hty & Hname) [q ->].
  exists pre, ty, (post ++ q).
  rewrite !append_assoc. auto.
Qed.

Lemma declaration_after (kind a b name : string) :
  token_start a = true ->
  declaration_in kind b name -> declaration_in kind (a ++ b) name.
Proof.
  intros Ha (pre & ty & post & -> & Hpre & Hty & Hname).
  exists (a ++ pre), ty, post. rewrite !append_assoc.
  split; [reflexivity|]. split; [|auto].
  apply token_start_app; assumption.
Qed.

Lemma declaration_here (kind pre ty name post : string) :
  token_start pre = true ->
  is_identifier ty = true -> is_identifier name = true ->
  declaration_in kind
    (pre ++ kind ++ " " ++ ty ++ " " ++ name ++ ";" ++ post) name.
Proof. intros Hpre Hty Hname. exists pre, ty, post. auto. Qed.

(** A loop that only appends extends its stream. *)
Lemma for_loop_extends (n : nat) (body : nat -> string -> string) (s : string) :
  (forall i ms, extends ms (body i ms)) ->
  extends s (for_loop n body s).
Proof.
  intros H. induction n as [|n IH]; [apply extends_refl|].
  rewrite for_loop_S. eapply extends_trans; [exact IH | apply H].
Qed.

(** A loop whose iterations close their last line leaves a stream after
    which a token can start. *)
Lemma for_loop_token_start (n : nat) (body : nat -> string -> string)
    (s : string) :
  token_start s = true ->
  (forall k ms, token_start (body k ms) = true) ->
  token_start (for_loop n body s) = true.
Proof.
  intros Hs Hb. destruct n as [|n]; [exact Hs|].
  rewrite for_loop_S. apply Hb.
Qed.

(** What iteration [i] declares is declared by the whole loop. *)
Lemma for_loop_declares (n i : nat) (body : nat -> string -> string)
    (s kind name : string) :
  token_start s = true ->
  (forall k ms, token_start (body k ms) = true) ->
  (forall k ms, extends ms (body k ms)) ->
  (forall ms, token_start ms = true -> declaration_in kind (body i ms) name) ->
  (i < n)%nat ->
  declaration_in kind (for_loop n body s) name.
Proof.
  intros Hs Hb He Hd Hi. induction n as [|n IH]; [lia|].
  rewrite for_loop_S.
  destruct (Nat.eq_dec i n) as [->|Hne].
  - apply Hd. apply for_loop_token_start; assumption.
  - eapply declaration_extends; [apply IH; lia | apply He].
Qed.

End Strings.

(** A text whose last line is closed lets a token start. *)
Ltac closed_line :=
  repeat first [ apply token_start_nl
               | rewrite <- append_assoc ].

Section GeneratorText.
Context {C : CFloat} {V : VlcCore C}.
Local Open Scope string_scope.

Lemma add_swizzle_extends (swizzle : list ascii) (st : string * nat)
    (ms' : string) (k : nat) :
  add_swizzle swizzle st = Returns (ms', k) -> extends (fst st) ms'.
Proof.
  revert st. unfold add_swizzle.
  induction swizzle as [|c sw IH]; intros [ms idx] H.
  - cbn in H. injection H as <- _. apply extends_refl.
  - cbn [fold_left bind] in H.
    destruct (assert (S idx <=? PICTURE_PLANE_MAX)%nat) as [[]|].
    + cbn [bind] in H. apply IH in H. cbn [fst] in H |- * .
      destruct H as [q ->]. eexists. rewrite append_assoc. reflexivity.
    + cbn [bind] in H.
      assert (Ha : forall l : list ascii,
                fold_left
                  (fun (acc : outcome (string * nat)) (c0 : ascii) =>
                     let* (ms0, color_idx) := acc in
                     let* _ := assert (S color_idx <=? PICTURE_PLANE_MAX)%nat in
                     Returns (ms0 ++ " pixel[" ++ fmt_u color_idx
                                  ++ "] = texel." ++ fmt_c c0 ++ ";" ++ nl,
                              S color_idx))
                  l Aborts = Aborts).
      { intros l. induction l as [|x l IHl]; [reflexivity|]. exact IHl. }
      rewrite Ha in H. discriminate H.
Qed.

Lemma add_yuv_fetches_extends (n : nat) target lookup
    (swizzle_per_tex : list (option string)) (st : string * nat)
    (ms' : string) (k : nat) :
  add_yuv_fetches n target lookup swizzle_per_tex st = Returns (ms', k) ->
  extends (fst st) ms'.
Proof.
  unfold add_yuv_fetches.
  intros H.
  assert (Hinv : match for_loop n
     (fun (i : nat) (acc : outcome (string * nat)) =>
        let* (ms, color_idx) := acc in
        match aget None swizzle_per_tex i with
        | None => Aborts
        | Some swizzle =>
            add_swizzle (chars swizzle)
              (match target with
               | GL_TEXTURE_RECTANGLE =>
                   ((ms ++ " tex_coords = (TexCoordsMap" ++ fmt_u i
                        ++ " * pic_hcoords).st;" ++ nl)
                    ++ " tex_coords = vec2(tex_coords.x * TexSize" ++ fmt_u i
                    ++ ".x," ++ nl
                    ++ "                   tex_coords.y * TexSize" ++ fmt_u i
                    ++ ".y);" ++ nl)
               | _ => (ms ++ " tex_coords = (TexCoordsMap" ++ fmt_u i
                        ++ " * pic_hcoords).st;" ++ nl)
               end ++ " texel = " ++ lookup ++ "(Texture" ++ fmt_u i
                 ++ ", tex_coords);" ++ nl, color_idx)
        end) (Returns st) with
     | Returns (ms, _) => extends (fst st) ms
     | Aborts => True
     end).
  { apply (for_loop_inv
             (fun _ (acc : outcome (string * nat)) =>
                match acc with
                | Returns (ms, _) => extends (fst st) ms
                | Aborts => True
                end)).
    - destruct st. apply extends_refl.
    - intros i [[ms idx]|] _ Hacc; [|exact I].
      cbn [bind].
      destruct (aget None swizzle_per_tex i) as [swizzle|]; [|exact I].
      match goal with
      | |- match add_swizzle ?sw ?s with _ => _ end =>
          destruct (add_swizzle sw s) as [[ms2 k2]|] eqn:E; [|exact I]
      end.
      apply add_swizzle_extends in E. cbn [fst] in E.
      eapply extends_trans; [exact Hacc|].
      eapply extends_trans; [|exact E].
      destruct target; eexists; rewrite ?append_assoc; reflexivity. }
  rewrite H in Hinv. exact Hinv.
Qed.

(** Everything the generated text declares. *)
Lemma shader_text_declares (it : vlc_gl_interop) target sampler lookup
    (is_yuv : bool) (swizzle_per_tex : list (option string)) yuv_space
    (text : string) :
  shader_text it target sampler lookup is_yuv swizzle_per_tex yuv_space
  = Returns text ->
  is_identifier sampler = true ->
  declaration_in "uniform" text "TransformMatrix"
  /\ declaration_in "uniform" text "OrientationMatrix"
  /\ declaration_in "uniform" text "FillColor"
  /\ (is_yuv = true -> declaration_in "uniform" text "ConvMatrix")
  /\ (forall i, (i < tex_count it)%nat ->
        declaration_in "uniform" text ("Texture" ++ fmt_u i)
        /\ declaration_in "uniform" text ("TexCoordsMap" ++ fmt_u i)
        /\ (target = GL_TEXTURE_RECTANGLE ->
            declaration_in "uniform" text ("TexSize" ++ fmt_u i))).
Proof.
  intros H Hsampler. unfold shader_text in H. cbv zeta in H.
  set (ms0 := "uniform mat4 TransformMatrix;" ++ nl
              ++ "uniform mat4 OrientationMatrix;" ++ nl) in H.
  set (body1 := fun (i : nat) (ms : string) =>
                  ms ++ "uniform " ++ sampler ++ " Texture" ++ fmt_u i ++ ";"
                     ++ nl ++ "uniform mat3 TexCoordsMap" ++ fmt_u i ++ ";"
                     ++ nl) in H.
  set (ms1 := for_loop (tex_count it) body1 ms0) in H.
  set (body2 := fun (i : nat) (ms : string) =>
                  ms ++ "uniform vec2 TexSize" ++ fmt_u i ++ ";" ++ nl) in H.
  set (ms2 := match target with
              | GL_TEXTURE_RECTANGLE => for_loop (tex_count it) body2 ms1
              | _ => ms1
              end) in H.
  set (ms3 := if is_yuv then ms2 ++ "uniform mat4 ConvMatrix;" ++ nl else ms2)
    in H.
  set (rest4 := nl ++ "vec4 vlc_texture(vec2 pic_coords) {" ++ nl
         ++ " vec3 pic_hcoords = vec3((TransformMatrix * OrientationMatrix * vec4(pic_coords, 0.0, 1.0)).st, 1.0);"
         ++ nl ++ " vec2 tex_coords;" ++ nl).
  set (ms4 := ms3 ++ "uniform vec4 FillColor;" ++ rest4).
  assert (Hms4 : ms3 ++ "uniform vec4 FillColor;" ++ nl
                   ++ "vec4 vlc_texture(vec2 pic_coords) {" ++ nl
                   ++ " vec3 pic_hcoords = vec3((TransformMatrix * OrientationMatrix * vec4(pic_coords, 0.0, 1.0)).st, 1.0);"
                   ++ nl ++ " vec2 tex_coords;" ++ nl = ms4) by reflexivity.
  rewrite Hms4 in H.
  (* the text continues the declarations *)
  assert (Hext : extends ms4 text).
  { destruct is_yuv.
    - match type of H with
      | context [add_yuv_fetches ?n ?t ?l ?s ?st] =>
          destruct (add_yuv_fetches n t l s st) as [[ms5 idx]|] eqn:E;
            [|discriminate H]
      end.
      apply add_yuv_fetches_extends in E. cbn [fst] in E.
      cbn [bind] in H.
      destruct (assert _) as [[]|]; [|discriminate H].
      cbn [bind] in H. injection H as <-.
      destruct E as [q ->]. eexists. rewrite !append_assoc. reflexivity.
    - cbn [bind] in H.
      destruct (assert _) as [[]|]; [|discriminate H].
      cbn [bind] in H. injection H as <-.
      eexists. rewrite !append_assoc. reflexivity. }
  assert (Hb1 : forall k ms, extends ms (body1 k ms)).
  { intros k ms. eexists. reflexivity. }
  assert (Hb2 : forall k ms, extends ms (body2 k ms)).
  { intros k ms. eexists. reflexivity. }
  assert (H01 : extends ms0 ms1) by (apply for_loop_extends; exact Hb1).
  assert (H12 : extends ms1 ms2).
  { unfold ms2. destruct target; try apply extends_refl.
    apply for_loop_extends. exact Hb2. }
  assert (H23 : extends ms2 ms3).
  { unfold ms3. destruct is_yuv; [eexists; reflexivity | apply extends_refl]. }
  assert (H34 : extends ms3 ms4) by (eexists; reflexivity).
  assert (H3t : extends ms3 text) by (eapply extends_trans; eassumption).
  assert (H2t : extends ms2 text) by (eapply extends_trans; eassumption).
  assert (H1t : extends ms1 text) by (eapply extends_trans; eassumption).
  assert (H0t : extends ms0 text) by (eapply extends_trans; eassumption).
  (* every stream state ends a line *)
  assert (Ht0 : token_start ms0 = true) by reflexivity.
  assert (Hc1 : forall k ms, token_start (body1 k ms) = true).
  { intros k ms. unfold body1. closed_line. }
  assert (Hc2 : forall k ms, token_start (body2 k ms) = true).
  { intros k ms. unfold body2. closed_line. }
  assert (Ht1 : token_start ms1 = true)
    by (apply for_loop_token_start; assumption).
  assert (Ht2 : token_start ms2 = true).
  { unfold ms2. destruct target; try exact Ht1.
    apply for_loop_token_start; assumption. }
  assert (Ht3 : token_start ms3 = true).
  { unfold ms3. destruct is_yuv; [closed_line | exact Ht2]. }
  assert (Hname : forall prefix i, is_identifier prefix = true ->
                    is_identifier (prefix ++ fmt_u i) = true).
  { intros prefix i Hp. apply is_identifier_app; [exact Hp|].
    apply fmt_u_digits. }
  split; [|split; [|split; [|split]]].
  - apply (declaration_extends _ ms0); [|exact H0t].
    exists EmptyString, "mat4", (nl ++ "uniform mat4 OrientationMatrix;" ++ nl).
    repeat split.
  - apply (declaration_extends _ ms0); [|exact H0t].
    exists ("uniform mat4 TransformMatrix;" ++ nl), "mat4", nl.
    repeat split.
  - apply (declaration_extends _ ms4); [|exact Hext].
    exists ms3, "vec4", rest4. repeat split. exact Ht3.
  - intros ->. apply (declaration_extends _ ms3); [|exact H3t].
    exists ms2, "mat4", nl. repeat split. exact Ht2.
  - intros i Hi. split; [|split].
    + apply (declaration_extends _ ms1); [|exact H1t].
      apply (for_loop_declares _ i); [exact Ht0 | exact Hc1 | exact Hb1 |
                                      | exact Hi].
      intros ms Hms.
      exists ms, sampler,
        (nl ++ "uniform mat3 TexCoordsMap" ++ fmt_u i ++ ";" ++ nl).
      unfold body1. rewrite !append_assoc.
      repeat split; [exact Hms | exact Hsampler | apply Hname; reflexivity].
    + apply (declaration_extends _ ms1); [|exact H1t].
      apply (for_loop_declares _ i); [exact Ht0 | exact Hc1 | exact Hb1 |
                                      | exact Hi].
      intros ms Hms.
      exists (ms ++ "uniform " ++ sampler ++ " Texture" ++ fmt_u i ++ ";" ++ nl),
        "mat3", nl.
      unfold body1. rewrite !append_assoc.
      repeat split; [closed_line | apply Hname; reflexivity].
    + intros ->. apply (declaration_extends _ ms2); [|exact H2t].
      unfold ms2.
      apply (for_loop_declares _ i); [exact Ht1 | exact Hc2 | exact Hb2 |
                                      | exact Hi].
      intros ms Hms. exists ms, "vec2", nl.
      unfold body2. rewrite !append_assoc.
      repeat split; [exact Hms | apply Hname; reflexivity].
Qed.

End GeneratorText.

(** ** Uniform locations *)

Section LocationFacts.
Context {C : CFloat} {V : VlcCore C} {G : GlDriver C}.
Local Open Scope string_scope.

(** The names of the first five texture units fit the buffer of
    [snprintf]. *)
Lemma snprintf_name_fits (prefix : string) (i : nat) :
  String.length prefix = 7%nat -> (i < PICTURE_PLANE_MAX)%nat ->
  snprintf_name prefix i = prefix ++ fmt_u i.
Proof.
  intros Hp Hi. unfold snprintf_name.
  do 7 (destruct prefix as [|? prefix]; [discriminate Hp|]).
  destruct prefix; [|discriminate Hp].
  unfold PICTURE_PLANE_MAX in Hi.
  do 5 (destruct i as [|i]; [reflexivity|]). lia.
Qed.

Lemma renderer_base_fetch_locations_ok (renderer : vlc_gl_renderer C)
    (u : uloc_t) (program : Z) :
  (tex_count (interop renderer) <= length (uloc_Texture u))%nat ->
  (tex_count (interop renderer) <= length (uloc_TexSize u))%nat ->
  (yuv_color renderer = true ->
   GetUniformLocation program "ConvMatrix" <> -1) ->
  (forall i, (i < tex_count (interop renderer))%nat ->
             unit_located renderer program i) ->
  GetUniformLocation program "FillColor" <> -1 ->
  snd (renderer_base_fetch_locations renderer u program) = VLC_SUCCESS.
Proof.
  intros Hl1 Hl2 Hconv Hunits Hfill.
  unfold renderer_base_fetch_locations. cbv zeta.
  set (st0 := if yuv_color renderer
              then if (uloc_ConvMatrix
                         (set_uloc_ConvMatrix u
                            (GetUniformLocation program "ConvMatrix")) =? -1)%Z
                   then (set_uloc_ConvMatrix u
                           (GetUniformLocation program "ConvMatrix"),
                         Some VLC_EGENERIC)
                   else (set_uloc_ConvMatrix u
                           (GetUniformLocation program "ConvMatrix"), None)
              else (u, None)).
  assert (H0 : snd st0 = None
               /\ length (uloc_Texture (fst st0)) = length (uloc_Texture u)
               /\ length (uloc_TexSize (fst st0)) = length (uloc_TexSize u)).
  { unfold st0. destruct (yuv_color renderer); [|repeat split].
    cbn [uloc_ConvMatrix set_uloc_ConvMatrix].
    specialize (Hconv eq_refl). apply Z.eqb_neq in Hconv. rewrite Hconv.
    repeat split. }
  match goal with
  | |- context [for_loop ?n ?body st0] =>
      assert (H1 : snd (for_loop n body st0) = None
                   /\ length (uloc_Texture (fst (for_loop n body st0)))
                      = length (uloc_Texture u)
                   /\ length (uloc_TexSize (fst (for_loop n body st0)))
                      = length (uloc_TexSize u));
        [ apply (for_loop_inv
                   (fun _ (st : uloc_t * option Z) =>
                      snd st = None
                      /\ length (uloc_Texture (fst st)) = length (uloc_Texture u)
                      /\ length (uloc_TexSize (fst st)) = length (uloc_TexSize u)));
          [exact H0|]
        | destruct (for_loop n body st0) as [u1 r1] ]
  end.
  - intros i [ui ri] Hi (Hri & Ht & Hs). cbn [fst snd] in Hri, Ht, Hs.
    subst ri. cbn [unless_returned].
    destruct (Hunits i Hi) as [Htex Hsize].
    assert (Hget : aget 0 (uloc_Texture
                     (set_uloc_Texture ui i
                        (GetUniformLocation program (snprintf_name "Texture" i)))) i
                   = GetUniformLocation program (snprintf_name "Texture" i)).
    { cbn [uloc_Texture set_uloc_Texture]. unfold aget.
      apply nth_lookup_Some. apply list_lookup_insert_eq. lia. }
    rewrite Hget. apply Z.eqb_neq in Htex. rewrite Htex.
    destruct (tex_target (interop renderer)) eqn:Et;
      try (cbn [fst snd uloc_Texture uloc_TexSize set_uloc_Texture];
           rewrite ?length_insert; auto).
    assert (Hget2 : aget 0 (uloc_TexSize
                     (set_uloc_TexSize
                        (set_uloc_Texture ui i
                           (GetUniformLocation program
                              (snprintf_name "Texture" i))) i
                        (GetUniformLocation program (snprintf_name "TexSize" i)))) i
                    = GetUniformLocation program (snprintf_name "TexSize" i)).
    { cbn [uloc_TexSize set_uloc_TexSize set_uloc_Texture]. unfold aget.
      apply nth_lookup_Some. apply list_lookup_insert_eq. lia. }
    rewrite Hget2. specialize (Hsize eq_refl). apply Z.eqb_neq in Hsize.
    rewrite Hsize.
    cbn [fst snd uloc_Texture uloc_TexSize set_uloc_Texture set_uloc_TexSize].
    rewrite ?length_insert; auto.
  - destruct H1 as [H1 _]. cbn [snd] in H1. subst r1. cbn [unless_returned].
    cbn [uloc_FillColor set_uloc_FillColor].
    apply Z.eqb_neq in Hfill. rewrite Hfill. reflexivity.
Qed.

(** A text handed back by the generator for a chroma other than XYZ12 is
    the one [shader_text] wrote. *)
Lemma generator_text (r0 r : vlc_gl_renderer C) target chroma yuv_space
    (text : string) :
  opengl_fragment_shader_init r0 target chroma yuv_space
  = Returns (r, Some text) ->
  chroma <> VLC_CODEC_XYZ12 ->
  interop r = interop r0
  /\ pf_callbacks r = Some callbacks_base
  /\ (yuv_color r = true ->
      yuv_color r0 = true \/ vlc_fourcc_IsYUV chroma = true)
  /\ exists sampler lookup swizzle_per_tex,
       is_identifier sampler = true
       /\ shader_text (interop r0) target sampler lookup
            (vlc_fourcc_IsYUV chroma) swizzle_per_tex yuv_space
          = Returns text.
Proof.
  intros H Hx. unfold opengl_fragment_shader_init in H.
  destruct (vlc_fourcc_GetChromaDescription chroma) as [desc|];
    [|discriminate H].
  apply Z.eqb_neq in Hx. rewrite Hx in H.
  destruct (vlc_fourcc_IsYUV chroma) eqn:Hy.
  - unfold renderer_yuv_base_init in H.
    cbn [negb Z.eqb VLC_SUCCESS interop set_conv fst] in H.
    destruct (opengl_init_swizzle (interop r0) (repeat None PICTURE_PLANE_MAX)
                chroma desc) as [[sw ret]|]; [|discriminate H].
    cbn [bind] in H.
    destruct (negb (ret =? VLC_SUCCESS)%Z); [discriminate H|].
    destruct target; cbn [bind] in H; try discriminate H;
      (destruct memstream_open_ok; cbn [negb] in H; [|discriminate H]);
      cbn [interop set_conv] in H;
      match type of H with
      | context [shader_text ?i ?t ?s ?l ?y ?w ?sp] =>
          destruct (shader_text i t s l y w sp) as [txt|] eqn:E
      end; cbn [bind] in H; try discriminate H;
      (destruct memstream_close_ok; cbn [negb] in H; [|discriminate H]);
      injection H as <- <-;
      (split; [reflexivity|]); (split; [reflexivity|]);
      (split; [intros _; right; reflexivity|]);
      eexists _, _, _; (split; [|exact E]); reflexivity.
  - cbn [bind] in H.
    destruct target; cbn [bind] in H; try discriminate H;
      (destruct memstream_open_ok; cbn [negb] in H; [|discriminate H]);
      match type of H with
      | context [shader_text ?i ?t ?s ?l ?y ?w ?sp] =>
          destruct (shader_text i t s l y w sp) as [txt|] eqn:E
      end; cbn [bind] in H; try discriminate H;
      (destruct memstream_close_ok; cbn [negb] in H; [|discriminate H]);
      injection H as <- <-;
      (split; [reflexivity|]); (split; [reflexivity|]);
      (split; [intros Hc; left; exact Hc|]);
      eexists _, _, _; (split; [|exact E]); reflexivity.
Qed.

(** The locations of [renderer_base_fetch_locations] are all found when
    the driver knows every uniform of a declaration in the generated
    text. *)
Lemma base_locations_declared (r0 r : vlc_gl_renderer C) chroma yuv_space
    (text : string) (u : uloc_t) (program : Z) :
  opengl_fragment_shader_init r0 (tex_target (interop r0)) chroma yuv_space
  = Returns (r, Some text) ->
  chroma <> VLC_CODEC_XYZ12 ->
  yuv_color r0 = false ->
  (tex_count (interop r0) <= PICTURE_PLANE_MAX)%nat ->
  length (uloc_Texture u) = PICTURE_PLANE_MAX ->
  length (uloc_TexSize u) = PICTURE_PLANE_MAX ->
  (forall name, declaration_in "uniform" text name ->
                GetUniformLocation program name <> -1) ->
  snd (renderer_base_fetch_locations r u program) = VLC_SUCCESS.
Proof.
  intros H Hx Hfresh Hn Hl1 Hl2 Hdrv.
  destruct (generator_text r0 r _ chroma yuv_space text H Hx)
    as (Hit & _ & Hyuv & sampler & lookup & sw & Hsampler & Htext).
  destruct (shader_text_declares _ _ _ _ _ _ _ _ Htext Hsampler)
    as (_ & _ & Hfill & Hconv & Hunits).
  apply renderer_base_fetch_locations_ok.
  - rewrite Hit, Hl1. exact Hn.
  - rewrite Hit, Hl2. exact Hn.
  - intros Hy. apply Hdrv. apply Hconv.
    destruct (Hyuv Hy) as [Hc|Hc]; [congruence | exact Hc].
  - intros i Hi. rewrite Hit in Hi.
    destruct (Hunits i Hi) as (Ht & _ & Hs).
    unfold unit_located.
    rewrite !snprintf_name_fits by (reflexivity || lia).
    split; [apply Hdrv; exact Ht|].
    intros Hrect. rewrite Hit in Hrect. apply Hdrv. apply Hs. exact Hrect.
  - apply Hdrv. exact Hfill.
Qed.

(** X12. The uniforms that the base callback looks up are declared by
    the text that the generator wrote.  When [opengl_fragment_shader_init]
    returned a text for a chroma other than XYZ12, on a renderer whose YUV
    flag was clear and with at most [PICTURE_PLANE_MAX] texture units, and
    the driver knows the location of every uniform that the text declares
    (the names that a scan of the text finds after the keyword [uniform]
    at the start of a token and a type, before a semicolon), then
    [pf_fetch_locations] on the renderer the generator left returns
    [VLC_SUCCESS]. *)
Theorem fetch_locations_finds_declared (r0 r : vlc_gl_renderer C) chroma
    yuv_space (text : string) (u : uloc_t) (program : Z) :
  opengl_fragment_shader_init r0 (tex_target (interop r0)) chroma yuv_space
  = Returns (r, Some text) ->
  chroma <> VLC_CODEC_XYZ12 ->
  yuv_color r0 = false ->
  (tex_count (interop r0) <= PICTURE_PLANE_MAX)%nat ->
  length (uloc_Texture u) = PICTURE_PLANE_MAX ->
  length (uloc_TexSize u) = PICTURE_PLANE_MAX ->
  (forall name, declares "uniform" text name ->
                GetUniformLocation program name <> -1) ->
  exists u',
    pf_fetch_locations r u program = Returns (u', VLC_SUCCESS).
Proof.
  intros H Hx Hfresh Hn Hl1 Hl2 Hdrv.
  destruct (generator_text r0 r _ chroma yuv_space text H Hx)
    as (_ & Hcb & _).
  unfold pf_fetch_locations. rewrite Hcb.
  assert (Hs : snd (renderer_base_fetch_locations r u program) = VLC_SUCCESS).
  { apply (base_locations_declared r0 r chroma yuv_space text); try assumption.
    intros name Hd. apply Hdrv. apply declares_complete. exact Hd. }
  destruct (renderer_base_fetch_locations r u program) as [u' ret].
  cbn [snd] in Hs. subst ret. exists u'. reflexivity.
Qed.

End LocationFacts.

(** ** Linking the program *)

Section LinkFacts.
Context {C : CFloat} {L : LibM C} {V : VlcCore C} {G : GlDriver C}.
Local Open Scope string_scope.

Lemma GET_LOC_found (get : Z -> string -> Z) (program_id : Z) (str : string)
    (store : uloc_t * aloc_t -> Z -> uloc_t * aloc_t) (locs : uloc_t * aloc_t) :
  get program_id str <> -1 ->
  GET_LOC get program_id str store (Returns (locs, false))
  = Returns (store locs (get program_id str), false).
Proof.
  intros H. unfold GET_LOC. cbn [bind].
  apply Z.eqb_neq in H. rewrite H.
  rewrite assert_true by reflexivity. reflexivity.
Qed.

Lemma returns_some_inv {R : Type} (r1 r2 : R) (s1 s2 : string) :
  Returns (r1, Some s1) = Returns (r2, Some s2) -> r1 = r2 /\ s1 = s2.
Proof. intros H. inversion H. auto. Qed.

(** The generator refuses a texture target it does not know. *)
Lemma generator_target (r0 r : vlc_gl_renderer C) target chroma yuv_space
    (text : string) :
  opengl_fragment_shader_init r0 target chroma yuv_space
  = Returns (r, Some text) ->
  chroma <> VLC_CODEC_XYZ12 ->
  tex_target_is_zero target = false.
Proof.
  intros H Hx. destruct target; try reflexivity.
  exfalso. unfold opengl_fragment_shader_init in H.
  destruct (vlc_fourcc_GetChromaDescription chroma) as [desc|];
    [|discriminate H].
  apply Z.eqb_neq in Hx. rewrite Hx in H.
  destruct (vlc_fourcc_IsYUV chroma).
  - unfold renderer_yuv_base_init in H.
    cbn [negb Z.eqb VLC_SUCCESS interop set_conv fst] in H.
    destruct (opengl_init_swizzle (interop r0) (repeat None PICTURE_PLANE_MAX)
                chroma desc) as [[sw ret]|]; [|discriminate H].
    cbn [bind] in H.
    destruct (negb (ret =? VLC_SUCCESS)%Z); discriminate H.
  - discriminate H.
Qed.

(** The fragment shader is the text of the generator between a header and
    a [main] function. *)
Lemma BuildFragmentShader_text (r0 r : vlc_gl_renderer C) (fs : string) :
  BuildFragmentShader r0 = Returns (r, Some fs) ->
  token_start glsl_precision_header = true ->
  exists text,
    opengl_fragment_shader_init r0 (tex_target (interop r0))
      (i_chroma (sw_fmt (interop r0))) (space (sw_fmt (interop r0)))
    = Returns (r, Some text)
    /\ forall kind name,
         declaration_in kind text name -> declaration_in kind fs name.
Proof.
  intros H Hheader. unfold BuildFragmentShader in H. cbv zeta in H.
  destruct (opengl_fragment_shader_init r0 _ _ _) as [[r1 [text|]]|];
    cbn [bind] in H; try discriminate H.
  destruct asprintf_ok; cbn [negb] in H; [|discriminate H].
  apply returns_some_inv in H. destruct H as [<- <-].
  exists text. split; [reflexivity|].
  intros kind name Hd.
  match goal with
  | |- declaration_in _ (?a ++ ?b ++ ?c ++ ?d ++ ?e ++ ?t ++ ?f) _ =>
      replace (a ++ b ++ c ++ d ++ e ++ t ++ f)
        with (((a ++ b ++ c) ++ d ++ e) ++ t ++ f)
        by (rewrite !append_assoc; reflexivity);
        apply declaration_after;
        [ apply token_start_app; [apply token_start_nl|];
          apply token_start_app; [|exact Hheader]
        | eapply declaration_extends; [exact Hd | apply extends_app] ]
  end.
  destruct (tex_target (interop r0)); reflexivity.
Qed.

Lemma BuildVertexShader_declares (vs : string) :
  BuildVertexShader = Some vs ->
  declaration_in "uniform" vs "StereoMatrix"
  /\ declaration_in "uniform" vs "ProjectionMatrix"
  /\ declaration_in "uniform" vs "ViewMatrix"
  /\ declaration_in "uniform" vs "ZoomMatrix"
  /\ declaration_in "attribute" vs "PicCoordsIn"
  /\ declaration_in "attribute" vs "VertexPosition".
Proof.
  unfold BuildVertexShader.
  destruct vertex_asprintf_ok; cbn [negb]; [|discriminate].
  intros H. apply (f_equal (fun o => match o with
                                    | Some s => s
                                    | None => EmptyString
                                    end)) in H.
  cbv beta iota in H. subst vs.
  set (v := "#version " ++ fmt_u glsl_version ++ nl).
  assert (Hv : token_start v = true).
  { unfold v. closed_line. }
  assert (Hline : forall a b, token_start a = true ->
                    token_start (a ++ b ++ nl) = true).
  { intros a b _. closed_line. }
  split; [|split; [|split; [|split; [|split]]]].
  - exists (v ++ "attribute vec2 PicCoordsIn;" ++ nl
              ++ "varying vec2 PicCoords;" ++ nl
              ++ "attribute vec3 VertexPosition;" ++ nl), "mat3".
    eexists. split; [unfold v; rewrite !append_assoc; reflexivity|].
    split; [closed_line | split; reflexivity].
  - exists (v ++ "attribute vec2 PicCoordsIn;" ++ nl
              ++ "varying vec2 PicCoords;" ++ nl
              ++ "attribute vec3 VertexPosition;" ++ nl
              ++ "uniform mat3 StereoMatrix;" ++ nl), "mat4".
    eexists. split; [unfold v; rewrite !append_assoc; reflexivity|].
    split; [closed_line | split; reflexivity].
  - exists (v ++ "attribute vec2 PicCoordsIn;" ++ nl
              ++ "varying vec2 PicCoords;" ++ nl
              ++ "attribute vec3 VertexPosition;" ++ nl
              ++ "uniform mat3 StereoMatrix;" ++ nl
              ++ "uniform mat4 ProjectionMatrix;" ++ nl
              ++ "uniform mat4 ZoomMatrix;" ++ nl), "mat4".
    eexists. split; [unfold v; rewrite !append_assoc; reflexivity|].
    split; [closed_line | split; reflexivity].
  - exists (v ++ "attribute vec2 PicCoordsIn;" ++ nl
              ++ "varying vec2 PicCoords;" ++ nl
              ++ "attribute vec3 VertexPosition;" ++ nl
              ++ "uniform mat3 StereoMatrix;" ++ nl
              ++ "uniform mat4 ProjectionMatrix;" ++ nl), "mat4".
    eexists. split; [unfold v; rewrite !append_assoc; reflexivity|].
    split; [closed_line | split; reflexivity].
  - exists v, "vec2".
    eexists. split; [unfold v; rewrite !append_assoc; reflexivity|].
    split; [exact Hv | split; reflexivity].
  - exists (v ++ "attribute vec2 PicCoordsIn;" ++ nl
              ++ "varying vec2 PicCoords;" ++ nl), "vec3".
    eexists. split; [unfold v; rewrite !append_assoc; reflexivity|].
    split; [closed_line | split; reflexivity].
Qed.

(** X13. The ways [opengl_link_program] can return.  Without a vertex
    shader, or without a fragment shader, it returns [VLC_EGENERIC] with
    no command sent and nothing stored.  With both, the only command
    before the locations are fetched is the build of the program from the
    two texts.  If the name [p] of the program is 0 it returns
    [VLC_EGENERIC] with nothing stored.  Otherwise it either returns
    [VLC_SUCCESS], with [p] stored and the callbacks installed, or it
    reaches the label [error]: then it deletes the program [p] that was
    just built, stores the name 0 and returns [VLC_EGENERIC]. *)
Theorem link_program_outcomes (r0 : vlc_gl_renderer C)
    (g : vlc_gl_renderer_gl C) :
  match opengl_link_program r0 g with
  | Returns (r, g', ret, calls) =>
      match BuildVertexShader with
      | None => r = r0 /\ g' = g /\ ret = VLC_EGENERIC /\ calls = []
      | Some vs =>
          match BuildFragmentShader r0 with
          | Returns (r1, None) =>
              r = r1 /\ g' = g /\ ret = VLC_EGENERIC /\ calls = []
          | Returns (r1, Some fs) =>
              let p := vlc_gl_BuildProgram vs fs in
              r = r1
              /\ ((p = 0 /\ g' = g /\ ret = VLC_EGENERIC
                   /\ calls = [BuildProgram vs fs])
                  \/ (p <> 0 /\ program_id g' = p /\ ret = VLC_SUCCESS
                      /\ calls = [BuildProgram vs fs]
                      /\ pf_callbacks r <> None)
                  \/ (p <> 0 /\ program_id g' = 0 /\ ret = VLC_EGENERIC
                      /\ calls = [BuildProgram vs fs; DeleteProgram p]))
          | Aborts => False
          end
      end
  | Aborts => True
  end.
Proof.
  unfold opengl_link_program.
  destruct BuildVertexShader as [vs|]; [|repeat split].
  destruct (BuildFragmentShader r0) as [[r [fs|]]|]; cbn [bind];
    [|repeat split|exact I].
  cbv zeta.
  unfold assert at 1.
  destruct (pf_callbacks r) as [cb|] eqn:Hcb.
  2:{ rewrite !andb_false_r, orb_false_r.
      destruct NDEBUG; cbn [bind]; [|exact I].
      destruct (vlc_gl_BuildProgram vs fs =? 0)%Z eqn:Hp.
      { apply Z.eqb_eq in Hp. split; [reflexivity|]. left. repeat split.
        exact Hp. }
      apply Z.eqb_neq in Hp.
      lazymatch goal with
      | |- match bind ?c _ with _ => _ end => destruct c as [[locs err]|]
      end; cbn [bind]; [|exact I].
      destruct err; cbn [bind].
      - split; [reflexivity|]. right; right. repeat split. exact Hp.
      - unfold pf_fetch_locations. rewrite Hcb. exact I. }
  destruct (NDEBUG || _); cbn [bind]; [|exact I].
  destruct (vlc_gl_BuildProgram vs fs =? 0)%Z eqn:Hp.
  { apply Z.eqb_eq in Hp. split; [reflexivity|]. left. repeat split.
    exact Hp. }
  apply Z.eqb_neq in Hp.
  lazymatch goal with
  | |- match bind ?c _ with _ => _ end => destruct c as [[locs err]|]
  end; cbn [bind]; [|exact I].
  destruct err; cbn [bind].
  - split; [reflexivity|]. right; right. repeat split. exact Hp.
  - destruct (pf_fetch_locations r (fst locs) (vlc_gl_BuildProgram vs fs))
      as [[u ret]|]; cbn [bind]; [|exact I].
    destruct (assert (ret =? VLC_SUCCESS)%Z) as [[]|]; cbn [bind]; [|exact I].
    destruct (ret =? VLC_SUCCESS)%Z; cbn [negb].
    + split; [reflexivity|]. right; left.
      repeat split; [exact Hp | congruence].
    + split; [reflexivity|]. right; right. repeat split. exact Hp.
Qed.

(** X21. Linking succeeds when the driver does its part.  When both
    shaders are built, for a chroma other than XYZ12 on a renderer whose YUV
    flag was clear, with one to [PICTURE_PLANE_MAX] texture units, the
    precision header of the platform ends where a token can start, the
    program is built with a name other than 0, and the driver knows every
    uniform and every attribute that the two texts declare (the names that
    a scan of a text finds after the keyword at the start of a token and a
    type, before a semicolon), then [opengl_link_program] returns
    [VLC_SUCCESS] and stores the name of the program, the build of the
    program from the two texts being the only command logged: every
    location the renderer asks for is one that its own shaders declare. *)
Theorem link_program_succeeds (r0 r : vlc_gl_renderer C)
    (g : vlc_gl_renderer_gl C) (vs fs : string) :
  BuildVertexShader = Some vs ->
  BuildFragmentShader r0 = Returns (r, Some fs) ->
  i_chroma (sw_fmt (interop r0)) <> VLC_CODEC_XYZ12 ->
  yuv_color r0 = false ->
  (1 <= tex_count (interop r0) <= PICTURE_PLANE_MAX)%nat ->
  length (uloc_Texture (uloc g)) = PICTURE_PLANE_MAX ->
  length (uloc_TexSize (uloc g)) = PICTURE_PLANE_MAX ->
  token_start glsl_precision_header = true ->
  vlc_gl_BuildProgram vs fs <> 0 ->
  (forall name, declares "uniform" vs name \/ declares "uniform" fs name ->
                GetUniformLocation (vlc_gl_BuildProgram vs fs) name <> -1) ->
  (forall name, declares "attribute" vs name ->
                GetAttribLocation (vlc_gl_BuildProgram vs fs) name <> -1) ->
  exists g',
    opengl_link_program r0 g
    = Returns (r, g', VLC_SUCCESS, [BuildProgram vs fs])
    /\ program_id g' = vlc_gl_BuildProgram vs fs.
Proof.
  intros Hvs Hfs Hx Hfresh Hn Hl1 Hl2 Hheader Hp Hu0 Ha0.
  destruct (BuildFragmentShader_text r0 r fs Hfs Hheader)
    as (text & Hgen & Hlift).
  destruct (generator_text r0 r _ _ _ text Hgen Hx)
    as (Hit & Hcb & _ & sampler & lookup & sw & Hsampler & Htext).
  pose proof (generator_target r0 r _ _ _ text Hgen Hx) as Htarget.
  destruct (shader_text_declares _ _ _ _ _ _ _ _ Htext Hsampler)
    as (HdT & HdO & _ & _ & Hunits).
  destruct (BuildVertexShader_declares vs Hvs)
    as (HdS & HdP & HdV & HdZ & HaP & HaV).
  assert (Hu : forall name,
             declaration_in "uniform" vs name
             \/ declaration_in "uniform" fs name ->
             GetUniformLocation (vlc_gl_BuildProgram vs fs) name <> -1).
  { intros name [Hd|Hd]; apply Hu0; [left|right];
      apply declares_complete; exact Hd. }
  assert (Ha : forall name,
             declaration_in "attribute" vs name ->
             GetAttribLocation (vlc_gl_BuildProgram vs fs) name <> -1).
  { intros name Hd. apply Ha0. apply declares_complete. exact Hd. }
  clear Hu0 Ha0.
  set (program := vlc_gl_BuildProgram vs fs) in * .
  unfold opengl_link_program. rewrite Hvs, Hfs. cbn [bind].
  rewrite Hit, Hcb.
  rewrite assert_true.
  2:{ rewrite Htarget. cbn [negb andb].
      rewrite andb_true_r. apply Nat.ltb_lt. lia. }
  cbn [bind]. fold program.
  apply Z.eqb_neq in Hp. rewrite Hp.
  unfold GET_ULOC, GET_ALOC.
  rewrite (GET_LOC_found GetUniformLocation program "TransformMatrix")
    by (apply Hu; right; apply Hlift; exact HdT).
  rewrite (GET_LOC_found GetUniformLocation program "OrientationMatrix")
    by (apply Hu; right; apply Hlift; exact HdO).
  rewrite (GET_LOC_found GetUniformLocation program "StereoMatrix")
    by (apply Hu; left; exact HdS).
  rewrite (GET_LOC_found GetUniformLocation program "ProjectionMatrix")
    by (apply Hu; left; exact HdP).
  rewrite (GET_LOC_found GetUniformLocation program "ViewMatrix")
    by (apply Hu; left; exact HdV).
  rewrite (GET_LOC_found GetUniformLocation program "ZoomMatrix")
    by (apply Hu; left; exact HdZ).
  rewrite (GET_LOC_found GetAttribLocation program "PicCoordsIn")
    by (apply Ha; exact HaP).
  rewrite (GET_LOC_found GetAttribLocation program "VertexPosition")
    by (apply Ha; exact HaV).
  rewrite (GET_LOC_found GetUniformLocation program "TexCoordsMap0")
    by (apply Hu; right; apply Hlift; apply (Hunits 0%nat); lia).
  assert (H1 : forall locs : uloc_t * aloc_t,
    exists x,
      (if (1 <? tex_count (interop r0))%nat
       then GET_LOC GetUniformLocation program "TexCoordsMap1"
              (fun '(u, a) x => (set_uloc_TexCoordsMap u 1 x, a))
              (Returns (locs, false))
       else let* (locs, error) := Returns (locs, false) in
            if (error : bool) then Returns (locs, true)
            else Returns (set_uloc_TexCoordsMap (fst locs) 1 (-1), snd locs,
                          false))
      = Returns (set_uloc_TexCoordsMap (fst locs) 1 x, snd locs, false)).
  { intros [u a].
    destruct (Nat.ltb_spec 1 (tex_count (interop r0))).
    - rewrite GET_LOC_found
        by (apply Hu; right; apply Hlift; apply (Hunits 1%nat); lia).
      eexists. reflexivity.
    - eexists. reflexivity. }
  assert (H2 : forall locs : uloc_t * aloc_t,
    exists x,
      (if (2 <? tex_count (interop r0))%nat
       then GET_LOC GetUniformLocation program "TexCoordsMap2"
              (fun '(u, a) x => (set_uloc_TexCoordsMap u 2 x, a))
              (Returns (locs, false))
       else let* (locs, error) := Returns (locs, false) in
            if (error : bool) then Returns (locs, true)
            else Returns (set_uloc_TexCoordsMap (fst locs) 2 (-1), snd locs,
                          false))
      = Returns (set_uloc_TexCoordsMap (fst locs) 2 x, snd locs, false)).
  { intros [u a].
    destruct (Nat.ltb_spec 2 (tex_count (interop r0))).
    - rewrite GET_LOC_found
        by (apply Hu; right; apply Hlift; apply (Hunits 2%nat); lia).
      eexists. reflexivity.
    - eexists. reflexivity. }
  match goal with
  | |- context [if (1 <? _)%nat then GET_LOC _ _ _ _ (Returns (?l, false))
                else _] =>
      destruct (H1 l) as (x1 & ->)
  end.
  match goal with
  | |- context [if (2 <? _)%nat then GET_LOC _ _ _ _ (Returns (?l, false))
                else _] =>
      destruct (H2 l) as (x2 & ->)
  end.
  cbn [bind fst snd].
  assert (Hdrv : forall name, declaration_in "uniform" text name ->
                   GetUniformLocation program name <> -1).
  { intros name Hd. apply Hu. right. apply Hlift. exact Hd. }
  unfold pf_fetch_locations. rewrite Hcb.
  match goal with
  | |- context [renderer_base_fetch_locations r ?u program] =>
      pose proof (base_locations_declared r0 r _ _ text u program Hgen Hx
                    Hfresh ltac:(lia) Hl1 Hl2 Hdrv) as Hs;
        destruct (renderer_base_fetch_locations r u program) as [u' ret]
  end.
  cbn [snd] in Hs. subst ret.
  cbn [bind]. rewrite assert_true by reflexivity. cbn [bind negb Z.eqb VLC_SUCCESS].
  eexists. split; reflexivity.
Qed.

End LinkFacts.

(** A call that handed back a text, named by its two results. *)
Lemma returned_text_eta {C : CFloat}
    (o : outcome (vlc_gl_renderer C * option string))
    (d : vlc_gl_renderer C) :
  match o with
  | Returns (_, Some _) => true
  | _ => false
  end = true ->
  o = Returns (match o with Returns (r, _) => r | Aborts => d end,
               Some (match returned_shader o with
                     | Some s => s
                     | None => EmptyString
                     end)).
Proof.
  destruct o as [[r [t|]]|]; intros H; [reflexivity | discriminate H..].
Qed.

(** The sample driver knows what the sample shaders declare. *)
Lemma location_of_found (name : string) (names : list string) (i : Z) :
  0 <= i -> In name names -> SampleGl.location_of name names i <> -1.
Proof.
  revert i. induction names as [|n names IH]; intros i Hi Hin; [destruct Hin|].
  cbn [SampleGl.location_of].
  destruct (String.eqb_spec name n) as [->|Hne]; [lia|].
  destruct Hin as [->|Hin]; [contradiction Hne; reflexivity|].
  apply IH; [lia | exact Hin].
Qed.

Lemma known_uniform_located (program : Z) (name : string) :
  In name SampleGl.known_uniforms ->
  GetUniformLocation (GlDriver := SampleGl.driver) program name <> -1.
Proof. apply location_of_found. lia. Qed.

Lemma known_attribute_located (program : Z) (name : string) :
  In name SampleGl.known_attributes ->
  GetAttribLocation (GlDriver := SampleGl.driver) program name <> -1.
Proof. apply location_of_found. lia. Qed.

Lemma generated_uniforms_known (name : string) :
  declares "uniform" SampleGl.generated_text name ->
  In name SampleGl.known_uniforms.
Proof.
  unfold declares.
  assert (H : forallb (fun n => existsb (String.eqb n) SampleGl.known_uniforms)
                (declared_names "uniform" " " SampleGl.generated_text) = true)
    by (vm_compute; reflexivity).
  rewrite forallb_forall in H. intros Hin. specialize (H name Hin).
  apply existsb_exists in H. destruct H as (n & Hn & Heq).
  apply String.eqb_eq in Heq. subst n. exact Hn.
Qed.

Lemma fetch_locations_finds_declared_witness :
  exists u',
    pf_fetch_locations (G := SampleGl.driver) SampleGl.generated
      SampleGl.uloc0 1
    = Returns (u', VLC_SUCCESS).
Proof.
  apply (fetch_locations_finds_declared (V := Sample.core)
           (G := SampleGl.driver) SampleGl.renderer1 SampleGl.generated
           Sample.VLC_CODEC_I420 COLOR_SPACE_BT709 SampleGl.generated_text
           SampleGl.uloc0 1).
  - apply (returned_text_eta
             (opengl_fragment_shader_init (V := Sample.core)
                SampleGl.renderer1 GL_TEXTURE_2D Sample.VLC_CODEC_I420
                COLOR_SPACE_BT709) SampleGl.renderer1).
    vm_compute. reflexivity.
  - codec_neq.
  - reflexivity.
  - change (3 <= 5)%nat. lia.
  - reflexivity.
  - reflexivity.
  - intros name Hd. apply (known_uniform_located 1).
    apply generated_uniforms_known. exact Hd.
Defined.

Lemma link_program_succeeds_witness :
  exists g',
    opengl_link_program (V := Sample.core) (G := SampleGl.driver)
      SampleGl.renderer1 SampleGl.g0
    = Returns (SampleGl.shaded, g', VLC_SUCCESS,
               [BuildProgram SampleGl.vertex_text SampleGl.fragment_text])
    /\ program_id g'
       = vlc_gl_BuildProgram (GlDriver := SampleGl.driver)
           SampleGl.vertex_text SampleGl.fragment_text.
Proof.
  apply (link_program_succeeds (V := Sample.core) (G := SampleGl.driver)
           SampleGl.renderer1 SampleGl.shaded SampleGl.g0
           SampleGl.vertex_text SampleGl.fragment_text).
  - vm_compute. reflexivity.
  - apply (returned_text_eta
             (BuildFragmentShader (V := Sample.core) SampleGl.renderer1)
             SampleGl.renderer1).
    vm_compute. reflexivity.
  - codec_neq.
  - reflexivity.
  - change (1 <= 3 <= 5)%nat. lia.
  - reflexivity.
  - reflexivity.
  - reflexivity.
  - change (1 <> 0). lia.
  - intros name Hd. apply (known_uniform_located 1).
    unfold SampleGl.known_uniforms. apply in_or_app.
    destruct Hd as [Hd|Hd]; [left | right]; exact Hd.
  - intros name Hd. apply (known_attribute_located 1).
    exact Hd.
Defined.

(** ** Drawing *)

Section DrawFacts.
Context {C : CFloat} {L : LibM C} {V : VlcCore C} {G : GlDriver C}.

(** A loop that only adds commands adds those of every pass, in order. *)
Lemma for_loop_log {A : Type} (n : nat) (f : nat -> list A) (l0 : list A) :
  for_loop n (fun i log => (log ++ f i)%list) l0
  = (l0 ++ concat (map f (seq 0 n)))%list.
Proof.
  induction n as [|n IH].
  - cbn. symmetry. apply app_nil_r.
  - rewrite for_loop_S, IH, seq_S, map_app, concat_app.
    cbn [map concat Nat.add]. rewrite app_nil_r, app_assoc. reflexivity.
Qed.

Lemma concat_map_singleton {A B : Type} (f : A -> B) (l : list A) :
  concat (map (fun x => [f x]) l) = map f l.
Proof.
  induction l as [|x l IH]; [reflexivity|].
  cbn [map concat app]. rewrite IH. reflexivity.
Qed.

Lemma filter_none {A : Type} (p : A -> bool) (l : list A) :
  Forall (fun x => p x = false) l -> List.filter p l = [].
Proof.
  induction 1 as [|x l Hx _ IH]; [reflexivity|].
  cbn [List.filter]. rewrite Hx. exact IH.
Qed.

Lemma filter_all {A : Type} (p : A -> bool) (l : list A) :
  Forall (fun x => p x = true) l -> List.filter p l = l.
Proof.
  induction 1 as [|x l Hx _ IH]; [reflexivity|].
  cbn [List.filter]. rewrite Hx, IH. reflexivity.
Qed.

Lemma Forall_concat_map {A B : Type} (P : B -> Prop) (f : A -> list B)
    (l : list A) :
  (forall x, Forall P (f x)) -> Forall P (concat (map f l)).
Proof.
  intros H. induction l as [|x l IH]; [constructor|].
  cbn [map concat]. apply Forall_app. split; [apply H | exact IH].
Qed.

Lemma Forall_map_image {A B : Type} (P : B -> Prop) (f : A -> B)
    (l : list A) :
  (forall x, P (f x)) -> Forall P (map f l).
Proof.
  intros H. induction l as [|x l IH]; constructor; [apply H | exact IH].
Qed.

(** The commands of [renderer_base_prepare_shader], in order. *)
Lemma base_prepare_shader_log (renderer : vlc_gl_renderer C)
    (g : vlc_gl_renderer_gl C) tex_width tex_height (alpha : float)
    (log : list (gl_call C)) :
  renderer_base_prepare_shader renderer g tex_width tex_height alpha log
  = (log
     ++ (if yuv_color renderer
         then [UniformMatrix4fv (uloc_ConvMatrix (uloc g)) 1 false
                 (conv_matrix renderer)]
         else [])
     ++ map (fun i => Uniform1i (aget 0 (uloc_Texture (uloc g)) i)
                        (Z.of_nat i))
          (seq 0 (tex_count (interop renderer)))
     ++ [Uniform4f (uloc_FillColor (uloc g)) (i2f 1) (i2f 1) (i2f 1) alpha]
     ++ match tex_target (interop renderer) with
        | GL_TEXTURE_RECTANGLE =>
            map (fun i => Uniform2f (aget 0 (uloc_TexSize (uloc g)) i)
                            (i2f (aget 0 tex_width i))
                            (i2f (aget 0 tex_height i)))
              (seq 0 (tex_count (interop renderer)))
        | _ => []
        end)%list.
Proof.
  unfold renderer_base_prepare_shader. cbv zeta.
  destruct (tex_target (interop renderer)), (yuv_color renderer);
    rewrite !for_loop_log, !concat_map_singleton, <- ?app_assoc;
    cbn [app]; rewrite ?app_nil_r; reflexivity.
Qed.

(** The callbacks only set uniform variables. *)
Lemma pf_prepare_shader_log (renderer : vlc_gl_renderer C)
    (g : vlc_gl_renderer_gl C) tex_width tex_height (alpha : float)
    (log : list (gl_call C)) :
  pf_callbacks renderer <> None ->
  exists extra,
    pf_prepare_shader renderer g tex_width tex_height alpha log
    = Returns (log ++ extra)%list
    /\ Forall (fun c => is_uniform_call c = true) extra.
Proof.
  intros Hcb. unfold pf_prepare_shader.
  destruct (pf_callbacks renderer) as [[|]|]; [| |congruence].
  - rewrite base_prepare_shader_log. eexists. split; [reflexivity|].
    repeat (apply Forall_app; split).
    + destruct (yuv_color renderer); repeat constructor.
    + apply Forall_map_image. reflexivity.
    + repeat constructor.
    + destruct (tex_target (interop renderer)); try constructor.
      apply Forall_map_image. reflexivity.
  - unfold renderer_xyz12_prepare_shader. eexists. split; [reflexivity|].
    repeat constructor.
Qed.

(** The loop over the texture units, when no texture name is 0. *)
Lemma texture_loop_log (renderer : vlc_gl_renderer C)
    (g : vlc_gl_renderer_gl C) (n : nat) (log : list (gl_call C)) :
  (forall j, (j < n)%nat -> aget 0 (textures renderer) j <> 0) ->
  for_loop n
    (fun j acc =>
       let* log := acc in
       let* _ := assert (negb (aget 0 (textures renderer) j =? 0)) in
       Returns
         (log ++
          [ ActiveTexture (GL_TEXTURE0 + Z.of_nat j);
            BindTexture (tex_target (interop renderer))
              (aget 0 (textures renderer) j);
            UniformMatrix3fv (aget 0 (uloc_TexCoordsMap (uloc g)) j) 1 false
              (aget [] (var_TexCoordsMap renderer) j) ])%list)
    (Returns log)
  = Returns (log ++ concat (map (texture_calls renderer g) (seq 0 n)))%list.
Proof.
  intros H. induction n as [|n IH].
  - cbn. rewrite app_nil_r. reflexivity.
  - rewrite for_loop_S, IH by (intros j Hj; apply H; lia).
    cbn [bind].
    rewrite assert_true
      by (apply negb_true_iff, Z.eqb_neq, H; lia).
    cbn [bind]. rewrite seq_S, map_app, concat_app.
    cbn [map concat Nat.add]. rewrite app_nil_r, <- app_assoc. reflexivity.
Qed.

(** The loop stops the process at a texture name that is 0. *)
Lemma texture_loop_aborts (renderer : vlc_gl_renderer C)
    (g : vlc_gl_renderer_gl C) (n j : nat)
    (init : outcome (list (gl_call C))) :
  NDEBUG = false ->
  (j < n)%nat -> aget 0 (textures renderer) j = 0 ->
  for_loop n
    (fun j acc =>
       let* log := acc in
       let* _ := assert (negb (aget 0 (textures renderer) j =? 0)) in
       Returns
         (log ++
          [ ActiveTexture (GL_TEXTURE0 + Z.of_nat j);
            BindTexture (tex_target (interop renderer))
              (aget 0 (textures renderer) j);
            UniformMatrix3fv (aget 0 (uloc_TexCoordsMap (uloc g)) j) 1 false
              (aget [] (var_TexCoordsMap renderer) j) ])%list)
    init
  = Aborts.
Proof.
  intros Hnd Hj Hz.
  replace n with ((n - S j) + S j)%nat by lia.
  generalize (n - S j)%nat as k.
  induction k as [|k IH].
  - cbn [Nat.add]. rewrite for_loop_S.
    destruct (for_loop j _ _); [|reflexivity].
    cbn [bind]. rewrite assert_false, Hnd by (rewrite Hz; reflexivity).
    reflexivity.
  - cbn [Nat.add]. rewrite for_loop_S, IH. reflexivity.
Qed.

(** The six matrices that [DrawWithShaders] sends before it draws. *)
Lemma Draw_trace_from (renderer : vlc_gl_renderer C)
    (g : vlc_gl_renderer_gl C) (uniforms : list (gl_call C)) :
  pf_prepare_shader renderer g (tex_width renderer) (tex_height renderer)
    (i2f 1) [Clear GL_COLOR_BUFFER_BIT; UseProgram (program_id g)]
  = Returns ([Clear GL_COLOR_BUFFER_BIT; UseProgram (program_id g)]
             ++ uniforms)%list ->
  (forall j, (j < tex_count (interop renderer))%nat ->
             aget 0 (textures renderer) j <> 0) ->
  aloc_PicCoordsIn (aloc g) <> -1 ->
  exists matrices,
    vlc_gl_renderer_Draw renderer g
    = Returns
        (VLC_SUCCESS,
         [Clear GL_COLOR_BUFFER_BIT; UseProgram (program_id g)]
         ++ uniforms
         ++ concat (map (texture_calls renderer g)
                      (seq 0 (tex_count (interop renderer))))
         ++ [ BindBuffer GL_ARRAY_BUFFER (texture_buffer_object g);
              EnableVertexAttribArray (to_GLuint (aloc_PicCoordsIn (aloc g)));
              VertexAttribPointer (to_GLuint (aloc_PicCoordsIn (aloc g))) 2
                GL_FLOAT false 0 0;
              BindBuffer GL_ARRAY_BUFFER (vertex_buffer_object g);
              BindBuffer GL_ELEMENT_ARRAY_BUFFER (index_buffer_object g);
              EnableVertexAttribArray
                (to_GLuint (aloc_VertexPosition (aloc g)));
              VertexAttribPointer (to_GLuint (aloc_VertexPosition (aloc g))) 3
                GL_FLOAT false 0 0 ]
         ++ matrices
         ++ [ DrawElements GL_TRIANGLES (Z.of_nat (nb_indices g))
                GL_UNSIGNED_SHORT 0 ])%list
    /\ Forall (fun c => is_uniform_call c = true) matrices
    /\ Forall (fun c => is_sampler_call c = false) matrices.
Proof.
  intros Hprep Htex Hpic.
  unfold vlc_gl_renderer_Draw, DrawWithShaders. cbv zeta.
  rewrite Hprep. cbn [bind].
  rewrite texture_loop_log by exact Htex.
  cbn [bind].
  rewrite assert_true by (apply negb_true_iff, Z.eqb_neq; exact Hpic).
  cbn [bind].
  exists [ UniformMatrix4fv (uloc_TransformMatrix (uloc g)) 1 false
             match get_transform_matrix with
             | Some f =>
                 match f (interop renderer) with
                 | Some tm => tm
                 | None => identity
                 end
             | None => identity
             end;
           UniformMatrix4fv (uloc_OrientationMatrix (uloc g)) 1 false
             (var_OrientationMatrix g);
           UniformMatrix3fv (uloc_StereoMatrix (uloc g)) 1 false
             (var_StereoMatrix g);
           UniformMatrix4fv (uloc_ProjectionMatrix (uloc g)) 1 false
             (var_ProjectionMatrix renderer);
           UniformMatrix4fv (uloc_ViewMatrix (uloc g)) 1 false
             (var_ViewMatrix renderer);
           UniformMatrix4fv (uloc_ZoomMatrix (uloc g)) 1 false
             (var_ZoomMatrix renderer) ].
  split.
  - rewrite <- !app_assoc. reflexivity.
  - split; repeat constructor.
Qed.

Lemma filter_texture_calls (renderer : vlc_gl_renderer C)
    (g : vlc_gl_renderer_gl C) (l : list nat) :
  List.filter is_texture_bind (concat (map (texture_calls renderer g) l))
  = map (fun j => BindTexture (tex_target (interop renderer))
                    (aget 0 (textures renderer) j)) l.
Proof.
  induction l as [|j l IH]; [reflexivity|].
  cbn [map concat]. unfold texture_calls at 1.
  cbn [app List.filter is_texture_bind]. rewrite IH. reflexivity.
Qed.

Lemma filter_sampler_calls (renderer : vlc_gl_renderer C)
    (g : vlc_gl_renderer_gl C) (l : list nat) :
  List.filter is_sampler_call (concat (map (texture_calls renderer g) l))
  = flat_map (fun j => [ ActiveTexture (GL_TEXTURE0 + Z.of_nat j);
                         BindTexture (tex_target (interop renderer))
                           (aget 0 (textures renderer) j) ]) l.
Proof.
  induction l as [|j l IH]; [reflexivity|].
  cbn [map concat flat_map]. unfold texture_calls at 1.
  cbn [app List.filter is_sampler_call]. rewrite IH. reflexivity.
Qed.

Lemma uniform_not_draw (l : list (gl_call C)) :
  Forall (fun c => is_uniform_call c = true) l ->
  Forall (fun c => is_draw_call c = false) l.
Proof.
  intros H. eapply Forall_impl; [exact H|].
  intros c. destruct c; cbn; congruence.
Qed.

Lemma uniform_not_bind (l : list (gl_call C)) :
  Forall (fun c => is_uniform_call c = true) l ->
  Forall (fun c => is_texture_bind c = false) l.
Proof.
  intros H. eapply Forall_impl; [exact H|].
  intros c. destruct c; cbn; congruence.
Qed.

Lemma texture_calls_not_draw (renderer : vlc_gl_renderer C)
    (g : vlc_gl_renderer_gl C) (l : list nat) :
  Forall (fun c => is_draw_call c = false)
    (concat (map (texture_calls renderer g) l)).
Proof.
  apply Forall_concat_map. intros j. repeat constructor.
Qed.

(** X22. When the callbacks are installed, none of the first [tex_count]
    texture names is 0 and the attribute [PicCoordsIn] has a location,
    [vlc_gl_renderer_Draw] returns [VLC_SUCCESS] after a sequence of
    commands that begins with the clearing of the colour buffer and the
    selection of the stored program, and ends with its only draw command:
    [nb_indices] indices of type unsigned short, drawn as triangles.  In
    between, the texture of each unit below [tex_count] is bound once, in
    the order of the units, to the target of the interop. *)
Theorem Draw_commands (renderer : vlc_gl_renderer C)
    (g : vlc_gl_renderer_gl C) :
  pf_callbacks renderer <> None ->
  (forall j, (j < tex_count (interop renderer))%nat ->
             aget 0 (textures renderer) j <> 0) ->
  aloc_PicCoordsIn (aloc g) <> -1 ->
  exists before,
    vlc_gl_renderer_Draw renderer g
    = Returns
        (VLC_SUCCESS,
         (Clear GL_COLOR_BUFFER_BIT :: UseProgram (program_id g) :: before)
         ++ [ DrawElements GL_TRIANGLES (Z.of_nat (nb_indices g))
                GL_UNSIGNED_SHORT 0 ])%list
    /\ List.filter is_draw_call before = []
    /\ List.filter is_texture_bind before
       = map (fun j => BindTexture (tex_target (interop renderer))
                         (aget 0 (textures renderer) j))
           (seq 0 (tex_count (interop renderer))).
Proof.
  intros Hcb Htex Hpic.
  destruct (pf_prepare_shader_log renderer g (tex_width renderer)
              (tex_height renderer) (i2f 1)
              [Clear GL_COLOR_BUFFER_BIT; UseProgram (program_id g)] Hcb)
    as (uniforms & Hprep & Hun).
  destruct (Draw_trace_from renderer g uniforms Hprep Htex Hpic)
    as (matrices & -> & Hmat & _).
  exists (uniforms
          ++ concat (map (texture_calls renderer g)
                       (seq 0 (tex_count (interop renderer))))
          ++ [ BindBuffer GL_ARRAY_BUFFER (texture_buffer_object g);
               EnableVertexAttribArray (to_GLuint (aloc_PicCoordsIn (aloc g)));
               VertexAttribPointer (to_GLuint (aloc_PicCoordsIn (aloc g))) 2
                 GL_FLOAT false 0 0;
               BindBuffer GL_ARRAY_BUFFER (vertex_buffer_object g);
               BindBuffer GL_ELEMENT_ARRAY_BUFFER (index_buffer_object g);
               EnableVertexAttribArray
                 (to_GLuint (aloc_VertexPosition (aloc g)));
               VertexAttribPointer (to_GLuint (aloc_VertexPosition (aloc g))) 3
                 GL_FLOAT false 0 0 ]
          ++ matrices)%list.
  split.
  - cbn [app]. rewrite <- !app_assoc. reflexivity.
  - split.
    + rewrite !List.filter_app.
      rewrite (filter_none _ _ (uniform_not_draw _ Hun)).
      rewrite (filter_none _ _ (uniform_not_draw _ Hmat)).
      rewrite (filter_none _ _ (texture_calls_not_draw renderer g _)).
      reflexivity.
    + rewrite !List.filter_app.
      rewrite (filter_none _ _ (uniform_not_bind _ Hun)).
      rewrite (filter_none _ _ (uniform_not_bind _ Hmat)).
      rewrite filter_texture_calls. cbn [List.filter is_texture_bind app].
      apply app_nil_r.
Qed.

(** X25. With the base callbacks, a draw that returns wires sampler [i]
    to texture [i]: of the commands that choose what a sampler reads, the
    first [tex_count] set the sampler uniform of each unit [i] to the
    number [i], and the others activate each unit [GL_TEXTURE0 + i] in turn
    and bind texture [i] of the renderer while that unit is active. *)
Theorem Draw_wires_samplers (renderer : vlc_gl_renderer C)
    (g : vlc_gl_renderer_gl C) :
  pf_callbacks renderer = Some callbacks_base ->
  (forall j, (j < tex_count (interop renderer))%nat ->
             aget 0 (textures renderer) j <> 0) ->
  aloc_PicCoordsIn (aloc g) <> -1 ->
  exists log,
    vlc_gl_renderer_Draw renderer g = Returns (VLC_SUCCESS, log)
    /\ List.filter is_sampler_call log
       = (map (fun i => Uniform1i (aget 0 (uloc_Texture (uloc g)) i)
                          (Z.of_nat i))
            (seq 0 (tex_count (interop renderer)))
          ++ flat_map
               (fun j => [ ActiveTexture (GL_TEXTURE0 + Z.of_nat j);
                           BindTexture (tex_target (interop renderer))
                             (aget 0 (textures renderer) j) ])
               (seq 0 (tex_count (interop renderer))))%list.
Proof.
  intros Hcb Htex Hpic.
  assert (Hprep :
    pf_prepare_shader renderer g (tex_width renderer) (tex_height renderer)
      (i2f 1) [Clear GL_COLOR_BUFFER_BIT; UseProgram (program_id g)]
    = Returns
        ([Clear GL_COLOR_BUFFER_BIT; UseProgram (program_id g)]
         ++ ((if yuv_color renderer
              then [UniformMatrix4fv (uloc_ConvMatrix (uloc g)) 1 false
                      (conv_matrix renderer)]
              else [])
             ++ map (fun i => Uniform1i (aget 0 (uloc_Texture (uloc g)) i)
                                (Z.of_nat i))
                  (seq 0 (tex_count (interop renderer)))
             ++ [Uniform4f (uloc_FillColor (uloc g)) (i2f 1) (i2f 1) (i2f 1)
                   (i2f 1)]
             ++ match tex_target (interop renderer) with
                | GL_TEXTURE_RECTANGLE =>
                    map (fun i => Uniform2f (aget 0 (uloc_TexSize (uloc g)) i)
                                    (i2f (aget 0 (tex_width renderer) i))
                                    (i2f (aget 0 (tex_height renderer) i)))
                      (seq 0 (tex_count (interop renderer)))
                | _ => []
                end))%list).
  { unfold pf_prepare_shader. rewrite Hcb, base_prepare_shader_log.
    reflexivity. }
  destruct (Draw_trace_from renderer g _ Hprep Htex Hpic)
    as (matrices & -> & _ & Hmat).
  eexists. split; [reflexivity|].
  rewrite !List.filter_app.
  rewrite (filter_none _ _ Hmat).
  rewrite filter_sampler_calls.
  rewrite (filter_all is_sampler_call (map _ _))
    by (apply Forall_map_image; reflexivity).
  assert (Hc : List.filter is_sampler_call
                 (if yuv_color renderer
                  then [UniformMatrix4fv (uloc_ConvMatrix (uloc g)) 1 false
                          (conv_matrix renderer)]
                  else []) = [])
    by (destruct (yuv_color renderer); reflexivity).
  rewrite Hc.
  assert (Hs : List.filter is_sampler_call
                 match tex_target (interop renderer) with
                 | GL_TEXTURE_RECTANGLE =>
                     map (fun i => Uniform2f (aget 0 (uloc_TexSize (uloc g)) i)
                                     (i2f (aget 0 (tex_width renderer) i))
                                     (i2f (aget 0 (tex_height renderer) i)))
                       (seq 0 (tex_count (interop renderer)))
                 | _ => []
                 end = []).
  { destruct (tex_target (interop renderer)); try reflexivity.
    apply filter_none. apply Forall_map_image. reflexivity. }
  rewrite Hs. cbn [List.filter is_sampler_call app].
  rewrite !app_nil_r. reflexivity.
Qed.

(** X23. In a build with assertions [vlc_gl_renderer_Draw] stops the
    process when one of the first [tex_count] texture names is 0, and when
    the location of the attribute [PicCoordsIn] is -1. *)
Theorem Draw_asserts (renderer : vlc_gl_renderer C)
    (g : vlc_gl_renderer_gl C) :
  NDEBUG = false ->
  (exists j, (j < tex_count (interop renderer))%nat
             /\ aget 0 (textures renderer) j = 0)
  \/ aloc_PicCoordsIn (aloc g) = -1 ->
  vlc_gl_renderer_Draw renderer g = Aborts.
Proof.
  intros Hnd Hbad.
  unfold vlc_gl_renderer_Draw, DrawWithShaders. cbv zeta.
  destruct (pf_prepare_shader _ _ _ _ _ _) as [log|]; [|reflexivity].
  cbn [bind].
  destruct Hbad as [(j & Hj & Hz) | Hpic].
  - rewrite (texture_loop_aborts renderer g _ j _ Hnd Hj Hz). reflexivity.
  - destruct (for_loop _ _ _); [|reflexivity].
    cbn [bind]. rewrite assert_false, Hnd by (rewrite Hpic; reflexivity).
    reflexivity.
Qed.

(** X24. A draw after a successful [SetupCoords] reads what was
    uploaded: the draw command counts exactly the indices that
    [SetupCoords] sent to the element buffer, each of them names one of the
    [n] vertices whose [3 n] coordinates were sent to the vertex buffer,
    and the draw binds the same two buffer objects. *)
Theorem SetupCoords_then_Draw (renderer : vlc_gl_renderer C)
    (g : vlc_gl_renderer_gl C) :
  snd (fst (SetupCoords renderer g)) = VLC_SUCCESS ->
  pf_callbacks renderer <> None ->
  (forall j, (j < tex_count (interop renderer))%nat ->
             aget 0 (textures renderer) j <> 0) ->
  aloc_PicCoordsIn (aloc g) <> -1 ->
  let g' := fst (fst (SetupCoords renderer g)) in
  let uploads := snd (SetupCoords renderer g) in
  exists (vc : list float) (ix : list Z) (n : nat)
         (before : list (gl_call C)),
    In (BufferData GL_ARRAY_BUFFER (Z.of_nat (length vc) * sizeof_GLfloat)
          (gl_floats vc) GL_STATIC_DRAW) uploads
    /\ In (BufferData GL_ELEMENT_ARRAY_BUFFER
             (Z.of_nat (length ix) * sizeof_GLushort)
             (gl_ushorts ix) GL_STATIC_DRAW) uploads
    /\ length vc = (3 * n)%nat
    /\ Forall (fun i => 0 <= i < Z.of_nat n) ix
    /\ vlc_gl_renderer_Draw renderer g'
       = Returns
           (VLC_SUCCESS,
            (Clear GL_COLOR_BUFFER_BIT :: UseProgram (program_id g)
             :: before)
            ++ [ DrawElements GL_TRIANGLES (Z.of_nat (length ix))
                   GL_UNSIGNED_SHORT 0 ])%list
    /\ In (BindBuffer GL_ARRAY_BUFFER (vertex_buffer_object g)) uploads
    /\ In (BindBuffer GL_ARRAY_BUFFER (vertex_buffer_object g)) before
    /\ In (BindBuffer GL_ELEMENT_ARRAY_BUFFER (index_buffer_object g)) uploads
    /\ In (BindBuffer GL_ELEMENT_ARRAY_BUFFER (index_buffer_object g)) before.
Proof.
  intros Hok Hcb Htex Hpic g' uploads. unfold g', uploads.
  destruct (SetupCoords_mesh renderer g) as (i_ret & m & E & H).
  rewrite E in Hok |- * .
  destruct H as [[-> (Hvc & _ & Hi & Hix)] | [[-> _] | [-> _]]];
    [|discriminate Hok..].
  cbn [negb Z.eqb VLC_SUCCESS fst snd].
  set (vc := vertexCoord m) in * . set (ix := indices m) in * .
  set (n := nbVertices m) in * .
  replace (Z.of_nat n * 3 * sizeof_GLfloat)
    with (Z.of_nat (length vc) * sizeof_GLfloat) by (rewrite Hvc; lia).
  rewrite <- Hi.
  destruct (pf_prepare_shader_log renderer (set_nb_indices g (length ix))
              (tex_width renderer) (tex_height renderer) (i2f 1)
              [Clear GL_COLOR_BUFFER_BIT;
               UseProgram (program_id (set_nb_indices g (length ix)))] Hcb)
    as (uniforms & Hprep & _).
  destruct (Draw_trace_from renderer (set_nb_indices g (length ix)) uniforms
              Hprep Htex Hpic) as (matrices & Hdraw & _ & _).
  exists vc, ix, n.
  exists (uniforms
          ++ concat (map (texture_calls renderer
                            (set_nb_indices g (length ix)))
                       (seq 0 (tex_count (interop renderer))))
          ++ [ BindBuffer GL_ARRAY_BUFFER (texture_buffer_object g);
               EnableVertexAttribArray (to_GLuint (aloc_PicCoordsIn (aloc g)));
               VertexAttribPointer (to_GLuint (aloc_PicCoordsIn (aloc g))) 2
                 GL_FLOAT false 0 0;
               BindBuffer GL_ARRAY_BUFFER (vertex_buffer_object g);
               BindBuffer GL_ELEMENT_ARRAY_BUFFER (index_buffer_object g);
               EnableVertexAttribArray
                 (to_GLuint (aloc_VertexPosition (aloc g)));
               VertexAttribPointer (to_GLuint (aloc_VertexPosition (aloc g))) 3
                 GL_FLOAT false 0 0 ]
          ++ matrices)%list.
  split; [cbn; tauto|]. split; [cbn; tauto|].
  split; [exact Hvc|]. split; [exact Hix|].
  split.
  - rewrite Hdraw. cbn [set_nb_indices program_id nb_indices app
                        vertex_buffer_object index_buffer_object
                        texture_buffer_object aloc].
    rewrite <- !app_assoc. reflexivity.
  - repeat split; try (cbn; tauto);
      apply in_or_app; right; apply in_or_app; right;
      apply in_or_app; left; cbn; tauto.
Qed.

End DrawFacts.

Lemma Draw_commands_witness :
  let renderer := set_callbacks SampleGl.renderer1 callbacks_base in
  let g := SampleGl.g0 in
  exists before,
    vlc_gl_renderer_Draw (V := Sample.core) (G := SampleGl.driver) renderer g
    = Returns
        (VLC_SUCCESS,
         (Clear GL_COLOR_BUFFER_BIT :: UseProgram (program_id g) :: before)
         ++ [ DrawElements GL_TRIANGLES (Z.of_nat (nb_indices g))
                GL_UNSIGNED_SHORT 0 ])%list
    /\ List.filter is_draw_call before = []
    /\ List.filter is_texture_bind before
       = map (fun j => BindTexture (tex_target (interop renderer))
                         (aget 0 (textures renderer) j))
           (seq 0 (tex_count (interop renderer))).
Proof.
  apply (Draw_commands (V := Sample.core) (G := SampleGl.driver)
           (set_callbacks SampleGl.renderer1 callbacks_base) SampleGl.g0).
  - change (Some callbacks_base <> None). discriminate.
  - intros j Hj. change (j < 3)%nat in Hj.
    change (nth j [1; 2; 3] 0 <> 0).
    destruct j as [|[|[|j]]]; cbn; lia.
  - change (0 <> -1). lia.
Defined.

Lemma Draw_wires_samplers_witness :
  let renderer := set_callbacks SampleGl.renderer1 callbacks_base in
  let g := SampleGl.g0 in
  exists log,
    vlc_gl_renderer_Draw (V := Sample.core) (G := SampleGl.driver) renderer g
    = Returns (VLC_SUCCESS, log)
    /\ List.filter is_sampler_call log
       = (map (fun i => Uniform1i (aget 0 (uloc_Texture (uloc g)) i)
                          (Z.of_nat i))
            (seq 0 (tex_count (interop renderer)))
          ++ flat_map
               (fun j => [ ActiveTexture (GL_TEXTURE0 + Z.of_nat j);
                           BindTexture (tex_target (interop renderer))
                             (aget 0 (textures renderer) j) ])
               (seq 0 (tex_count (interop renderer))))%list.
Proof.
  apply (Draw_wires_samplers (V := Sample.core) (G := SampleGl.driver)
           (set_callbacks SampleGl.renderer1 callbacks_base) SampleGl.g0).
  - reflexivity.
  - intros j Hj. change (j < 3)%nat in Hj.
    change (nth j [1; 2; 3] 0 <> 0).
    destruct j as [|[|[|j]]]; cbn; lia.
  - change (0 <> -1). lia.
Defined.

Lemma Draw_asserts_witness :
  vlc_gl_renderer_Draw (V := Sample.core) (G := SampleGl.driver)
    (set_callbacks
       (Sample.renderer0 Sample.VLC_CODEC_I420 4 PROJECTION_MODE_RECTANGULAR)
       callbacks_base)
    SampleGl.g0
  = Aborts.
Proof.
  apply (Draw_asserts (V := Sample.core) (G := SampleGl.driver)).
  - reflexivity.
  - left. exists 3%nat. split.
    + change (3 < 4)%nat. lia.
    + reflexivity.
Defined.

Lemma SetupCoords_then_Draw_witness :
  let renderer := set_callbacks SampleGl.renderer1 callbacks_base in
  let g := SampleGl.g0 in
  let g' := fst (fst (SetupCoords (L := Sample.libm) (V := Sample.core)
                        renderer g)) in
  let uploads := snd (SetupCoords (L := Sample.libm) (V := Sample.core)
                        renderer g) in
  exists (vc : list (float (CFloat := IEEE.ieee))) (ix : list Z) (n : nat)
         (before : list (gl_call IEEE.ieee)),
    In (BufferData GL_ARRAY_BUFFER (Z.of_nat (length vc) * sizeof_GLfloat)
          (gl_floats vc) GL_STATIC_DRAW) uploads
    /\ In (BufferData GL_ELEMENT_ARRAY_BUFFER
             (Z.of_nat (length ix) * sizeof_GLushort)
             (gl_ushorts ix) GL_STATIC_DRAW) uploads
    /\ length vc = (3 * n)%nat
    /\ Forall (fun i => 0 <= i < Z.of_nat n) ix
    /\ vlc_gl_renderer_Draw (V := Sample.core) (G := SampleGl.driver)
         renderer g'
       = Returns
           (VLC_SUCCESS,
            (Clear GL_COLOR_BUFFER_BIT :: UseProgram (program_id g)
             :: before)
            ++ [ DrawElements GL_TRIANGLES (Z.of_nat (length ix))
                   GL_UNSIGNED_SHORT 0 ])%list
    /\ In (BindBuffer GL_ARRAY_BUFFER (vertex_buffer_object g)) uploads
    /\ In (BindBuffer GL_ARRAY_BUFFER (vertex_buffer_object g)) before
    /\ In (BindBuffer GL_ELEMENT_ARRAY_BUFFER (index_buffer_object g)) uploads
    /\ In (BindBuffer GL_ELEMENT_ARRAY_BUFFER (index_buffer_object g)) before.
Proof.
  apply (SetupCoords_then_Draw (L := Sample.libm) (V := Sample.core)
           (G := SampleGl.driver)
           (set_callbacks SampleGl.renderer1 callbacks_base) SampleGl.g0).
  - vm_compute. reflexivity.
  - change (Some callbacks_base <> None). discriminate.
  - intros j Hj. change (j < 3)%nat in Hj.
    change (nth j [1; 2; 3] 0 <> 0).
    destruct j as [|[|[|j]]]; cbn; lia.
  - change (0 <> -1). lia.
Defined.
